(* ===== verification/_CoqProject ===== *)
-Q . S2P
Prelude.v
Ring.v
CString.v
Platform.v
Logger.v
MemoryManager.v
AtomicQueue.v
Utility.v
Protocol.v
Dispatcher.v
Socket.v
Framing.v
ObjectPool.v
Network.v
LobbyManager.v
Scheduler.v
QueueSteps.v
PoolSteps.v
Engine.v
Wire.v
DeferredActions.v
Safety.v
EngineSafety.v
Application.v
Threads.v
Server.v
Lobby.v
Client.v
Programs.v
Growing.v
Quiet.v
Pipeline.v
Main.v
Service.v
Console.v
Outbox.v
Coroutines.v
Session.v
Departed.v
Chat.v
