(* ===== verification/Prelude.v ===== *)
(** * BattleShips: a verification development

    BattleShips ([src/src]) is a game server for Linux in C++23.  A server
    process accepts clients; on [\create] it forks a lobby process and hands
    the client's descriptor to it over a socket pair, on [\join <code>] it
    hands the client to a lobby that exists; a lobby relays the chat of its
    clients.  Server, lobby and client are applications of one framework:
    a network engine over epoll, a pool of connections, a framing layer over
    [sendmsg]/[recvmsg], a dispatcher of commands and a scheduler of tasks.
    This library models these parts as executable definitions that follow the
    code line by line, and proves what makes each of them correct, and, where
    the code does something else than it means to, exactly what it does.

    ** How the program is modelled

    A call is a function in the state monad [M S A] of this file: it ends with
    a value ([Ret]) or the thread never gets past it ([Halt]): the process
    ends, the C++ standard leaves the step undefined, only another thread can
    end the wait, or the bound on a loop was too small.  A component's state is
    a record; a call that also talks to the operating system has the type
    [SM W T A] of [Platform.v], over the pair of a [Machine W] and the state.
    The operating system, the C library and the compiler are the class
    [Platform W]: a world [W] that answers every call, and the machine's trace
    records the calls made, newest first, with the lines logged and printed.
    Theorems hold for every platform; a hypothesis on an answer names the call.
    Machine integers are [Z] with [wrap64], [wrap32] and [wrap16] where the
    code computes.  C++ references into the pool are slots, so two references
    to one connection see one another's changes.  Memory of the language's own
    allocator is never refused; strings are byte strings.

    ** The files and what they model

    - [Prelude.v]: the monad, its laws, the total-correctness predicate [wp]
      and the invariance predicate [preserves], ring slots, sums over threads,
      the hint database [bsm].
    - [Ring.v]: the slot arithmetic both rings share and the specification of
      a bounded FIFO queue: the class [FifoQueue], whose laws the two rings
      discharge, and the refinement [fifo_refines] proved against it.
    - [CString.v]: [strtol], [std::to_string], [find_first_of], [find_last_of],
      [starts_with] on strings.
    - [Platform.v]: the operating system; [utility/error] and the termination
      helpers of [utility/utility.h]; a scripted platform for examples.
    - [Logger.v]: [utility/logger]; elsewhere a [LOG] is an event of the trace.
    - [MemoryManager.v]: [core/memory_manager]: [RingBuffer], [AllocatorPool],
      [MemoryManager].
    - [AtomicQueue.v]: [core/atomic_queue.h].
    - [ObjectPool.v]: [core/object_pool.h], for every type with the moves of
      the class [PoolObject].
    - [Utility.v]: [utility/utility], [utility/data_storage] (connection codes)
      and [utility/config].
    - [Protocol.v]: [protocol/]: messages, headers, end points, views.
    - [Dispatcher.v]: [core/dispatcher] and [filter_variant].
    - [Socket.v]: [net/socket_routine]: the receive coroutine as an explicit
      resume point with its locals, [SocketHandler], [EpollHandler];
      [Framing.v]: its theorems.
    - [Network.v]: [net/network_routine] and [utility/scope_guard.h]:
      [ConnectionEntry] (an instance of [PoolObject]) and [NetworkEngine];
      the class [HasEngine] says what the engine asks of an application.
      [Engine.v]: its theorems, proved for every [HasEngine].
    - [LobbyManager.v]: [services/lobby_manager].
    - [Scheduler.v]: [core/scheduler], as calls on a state.
    - [QueueSteps.v]: [push_task] and [try_get_task] of [core/scheduler] again,
      with [try_push] and [try_pop] of [core/atomic_queue.h], one load, store,
      swap, acquire or release at a time, with any number of pushing threads and
      one popping thread.
    - [PoolSteps.v]: [push_to_pool] of [core/object_pool.h] with the allocation
      and the growth of the pool again, one load, store or swap at a time, for
      any number of threads, as long as no slot was released.
    - [DeferredActions.v]: [net/deferred_actions].
    - [Application.v], [Server.v], [Lobby.v], [Client.v]: [application/].
    - [Threads.v], [Programs.v]: a run of the process: each thread that [run]
      starts is a loop, a step is one round of one of them, in any order;
      [Programs.v] gives the three programs.
    - [Coroutines.v]: [protocol/coroutine] and the awaiters of [application.h]
      and [scheduler.h]: the scheduler's coroutines again, as C++ makes and
      resumes them, by frames that are suspended and resumed.
    - [Main.v]: [main/]: from the arguments to the running threads.
    - Theorems over several parts: [Safety.v] (the predicate [safe] and the
      class [Guard] of invariants) and [EngineSafety.v] (the engine is safe, with
      any safe handler) carry the invariant of a run; [Quiet.v] and [Pipeline.v]
      follow an event from the kernel to its service, [Console.v] a line from
      the keyboard to the client's handler and [Outbox.v] on to the server's
      connection, with [Growing.v] (no call shortens the trace); [Service.v]
      joins [Quiet.v] and [Pipeline.v] with [Main.v].
    - Theorems over several processes: [Wire.v] (what a process sends and
      prints, what it is delivered of what another has sent), [Session.v] (a
      lobby from its creation to its guests' screens), [Chat.v] (a line of chat
      from one member's console to every member's screen), [Departed.v] (what
      becomes of a lobby's code when the lobby has ended).

    ** What the theorems show

    - Whole runs, from [main] on, for every kernel and every order of the
      threads' rounds: nothing undefined happens
      ([server_and_lobby_never_undefined], [client_never_undefined]), events are
      served in their order, once each ([events_served_in_order],
      [client_serves_in_order]) and never stall ([events_never_stall]), lines
      typed at the client are handled in their order, once each
      ([lines_handled_in_order]), and go out in it ([typed_commands_go_out]),
      every reference that is kept names a connection
      ([references_stay_valid]).  Threads that resume coroutines by their frames
      run no otherwise ([resumptions_are_rounds], [coroutines_begin_suspended]).
    - Across processes: whoever creates or joins a lobby is greeted by it with
      its code ([created_lobby_greets_its_guests]), what a member types every
      member reads, in order ([chat_reaches_everyone]), and the code of a lobby
      that has ended leads to a stranger ([ended_lobby_leads_to_stranger]).
    - Queues and memory: below its capacity each ring is a FIFO queue
      ([AtomicQueue_is_fifo], [RingBuffer_is_fifo]), and what happens at the
      capacity ([try_push_outcomes], [try_push_full_waits],
      [wait_for_space_stuck]); so it is step by step, for one popping thread
      ([atomic_steps_fifo]), but for a push that may be refused when several
      threads push ([push_refused_on_empty]); the allocator
      and the pool never hand out a slot twice as long as none is released twice
      ([pool_slots_safe], [allocate_answers], [pool_slots_exclusive],
      [double_release_aliases]), nor do threads that push at once
      ([concurrent_slots_exclusive], [concurrent_pool_progress]), though they
      race on the pool's counter, which may lose count of the slots
      ([counter_update_lost]); the slots of a
      queue are where it later looks ([construct_slots_in_place]).
    - Framing: no byte sequence makes the receiver leave its buffer
      ([get_message_safe]); what arrives in pieces that end between messages or
      inside a header is received as it was sent ([pieces_delivered]), a message
      cut after its header is not ([cut_message_lost]); on whole messages the
      coroutine answers as the routine it replaced, and where nothing came the
      two differ in the text only ([old_receive_agrees]).
    - Text: connection codes survive printing and parsing
      ([join_code_roundtrip], [join_code_parse_total],
      [conn_code_is_time_mod]), chat text survives its command
      ([chat_parse_roundtrip]), which command a message is
      ([dispatch_chooses_row]), and a log reads back ([log_reads_back]).
    - The engine: every message reaches a handler that keeps the connection,
      once and in order, and the socket is watched again
      ([process_connection_delivers]), registration,
      release, broadcast and transfer on every branch
      ([register_connection_outcomes], [disconnect_releases],
      [broadcast_reaches], [transfer_outcomes]); an error with a kept
      connection stalls it ([keep_error_stalls]).
    - Tasks: the coroutine thread and the worker lose no task and get done in
      every interleaving of their atomic steps ([no_task_lost]); an event becomes
      one run of [process_connection] ([events_become_tasks]).
    - Applications: a code leads to its lobby ([attach_then_find],
      [join_reaches_lobby], [create_lobby_outcomes], [hand_over_accepted],
      [lobby_id_set]), the forked child is that lobby ([forked_child_is_lobby]),
      and what goes wrong on the way
      ([kill_lobby_keeps_entry], [failed_transfer_releases_twice],
      [refused_command_stalls_client], [broadcast_is_forwarded],
      [reconnect_unwatched], [client_without_server],
      [server_without_port]).

    ** Hypotheses on the kernel

    Theorems on whole runs assume the class [Kernel] of [Safety.v]: [epoll_wait]
    answers at most as many events as it was asked for, each with data some
    [epoll_ctl] has registered, and [recvmsg] returns at most as many bytes as
    there was room for.  They also assume a page of at least three bytes, since
    a pool grows by [PAGES_PER_NODE] pages and a chunk must fit.

    Theorems on several processes tie one to the other by [carried] of [Wire.v]:
    the pieces a process is delivered hold the messages the other has sent, in
    their order, and for a descriptor sent it is given one of its own.  The
    pieces end nowhere inside a text ([arrives] of [Framing.v]), since a message
    cut there is lost ([cut_message_lost]).  They also name the descriptors the
    kernel accepts for sending ([takes]) and for watching ([watches]), and those
    whose data no other call takes away ([steady]).

    ** Bounds and fuel

    A ring has 4096 cells; the scheduler's semaphore lets 4095 tasks in; the
    allocator gives out indices 0 to 4096.  Three loops of the code end only by
    what the kernel answers and take fuel: [receive_loop] (one per [recvmsg]),
    [accept_loop] (one per [accept4]) and [process_loop] (one per message).
    [get_message_safe] shows that one round more than the kernel has pieces of
    data is enough, [process_connection_delivers] that two more than there are
    messages is; no theorem needs the loops to run out.  In [Threads.v] each
    round has its own fuel, as much as it needs.  In [Pipeline.v] a history
    calls the event loop only while its two queues have [room] for the ten
    events of a round: beyond that the code drops events.  So does the history
    of [Console.v] ([console_room]) for a line and its tag.  The rounds of
    [Threads.v] are atomic; what their atomic operations do to one another is
    the matter of [QueueSteps.v] and [PoolSteps.v]; the data race on the pool's
    counter shows only in the latter ([PoolSteps.races]).  A coroutine
    that runs takes fuel for its loop ([go]); four are enough for a resumption
    ([resumptions_are_rounds]).

    ** What is not modelled

    [interfaces/] (nothing uses them), [nick_name] with the call of
    [time] that makes it (nothing reads it), the singletons' accessors, the
    destructors after a run (the loops of the threads do not end; [main]
    destroys an application that does not start, and that is modelled), what
    [main/client.cpp] has after its call of [exit], and [main/lobby.cpp], which
    includes a header that does not exist.  The atomic
    steps of [RingBuffer] are not interleaved (nothing in the program gives a
    slot back to the allocator), nor those of [AtomicQueue] when several threads
    pop. *)
From Stdlib Require Export ZArith Lia.
From stdpp Require Export prelude strings gmap list fin_maps.

Declare Scope bsm_scope.
Delimit Scope bsm_scope with bsm.

#[local] Open Scope Z_scope.

(** [simpl] leaves integer arithmetic folded for [lia]. *)
#[global] Arguments Z.add : simpl never.
#[global] Arguments Z.sub : simpl never.
#[global] Arguments Z.mul : simpl never.
#[global] Arguments Z.pow : simpl never.
#[global] Arguments Z.of_nat : simpl never.
#[global] Arguments Z.to_nat : simpl never.

(** ** Machine integers *)

Definition wrap64 (z : Z) : Z := z mod 2 ^ 64.
Definition wrap32 (z : Z) : Z := z mod 2 ^ 32.
Definition wrap16 (z : Z) : Z := z mod 2 ^ 16.
Definition uint64_max : Z := 2 ^ 64 - 1.
Definition int64_max : Z := 2 ^ 63 - 1.
Definition int64_min : Z := - 2 ^ 63.

(** ** Outcomes and the state monad

    A call either returns or the thread never gets past it: [Terminated] is
    [std::terminate] (or [exit]), [Undefined] is a step the C++ standard leaves
    undefined (an empty [optional] dereferenced, a slot that holds no object),
    [Blocked] is a wait that only another thread can end, and [NoFuel] says that
    the bound given to a loop was too small. *)
Inductive halt :=
| Terminated
| Undefined
| Blocked
| NoFuel.

Inductive outcome (A : Type) :=
| Ret (a : A)
| Halt (h : halt).
Arguments Ret {A} _.
Arguments Halt {A} _.

Definition M (S A : Type) : Type := S -> outcome A * S.

Definition ret {S A} (a : A) : M S A := fun s => (Ret a, s).
Definition stop {S A} (h : halt) : M S A := fun s => (Halt h, s).
Definition bind {S A B} (m : M S A) (k : A -> M S B) : M S B :=
  fun s => match m s with
           | (Ret a, s') => k a s'
           | (Halt h, s') => (Halt h, s')
           end.
Definition get {S} : M S S := fun s => (Ret s, s).
Definition gets {S A} (f : S -> A) : M S A := fun s => (Ret (f s), s).
Definition modify {S} (f : S -> S) : M S unit := fun s => (Ret tt, f s).

(** [zoom g p m] runs [m] on the part [g s] of the state, put back by [p]. *)
Definition zoom {S T A} (g : S -> T) (p : T -> S -> S) (m : M T A) : M S A :=
  fun s => let '(r, t) := m (g s) in (r, p t s).

(** A loop of [n] rounds. *)
Fixpoint rounds {S} (n : nat) (m : M S unit) : M S unit :=
  match n with
  | O => ret tt
  | S n' => bind m (fun _ => rounds n' m)
  end.

Notation "'let*' x := c 'in' k" := (bind c (fun x => k))
  (at level 10, x pattern, c at level 100, k at level 200,
   format "'[v' 'let*'  x  :=  c  'in' '/' k ']'") : bsm_scope.
Notation "c ;;; k" := (bind c (fun _ => k))
  (at level 100, k at level 200, right associativity,
   format "'[v' c  ;;; '/' k ']'") : bsm_scope.

(** ** Reasoning about the monad

    [wp m Q s]: running [m] from [s] ends with an outcome and a state in [Q].
    [preserves I m]: [m] keeps [I], whatever its outcome. *)
Definition wp {S A} (m : M S A) (Q : outcome A -> S -> Prop) (s : S) : Prop :=
  Q (m s).1 (m s).2.

Definition preserves {S A} (I : S -> Prop) (m : M S A) : Prop :=
  forall s, I s -> I (m s).2.

(** Ring buffers index their slots by masking a counter that only grows. *)
Definition ring_slot (size i : Z) : nat := Z.to_nat (Z.land i (size - 1)).

(** ** Lemmas of the monad *)
Create HintDb bsm.
Create Rewrite HintDb bsm.

Section MonadLemmas.
Context {S : Type}.
Implicit Types s : S.

Lemma bind_ret {A B} (a : A) (k : A -> M S B) s : bind (ret a) k s = k a s.
Proof. reflexivity. Qed.

Lemma bind_stop {A B} h (k : A -> M S B) s : bind (stop h) k s = (Halt h, s).
Proof. reflexivity. Qed.

Lemma bind_bind {A B C} (m : M S A) (f : A -> M S B) (g : B -> M S C) s :
  bind (bind m f) g s = bind m (fun a => bind (f a) g) s.
Proof. unfold bind. by destruct (m s) as [[]]. Qed.

(** Symbolic execution: once a call's result is known, go on with it. *)
Lemma bind_run {A B} (m : M S A) (k : A -> M S B) s a s' :
  m s = (Ret a, s') -> bind m k s = k a s'.
Proof. unfold bind. by intros ->. Qed.

Lemma bind_halts {A B} (m : M S A) (k : A -> M S B) s h s' :
  m s = (Halt h, s') -> bind m k s = (Halt h, s').
Proof. unfold bind. by intros ->. Qed.

(** Two calls in a row whose joint result is known. *)
Lemma bind_run_seq {A B C} (m : M S A) (n : M S B) (k : B -> M S C) s b s' :
  bind m (fun _ => n) s = (Ret b, s') -> bind m (fun _ => bind n k) s = k b s'.
Proof. intros Hr. by rewrite <- (bind_run _ k _ _ _ Hr), bind_bind. Qed.

Lemma zoom_run {T A} (g : S -> T) p (m : M T A) s r t :
  m (g s) = (r, t) -> zoom g p m s = (r, p t s).
Proof. unfold zoom. by intros ->. Qed.

Lemma wp_run {A} (m : M S A) Q s r s' :
  m s = (r, s') -> wp m Q s <-> Q r s'.
Proof. unfold wp. by intros ->. Qed.

Lemma wp_mono {A} (m : M S A) (Q Q' : outcome A -> S -> Prop) s :
  (forall r s', Q r s' -> Q' r s') -> wp m Q s -> wp m Q' s.
Proof. unfold wp. auto. Qed.

Lemma wp_bind {A B} (m : M S A) (k : A -> M S B) Q s :
  wp m (fun r s' => match r with
                    | Ret a => wp (k a) Q s'
                    | Halt h => Q (Halt h) s'
                    end) s ->
  wp (bind m k) Q s.
Proof. unfold wp, bind. by destruct (m s) as [[]]. Qed.

Lemma wp_zoom {T A} (g : S -> T) p (m : M T A) Q s :
  wp m (fun r t => Q r (p t s)) (g s) -> wp (zoom g p m) Q s.
Proof. unfold wp, zoom. by destruct (m (g s)). Qed.

Lemma preserves_ret {A} I (a : A) : preserves I (ret (S := S) a).
Proof. by intros s. Qed.

Lemma preserves_stop {A} I h : preserves I (stop (S := S) (A := A) h).
Proof. by intros s. Qed.

Lemma preserves_gets {A} I (f : S -> A) : preserves I (gets f).
Proof. by intros s. Qed.

Lemma preserves_modify I (f : S -> S) :
  (forall s, I s -> I (f s)) -> preserves I (modify f).
Proof. intros H s Hs. exact (H s Hs). Qed.

Lemma preserves_bind {A B} I (m : M S A) (k : A -> M S B) :
  preserves I m -> (forall a, preserves I (k a)) -> preserves I (bind m k).
Proof.
  intros Hm Hk s Hs. unfold bind. specialize (Hm s Hs).
  destruct (m s) as [[a|h] s']; [by apply Hk | done].
Qed.

Lemma preserves_zoom {T A} (I : S -> Prop) (J : T -> Prop) (g : S -> T) p (m : M T A) :
  preserves J m ->
  (forall s, I s -> J (g s)) ->
  (forall s t, I s -> J t -> I (p t s)) ->
  preserves I (zoom g p m).
Proof.
  intros Hm Hg Hp s Hs. unfold zoom. specialize (Hm (g s) (Hg s Hs)).
  destruct (m (g s)) as [r t]. by apply Hp.
Qed.
End MonadLemmas.

#[export] Hint Resolve preserves_ret preserves_stop preserves_gets : bsm.
#[export] Hint Rewrite @bind_ret @bind_stop @bind_bind : bsm.

(** Split a goal [preserves I m] along the structure of [m]; the leaves are
    left to the hints of [bsm]. *)
Ltac preserve_step :=
  lazymatch goal with
  | |- preserves _ (bind _ _) => apply preserves_bind; [|intros ?]
  | |- preserves _ (match ?x with _ => _ end) => destruct x
  | |- preserves _ (let '(_, _) := ?x in _) => destruct x
  | _ => solve [eauto with bsm]
  end.
Ltac preserve := intros; repeat preserve_step.

(** Case analysis on the test or the option that blocks the goal. *)
Ltac case_goal :=
  match goal with
  | |- context [match ?x with _ => _ end] =>
    lazymatch x with
    | context [match _ with _ => _ end] => fail
    | _ => let E := fresh "E" in destruct x eqn:E
    end
  end.

(** ** Ring indices *)
Lemma mod_inj_near n a b : 0 < n -> Z.abs (a - b) < n -> a mod n = b mod n -> a = b.
Proof.
  intros Hn Hd He.
  pose proof (Z.div_mod a n ltac:(lia)). pose proof (Z.div_mod b n ltac:(lia)).
  assert (a - b = n * (a / n - b / n)) as Hq by lia.
  assert (a / n - b / n = 0) by nia. lia.
Qed.

Section RingSlots.
Context (k : Z) (Hk : 0 <= k <= 64).

Lemma ring_slot_mod i : ring_slot (2 ^ k) i = Z.to_nat (i mod 2 ^ k).
Proof using Hk.
  unfold ring_slot. rewrite <- Z.land_ones by lia.
  by rewrite Z.ones_equiv.
Qed.

Lemma ring_slot_lt i : (ring_slot (2 ^ k) i < Z.to_nat (2 ^ k))%nat.
Proof using Hk.
  rewrite ring_slot_mod.
  pose proof (Z.mod_pos_bound i (2 ^ k) ltac:(lia)). lia.
Qed.

Lemma wrap64_mod_pow2 i : wrap64 i mod 2 ^ k = i mod 2 ^ k.
Proof using Hk.
  unfold wrap64. apply Z.mod_mod_divide.
  exists (2 ^ (64 - k)). rewrite <- Z.pow_add_r by lia. f_equal. lia.
Qed.

(** Wrapping the counter at 64 bits does not move the slot. *)
Lemma ring_slot_wrap64 i : ring_slot (2 ^ k) (wrap64 i) = ring_slot (2 ^ k) i.
Proof using Hk. by rewrite !ring_slot_mod, wrap64_mod_pow2. Qed.

(** Two counters less than a lap apart name different slots. *)
Lemma ring_slot_inj i j :
  Z.abs (i - j) < 2 ^ k -> ring_slot (2 ^ k) i = ring_slot (2 ^ k) j -> i = j.
Proof using Hk.
  rewrite !ring_slot_mod. intros Hd He. apply (mod_inj_near (2 ^ k)); [lia.. |].
  pose proof (Z.mod_pos_bound i (2 ^ k) ltac:(lia)).
  pose proof (Z.mod_pos_bound j (2 ^ k) ltac:(lia)). lia.
Qed.
End RingSlots.

(** ** Wrapped counters *)
Lemma wrap64_small z : 0 <= z < 2 ^ 64 -> wrap64 z = z.
Proof. apply Z.mod_small. Qed.

Lemma wrap64_range z : 0 <= wrap64 z < 2 ^ 64.
Proof. apply Z.mod_pos_bound. lia. Qed.

Lemma wrap64_add_l a b : wrap64 (wrap64 a + b) = wrap64 (a + b).
Proof. apply Z.add_mod_idemp_l. lia. Qed.

Lemma wrap64_inj a b : Z.abs (a - b) < 2 ^ 64 -> wrap64 a = wrap64 b -> a = b.
Proof. intros Hd. by apply mod_inj_near. Qed.

#[export] Hint Rewrite wrap64_add_l : bsm.

(** ** Sums over the threads of a program *)
Definition total {X} (f : X -> Z) (l : list X) : Z := foldr (fun x n => f x + n) 0 l.

Section Totals.
Context {X : Type} (f : X -> Z) (f_nonneg : forall x, 0 <= f x).
Implicit Types (l : list X).

Lemma total_nonneg l : 0 <= total f l.
Proof using f_nonneg. induction l as [|x l IH]; simpl; [done|]. specialize (f_nonneg x). lia. Qed.

Lemma total_insert l i x y :
  l !! i = Some x -> total f (<[i := y]> l) = total f l - f x + f y.
Proof using Type.
  revert i. induction l as [|z l IH]; intros [|i]; simpl; [done..| |].
  - intros [= ->]. lia.
  - intros Hi. rewrite (IH i Hi). lia.
Qed.

Lemma total_at l i x : l !! i = Some x -> f x <= total f l.
Proof using f_nonneg.
  revert i. induction l as [|z l IH]; intros [|i]; simpl; [done..| |].
  - intros [= ->]. pose proof (total_nonneg l). lia.
  - intros Hi. specialize (IH i Hi). specialize (f_nonneg z). lia.
Qed.

Lemma total_zero l : (forall x, x ∈ l -> f x = 0) -> total f l = 0.
Proof using Type.
  induction l as [|x l IH]; simpl; [done|]. intros Hl.
  rewrite (Hl x), IH; [done | | left]. intros y Hy. apply Hl. by right.
Qed.
End Totals.

Lemma bind_insert {X Y} (f : X -> list Y) l i x y :
  l !! i = Some x -> f x ++ (<[i := y]> l ≫= f) ≡ₚ f y ++ (l ≫= f).
Proof.
  revert i. induction l as [|z l IH]; intros [|i]; simpl; [done..| |].
  - intros [= ->]. solve_Permutation.
  - intros Hi. rewrite (Permutation_app_swap_app (f x)), (IH i Hi). apply Permutation_app_swap_app.
Qed.
