(* ===== verification/Ring.v ===== *)
(** * Ring buffers and the queue interface

    What the two lock-free rings of [core/] have in common: a list of cells
    indexed by a masked counter, read as a bounded FIFO queue, and the
    interface [FifoQueue] through which their clients (the object pool, the
    allocator, the scheduler) use them.  The rings themselves are in
    [MemoryManager.v] and [AtomicQueue.v]. *)
From S2P Require Import Prelude.

#[local] Open Scope Z_scope.
#[local] Open Scope bsm_scope.

(** [RING_BUFFER_SIZE] of [core/memory_manager.h] and [core/atomic_queue.h]. *)
Definition RING_BUFFER_SIZE : Z := 4096.

(** [normilize_ring_slot]: the cell a counter names. *)
Definition normilize_ring_slot (ring_slot : Z) : Z :=
  Z.land ring_slot (RING_BUFFER_SIZE - 1).

Definition cell (i : Z) : nat := Z.to_nat (normilize_ring_slot i).

(** ** Cells read as a queue

    [view c] is the item a cell holds; the queue [q] starts at counter [first]
    and every other cell is empty. *)
Section RingRepr.
Context {C T : Type} (view : C -> option T).

Definition ring_repr (cells : list C) (first : Z) (q : list T) : Prop :=
  length cells = Z.to_nat RING_BUFFER_SIZE /\
  (length q <= length cells)%nat /\
  forall j : nat, (j < length cells)%nat ->
    view <$> cells !! cell (first + Z.of_nat j) = Some (q !! j).
End RingRepr.

(** ** The interface of a queue

    [fifo_holds s q]: the queue in state [s] holds the items [q], oldest first.
    A push of an admissible item succeeds as long as fewer than
    [fifo_capacity] items are in; a pop takes the oldest one. *)
Class FifoQueue (S T : Type) := {
  fifo_push : T -> M S bool;
  fifo_pop : M S (option T);
  fifo_capacity : nat;
  fifo_item : T -> Prop;
  fifo_holds : S -> list T -> Prop;
  fifo_push_spec s q v :
    fifo_holds s q -> fifo_item v -> (length q < fifo_capacity)%nat ->
    exists s', fifo_push v s = (Ret true, s') /\ fifo_holds s' (q ++ [v]);
  fifo_pop_empty s :
    fifo_holds s [] -> fifo_pop s = (Ret None, s);
  fifo_pop_spec s q v :
    fifo_holds s (v :: q) ->
    exists s', fifo_pop s = (Ret (Some v), s') /\ fifo_holds s' q
}.

(** A client's sequence of pushes and pops, run on a queue and on the list it
    stands for; the list version fails when a push does not fit. *)
Inductive queue_op (T : Type) :=
| Push (v : T)
| Pop.
Arguments Push {T} _.
Arguments Pop {T}.

Fixpoint run_ops {S T} `{FifoQueue S T} (ops : list (queue_op T)) : M S (list (option T)) :=
  match ops with
  | [] => ret []
  | Push v :: rest =>
    let* pushed := fifo_push v in
    let* outs := run_ops rest in
    ret ((if pushed : bool then Some v else None) :: outs)
  | Pop :: rest =>
    let* popped := fifo_pop in
    let* outs := run_ops rest in
    ret (popped :: outs)
  end.

Fixpoint spec_ops {T} (capacity : nat) (ops : list (queue_op T)) (q : list T)
    : option (list (option T) * list T) :=
  match ops with
  | [] => Some ([], q)
  | Push v :: rest =>
    if decide (length q < capacity)%nat
    then '(outs, q') ← spec_ops capacity rest (q ++ [v]); Some (Some v :: outs, q')
    else None
  | Pop :: rest =>
    match q with
    | [] => '(outs, q') ← spec_ops capacity rest []; Some (None :: outs, q')
    | v :: q1 => '(outs, q') ← spec_ops capacity rest q1; Some (Some v :: outs, q')
    end
  end.

Definition ops_items {T} (P : T -> Prop) (ops : list (queue_op T)) : Prop :=
  Forall (fun o => match o with Push v => P v | Pop => True end) ops.

(** ** Lemmas *)
Lemma cell_ring_slot i : cell i = ring_slot (2 ^ 12) i.
Proof. reflexivity. Qed.

Lemma cell_lt i : (cell i < Z.to_nat RING_BUFFER_SIZE)%nat.
Proof. rewrite cell_ring_slot. by apply (ring_slot_lt 12). Qed.

Lemma cell_inj i j : Z.abs (i - j) < RING_BUFFER_SIZE -> cell i = cell j -> i = j.
Proof. rewrite !cell_ring_slot. by apply (ring_slot_inj 12). Qed.

Lemma cell_wrap64 i : cell (wrap64 i) = cell i.
Proof. rewrite !cell_ring_slot. by apply (ring_slot_wrap64 12). Qed.

Lemma cell_wrap64_add i j : cell (wrap64 i + j) = cell (i + j).
Proof. by rewrite <- cell_wrap64, wrap64_add_l, cell_wrap64. Qed.

Lemma cell_mod i : cell i = Z.to_nat (i mod RING_BUFFER_SIZE).
Proof. exact (ring_slot_mod 12 ltac:(lia) i). Qed.

Lemma cell_lap i : cell (i + RING_BUFFER_SIZE) = cell i.
Proof. rewrite !cell_mod. f_equal. exact (Z.mod_add i 1 4096 ltac:(lia)). Qed.

Lemma normilize_mod i : normilize_ring_slot i = i mod RING_BUFFER_SIZE.
Proof. unfold normilize_ring_slot. exact (Z.land_ones i 12 ltac:(lia)). Qed.

Lemma normilize_range i : 0 <= normilize_ring_slot i < RING_BUFFER_SIZE.
Proof. rewrite normilize_mod. by apply Z.mod_pos_bound. Qed.

Lemma normilize_cell i : normilize_ring_slot i = Z.of_nat (cell i).
Proof. unfold cell. pose proof (normilize_range i). lia. Qed.

#[export] Hint Rewrite cell_wrap64 cell_wrap64_add cell_lap : bsm.

Section RingReprLemmas.
Context {C T : Type} (view : C -> option T).
Implicit Types (cells : list C) (q : list T) (first : Z).

Lemma ring_repr_length cells first q :
  ring_repr view cells first q -> length cells = Z.to_nat RING_BUFFER_SIZE.
Proof. by intros []. Qed.

(** The cell [j] places after the first one. *)
Lemma ring_repr_at cells first q j :
  ring_repr view cells first q -> (j < length cells)%nat ->
  exists c, cells !! cell (first + Z.of_nat j) = Some c /\ view c = q !! j.
Proof.
  intros (Hl & Hq & Hc) Hj. specialize (Hc j Hj).
  destruct (cells !! _) as [c|] eqn:E; [|done]. exists c. by simplify_eq/=.
Qed.

Lemma ring_repr_head cells first v q :
  ring_repr view cells first (v :: q) ->
  exists c, cells !! cell first = Some c /\ view c = Some v.
Proof.
  intros H. destruct (ring_repr_at _ _ _ 0 H) as (c & Hc & Hv).
  { destruct H as (_ & Hq & _). simpl in Hq. lia. }
  exists c. by rewrite Z.add_0_r in Hc.
Qed.

(** The cell a push writes to is empty unless the ring is full, and then it
    is the one the next pop reads. *)
Lemma ring_repr_back cells first q :
  ring_repr view cells first q -> (length q < length cells)%nat ->
  exists c, cells !! cell (first + Z.of_nat (length q)) = Some c /\ view c = None.
Proof.
  intros H Hlt. destruct (ring_repr_at _ _ _ (length q) H Hlt) as (c & Hc & Hv).
  exists c. split; [done|]. rewrite Hv. by apply lookup_ge_None.
Qed.

Lemma ring_repr_full cells first q :
  ring_repr view cells first q -> length q = length cells ->
  exists c v, cells !! cell (first + Z.of_nat (length q)) = Some c /\
              view c = Some v /\ q !! 0%nat = Some v.
Proof.
  intros H Hfull. pose proof H as (Hl & _ & _).
  destruct (ring_repr_at _ _ _ 0 H) as (c & Hc & Hv).
  { rewrite Hl. compute. lia. }
  destruct q as [|v q']; [simpl in Hfull; rewrite Hl in Hfull; discriminate|].
  exists c, v. split; [|done].
  rewrite Hfull, Hl, Z2Nat.id by done. by rewrite cell_lap, <- Hc, Z.add_0_r.
Qed.

Lemma cell_insert cells i j (c : C) :
  length cells = Z.to_nat RING_BUFFER_SIZE ->
  Z.abs (i - j) < RING_BUFFER_SIZE ->
  <[cell i := c]> cells !! cell j = if decide (i = j) then Some c else cells !! cell j.
Proof.
  intros Hl Hd. destruct (decide (i = j)) as [->|Hne].
  - apply list_lookup_insert_eq. rewrite Hl. apply cell_lt.
  - apply list_lookup_insert_ne. intros He. by apply Hne, cell_inj.
Qed.

Lemma ring_repr_push cells first q c v :
  ring_repr view cells first q -> (length q < length cells)%nat ->
  view c = Some v ->
  ring_repr view (<[cell (first + Z.of_nat (length q)) := c]> cells) first (q ++ [v]).
Proof.
  intros (Hl & Hq & Hc) Hlt Hv.
  unfold ring_repr. rewrite length_insert, length_app. simpl.
  split_and!; [done | lia |]. intros j Hj.
  rewrite cell_insert by (rewrite Hl in *; unfold RING_BUFFER_SIZE in *; lia).
  case_decide as Hd.
  - assert (j = length q) as -> by lia. simpl. by rewrite Hv, list_lookup_middle.
  - rewrite (Hc j Hj). f_equal. destruct (decide (j < length q)%nat).
    + by rewrite lookup_app_l.
    + rewrite !lookup_ge_None_2; [done | rewrite length_app; simpl; lia | lia].
Qed.

Lemma ring_repr_pop cells first q c v :
  ring_repr view cells first (v :: q) -> view c = None ->
  ring_repr view (<[cell first := c]> cells) (first + 1) q.
Proof.
  intros (Hl & Hq & Hc) Hv. simpl in Hq.
  unfold ring_repr. rewrite length_insert.
  split_and!; [done | lia |]. intros j Hj.
  replace (first + 1 + Z.of_nat j) with (first + Z.of_nat (S j)) by lia.
  destruct (decide (S j < length cells)%nat).
  - rewrite cell_insert by (rewrite Hl in *; unfold RING_BUFFER_SIZE in *; lia).
    rewrite decide_False by lia. by rewrite (Hc (S j)).
  - replace (first + Z.of_nat (S j)) with (first + RING_BUFFER_SIZE)
      by (rewrite Hl in *; unfold RING_BUFFER_SIZE in *; lia).
    rewrite cell_lap, list_lookup_insert_eq by (rewrite Hl; apply cell_lt).
    simpl. rewrite Hv. symmetry. f_equal. apply lookup_ge_None. lia.
Qed.

Lemma ring_repr_wrap64 cells first q :
  ring_repr view cells first q <-> ring_repr view cells (wrap64 first) q.
Proof. unfold ring_repr. by setoid_rewrite cell_wrap64_add. Qed.

Lemma ring_repr_init c first :
  view c = None -> ring_repr view (replicate (Z.to_nat RING_BUFFER_SIZE) c) first [].
Proof.
  intros Hv. unfold ring_repr. rewrite length_replicate.
  split_and!; [done | apply Nat.le_0_l |]. intros j _.
  rewrite lookup_replicate_2 by apply cell_lt. cbn. by rewrite Hv.
Qed.
End RingReprLemmas.

(** The interface determines every sequence of operations. *)
Lemma fifo_refines {S T} `{FifoQueue S T} (ops : list (queue_op T)) s q outs q' :
  fifo_holds s q -> ops_items fifo_item ops ->
  spec_ops fifo_capacity ops q = Some (outs, q') ->
  exists s', run_ops ops s = (Ret outs, s') /\ fifo_holds s' q'.
Proof.
  intros Hs Hi. revert s q outs Hs.
  induction Hi as [|[v|] ops Hv Hi IH]; intros s q outs Hs He; simpl in He.
  - simplify_eq. eauto.
  - case_decide as Hlt; [|done].
    destruct (spec_ops _ ops _) as [[outs1 q1]|] eqn:E; simplify_eq/=.
    destruct (fifo_push_spec s q v Hs Hv Hlt) as (s1 & Hp & Hs1).
    destruct (IH _ _ _ Hs1 E) as (s2 & Hr & Hs2).
    exists s2. split; [|done]. by rewrite (bind_run _ _ _ _ _ Hp), (bind_run _ _ _ _ _ Hr).
  - destruct q as [|v q].
    + destruct (spec_ops _ ops _) as [[outs1 q1]|] eqn:E; simplify_eq/=.
      destruct (IH _ _ _ Hs E) as (s2 & Hr & Hs2). exists s2. split; [|done].
      by rewrite (bind_run _ _ _ _ _ (fifo_pop_empty s Hs)), (bind_run _ _ _ _ _ Hr).
    + destruct (spec_ops _ ops _) as [[outs1 q1]|] eqn:E; simplify_eq/=.
      destruct (fifo_pop_spec s q v Hs) as (s1 & Hp & Hs1).
      destruct (IH _ _ _ Hs1 E) as (s2 & Hr & Hs2). exists s2. split; [|done].
      by rewrite (bind_run _ _ _ _ _ Hp), (bind_run _ _ _ _ _ Hr).
Qed.
