(* ===== verification/CString.v ===== *)
(** * Strings: what the program uses of [std::string] and [strtol]

    Models of the standard library's string operations that the parsers of
    [utility/] call, with the lemmas on decimal numbers their theorems share.
    A [std::string] is a [string] of 8-bit characters. *)
From S2P Require Import Prelude.
From Stdlib Require Import Ascii.

#[local] Open Scope Z_scope.

Definition code (c : ascii) : Z := Z.of_nat (nat_of_ascii c).
Definition chr (n : Z) : ascii := ascii_of_nat (Z.to_nat n).

Definition newline : string := String (chr 10) "".
Definition tab : string := String (chr 9) "".

Definition is_digit (c : ascii) : bool := (48 <=? code c) && (code c <=? 57).
Definition is_space (c : ascii) : bool :=
  (code c =? 32) || ((9 <=? code c) && (code c <=? 13)).

(** [s.c_str()] read as a C string stops at the first NUL. *)
Fixpoint c_str (s : string) : string :=
  match s with
  | EmptyString => EmptyString
  | String c rest => if code c =? 0 then EmptyString else String c (c_str rest)
  end.

(** [s.find_first_of(c)], [s.find_last_of(c)]; [None] is [npos]. *)
Fixpoint find_first_of (c : ascii) (s : string) : option nat :=
  match s with
  | EmptyString => None
  | String d rest => if Ascii.eqb d c then Some 0%nat else S <$> find_first_of c rest
  end.

Fixpoint find_last_of (c : ascii) (s : string) : option nat :=
  match s with
  | EmptyString => None
  | String d rest =>
    match find_last_of c rest with
    | Some n => Some (S n)
    | None => if Ascii.eqb d c then Some 0%nat else None
    end
  end.

(** [std::string{s, n}]: the characters from position [n] on. *)
Fixpoint string_from (s : string) (n : nat) : string :=
  match n, s with
  | O, _ => s
  | S m, String _ rest => string_from rest m
  | S _, EmptyString => EmptyString
  end.

(** [s.starts_with(p)]. *)
Fixpoint starts_with (s p : string) {struct p} : bool :=
  match p, s with
  | EmptyString, _ => true
  | String c p', String d s' => Ascii.eqb d c && starts_with s' p'
  | String _ _, EmptyString => false
  end.

(** ** Numbers *)
Fixpoint skip_spaces (s : string) : string :=
  match s with
  | String c rest => if is_space c then skip_spaces rest else s
  | EmptyString => EmptyString
  end.

Fixpoint read_digits (acc : Z) (s : string) : Z :=
  match s with
  | String c rest => if is_digit c then read_digits (acc * 10 + (code c - 48)) rest else acc
  | EmptyString => acc
  end.

Definition clamp_long (z : Z) : Z := Z.max int64_min (Z.min int64_max z).

(** [std::strtol(s.c_str(), nullptr, 10)] with a 64-bit [long]. *)
Definition strtol (s : string) : Z :=
  match skip_spaces (c_str s) with
  | String c rest =>
    if Ascii.eqb c "-" then clamp_long (- read_digits 0 rest)
    else if Ascii.eqb c "+" then clamp_long (read_digits 0 rest)
    else clamp_long (read_digits 0 (String c rest))
  | EmptyString => 0
  end.

(** [std::stoi(s)]: [None] when it throws, because there is no number or it
    does not fit an [int]. *)
Definition int_min : Z := - 2 ^ 31.
Definition int_max : Z := 2 ^ 31 - 1.

Definition unsigned_part (s : string) : string :=
  match s with
  | String c rest => if Ascii.eqb c "-" || Ascii.eqb c "+" then rest else s
  | EmptyString => s
  end.

Definition stoi (s : string) : option Z :=
  match unsigned_part (skip_spaces (c_str s)) with
  | String d _ =>
    let v := strtol s in
    if is_digit d && (int_min <=? v) && (v <=? int_max) then Some v else None
  | EmptyString => None
  end.

(** [std::to_string]. *)
Definition digit (n : Z) : ascii := chr (48 + n).

Fixpoint digits (fuel : nat) (n : Z) (rest : string) : string :=
  match fuel with
  | O => rest
  | S f =>
    if n <? 10 then String (digit n) rest
    else digits f (n / 10) (String (digit (n mod 10)) rest)
  end.

Definition digits_fuel (n : Z) : nat := S (Z.to_nat (Z.log2 n)).

Definition to_string (n : Z) : string :=
  if n <? 0 then String "-" (digits (digits_fuel (- n)) (- n) "")
  else digits (digits_fuel n) n "".

(** ** Lemmas *)
Lemma code_digit n : 0 <= n < 10 -> code (digit n) = 48 + n.
Proof.
  intros Hn. unfold code, digit, chr. rewrite nat_ascii_embedding by lia. lia.
Qed.

Lemma is_digit_digit n : 0 <= n < 10 -> is_digit (digit n) = true.
Proof. intros Hn. unfold is_digit. rewrite code_digit by done. lia. Qed.

(** Reading the digits of [n] in front of [rest] shifts [n] in. *)
Lemma read_digits_digits fuel n :
  0 <= n < 10 ^ Z.of_nat fuel ->
  exists k, forall acc rest,
    read_digits acc (digits fuel n rest) = read_digits (acc * 10 ^ k + n) rest /\ 0 <= k.
Proof.
  revert n. induction fuel as [|f IH]; intros n Hn.
  - exists 0. intros acc rest. simpl in *. split; [f_equal|]; lia.
  - simpl digits. destruct (n <? 10) eqn:E.
    + exists 1. intros acc rest. simpl read_digits.
      rewrite is_digit_digit, code_digit by lia. split; [f_equal|]; lia.
    + destruct (IH (n / 10)) as [k Hk].
      { rewrite Nat2Z.inj_succ, Z.pow_succ_r in Hn by lia.
        split; [apply Z.div_pos; lia | apply Z.div_lt_upper_bound; lia]. }
      exists (k + 1). intros acc rest. destruct (Hk acc (String (digit (n mod 10)) rest)) as [-> Hk0].
      pose proof (Z.mod_pos_bound n 10 ltac:(lia)) as Hm.
      simpl read_digits. rewrite is_digit_digit, code_digit by lia.
      pose proof (Z.div_mod n 10 ltac:(lia)).
      rewrite Z.pow_add_r by lia. split; [f_equal; lia | lia].
Qed.

Lemma digits_fuel_enough n : 0 <= n -> n < 10 ^ Z.of_nat (digits_fuel n).
Proof.
  intros Hn. unfold digits_fuel. rewrite Nat2Z.inj_succ, Z2Nat.id by apply Z.log2_nonneg.
  destruct (decide (n = 0)) as [->|]; [done|].
  pose proof (Z.log2_spec n ltac:(lia)) as [_ Hlt].
  eapply Z.lt_le_trans; [exact Hlt|].
  apply Z.pow_le_mono_l. pose proof (Z.log2_nonneg n). lia.
Qed.

Lemma read_digits_to_string n rest :
  0 <= n -> read_digits 0 (digits (digits_fuel n) n rest) = read_digits n rest.
Proof.
  intros Hn. pose proof (digits_fuel_enough n Hn).
  destruct (read_digits_digits (digits_fuel n) n ltac:(lia)) as [k Hk].
  by destruct (Hk 0 rest) as [-> _].
Qed.

(** Every character of [digits] is a digit, so none is a space, a sign or NUL. *)
Fixpoint all_chars (P : ascii -> bool) (s : string) : bool :=
  match s with
  | EmptyString => true
  | String c rest => P c && all_chars P rest
  end.

Lemma all_chars_app P a b : all_chars P (a +:+ b) = all_chars P a && all_chars P b.
Proof. induction a as [|c a IH]; [done|]. simpl. by rewrite IH, andb_assoc. Qed.

Lemma all_chars_impl (P Q : ascii -> bool) s :
  (forall c, P c = true -> Q c = true) -> all_chars P s = true -> all_chars Q s = true.
Proof.
  intros HPQ. induction s as [|c s IH]; [done|]. simpl.
  rewrite !andb_true_iff. intros []. auto.
Qed.

Lemma all_digits fuel n rest :
  0 <= n -> all_chars is_digit rest = true -> all_chars is_digit (digits fuel n rest) = true.
Proof.
  revert n rest. induction fuel as [|f IH]; intros n rest Hn Hr; [done|].
  simpl digits. case_match.
  - simpl. rewrite is_digit_digit by lia. done.
  - apply IH; [apply Z.div_pos; lia|]. simpl.
    pose proof (Z.mod_pos_bound n 10 ltac:(lia)).
    rewrite is_digit_digit by lia. done.
Qed.

Lemma digits_cons fuel n rest :
  0 <= n -> exists c s, digits (S fuel) n rest = String c s /\ is_digit c = true.
Proof.
  revert n rest. induction fuel as [|f IH]; intros n rest Hn; simpl digits at 1.
  - pose proof (Z.mod_pos_bound n 10 ltac:(lia)).
    case_match; eexists _, _; (split; [reflexivity | apply is_digit_digit; lia]).
  - case_match; [eexists _, _; split; [reflexivity | apply is_digit_digit; lia]|].
    apply IH. apply Z.div_pos; lia.
Qed.

#[global] Arguments digits : simpl never.

Lemma digit_not (c : ascii) :
  is_digit c = true ->
  is_space c = false /\ (code c =? 0) = false /\
  Ascii.eqb c " " = false /\ Ascii.eqb c "-" = false /\ Ascii.eqb c "+" = false.
Proof. destruct c as [[] [] [] [] [] [] [] []]; by vm_compute. Qed.

Lemma c_str_id s : all_chars (fun c => negb (code c =? 0)) s = true -> c_str s = s.
Proof.
  induction s as [|c s IH]; [done|]. simpl. rewrite andb_true_iff, negb_true_iff.
  intros [-> Hs]. by rewrite IH.
Qed.

Lemma clamp_long_id z : int64_min <= z <= int64_max -> clamp_long z = z.
Proof. unfold clamp_long. lia. Qed.

Lemma clamp_long_range z : int64_min <= clamp_long z <= int64_max.
Proof. unfold clamp_long, int64_min, int64_max. lia. Qed.

Lemma strtol_range s : int64_min <= strtol s <= int64_max.
Proof.
  unfold strtol. repeat case_match; try apply clamp_long_range.
  unfold int64_min, int64_max. lia.
Qed.

(** [std::to_string] writes digits and a minus sign, nothing else. *)
Lemma to_string_chars (P : ascii -> bool) n :
  (forall c, is_digit c = true -> P c = true) -> P "-"%char = true ->
  all_chars P (to_string n) = true.
Proof.
  intros Hd Hm. unfold to_string. destruct (n <? 0) eqn:E; simpl; rewrite ?Hm;
    apply (all_chars_impl is_digit); try done; apply all_digits; try done; lia.
Qed.

Lemma to_string_no_nul n : all_chars (fun c => negb (code c =? 0)) (to_string n) = true.
Proof. apply to_string_chars; [|done]. intros c Hc. by destruct (digit_not c Hc) as (_ & -> & _). Qed.

(** [strtol] reads back what [std::to_string] wrote. *)
Lemma strtol_to_string n : int64_min <= n <= int64_max -> strtol (to_string n) = n.
Proof.
  intros Hn. unfold strtol. rewrite c_str_id by apply to_string_no_nul.
  unfold to_string. destruct (n <? 0) eqn:E.
  - simpl skip_spaces. cbn [Ascii.eqb Bool.eqb].
    rewrite read_digits_to_string by lia. simpl. rewrite Z.opp_involutive.
    by apply clamp_long_id.
  - destruct (digits_cons (Z.to_nat (Z.log2 n)) n "" ltac:(lia)) as (c & s & Hs & Hc).
    destruct (digit_not c Hc) as (Hsp & _ & _ & Hm & Hp).
    fold (digits_fuel n) in Hs. rewrite Hs. simpl skip_spaces. rewrite Hsp, Hm, Hp, <- Hs.
    rewrite read_digits_to_string by lia. by apply clamp_long_id.
Qed.

(** So does [stoi] for an [int]. *)
Lemma stoi_to_string n : int_min <= n <= int_max -> stoi (to_string n) = Some n.
Proof.
  intros Hn. unfold stoi. rewrite strtol_to_string by (unfold int_min, int_max, int64_min, int64_max in *; lia).
  rewrite c_str_id by apply to_string_no_nul.
  assert (exists d s, unsigned_part (skip_spaces (to_string n)) = String d s /\ is_digit d = true)
    as (d & s & -> & Hd).
  { unfold to_string. destruct (n <? 0) eqn:E.
    - destruct (digits_cons (Z.to_nat (Z.log2 (- n))) (- n) "" ltac:(lia)) as (c & s & Hs & Hc).
      fold (digits_fuel (- n)) in Hs. exists c, s. simpl. by rewrite Hs.
    - destruct (digits_cons (Z.to_nat (Z.log2 n)) n "" ltac:(lia)) as (c & s & Hs & Hc).
      destruct (digit_not c Hc) as (Hsp & _ & _ & Hm & Hp).
      fold (digits_fuel n) in Hs. rewrite Hs. exists c, s.
      cbn [skip_spaces]. rewrite Hsp. unfold unsigned_part. by rewrite Hm, Hp. }
  by rewrite Hd, (proj2 (Z.leb_le _ _)), (proj2 (Z.leb_le _ _)) by lia.
Qed.

Lemma to_string_no_space n : all_chars (fun c => negb (Ascii.eqb c " ")) (to_string n) = true.
Proof.
  apply to_string_chars; [|done]. intros c Hc. by destruct (digit_not c Hc) as (_ & _ & -> & _).
Qed.

Lemma to_string_no_command n p : starts_with (to_string n) (String "\" p) = false.
Proof.
  assert (all_chars (fun c => negb (Ascii.eqb c "\")) (to_string n) = true) as Hn.
  { apply to_string_chars; [|done]. intros c. by destruct c as [[] [] [] [] [] [] [] []]. }
  destruct (to_string n) as [|c s]; [done|]. simpl in *.
  apply andb_true_iff in Hn as [Hc%negb_true_iff _]. by rewrite Hc.
Qed.

Lemma find_last_of_none c s :
  all_chars (fun d => negb (Ascii.eqb d c)) s = true -> find_last_of c s = None.
Proof.
  induction s as [|d s IH]; [done|]. simpl. rewrite andb_true_iff, negb_true_iff.
  intros [-> Hs]. by rewrite IH.
Qed.

Lemma find_last_of_app c a b :
  all_chars (fun d => negb (Ascii.eqb d c)) b = true ->
  find_last_of c (a +:+ String c b) = Some (String.length a).
Proof.
  intros Hb. induction a as [|d a IH]; simpl.
  - by rewrite find_last_of_none, Ascii.eqb_refl.
  - by rewrite IH.
Qed.

Lemma find_first_of_app c a b :
  all_chars (fun d => negb (Ascii.eqb d c)) a = true ->
  find_first_of c (a +:+ String c b) = Some (String.length a).
Proof.
  induction a as [|d a IH]; simpl; [by rewrite Ascii.eqb_refl|].
  rewrite andb_true_iff, negb_true_iff. intros [-> Ha]. by rewrite IH.
Qed.

Lemma find_first_of_none c s :
  find_first_of c s = None <-> all_chars (fun d => negb (Ascii.eqb d c)) s = true.
Proof.
  induction s as [|d s IH]; [done|]. simpl.
  destruct (Ascii.eqb d c); simpl; [done|].
  rewrite <- IH. by destruct (find_first_of c s).
Qed.

Lemma string_from_app a b : string_from (a +:+ b) (String.length a) = b.
Proof. induction a; [by destruct b | done]. Qed.

Lemma string_from_after c a b : string_from (a +:+ String c b) (S (String.length a)) = b.
Proof. induction a; [by destruct b | done]. Qed.

Lemma starts_with_spec s p : starts_with s p = true <-> exists rest, s = p +:+ rest.
Proof.
  revert s. induction p as [|c p IH]; intros s; simpl; [split; [by exists s | done]|].
  destruct s as [|d s]; simpl; [split; [done | by intros [? [=]]]|].
  rewrite andb_true_iff, Ascii.eqb_eq, IH. split.
  - intros [-> [rest ->]]. by exists rest.
  - intros [rest [= -> ->]]. eauto.
Qed.

(** [simpl] leaves [+:+] alone. *)
Lemma string_app_cons x (a b : string) : String x a +:+ b = String x (a +:+ b).
Proof. reflexivity. Qed.

Lemma string_app_nil_l (a : string) : "" +:+ a = a.
Proof. reflexivity. Qed.

Lemma string_app_assoc (a b c : string) : (a +:+ b) +:+ c = a +:+ (b +:+ c).
Proof. induction a as [|x a IH]; [done|]. by rewrite !string_app_cons, IH. Qed.

Lemma string_app_nil_r (a : string) : a +:+ "" = a.
Proof. induction a as [|c a IH]; [done|]. by rewrite string_app_cons, IH. Qed.
