(* ===== verification/Platform.v ===== *)
(** * The platform: system calls, the log, and error values

    The operating system and the compiler are parameters: [Platform W] gives,
    for an arbitrary type [W] of worlds, what each system call answers and
    what [strerror] and [std::source_location] say.  Every call the program
    makes is recorded in the trace of the [Machine], newest first, so a
    theorem can say which calls were made and in which order.  On top of it:
    [utility/error.h], [utility/error.cpp], and the terminating helpers of
    [utility/utility.h]. *)
From S2P Require Import Prelude.
From S2P Require Import CString.

#[local] Open Scope Z_scope.
#[local] Open Scope bsm_scope.

(** ** System calls *)

(** The calls that answer with an [int]; [-1] is a failure and sets [errno]. *)
Inductive call :=
| c_socket (nonblock_cloexec : bool)
| c_setsockopt_reuseaddr (fd : Z)
| c_bind (fd port : Z)
| c_listen (fd backlog : Z)
| c_connect (fd port : Z)
| c_getfl (fd : Z)
| c_setfl (fd flags : Z)
| c_getfd (fd : Z)
| c_setfd (fd flags : Z)
| c_accept4 (fd : Z)
| c_sendmsg (fd : Z) (data : list Byte.byte) (rights : option Z)
| c_close (fd : Z)
| c_epoll_create1
| c_epoll_ctl_add (epfd fd data : Z)
| c_epoll_ctl_mod (epfd fd data : Z)
| c_epoll_ctl_del (epfd fd : Z)
| c_fork
| c_execl (path arg0 arg1 : string)   (* answers only when it fails *)
| c_open_append (path : string)
| c_kill (pid signal : Z)
| c_time
| c_getpid
| c_sysconf_page_size
| c_mmap (length : Z)
| c_mprotect (address length : Z).

(** A control message as [CMSG_FIRSTHDR] shows it. *)
Record cmsghdr := { cmsg_level : Z; cmsg_type : Z; cmsg_data : Z }.
Definition SOL_SOCKET : Z := 1.
Definition SCM_RIGHTS : Z := 1.
Definition EAGAIN : Z := 11.
Definition EWOULDBLOCK : Z := 11.
Definition SIGKILL : Z := 9.

(** [recvmsg]: the bytes received (none at the end of the stream) with the
    first control message, or an error. *)
Inductive recv_answer :=
| Received (data : list Byte.byte) (control : option cmsghdr)
| RecvFailed (error : Z).

Inductive wait_answer :=
| Ready (slots : list Z)
| WaitFailed (error : Z).

Inductive pair_answer :=
| SocketPair (sv0 sv1 : Z)
| PairFailed (error : Z).

(** [std::source_location]: what [current()] holds is the compiler's choice. *)
Record source_location := {
  file_name : string;
  line : Z;
  function_name : string
}.

Class Platform (W : Type) := {
  sys_call : call -> W -> (Z * Z) * W;   (* the value returned and errno if it is -1 *)
  sys_recvmsg : Z -> Z -> W -> recv_answer * W;
  sys_epoll_wait : Z -> Z -> W -> wait_answer * W;
  sys_socketpair : W -> pair_answer * W;
  sys_waitpid : W -> (Z * Z) * W;        (* waitpid(-1, &status, WNOHANG): the pid, the status *)
  strerror : Z -> string;
  here : string -> Z -> source_location;
  header_padding : nat -> Byte.byte      (* what the compiler leaves between the members *)
}.

Inductive event :=
| Called (c : call) (result : Z)
| CalledRecvmsg (fd length : Z)
| CalledEpollWait (epfd maxevents : Z)
| CalledSocketpair
| CalledWaitpid
| Logged (message : string)
| Printed (message : string)
| PrintedError (message : string).      (* to [stderr] *)

Record Machine (W : Type) := mkMachine {
  world : W;
  errno : Z;
  trace : list event
}.
Arguments mkMachine {W} _ _ _.
Arguments world {W} _.
Arguments errno {W} _.
Arguments trace {W} _.

(** ** Running on a machine and a component's state *)
Definition SM (W T A : Type) : Type := M (Machine W * T) A.

Definition lift {W T A} (m : M (Machine W) A) : SM W T A :=
  zoom fst (fun k s => (k, s.2)) m.
Definition local_state {W T A} (m : M T A) : SM W T A :=
  zoom snd (fun t s => (s.1, t)) m.
Definition focus {W T U A} (g : T -> U) (p : U -> T -> T) (m : SM W U A) : SM W T A :=
  zoom (fun s => (s.1, g s.2)) (fun ku s => (ku.1, p ku.2 s.2)) m.

Section Calls.
Context {W : Type} `{Platform W}.

Definition record_event (e : event) (k : Machine W) : Machine W :=
  mkMachine (world k) (errno k) (e :: trace k).

Definition do_call (c : call) : M (Machine W) Z := fun k =>
  let '((n, e), w) := sys_call c (world k) in
  (Ret n, mkMachine w (if n =? -1 then e else errno k) (Called c n :: trace k)).

Definition do_recvmsg (fd len : Z) : M (Machine W) recv_answer := fun k =>
  let '(a, w) := sys_recvmsg fd len (world k) in
  (Ret a, mkMachine w (if a is RecvFailed e then e else errno k)
                    (CalledRecvmsg fd len :: trace k)).

Definition do_epoll_wait (epfd maxevents : Z) : M (Machine W) wait_answer := fun k =>
  let '(a, w) := sys_epoll_wait epfd maxevents (world k) in
  (Ret a, mkMachine w (if a is WaitFailed e then e else errno k)
                    (CalledEpollWait epfd maxevents :: trace k)).

Definition do_socketpair : M (Machine W) pair_answer := fun k =>
  let '(a, w) := sys_socketpair (world k) in
  (Ret a, mkMachine w (if a is PairFailed e then e else errno k)
                    (CalledSocketpair :: trace k)).

Definition do_waitpid : M (Machine W) (Z * Z) := fun k =>
  let '(a, w) := sys_waitpid (world k) in
  (Ret a, mkMachine w (errno k) (CalledWaitpid :: trace k)).

(** [LOG] (what it writes is in [Logger.v]), [std::cout] and [std::cerr]. *)
Definition LOG (message : string) : M (Machine W) unit :=
  modify (record_event (Logged message)).
Definition print_line (message : string) : M (Machine W) unit :=
  modify (record_event (Printed message)).
Definition print_error (message : string) : M (Machine W) unit :=
  modify (record_event (PrintedError message)).
Definition perror (message : string) : M (Machine W) unit :=
  let* e := gets errno in print_error (message +:+ ": " +:+ strerror e).
End Calls.

(** ** [utility/error.h] *)
Inductive user_error_e :=
| GENERIC
| CANT_CREATE_LOBBY
| CANT_JOIN_LOBBY
| UNKNOWN_COMMAND.

Record Error := mkError {
  backtrace : list string;
  loc_errno : option Z
}.

(** An error made in place, [Error{.backtrace = {message}}]. *)
Definition new_error (message : string) : Error := mkError [message] None.

(** The frame [std::format] writes. *)
Definition format_context (loc : source_location) (msg : string) : string :=
  file_name loc +:+ ":" +:+ to_string (line loc) +:+ newline +:+ tab +:+ tab +:+ "in " +:+
  function_name loc +:+ ":" +:+ newline +:+ tab +:+ tab +:+ msg.

Section Errors.
Context {W : Type} `{Platform W}.

Definition add_context (file : string) (at_line : Z) (msg : string) (e : Error) : Error :=
  mkError (backtrace e ++ [format_context (here file at_line) msg]) (loc_errno e).

Definition c_error_string : M (Machine W) string :=
  let* e := gets errno in ret (strerror e).

Definition make_error_c (message : string) : M (Machine W) Error :=
  let* reason := c_error_string in
  let* e := gets errno in
  ret (mkError [reason; message] (Some e)).
End Errors.

(** [Error::full_report] walks the backtrace from its end. *)
Fixpoint report_lines (frames : list string) : string :=
  match frames with
  | [] => ""
  | frame :: rest => tab +:+ "->" +:+ frame +:+ newline +:+ report_lines rest
  end.

Definition full_report (e : Error) : string :=
  "Error Trace:" +:+ newline +:+ report_lines (reverse (backtrace e)).

Definition user_message (user : user_error_e) : string :=
  match user with
  | GENERIC => "Error occurred, please try again latter."
  | CANT_CREATE_LOBBY => "Cant create lobby, please try again latter."
  | CANT_JOIN_LOBBY => "Cant join lobby, please check connection code or try again."
  | UNKNOWN_COMMAND => "Unknown command, please check your input."
  end.

(** ** [utility/utility.h]: giving up *)
Definition plain_terminate {W A} : M (Machine W) A :=
  LOG "Critical error occured, terminating..." ;;;
  stop Terminated.

(** The overload for [std::optional<Error>], the only one the program calls. *)
Definition success_or_terminate {W} (error : option Error) : M (Machine W) unit :=
  match error with
  | Some e => LOG (full_report e) ;;; plain_terminate
  | None => ret tt
  end.

(** The overload for [std::expected<F, Error>]: [if (result)] takes the branch
    of the error when there is a value; [result.error()] is then undefined. *)
Definition success_or_terminate_expected {W F} (result : F + Error) : M (Machine W) unit :=
  match result with
  | inl _ => stop Undefined
  | inr _ => ret tt
  end.

(** ** A scripted platform

    A small concrete platform for examples: every call is answered by a fixed
    table, [recvmsg] and [epoll_wait] by scripts that are used up ([EAGAIN],
    [EINTR] at the end). *)
Record Script := mkScript {
  incoming : list recv_answer;
  ready : list wait_answer;
  pairs : pair_answer
}.

Definition scripted (answers : call -> Z * Z) : Platform Script := {|
  sys_call c w := (answers c, w);
  sys_recvmsg _ _ w :=
    match incoming w with
    | [] => (RecvFailed EAGAIN, w)
    | a :: rest => (a, mkScript rest (ready w) (pairs w))
    end;
  sys_epoll_wait _ _ w :=
    match ready w with
    | [] => (WaitFailed 4, w)
    | a :: rest => (a, mkScript (incoming w) rest (pairs w))
    end;
  sys_socketpair w := (pairs w, w);
  sys_waitpid w := ((0, 0), w);
  strerror _ := "error";
  here file n := {| file_name := file; line := n; function_name := "f" |};
  header_padding _ := Byte.x00
|}.

Definition script_of (inc : list recv_answer) : Machine Script :=
  mkMachine (mkScript inc [] (PairFailed 24)) 0 [].

(** A page of 4096 bytes, the clock at 1700012345, every other call succeeding with 0. *)
Definition quiet_calls (c : call) : Z * Z :=
  match c with
  | c_sysconf_page_size => (4096, 0)
  | c_time => (1700012345, 0)
  | _ => (0, 0)
  end.

(** The machine after a call, and what the call answered. *)
Definition after {W} `{Platform W} (c : call) (k : Machine W) : Machine W := (do_call c k).2.
Definition answer {W} `{Platform W} (c : call) (k : Machine W) : Z := (sys_call c (world k)).1.1.

(** ** Lemmas *)
Section PlatformLemmas.
Context {W : Type} `{Platform W}.

Lemma call_run (x : call) (k : Machine W) : do_call x k = (Ret (answer x k), after x k).
Proof. unfold after, answer, do_call. by destruct (sys_call x _) as [[n e] w]. Qed.

Lemma trace_after (x : call) (k : Machine W) : trace (after x k) = Called x (answer x k) :: trace k.
Proof. unfold after, answer, do_call. by destruct (sys_call x _) as [[n e] w]. Qed.

Lemma lift_run {T A} (m : M (Machine W) A) k (t : T) r k' :
  m k = (r, k') -> lift m (k, t) = (r, (k', t)).
Proof. apply (zoom_run fst (fun k s => (k, s.2)) m (k, t)). Qed.

Lemma local_state_run {T A} (m : M T A) (k : Machine W) t r t' :
  m t = (r, t') -> local_state m (k, t) = (r, (k, t')).
Proof. apply (zoom_run snd (fun t s => (s.1, t)) m (k, t)). Qed.

Lemma focus_run {T U A} (g : T -> U) p (m : SM W U A) k t r k' u :
  m (k, g t) = (r, (k', u)) -> focus g p m (k, t) = (r, (k', p u t)).
Proof. unfold focus, zoom. simpl. by intros ->. Qed.

(** A part of the state keeps its invariant whatever the machine does. *)
Definition keeps {T A} (I : T -> Prop) (m : SM W T A) : Prop :=
  preserves (fun s => I s.2) m.

Lemma keeps_lift {T A} (I : T -> Prop) (m : M (Machine W) A) : keeps I (lift m).
Proof. intros [k t] Ht. unfold lift, zoom. simpl. by destruct (m k). Qed.

Lemma keeps_local {T A} (I : T -> Prop) (m : M T A) :
  preserves I m -> keeps I (local_state m).
Proof.
  intros Hm [k t] Ht. specialize (Hm t Ht). unfold local_state, zoom. simpl in *.
  by destruct (m t).
Qed.

Lemma keeps_focus {T U A} (I : T -> Prop) (J : U -> Prop) g p (m : SM W U A) :
  keeps J m -> (forall t, I t -> J (g t)) -> (forall t u, I t -> J u -> I (p u t)) ->
  keeps I (focus g p m).
Proof.
  intros Hm Hg Hp. unfold keeps, focus.
  apply (preserves_zoom _ (fun s => J s.2)); simpl; eauto.
Qed.

(** The error keeps its errno and its older frames. *)
Lemma add_context_errno file n msg e : loc_errno (add_context file n msg e) = loc_errno e.
Proof. done. Qed.
End PlatformLemmas.

#[export] Hint Resolve keeps_lift : bsm.

Lemma report_lines_app a b : report_lines (a ++ b) = report_lines a +:+ report_lines b.
Proof.
  induction a as [|x a IH]; [done|]. simpl. rewrite IH.
  by rewrite !string_app_assoc.
Qed.
