(* ===== verification/Logger.v ===== *)
(** * [utility/logger]: the log file

    The rest of the development takes [LOG] as an event of the trace; this file
    is what it does.  The log is a stream opened for appending by [init]; each
    entry is one line with the time, the program and the process.  [log_mutex]
    makes each operation one step.  Writes to an open file are taken to
    succeed; what [localtime] makes of a time is a parameter. *)
From S2P Require Import Prelude.
From S2P Require Import CString.
From S2P Require Import Platform.
From Stdlib Require Import Ascii.

#[local] Open Scope Z_scope.
#[local] Open Scope bsm_scope.

(** [struct tm], as far as it is read. *)
Record tm := mkTm {
  tm_year : Z;
  tm_mon : Z;
  tm_mday : Z;
  tm_hour : Z;
  tm_min : Z;
  tm_sec : Z
}.

(** [std::ofstream]: the descriptor when a file is open, whether the stream's
    [failbit] is clear, and what has been written. *)
Record ofstream := mkStream {
  descriptor : option Z;
  good : bool;
  written : string
}.

Module Logger.
Record t := mk { log_file : ofstream; program_name : string }.
Definition initial : t := mk (mkStream None true "") "".

Definition set_log_file (f : ofstream) (l : t) : t := mk f (program_name l).
Definition set_program_name (name : string) (l : t) : t := mk (log_file l) name.

Definition is_logfile_valid (l : t) : bool := bool_decide (is_Some (descriptor (log_file l))).

(** [operator<<] does nothing once [failbit] is set. *)
Definition insert (text : string) (f : ofstream) : ofstream :=
  if good f then mkStream (descriptor f) (good f) (written f +:+ text) else f.

Definition format_time (local_time : tm) : string :=
  to_string (tm_year local_time + 1900) +:+ "-" +:+ to_string (tm_mon local_time + 1) +:+
  "-" +:+ to_string (tm_mday local_time) +:+ " " +:+ to_string (tm_hour local_time) +:+
  ":" +:+ to_string (tm_min local_time) +:+ ":" +:+ to_string (tm_sec local_time).

Section Logger.
Context {W : Type} `{Platform W} (localtime : Z -> tm).

(** [std::ofstream::open]: fails on a stream that is open already; a success
    clears [failbit]. *)
Definition open (path : string) : SM W ofstream unit :=
  let* f := local_state get in
  match descriptor f with
  | Some fd => local_state (modify (fun f => mkStream (Some fd) false (written f)))
  | None =>
    let* fd := lift (do_call (c_open_append path)) in
    if fd =? -1
    then local_state (modify (fun f => mkStream None false (written f)))
    else local_state (modify (fun f => mkStream (Some fd) true (written f)))
  end.

Definition on_log_file {A} (m : SM W ofstream A) : SM W t A := focus log_file set_log_file m.

Definition init (name : string) : SM W t (option string) :=
  local_state (modify (set_program_name name)) ;;;
  on_log_file (open (name +:+ ".log")) ;;;
  let* l := local_state get in
  if is_logfile_valid l then ret None else ret (Some "Log file failed to open").

Definition get_current_time : M (Machine W) string :=
  let* now := do_call c_time in ret (format_time (localtime now)).

Definition log (message : string) : SM W t (option string) :=
  let* l := local_state get in
  if is_logfile_valid l then
    let* stamp := lift get_current_time in
    let* pid := lift (do_call c_getpid) in
    on_log_file (local_state (modify (insert ("[" +:+ stamp +:+ "] " +:+ "[" +:+ program_name l +:+ "] " +:+
      "[PID: " +:+ to_string pid +:+ "] " +:+ message +:+ newline)))) ;;;
    ret None
  else ret (Some "Log file failed to open").

(** [bsm::LOG] *)
Definition LOG (message : string) : SM W t unit :=
  let* result := log message in
  match result with
  | Some e => lift (print_error e)
  | None => ret tt
  end.

(** [~Logger] *)
Definition destroy : SM W t unit :=
  let* l := local_state get in
  match descriptor (log_file l) with
  | Some fd =>
    lift (do_call (c_close fd)) ;;;
    on_log_file (local_state (modify (fun f => mkStream None (good f) (written f))))
  | None => ret tt
  end.

Fixpoint LOG_all (messages : list string) : SM W t unit :=
  match messages with
  | [] => ret tt
  | message :: rest => LOG message ;;; LOG_all rest
  end.
End Logger.
End Logger.

(** ** Reading a log *)

Definition lacks (c : ascii) (s : string) : bool := all_chars (fun d => negb (Ascii.eqb d c)) s.

(** What follows the first [c] and the character after it. *)
Fixpoint after_first (c : ascii) (s : string) : string :=
  match s with
  | EmptyString => EmptyString
  | String d rest => if Ascii.eqb d c then string_from rest 1 else after_first c rest
  end.

(** The message of an entry: past three closing brackets. *)
Definition entry_message (line : string) : string :=
  after_first "]" (after_first "]" (after_first "]" line)).

(** The lines of a text whose last line is ended; [acc] is the line read so far. *)
Fixpoint lines_from (acc s : string) : list string :=
  match s with
  | EmptyString => []
  | String d rest =>
    if Ascii.eqb d (chr 10) then acc :: lines_from "" rest else lines_from (acc +:+ String d "") rest
  end.

Definition read_log (text : string) : list string := entry_message <$> lines_from "" text.

Lemma lacks_app c a b : lacks c (a +:+ b) = lacks c a && lacks c b.
Proof. apply all_chars_app. Qed.

Lemma to_string_lacks c n : is_digit c = false -> c <> "-"%char -> lacks c (to_string n) = true.
Proof.
  intros Hd Hm. apply to_string_chars.
  - intros d Hdig. destruct (Ascii.eqb_spec d c) as [->|]; [by rewrite Hd in Hdig | done].
  - by destruct (Ascii.eqb_spec "-"%char c) as [<-|].
Qed.

Lemma after_first_app c a d b : lacks c a = true -> after_first c (a +:+ String c (String d b)) = b.
Proof.
  unfold lacks. induction a as [|x a IH]; rewrite ?string_app_cons, ?string_app_nil_l; simpl.
  - intros _. rewrite Ascii.eqb_refl. by destruct b.
  - rewrite andb_true_iff, negb_true_iff. intros [-> Ha]. by apply IH.
Qed.

Lemma after_bracket a b : lacks "]" a = true -> after_first "]" (a +:+ ("] " +:+ b)) = b.
Proof. apply (after_first_app "]" a " " b). Qed.

Lemma lines_from_app acc a b :
  lacks (chr 10) a = true -> lines_from acc (a +:+ String (chr 10) b) = (acc +:+ a) :: lines_from "" b.
Proof.
  unfold lacks. revert acc. induction a as [|x a IH]; intros acc; rewrite ?string_app_cons, ?string_app_nil_l; simpl.
  - intros _. by rewrite string_app_nil_r.
  - rewrite andb_true_iff, negb_true_iff. intros [-> Ha].
    rewrite IH by done. by rewrite string_app_assoc.
Qed.

(** ** Lemmas *)
Section Entries.
Context (name : string) (Hname : lacks "]" name = true) (Hline : lacks (chr 10) name = true).

(** A line without its end. *)
Definition line_of (stamp : string) (pid : Z) (message : string) : string :=
  "[" +:+ stamp +:+ "] " +:+ "[" +:+ name +:+ "] " +:+ "[PID: " +:+ to_string pid +:+ "] " +:+ message.

Lemma entry_message_line stamp pid message :
  lacks "]" stamp = true -> entry_message (line_of stamp pid message) = message.
Proof using Hname.
  intros Hs. unfold entry_message, line_of.
  rewrite <- (string_app_assoc "[" stamp), after_bracket by by rewrite lacks_app, Hs.
  rewrite <- (string_app_assoc "[" name), after_bracket by by rewrite lacks_app, Hname.
  rewrite <- (string_app_assoc "[PID: "), after_bracket; [done|].
  by rewrite lacks_app, to_string_lacks.
Qed.

Lemma line_of_one_line stamp pid message :
  lacks (chr 10) stamp = true -> lacks (chr 10) message = true -> lacks (chr 10) (line_of stamp pid message) = true.
Proof using Hline.
  intros Hs Hm. unfold line_of. by rewrite !lacks_app, Hs, Hline, Hm, to_string_lacks.
Qed.
End Entries.

Lemma format_time_lacks c local_time :
  is_digit c = false -> lacks c "-: " = true -> lacks c (Logger.format_time local_time) = true.
Proof.
  intros Hd Hc. unfold Logger.format_time.
  assert (c <> "-"%char) as Hm by (by intros ->).
  rewrite !lacks_app, !to_string_lacks by done. revert Hc. unfold lacks. cbn [all_chars].
  rewrite !andb_true_iff. by intros (-> & -> & -> & _).
Qed.

Section LoggerLemmas.
Context {W : Type} `{Platform W} (localtime : Z -> tm).
Import Logger.
Implicit Types (k : Machine W) (l : t).

Definition ready_to_log l : Prop := is_logfile_valid l = true /\ good (log_file l) = true.

(** After an [init] that succeeded on a new logger, entries are written. *)
Lemma init_ready name k k' l :
  init name (k, initial) = (Ret None, (k', l)) ->
  ready_to_log l /\ program_name l = name /\ written (log_file l) = "".
Proof.
  unfold init, open, on_log_file, focus, lift, local_state, zoom, bind, modify, get, ret. cbn.
  destruct (do_call _ k) as [[fd|h] k1]; [|done]. destruct (fd =? -1); cbn; [done|]. by intros [= <- <-].
Qed.

Definition append_text (text : string) l : t :=
  set_log_file (mkStream (descriptor (log_file l)) (good (log_file l)) (written (log_file l) +:+ text)) l.

Lemma LOG_run message k l : ready_to_log l ->
  exists now pid k', LOG localtime message (k, l)
    = (Ret tt, (k', append_text (line_of (program_name l) (format_time (localtime now)) pid message +:+ newline) l)).
Proof.
  intros [Hv Hg]. unfold LOG, log.
  rewrite bind_bind. rewrite (bind_run _ _ (k, l) l (k, l)) by done. rewrite Hv.
  rewrite bind_bind. unfold get_current_time.
  erewrite bind_run by (apply lift_run; erewrite bind_run by apply call_run; reflexivity).
  rewrite bind_bind. erewrite bind_run by (apply lift_run, call_run).
  rewrite bind_bind. erewrite bind_run.
  2: { apply focus_run, local_state_run. reflexivity. }
  do 3 eexists. cbn. unfold insert, append_text, line_of. rewrite Hg. rewrite !string_app_assoc. reflexivity.
Qed.

Lemma lines_from_LOG_all messages : forall k l,
  ready_to_log l -> lacks "]" (program_name l) = true -> lacks (chr 10) (program_name l) = true ->
  Forall (fun message => lacks (chr 10) message = true) messages ->
  exists k' text, LOG_all localtime messages (k, l) = (Ret tt, (k', append_text text l)) /\
    read_log text = messages.
Proof.
  induction messages as [|message rest IH]; intros k l Hr Hb Hl Hm.
  { exists k, "". split; [|done]. unfold append_text. rewrite string_app_nil_r. by destruct l as [[]]. }
  apply Forall_cons in Hm as [Hm Hrest].
  destruct (LOG_run message k l Hr) as (now & pid & k1 & Hrun). cbn [LOG_all]. rewrite (bind_run _ _ _ _ _ Hrun).
  set (line := line_of _ _ _ _) in *. edestruct (IH k1 (append_text (line +:+ newline) l)) as (k2 & text & Hall & Hread);
    [exact Hr | exact Hb | exact Hl | exact Hrest |].
  exists k2, (line +:+ newline +:+ text). rewrite Hall. split.
  - unfold append_text. cbn. by rewrite !string_app_assoc.
  - unfold read_log. change (newline +:+ text) with (String (chr 10) text). rewrite (lines_from_app "" line text)
      by (apply line_of_one_line; [done| by apply format_time_lacks | done]).
    cbn. rewrite string_app_nil_l. unfold read_log in Hread. rewrite Hread.
    unfold line. by rewrite entry_message_line by (done || by apply format_time_lacks).
Qed.
End LoggerLemmas.

(** ** Properties *)

(** C34: whatever the clock and the process say, a log reads back as what was
    logged: after the logger's first [init], which succeeded, the lines of the
    file, taken past the time, the program and the process, are the messages in
    order, if neither they nor the program's name hold a line break and the name
    no closing bracket.  A [full_report] of several lines does not read back as
    one message, and after a second [init] nothing is written ([init_twice]). *)
Theorem log_reads_back {W} `{Platform W} localtime name messages k k1 l :
  Logger.init name (k, Logger.initial) = (Ret None, (k1, l)) ->
  lacks "]" name = true -> lacks (chr 10) name = true ->
  Forall (fun message => lacks (chr 10) message = true) messages ->
  exists k2 l2, Logger.LOG_all localtime messages (k1, l) = (Ret tt, (k2, l2)) /\
    read_log (written (Logger.log_file l2)) = messages.
Proof.
  intros (Hr & <- & Hw)%init_ready Hb Hn Hm.
  destruct (lines_from_LOG_all localtime messages k1 l Hr Hb Hn Hm) as (k2 & text & Hrun & Hread).
  exists k2, (append_text text l). split; [done|]. cbn. by rewrite Hw, string_app_nil_l.
Qed.

Definition some_time (now : Z) : tm := mkTm 123 10 14 22 13 (now mod 60).

Lemma log_reads_back_witness :
  let k1 := (Logger.init (H := scripted quiet_calls) "server" (script_of [], Logger.initial)).2 in
  exists k2 l2, Logger.LOG_all (H := scripted quiet_calls) some_time ["Starting Server!"; "[ ] in a message"] k1
      = (Ret tt, (k2, l2)) /\
    read_log (written (Logger.log_file l2)) = ["Starting Server!"; "[ ] in a message"].
Proof.
  apply (log_reads_back (H := scripted quiet_calls) some_time "server" ["Starting Server!"; "[ ] in a message"]
    (script_of [])).
  - reflexivity.
  - reflexivity.
  - reflexivity.
  - by repeat constructor.
Defined.

(** Without an open file [LOG] loses the message: only the reason reaches
    [stderr]. *)
Lemma log_without_file {W} `{Platform W} localtime message (k : Machine W) l :
  Logger.is_logfile_valid l = false ->
  Logger.LOG localtime message (k, l)
    = (Ret tt, (record_event (PrintedError "Log file failed to open") k, l)).
Proof.
  intros Hv. unfold Logger.LOG, Logger.log. rewrite bind_bind. rewrite (bind_run _ _ (k, l) l (k, l)) by done.
  by rewrite Hv.
Qed.

(** A second [init] answers that the file is open, and nothing is written any more. *)
Lemma init_twice {W} `{Platform W} name (k : Machine W) l :
  ready_to_log l ->
  exists l', Logger.init name (k, l) = (Ret None, (k, l')) /\ good (Logger.log_file l') = false /\
    forall text, Logger.insert text (Logger.log_file l') = Logger.log_file l'.
Proof.
  intros [Hv Hg]. destruct l as [[[fd|] g w] n]; [|done]. by eexists (Logger.mk (mkStream (Some fd) false w) name).
Qed.
