(* ===== verification/MemoryManager.v ===== *)
(** * [core/memory_manager]: free-index ring, allocator pool, memory manager

    One thread at a time: an atomic operation takes effect at once, a
    compare-and-swap whose expected value was just loaded succeeds, and a wait
    that only another thread can end is [Blocked].  Addresses are integers;
    the pool's memory is the range from [virtual_pool_ptr_] to
    [actual_memory_end]. *)
From S2P Require Import Prelude.
From S2P Require Import Ring.
From S2P Require Import CString.
From S2P Require Import Platform.

#[local] Open Scope Z_scope.
#[local] Open Scope bsm_scope.

(** ** [struct RingBuffer]

    [head] counts the pushes, [tail] the pops; [uint64_max] marks a free cell. *)
Module RingBuffer.
Record t := mk { head : Z; tail : Z; ring_start_ptr : list Z }.

Definition set_head (h : Z) (r : t) : t := mk h (tail r) (ring_start_ptr r).
Definition set_tail (n : Z) (r : t) : t := mk (head r) n (ring_start_ptr r).
Definition set_cell (slot v : Z) (r : t) : t :=
  mk (head r) (tail r) (<[Z.to_nat slot := v]> (ring_start_ptr r)).

Definition init : t :=
  mk 0 0 (replicate (Z.to_nat RING_BUFFER_SIZE) uint64_max).

Definition load_cell (slot : Z) : M t Z := fun r =>
  match ring_start_ptr r !! Z.to_nat slot with
  | Some v => (Ret v, r)
  | None => (Halt Undefined, r)
  end.

Definition try_pop : M t (option Z) :=
  let* last_busy_slot := gets tail in
  let* h := gets head in
  if last_busy_slot =? h then ret None
  else
    modify (set_tail (wrap64 (last_busy_slot + 1))) ;;;
    let slot := normilize_ring_slot last_busy_slot in
    let* v := load_cell slot in
    if v =? uint64_max then stop Blocked
    else modify (set_cell slot uint64_max) ;;; ret (Some v).

Definition try_place_into_queue (last_free_slot new_free_index : Z) : M t bool :=
  modify (set_head (wrap64 (last_free_slot + 1))) ;;;
  let slot := normilize_ring_slot last_free_slot in
  let* previous_data := load_cell slot in
  if previous_data =? uint64_max then
    modify (set_cell slot new_free_index) ;;; ret true
  else stop Blocked.

Definition try_push (new_free_index : Z) : M t bool :=
  let* last_free_slot := gets head in
  let* tl := gets tail in
  if wrap64 (last_free_slot + 1) =? tl then ret false
  else try_place_into_queue last_free_slot new_free_index.

(** [push] waits on [head] while the ring looks full. *)
Definition push (new_free_index : Z) : M t unit :=
  let* last_free_slot := gets head in
  let* tl := gets tail in
  if wrap64 (last_free_slot + 1) =? tl then stop Blocked
  else try_place_into_queue last_free_slot new_free_index ;;; ret tt.

Definition view (v : Z) : option Z := if v =? uint64_max then None else Some v.

(** The abstraction: the indices in the ring, oldest first. *)
Definition holds (r : t) (q : list Z) : Prop :=
  ring_repr view (ring_start_ptr r) (tail r) q /\
  head r = wrap64 (tail r + Z.of_nat (length q)) /\
  0 <= tail r < 2 ^ 64.
End RingBuffer.

(** ** [struct AllocatorPool] with its [AllocatorPoolMetaLayout] *)
Module AllocatorPool.
Record AllocationResult := { memory_ptr : Z; index : Z }.

Record t := mk {
  virtual_pool_ptr_ : Z;
  chunk_size : Z;
  page_size : Z;
  actual_memory_end : Z;
  page_allocation_permit : Z;
  last_not_issued_index : Z;
  free_indexes_queue : RingBuffer.t
}.

Definition set_end (e : Z) (a : t) : t :=
  mk (virtual_pool_ptr_ a) (chunk_size a) (page_size a) e
     (page_allocation_permit a) (last_not_issued_index a) (free_indexes_queue a).
Definition set_permit (p : Z) (a : t) : t :=
  mk (virtual_pool_ptr_ a) (chunk_size a) (page_size a) (actual_memory_end a)
     p (last_not_issued_index a) (free_indexes_queue a).
Definition set_last (n : Z) (a : t) : t :=
  mk (virtual_pool_ptr_ a) (chunk_size a) (page_size a) (actual_memory_end a)
     (page_allocation_permit a) n (free_indexes_queue a).
Definition set_queue (r : RingBuffer.t) (a : t) : t :=
  mk (virtual_pool_ptr_ a) (chunk_size a) (page_size a) (actual_memory_end a)
     (page_allocation_permit a) (last_not_issued_index a) r.

Definition PAGES_PER_NODE : Z := 256.
Definition POOL_BYTES : Z := 1024 * 1024 * 1024 * 10.

Definition on_queue {A} (m : M RingBuffer.t A) : M t A :=
  zoom free_indexes_queue set_queue m.

Section WithPlatform.
Context {W : Type} `{Platform W}.

Definition init_meta_storage (pool_ptr chunk : Z) : M (Machine W) t :=
  let* page := do_call c_sysconf_page_size in
  ret (mk pool_ptr chunk page pool_ptr 1 0 RingBuffer.init).

Definition init (chunk : Z) : M (Machine W) t :=
  let* pool_ptr := do_call (c_mmap POOL_BYTES) in
  init_meta_storage pool_ptr chunk.

Definition allocate_new_node : SM W t (option Error) :=
  let* memory_end := local_state (gets actual_memory_end) in
  let* page := local_state (gets page_size) in
  let memory_amount := page * PAGES_PER_NODE in
  let* protect_result := lift (do_call (c_mprotect memory_end memory_amount)) in
  if protect_result =? -1 then
    let* e := lift (make_error_c
      "Unable to allocate new memory page: failed to allocate physical memory with mprotect") in
    ret (Some e)
  else
    local_state (modify (fun a => set_end (actual_memory_end a + memory_amount) a)) ;;;
    ret None.

(** The body of [if (next_object_ptr >= current_memory_end)]. *)
Definition grow : SM W t unit :=
  let* permits := local_state (gets page_allocation_permit) in
  if 0 <? permits then
    local_state (modify (set_permit (permits - 1))) ;;;
    let* e := allocate_new_node in
    lift (success_or_terminate e) ;;;
    local_state (modify (fun a => set_permit (page_allocation_permit a + 1) a))
  else stop Blocked.

Definition allocate : SM W t (option AllocationResult) :=
  let* free_index := local_state (on_queue RingBuffer.try_pop) in
  let* a := local_state get in
  match free_index with
  | Some i =>
    ret (Some {| memory_ptr := virtual_pool_ptr_ a + i * chunk_size a; index := i |})
  | None =>
    let new_index := last_not_issued_index a in
    if RING_BUFFER_SIZE <? new_index then ret None
    else
      let next_object_ptr := virtual_pool_ptr_ a + wrap32 (new_index + 1) * chunk_size a in
      (if actual_memory_end a <=? next_object_ptr then grow else ret tt) ;;;
      local_state (modify (set_last (wrap32 (new_index + 1)))) ;;;
      ret (Some {| memory_ptr := virtual_pool_ptr_ a + new_index * chunk_size a;
                   index := new_index |})
  end.

Definition deallocate (index_to_free : Z) : M t unit :=
  let* pushed := on_queue (RingBuffer.try_push index_to_free) in
  if pushed then ret tt else on_queue (RingBuffer.push index_to_free).
End WithPlatform.

(** [operator[]]: the address of a slot, whether it was issued or not. *)
Definition at_index (a : t) (i : Z) : Z := virtual_pool_ptr_ a + i * chunk_size a.

(** The last byte of every issued slot is inside the committed memory. *)
Definition committed (a : t) : Prop :=
  0 < chunk_size a /\ chunk_size a < page_size a * PAGES_PER_NODE /\
  virtual_pool_ptr_ a <= actual_memory_end a /\
  page_allocation_permit a = 1 /\
  0 <= last_not_issued_index a <= RING_BUFFER_SIZE + 1 /\
  (last_not_issued_index a = 0 \/
   virtual_pool_ptr_ a + last_not_issued_index a * chunk_size a < actual_memory_end a).

(** [live] are the indices handed out and not given back: with the free ones
    they are exactly the issued indices, each once. *)
Definition accounts (a : t) (live : list Z) : Prop :=
  exists q, RingBuffer.holds (free_indexes_queue a) q /\
    NoDup (live ++ q) /\
    forall i, i ∈ live ++ q <-> 0 <= i < last_not_issued_index a.
End AllocatorPool.

(** ** [class MemoryManager]: one pool of 512-byte chunks *)
Module MemoryManager.
Section WithPlatform.
Context {W : Type} `{Platform W}.
(** [sizeof] of the two metadata structs is the compiler's. *)
Context (sizeof_ManagerMetaLayout sizeof_AllocatorPoolMetaLayout : Z).

Record t := mk { raw_meta_data_ptr_ : Z; memory_pool_512_ : AllocatorPool.t }.

Definition round_to_page (page_size size : Z) : Z :=
  let remainder := size mod page_size in
  if remainder =? 0 then size else size + (page_size - remainder).

Definition meta_storage_size (page_size : Z) : Z :=
  round_to_page page_size
    (sizeof_ManagerMetaLayout + sizeof_AllocatorPoolMetaLayout + RING_BUFFER_SIZE * 8).

Definition init_meta_storage (size : Z) : M (Machine W) t :=
  let* meta := do_call (c_mmap size) in
  let* pool := AllocatorPool.init 512 in
  ret (mk meta pool).

Definition init : M (Machine W) t :=
  let* page_size := do_call c_sysconf_page_size in
  init_meta_storage (meta_storage_size page_size).

Definition set_pool (p : AllocatorPool.t) (m : t) : t := mk (raw_meta_data_ptr_ m) p.

Definition allocate : SM W t (option AllocatorPool.AllocationResult) :=
  focus memory_pool_512_ set_pool AllocatorPool.allocate.
Definition deallocate (index_to_free : Z) : SM W t unit :=
  focus memory_pool_512_ set_pool (local_state (AllocatorPool.deallocate index_to_free)).
Definition at_index (m : t) (index : Z) : Z :=
  AllocatorPool.at_index (memory_pool_512_ m) index.
End WithPlatform.
End MemoryManager.

(** ** The free-index ring is a FIFO queue of capacity 4096 *)
Section RingBufferLemmas.
Implicit Types (r : RingBuffer.t) (q : list Z).

Lemma ring_view_empty : RingBuffer.view uint64_max = None.
Proof. done. Qed.

Lemma ring_view_item v : 0 <= v < uint64_max -> RingBuffer.view v = Some v.
Proof. intros Hv. unfold RingBuffer.view. by rewrite (proj2 (Z.eqb_neq _ _)) by lia. Qed.

Lemma ring_view_inv c v : RingBuffer.view c = Some v -> c = v /\ (v =? uint64_max) = false.
Proof. unfold RingBuffer.view. destruct (c =? uint64_max) eqn:E; [done|]. by intros [= <-]. Qed.

Lemma ring_length_le r q : RingBuffer.holds r q -> (length q <= 4096)%nat.
Proof. intros ((Hl & Hq & _) & _). rewrite Hl in Hq. exact Hq. Qed.

(** The test for a full ring compares counters that are never masked: it can
    only fire when [2^64 - 1] items are in. *)
Lemma ring_never_full r q :
  RingBuffer.holds r q -> (wrap64 (RingBuffer.head r + 1) =? RingBuffer.tail r) = false.
Proof.
  intros Hq. pose proof (ring_length_le r q Hq) as Hl. destruct Hq as (_ & -> & Ht).
  apply Z.eqb_neq. rewrite wrap64_add_l. intros He.
  rewrite <- (wrap64_small (RingBuffer.tail r)) in He at 2 by done.
  apply wrap64_inj in He; lia.
Qed.

Lemma ring_empty_test r q :
  RingBuffer.holds r q -> (RingBuffer.tail r =? RingBuffer.head r) = bool_decide (q = []).
Proof.
  intros Hq. pose proof (ring_length_le r q Hq) as Hl. destruct Hq as (_ & -> & Ht).
  destruct q as [|v q]; simpl length in *.
  - rewrite Z.add_0_r, wrap64_small by done. by rewrite Z.eqb_refl.
  - apply Z.eqb_neq. intros He.
    rewrite <- (wrap64_small (RingBuffer.tail r)) in He at 1 by done.
    apply wrap64_inj in He; lia.
Qed.

Lemma ring_load_run r i v :
  RingBuffer.ring_start_ptr r !! cell i = Some v ->
  RingBuffer.load_cell (normilize_ring_slot i) r = (Ret v, r).
Proof. unfold RingBuffer.load_cell. fold (cell i). by intros ->. Qed.

Lemma ring_place_run r q v :
  RingBuffer.holds r q -> 0 <= v < uint64_max -> (length q < 4096)%nat ->
  exists r', RingBuffer.try_place_into_queue (RingBuffer.head r) v r = (Ret true, r') /\
             RingBuffer.holds r' (q ++ [v]).
Proof.
  intros (Hr & Hh & Ht) Hv Hl. pose proof (ring_repr_length _ _ _ _ Hr) as Hlen.
  destruct (ring_repr_back _ _ _ _ Hr) as (c & Hc & Hcv); [by rewrite Hlen|].
  assert (c = uint64_max) as ->.
  { unfold RingBuffer.view in Hcv. by destruct (c =? uint64_max) eqn:E; [lia|]. }
  unfold RingBuffer.try_place_into_queue.
  erewrite bind_run by reflexivity. erewrite bind_run.
  2: { apply ring_load_run. simpl. rewrite Hh, cell_wrap64. exact Hc. }
  eexists. split; [reflexivity|].
  unfold RingBuffer.holds. simpl. fold (cell (RingBuffer.head r)).
  rewrite Hh, cell_wrap64, wrap64_add_l, length_app. split_and!; [|f_equal; simpl; lia|lia..].
  apply ring_repr_push; [done | by rewrite Hlen | by apply ring_view_item].
Qed.

Lemma ring_place_full r q v :
  RingBuffer.holds r q -> length q = 4096%nat ->
  (RingBuffer.try_place_into_queue (RingBuffer.head r) v r).1 = Halt Blocked.
Proof.
  intros (Hr & Hh & Ht) Hl. pose proof (ring_repr_length _ _ _ _ Hr) as Hlen.
  destruct (ring_repr_full _ _ _ _ Hr) as (c & w & Hc & Hcv & _); [by rewrite Hlen|].
  apply ring_view_inv in Hcv as [-> Hw].
  unfold RingBuffer.try_place_into_queue. erewrite bind_run by reflexivity.
  erewrite bind_run.
  2: { apply ring_load_run. simpl. rewrite Hh, cell_wrap64. exact Hc. }
  by rewrite Hw.
Qed.

Lemma ring_try_push_place r q v :
  RingBuffer.holds r q ->
  RingBuffer.try_push v r = RingBuffer.try_place_into_queue (RingBuffer.head r) v r.
Proof.
  intros Hq. unfold RingBuffer.try_push. erewrite !bind_run by reflexivity.
  by rewrite (ring_never_full r q Hq).
Qed.

Lemma ring_pop_empty r : RingBuffer.holds r [] -> RingBuffer.try_pop r = (Ret None, r).
Proof.
  intros Hq. unfold RingBuffer.try_pop. erewrite !bind_run by reflexivity.
  by rewrite (ring_empty_test r [] Hq).
Qed.

Lemma ring_pop_run r v q :
  RingBuffer.holds r (v :: q) ->
  exists r', RingBuffer.try_pop r = (Ret (Some v), r') /\ RingBuffer.holds r' q.
Proof.
  intros Hq. pose proof (ring_empty_test r _ Hq) as Hne.
  rewrite bool_decide_false in Hne by done. destruct Hq as (Hr & Hh & Ht).
  destruct (ring_repr_head _ _ _ _ _ Hr) as (c & Hc & Hcv).
  apply ring_view_inv in Hcv as [-> Hv].
  unfold RingBuffer.try_pop. erewrite !bind_run by reflexivity. rewrite Hne.
  erewrite bind_run by reflexivity. erewrite bind_run by (apply ring_load_run, Hc).
  rewrite Hv. eexists. split; [reflexivity|].
  unfold RingBuffer.holds. simpl. fold (cell (RingBuffer.tail r)).
  split_and!; [| |apply wrap64_range..].
  - apply (proj1 (ring_repr_wrap64 _ _ _ _)). eapply ring_repr_pop; [exact Hr | apply ring_view_empty].
  - rewrite wrap64_add_l, Hh. f_equal. simpl. lia.
Qed.

Lemma ring_init_holds : RingBuffer.holds RingBuffer.init [].
Proof. split; [by apply ring_repr_init|]. split; [done|]. simpl. lia. Qed.

#[export] Program Instance RingBuffer_fifo : FifoQueue RingBuffer.t Z := {
  fifo_push := RingBuffer.try_push;
  fifo_pop := RingBuffer.try_pop;
  fifo_capacity := 4096;
  fifo_item v := 0 <= v < uint64_max;
  fifo_holds := RingBuffer.holds;
  fifo_pop_empty := ring_pop_empty
}.
Next Obligation.
  intros r q v Hq Hv Hl. rewrite (ring_try_push_place r q v Hq). by apply ring_place_run.
Qed.
Next Obligation. intros r q v. apply ring_pop_run. Qed.
End RingBufferLemmas.

(** ** The allocator *)
Section AllocatorLemmas.
Context {W : Type} `{Platform W}.
Implicit Types (a : AllocatorPool.t) (live : list Z) (k : Machine W).
Import AllocatorPool.

(** Growing either commits one more node or, when [mprotect] fails, ends
    the process. *)
Definition mprotect_failed k : Prop :=
  exists address length, Called (c_mprotect address length) (-1) ∈ trace k.

Lemma grow_spec k a (Q : outcome unit -> Machine W * AllocatorPool.t -> Prop) :
  page_allocation_permit a = 1 ->
  (forall k', Q (Ret tt) (k', set_end (actual_memory_end a + page_size a * PAGES_PER_NODE) a)) ->
  (forall s, mprotect_failed s.1 -> Q (Halt Terminated) s) ->
  wp grow Q (k, a).
Proof.
  intros Hp Hok Hterm.
  destruct a as [base chunk page mend permit last fq]. simpl in *. subst permit.
  unfold wp, grow, allocate_new_node, lift, local_state, zoom, bind, gets, modify, ret, do_call.
  simpl. destruct (sys_call _ _) as [[n e] w]. simpl.
  destruct (n =? -1) eqn:E; simpl; [|apply Hok].
  apply Z.eqb_eq in E as ->. apply Hterm. do 2 eexists. do 2 right. left.
Qed.

Lemma accounts_length a live :
  accounts a live -> 0 <= last_not_issued_index a ->
  exists q, RingBuffer.holds (free_indexes_queue a) q /\
            Z.of_nat (length live + length q) = last_not_issued_index a.
Proof.
  intros (q & Hq & Hnd & Hiff) Hl. exists q. split; [done|].
  rewrite <- length_app.
  assert (live ++ q ≡ₚ seqZ 0 (last_not_issued_index a)) as ->.
  { apply NoDup_Permutation; [done | apply NoDup_seqZ |].
    intros i. rewrite Hiff, elem_of_seqZ. lia. }
  rewrite length_seqZ. lia.
Qed.

Lemma at_index_disjoint a i j :
  0 < chunk_size a -> i <> j ->
  at_index a i + chunk_size a <= at_index a j \/ at_index a j + chunk_size a <= at_index a i.
Proof. unfold at_index. nia. Qed.

Lemma accounts_take a live i q :
  RingBuffer.holds (free_indexes_queue a) (i :: q) -> NoDup (live ++ i :: q) ->
  (forall j, j ∈ live ++ i :: q <-> 0 <= j < last_not_issued_index a) ->
  (i ∉ live) /\ NoDup ((i :: live) ++ q) /\
  forall j, j ∈ (i :: live) ++ q <-> 0 <= j < last_not_issued_index a.
Proof.
  intros _ Hnd Hiff.
  assert ((i :: live) ++ q ≡ₚ live ++ i :: q) as Hp by (simpl; apply Permutation_middle).
  split_and!.
  - apply NoDup_app in Hnd as (_ & Hd & _). intros Hi. apply (Hd i Hi). left.
  - by rewrite Hp.
  - intros j. by rewrite Hp.
Qed.

Lemma accounts_fresh a live :
  0 <= last_not_issued_index a ->
  NoDup live -> (forall j, j ∈ live <-> 0 <= j < last_not_issued_index a) ->
  (last_not_issued_index a ∉ live) /\ NoDup (last_not_issued_index a :: live) /\
  forall j, j ∈ last_not_issued_index a :: live <-> 0 <= j < last_not_issued_index a + 1.
Proof.
  intros Hl Hnd Hiff.
  assert (last_not_issued_index a ∉ live) as Hn by (rewrite Hiff; lia).
  split_and!; [done | by constructor |].
  intros j. rewrite elem_of_cons, Hiff. lia.
Qed.

(** What [allocate] promises, on every outcome. *)
Definition allocate_post a live (r : outcome (option AllocationResult))
    (s : Machine W * AllocatorPool.t) : Prop :=
  match r with
  | Ret (Some res) =>
    memory_ptr res = at_index a (index res) /\ (index res ∉ live) /\
    virtual_pool_ptr_ a <= memory_ptr res /\
    memory_ptr res + chunk_size a <= actual_memory_end s.2 /\
    (forall j, j ∈ live ->
       memory_ptr res + chunk_size a <= at_index a j \/
       at_index a j + chunk_size a <= memory_ptr res) /\
    committed s.2 /\ accounts s.2 (index res :: live)
  | Ret None => s.2 = a /\ length live = S (Z.to_nat RING_BUFFER_SIZE)
  | Halt h => h = Terminated /\ mprotect_failed s.1
  end.

Lemma on_queue_pop_run k a q v r' :
  RingBuffer.holds (free_indexes_queue a) q ->
  RingBuffer.try_pop (free_indexes_queue a) = (Ret v, r') ->
  local_state (on_queue RingBuffer.try_pop) (k, a) = (Ret v, (k, set_queue r' a)).
Proof.
  intros _ Hp. apply local_state_run.
  unfold on_queue. erewrite zoom_run by exact Hp. done.
Qed.

Lemma allocate_free k a live i q :
  committed a -> RingBuffer.holds (free_indexes_queue a) (i :: q) ->
  NoDup (live ++ i :: q) ->
  (forall j, j ∈ live ++ i :: q <-> 0 <= j < last_not_issued_index a) ->
  wp allocate (allocate_post a live) (k, a).
Proof.
  intros Hc Hq Hnd Hiff. destruct (ring_pop_run _ _ _ Hq) as (r' & Hpop & Hq').
  destruct (accounts_take a live i q Hq Hnd Hiff) as (Hni & Hnd' & Hiff').
  unfold wp, allocate. erewrite bind_run by (eapply on_queue_pop_run; eauto).
  erewrite bind_run by reflexivity. simpl.
  assert (0 <= i < last_not_issued_index a) as Hi by (apply Hiff, elem_of_app; right; left).
  destruct Hc as (Hch & Hpg & Hbase & Hperm & Hlast & Hend).
  split_and!; try done.
  - unfold at_index. nia.
  - destruct Hend; unfold at_index; nia.
  - intros j Hj. apply at_index_disjoint; [done|]. by intros ->.
  - by exists q.
Qed.

(** With no free index the pool issues its next one. *)
Definition fresh_post a (r : outcome (option AllocationResult))
    (s : Machine W * AllocatorPool.t) : Prop :=
  match r with
  | Ret (Some res) => exists e,
      actual_memory_end a <= e /\ at_index a (last_not_issued_index a + 1) < e /\
      res = {| memory_ptr := at_index a (last_not_issued_index a);
               index := last_not_issued_index a |} /\
      s.2 = set_last (last_not_issued_index a + 1) (set_end e a)
  | Ret None => False
  | Halt h => h = Terminated /\ mprotect_failed s.1
  end.

Lemma allocate_fresh k a :
  committed a -> RingBuffer.holds (free_indexes_queue a) [] ->
  last_not_issued_index a <= RING_BUFFER_SIZE ->
  wp allocate (fresh_post a) (k, a).
Proof.
  intros (Hch & Hpg & Hbase & Hperm & Hlast & Hend) Hq Hroom.
  unfold wp, allocate.
  erewrite bind_run by (eapply on_queue_pop_run; [exact Hq | by apply ring_pop_empty]).
  replace (set_queue (free_indexes_queue a) a) with a by by destruct a.
  erewrite bind_run by reflexivity. cbn [fst snd].
  rewrite (proj2 (Z.ltb_ge _ _) Hroom).
  assert (wrap32 (last_not_issued_index a + 1) = last_not_issued_index a + 1) as ->.
  { apply Z.mod_small. unfold RING_BUFFER_SIZE in *. lia. }
  destruct (Z.leb_spec (actual_memory_end a)
    (virtual_pool_ptr_ a + (last_not_issued_index a + 1) * chunk_size a)) as [Hgrow|Hfits].
  - apply wp_bind, grow_spec; [done | | by intros s Hs; split]. intros k'.
    exists (actual_memory_end a + page_size a * PAGES_PER_NODE).
    split; [lia|]. split; [|done]. unfold at_index. rewrite Z.mul_add_distr_r.
    destruct Hend as [H0|H0]; [rewrite H0|]; lia.
  - exists (actual_memory_end a). split; [lia|]. split; [done|]. split; [done|]. by destruct a.
Qed.

(** The state a fresh index leaves behind. *)
Lemma committed_fresh a e :
  committed a -> last_not_issued_index a <= RING_BUFFER_SIZE ->
  actual_memory_end a <= e -> at_index a (last_not_issued_index a + 1) < e ->
  committed (set_last (last_not_issued_index a + 1) (set_end e a)).
Proof.
  intros (Hch & Hpg & Hbase & Hperm & Hlast & Hend) Hroom He Hlt.
  unfold committed, at_index in *. simpl. split_and!; try done; lia.
Qed.

Lemma allocate_full k a live :
  committed a -> accounts a live -> RingBuffer.holds (free_indexes_queue a) [] ->
  RING_BUFFER_SIZE < last_not_issued_index a ->
  wp allocate (allocate_post a live) (k, a).
Proof.
  intros (_ & _ & _ & _ & Hlast & _) Hacc Hq Hfull. unfold wp, allocate.
  erewrite bind_run by (eapply on_queue_pop_run; [exact Hq | by apply ring_pop_empty]).
  replace (set_queue (free_indexes_queue a) a) with a by by destruct a.
  erewrite bind_run by reflexivity. cbn [fst snd].
  rewrite (proj2 (Z.ltb_lt _ _) Hfull). split; [done|].
  destruct (accounts_length a live Hacc) as (q & Hq2 & Hlen); [lia|].
  pose proof (ring_empty_test _ _ Hq) as H1. rewrite (ring_empty_test _ _ Hq2) in H1.
  destruct q; [|done]. simpl in Hlen. unfold RING_BUFFER_SIZE in *. lia.
Qed.

Lemma allocate_new k a live :
  committed a -> RingBuffer.holds (free_indexes_queue a) [] -> NoDup live ->
  (forall j, j ∈ live <-> 0 <= j < last_not_issued_index a) ->
  wp allocate (allocate_post a live) (k, a).
Proof.
  intros Hc Hq Hnd Hiff.
  destruct (accounts_fresh a live) as (Hni & Hnd' & Hiff'); [apply Hc | done..|].
  destruct (Z.lt_ge_cases RING_BUFFER_SIZE (last_not_issued_index a)) as [Hfull|Hroom].
  { apply allocate_full; [done | | done | done]. exists []. by rewrite app_nil_r. }
  eapply wp_mono; [|by apply allocate_fresh].
  intros [[res|]|h] s; simpl; [|done..]. intros (e & He & Hlt & -> & Hs).
  pose proof (committed_fresh a e Hc Hroom He Hlt) as Hc'.
  rewrite Hs. destruct Hc as (Hch & _ & _ & _ & Hlast & _).
  simpl. unfold at_index in *. split_and!; try done; try nia.
  - intros j Hj. apply at_index_disjoint; [done|]. by intros <-.
  - exists []. by rewrite app_nil_r.
Qed.

Lemma allocate_correct k a live :
  committed a -> accounts a live -> wp allocate (allocate_post a live) (k, a).
Proof.
  intros Hc ([|i q] & Hq & Hnd & Hiff).
  - rewrite app_nil_r in *. by apply allocate_new.
  - by eapply allocate_free.
Qed.

Lemma init_correct k chunk a k' :
  AllocatorPool.init chunk k = (Ret a, k') ->
  0 < chunk < page_size a * PAGES_PER_NODE ->
  committed a /\ accounts a [] /\ chunk_size a = chunk.
Proof.
  unfold AllocatorPool.init, init_meta_storage, bind, ret, do_call.
  destruct (sys_call _ _) as [[n1 e1] w1]. simpl.
  destruct (sys_call _ _) as [[n2 e2] w2]. intros [= <- <-] Hchunk. simpl in *.
  unfold committed. simpl. split_and!; try lia; try done; try (by left); try (unfold RING_BUFFER_SIZE; lia).
  exists []. split; [apply ring_init_holds|]. simpl.
  split; [constructor|]. intros i. rewrite elem_of_nil. lia.
Qed.

(** Giving an index back succeeds exactly when the ring has room for it. *)
Lemma deallocate_correct a live i a' :
  committed a -> accounts a (i :: live) ->
  deallocate i a = (Ret tt, a') ->
  committed a' /\ accounts a' live /\
  chunk_size a' = chunk_size a /\ virtual_pool_ptr_ a' = virtual_pool_ptr_ a /\
  actual_memory_end a' = actual_memory_end a.
Proof.
  intros Hc (q & Hq & Hnd & Hiff) Hd.
  assert (0 <= i < uint64_max) as Hi.
  { assert (0 <= i < last_not_issued_index a) by (apply Hiff; left).
    destruct Hc as (_ & _ & _ & _ & Hl & _). unfold RING_BUFFER_SIZE, uint64_max in *. lia. }
  unfold deallocate, on_queue in Hd. revert Hd.
  destruct (decide (length q = 4096%nat)) as [Hfull|Hroom].
  { unfold bind, zoom. rewrite (ring_try_push_place _ q) by done.
    pose proof (ring_place_full _ q i Hq Hfull) as Hb.
    destruct (RingBuffer.try_place_into_queue _ _ _) as [r r']. simpl in Hb. by subst r. }
  pose proof (ring_length_le _ _ Hq).
  destruct (ring_place_run _ q i Hq Hi) as (r' & Hr & Hq'); [lia|].
  erewrite bind_run.
  2: { apply zoom_run. rewrite (ring_try_push_place _ q) by done. exact Hr. }
  intros [= <-]. split; [exact Hc|]. split; [|done].
  exists (q ++ [i]). split; [done|].
  assert (live ++ q ++ [i] ≡ₚ (i :: live) ++ q) as Hp by (simpl; solve_Permutation).
  split; [by rewrite Hp | intros j; by rewrite Hp].
Qed.

Lemma accounts_perm a live live' : live ≡ₚ live' -> accounts a live -> accounts a live'.
Proof.
  intros Hp (q & Hq & Hnd & Hiff). exists q. split; [done|].
  split; [by rewrite <- Hp | intros j; by rewrite <- Hp].
Qed.
End AllocatorLemmas.

(** ** Properties *)

(** C31: any sequence of pushes and pops on a fresh [RingBuffer] whose items are
    not the free marker and never number more than 4096 behaves as a FIFO
    queue: every push succeeds, every pop returns the oldest item still in, or
    nothing when there is none, and the 64-bit counters may wrap. *)
Theorem RingBuffer_is_fifo (ops : list (queue_op Z)) outs q :
  ops_items (fun v => 0 <= v < uint64_max) ops ->
  spec_ops 4096 ops [] = Some (outs, q) ->
  exists r, run_ops (H := RingBuffer_fifo) ops RingBuffer.init = (Ret outs, r) /\
            RingBuffer.holds r q.
Proof.
  intros Hi He.
  exact (fifo_refines (H := RingBuffer_fifo) ops _ [] outs q ring_init_holds Hi He).
Qed.

Lemma RingBuffer_is_fifo_witness :
  exists r, run_ops (H := RingBuffer_fifo) [Push 7; Push 9; Pop; Push 3; Pop; Pop; Pop]
              RingBuffer.init
            = (Ret [Some 7; Some 9; Some 7; Some 3; Some 9; Some 3; None], r) /\
            RingBuffer.holds r [].
Proof.
  apply RingBuffer_is_fifo; [|reflexivity].
  repeat constructor; unfold uint64_max; lia.
Defined.

(** [RingBuffer::try_push] never answers [false]: with 4096 items in, the
    test [last_free_slot + 1 == tail] on the unmasked counters still fails, the
    head is advanced and the caller waits for the cell. *)
Theorem try_push_full_waits (r : RingBuffer.t) q v :
  RingBuffer.holds r q -> length q = 4096%nat ->
  (RingBuffer.try_push v r).1 = Halt Blocked.
Proof.
  intros Hq Hfull. rewrite (ring_try_push_place r q v Hq). by apply (ring_place_full _ q).
Qed.

Definition ring_of_fives : RingBuffer.t := RingBuffer.mk 4096 0 (replicate 4096 5).

Lemma ring_of_fives_holds : RingBuffer.holds ring_of_fives (replicate 4096 5).
Proof.
  split; [|split; [by rewrite length_replicate | simpl; lia]].
  split; [apply length_replicate|]. split; [done|]. intros j Hj.
  change (j < length (replicate 4096 5))%nat in Hj.
  change (RingBuffer.view <$> replicate 4096 5 !! cell (0 + Z.of_nat j)
          = Some (replicate 4096 5 !! j)).
  rewrite length_replicate in Hj.
  rewrite !lookup_replicate_2 by (first [exact Hj | apply cell_lt]). done.
Qed.

Lemma try_push_full_waits_witness : (RingBuffer.try_push 8 ring_of_fives).1 = Halt Blocked.
Proof.
  exact (try_push_full_waits _ _ 8 ring_of_fives_holds (length_replicate 4096 5)).
Defined.

Section PoolRuns.
Context {W : Type} `{Platform W}.

(** A client of one pool: it gives back only indices it holds. *)
Inductive pool_run (chunk : Z) : Machine W -> AllocatorPool.t -> list Z -> Prop :=
| run_init k a k' :
    AllocatorPool.init chunk k = (Ret a, k') ->
    0 < chunk < AllocatorPool.page_size a * AllocatorPool.PAGES_PER_NODE ->
    pool_run chunk k' a []
| run_allocate k a live res k' a' :
    pool_run chunk k a live ->
    AllocatorPool.allocate (k, a) = (Ret (Some res), (k', a')) ->
    pool_run chunk k' a' (AllocatorPool.index res :: live)
| run_refused k a live k' a' :
    pool_run chunk k a live ->
    AllocatorPool.allocate (k, a) = (Ret None, (k', a')) ->
    pool_run chunk k' a' live
| run_deallocate k a live live' i a' :
    pool_run chunk k a live -> live ≡ₚ i :: live' ->
    AllocatorPool.deallocate i a = (Ret tt, a') ->
    pool_run chunk k a' live'.

Lemma pool_run_invariant chunk k a live :
  pool_run chunk k a live -> AllocatorPool.committed a /\ AllocatorPool.accounts a live.
Proof.
  induction 1 as [k a k' Hi Hc | k a live res k' a' _ [Hc Ha] Hr
                 | k a live k' a' _ [Hc Ha] Hr | k a live live' i a' _ [Hc Ha] Hp Hd].
  - destruct (init_correct _ _ _ _ Hi Hc) as (? & ? & _). done.
  - pose proof (allocate_correct k a live Hc Ha) as Hpost. unfold wp in Hpost.
    rewrite Hr in Hpost. simpl in Hpost. by destruct Hpost as (_ & _ & _ & _ & _ & ?).
  - pose proof (allocate_correct k a live Hc Ha) as Hpost. unfold wp in Hpost.
    rewrite Hr in Hpost. simpl in Hpost. destruct Hpost as [-> _]. done.
  - apply (accounts_perm _ _ _ Hp) in Ha.
    destruct (deallocate_correct a live' i a' Hc Ha Hd) as (? & ? & _). done.
Qed.


(** C30: [allocate] answers on every state a client can reach: with a slot it
    does not already hold, with [nullopt] only when all 4097 indices are out,
    or by ending the process, and then only after a failed [mprotect]. *)
Theorem allocate_answers chunk k a live :
  pool_run chunk k a live ->
  match AllocatorPool.allocate (k, a) with
  | (Ret (Some res), _) =>
      AllocatorPool.memory_ptr res = AllocatorPool.at_index a (AllocatorPool.index res) /\
      (AllocatorPool.index res ∉ live)
  | (Ret None, s) => s.2 = a /\ length live = 4097%nat
  | (Halt h, s) => h = Terminated /\ mprotect_failed s.1
  end.
Proof.
  intros Hrun. destruct (pool_run_invariant _ _ _ _ Hrun) as [Hc Ha].
  pose proof (allocate_correct k a live Hc Ha) as Hpost. unfold wp in Hpost.
  destruct (AllocatorPool.allocate (k, a)) as [[[res|]|h] s]; simpl in Hpost; [|done..].
  by destruct Hpost as (? & ? & _).
Qed.
End PoolRuns.

Definition quiet_pool_0 : Machine Script * AllocatorPool.t :=
  match AllocatorPool.init (H := scripted quiet_calls) 512 (script_of []) with
  | (Ret a, k) => (k, a)
  | (Halt _, k) => (k, AllocatorPool.mk 0 0 0 0 0 0 RingBuffer.init)
  end.
Definition quiet_pool_1 := (AllocatorPool.allocate (H := scripted quiet_calls) quiet_pool_0).2.
Definition quiet_pool_2 := (AllocatorPool.allocate (H := scripted quiet_calls) quiet_pool_1).2.

Lemma quiet_pool_run : pool_run (H := scripted quiet_calls) 512 quiet_pool_2.1 quiet_pool_2.2 [1; 0].
Proof.
  apply (run_allocate (H := scripted quiet_calls) 512 quiet_pool_1.1 quiet_pool_1.2 [0]
           {| AllocatorPool.memory_ptr := 512; AllocatorPool.index := 1 |});
    [|by vm_compute].
  apply (run_allocate (H := scripted quiet_calls) 512 quiet_pool_0.1 quiet_pool_0.2 []
           {| AllocatorPool.memory_ptr := 0; AllocatorPool.index := 0 |});
    [|by vm_compute].
  by apply (run_init (H := scripted quiet_calls) 512 (script_of [])); vm_compute.
Qed.


Lemma allocate_answers_witness :
  match AllocatorPool.allocate (H := scripted quiet_calls) (quiet_pool_2.1, quiet_pool_2.2) with
  | (Ret (Some res), _) =>
      AllocatorPool.memory_ptr res = AllocatorPool.at_index quiet_pool_2.2 (AllocatorPool.index res) /\
      (AllocatorPool.index res ∉ [1; 0])
  | (Ret None, s) => s.2 = quiet_pool_2.2 /\ length [1; 0] = 4097%nat
  | (Halt h, s) => h = Terminated /\ mprotect_failed s.1
  end.
Proof. exact (allocate_answers (H := scripted quiet_calls) 512 _ _ _ quiet_pool_run). Defined.

(** The mapping [MemoryManager::init] asks for is a whole number of pages
    and holds the manager's metadata, the pool's metadata and the 4096 cells of
    the free-index ring one after the other. *)
Lemma meta_storage_fits sizeof_manager sizeof_pool page :
  0 < page -> 0 <= sizeof_manager -> 0 <= sizeof_pool ->
  MemoryManager.meta_storage_size sizeof_manager sizeof_pool page mod page = 0 /\
  sizeof_manager + sizeof_pool + RING_BUFFER_SIZE * 8
    <= MemoryManager.meta_storage_size sizeof_manager sizeof_pool page
    < sizeof_manager + sizeof_pool + RING_BUFFER_SIZE * 8 + page.
Proof.
  intros Hp Hm Hq. unfold MemoryManager.meta_storage_size, MemoryManager.round_to_page.
  set (n := sizeof_manager + sizeof_pool + RING_BUFFER_SIZE * 8).
  pose proof (Z.mod_pos_bound n page Hp). pose proof (Z.div_mod n page ltac:(lia)).
  destruct (n mod page =? 0) eqn:E; [lia|]. split; [|lia].
  replace (n + (page - n mod page)) with ((n / page + 1) * page) by lia.
  by apply Z.mod_mul, Z.neq_sym, Z.lt_neq.
Qed.
