(* ===== verification/AtomicQueue.v ===== *)
(** * [core/atomic_queue.h]: the bounded queue behind every hand-over

    [AtomicQueue<T>] carries the free slots of the connection pool, the raw
    network and console tasks, the task tags and the scheduler's tasks.  One
    thread at a time, as in [MemoryManager.v]: a wait on a cell that only
    another thread can change is [Blocked]. *)
From S2P Require Import Prelude.
From S2P Require Import Ring.
From S2P Require Import Platform.
From S2P Require Import MemoryManager.

#[local] Open Scope Z_scope.
#[local] Open Scope bsm_scope.

(** [struct AtomicSlot]: [object_] is [None] once the object was destroyed. *)
Record AtomicSlot (T : Type) := mkSlot { is_initialized_ : bool; object_ : option T }.
Arguments mkSlot {T} _ _.
Arguments is_initialized_ {T} _.
Arguments object_ {T} _.

Module AtomicQueue.
Section Queue.
Context {T : Type}.

Record t := mk { head : Z; tail : Z; memory_queue : list (AtomicSlot T) }.

Definition set_head (h : Z) (a : t) : t := mk h (tail a) (memory_queue a).
Definition set_tail (n : Z) (a : t) : t := mk (head a) n (memory_queue a).
Definition set_slot (i : Z) (s : AtomicSlot T) (a : t) : t :=
  mk (head a) (tail a) (<[Z.to_nat i := s]> (memory_queue a)).

Definition slot_at (i : Z) : M t (AtomicSlot T) := fun a =>
  match memory_queue a !! Z.to_nat i with
  | Some s => (Ret s, a)
  | None => (Halt Undefined, a)
  end.

(** [AtomicSlot::take] moves the object out, destroys it and clears the flag. *)
Definition take (i : Z) : M t T :=
  let* s := slot_at i in
  match object_ s with
  | Some v => modify (set_slot i (mkSlot false None)) ;;; ret v
  | None => stop Undefined
  end.

Definition emplace (i : Z) (v : T) : M t bool :=
  let* s := slot_at i in
  modify (set_slot i (mkSlot (is_initialized_ s) (Some v))) ;;; ret true.

Definition store_initialized (i : Z) (b : bool) : M t unit :=
  let* s := slot_at i in
  modify (set_slot i (mkSlot b (object_ s))).

Definition try_pop : M t (option T) :=
  let* last_busy_index := gets head in
  let* tl := gets tail in
  if last_busy_index =? tl then ret None
  else
    let slot := normilize_ring_slot last_busy_index in
    modify (set_head (wrap64 (last_busy_index + 1))) ;;;
    let* s := slot_at slot in
    if is_initialized_ s then
      let* data := take slot in
      store_initialized slot false ;;;
      ret (Some data)
    else stop Blocked.

Definition try_push (object : T) : M t bool :=
  let* last_free_index := gets tail in
  let* last_busy_index := gets head in
  let slot := normilize_ring_slot last_free_index in
  let normalized_busy := normilize_ring_slot last_busy_index in
  if slot + 1 =? normalized_busy then ret false
  else
    modify (set_tail (wrap64 (last_free_index + 1))) ;;;
    let* s := slot_at slot in
    if is_initialized_ s then stop Blocked
    else
      emplace slot object ;;;
      store_initialized slot true ;;;
      ret true.

(** The counter is read into a [uint16_t]. *)
Definition wait_for_data : M t unit :=
  let* h := gets head in
  let* s := slot_at (normilize_ring_slot (wrap16 h)) in
  if is_initialized_ s then ret tt else stop Blocked.

Definition space_exhausted (a : t) : bool :=
  normilize_ring_slot (wrap16 (tail a)) + 1 =? normilize_ring_slot (head a).

(** [do { head.wait(v); } while (head != v);] where [v] is the value read
    before: [reads] are the values of [head] its condition loads, one per
    wake-up.  [true] is the exit of the loop. *)
Fixpoint wait_for_space_loop (v : Z) (reads : list Z) : bool :=
  match reads with
  | [] => false
  | h :: rest => if negb (h =? v) then wait_for_space_loop v rest else true
  end.

Definition wait_for_space (reads : list Z) : M t unit :=
  let* a := get in
  if space_exhausted a then
    if wait_for_space_loop (head a) reads then ret tt else stop Blocked
  else ret tt.

Definition empty : t :=
  mk 0 0 (replicate (Z.to_nat RING_BUFFER_SIZE) (mkSlot false None)).

Definition view (s : AtomicSlot T) : option (option T) :=
  if is_initialized_ s then Some (object_ s) else None.

Definition holds (a : t) (q : list T) : Prop :=
  ring_repr view (memory_queue a) (head a) (Some <$> q) /\
  tail a = wrap64 (head a + Z.of_nat (length q)) /\
  0 <= head a < 2 ^ 64.
End Queue.
Arguments t : clear implicits.

(** The constructor: a memory manager of its own, 4096 slots allocated in a
    row, an empty [AtomicSlot] built in each.  The list holds the addresses,
    which [operator[]] later finds again. *)
Section Construction.
Context {W : Type} `{Platform W} (sizeof_manager sizeof_pool : Z).

Fixpoint construct_slots (n : nat) : SM W MemoryManager.t (list Z) :=
  match n with
  | O => ret []
  | S m =>
    let* allocation_result := MemoryManager.allocate in
    match allocation_result with
    | Some r =>
      let* rest := construct_slots m in
      ret (AllocatorPool.memory_ptr r :: rest)
    | None => stop Undefined
    end
  end.

Definition construct : M (Machine W) (list Z * MemoryManager.t) :=
  let* manager := MemoryManager.init sizeof_manager sizeof_pool in
  fun k => match construct_slots (Z.to_nat RING_BUFFER_SIZE) (k, manager) with
           | (Ret slots, (k', manager')) => (Ret (slots, manager'), k')
           | (Halt h, (k', _)) => (Halt h, k')
           end.
End Construction.
End AtomicQueue.

(** ** Lemmas *)
Section AtomicQueueLemmas.
Context {T : Type}.
Implicit Types (a : AtomicQueue.t T) (q : list T).
Import AtomicQueue.

Lemma view_inv (s : AtomicSlot T) o :
  view s = Some o -> s = mkSlot true o.
Proof. unfold view. destruct s as [[] o']; simpl; [by intros [= ->] | done]. Qed.

Lemma view_none (s : AtomicSlot T) : view s = None -> is_initialized_ s = false.
Proof. unfold view. by destruct s as [[] o']. Qed.

Lemma queue_length_le a q : holds a q -> (length q <= 4096)%nat.
Proof.
  intros ((Hl & Hq & _) & _). rewrite Hl, length_fmap in Hq. exact Hq.
Qed.

Lemma slot_at_run a i s :
  memory_queue a !! cell i = Some s -> slot_at (normilize_ring_slot i) a = (Ret s, a).
Proof. unfold slot_at. fold (cell i). by intros ->. Qed.

(** The test for a full queue compares masked counters. *)
Lemma full_test a q :
  holds a q ->
  (normilize_ring_slot (tail a) + 1 =? normilize_ring_slot (head a)) =
  bool_decide (length q = 4095%nat /\ normilize_ring_slot (head a) <> 0).
Proof.
  intros Hq. pose proof (queue_length_le a q Hq) as Hl. destruct Hq as (_ & -> & Hh).
  rewrite !normilize_mod, <- (wrap64_mod_pow2 12 ltac:(lia) (wrap64 _)), !wrap64_mod_pow2
    by lia.
  change (2 ^ 12) with RING_BUFFER_SIZE. unfold RING_BUFFER_SIZE.
  pose proof (Z.mod_pos_bound (head a) 4096 ltac:(lia)).
  pose proof (Z.mod_pos_bound (head a + Z.of_nat (length q)) 4096 ltac:(lia)).
  pose proof (Z.div_mod (head a) 4096 ltac:(lia)).
  pose proof (Z.div_mod (head a + Z.of_nat (length q)) 4096 ltac:(lia)).
  case_bool_decide as Hd; [apply Z.eqb_eq | apply Z.eqb_neq]; lia.
Qed.

Lemma empty_test a q : holds a q -> (head a =? tail a) = bool_decide (q = []).
Proof.
  intros Hq. pose proof (queue_length_le a q Hq) as Hl. destruct Hq as (_ & -> & Hh).
  destruct q as [|v q]; simpl length in *.
  - rewrite Z.add_0_r, wrap64_small by done. by rewrite Z.eqb_refl.
  - apply Z.eqb_neq. intros He.
    rewrite <- (wrap64_small (head a)) in He at 1 by done.
    apply wrap64_inj in He; lia.
Qed.

Lemma slot_at_set a i s :
  length (memory_queue a) = Z.to_nat RING_BUFFER_SIZE ->
  slot_at (normilize_ring_slot i) (set_slot (normilize_ring_slot i) s a)
  = (Ret s, set_slot (normilize_ring_slot i) s a).
Proof.
  intros Hl. apply slot_at_run. simpl. fold (cell i).
  apply list_lookup_insert_eq. rewrite Hl. apply cell_lt.
Qed.

Lemma set_slot_twice a i s s' : set_slot i s (set_slot i s' a) = set_slot i s a.
Proof. unfold set_slot. simpl. f_equal. apply list_insert_insert_eq. Qed.

(** A push that passes the test and finds its cell empty. *)
Lemma push_run a q v :
  holds a q -> (length q < 4096)%nat ->
  (normilize_ring_slot (tail a) + 1 =? normilize_ring_slot (head a)) = false ->
  exists a', try_push v a = (Ret true, a') /\ holds a' (q ++ [v]).
Proof.
  intros (Hr & Ht & Hh) Hl Htest. pose proof (ring_repr_length _ _ _ _ Hr) as Hlen.
  destruct (ring_repr_back _ _ _ _ Hr) as (s & Hs & Hv); [by rewrite Hlen, length_fmap|].
  rewrite length_fmap in Hs. apply view_none in Hv.
  assert (Hc : memory_queue a !! cell (tail a) = Some s) by (by rewrite Ht, cell_wrap64).
  unfold try_push. erewrite !bind_run by reflexivity. rewrite Htest.
  erewrite bind_run by reflexivity. erewrite bind_run by (by apply slot_at_run).
  rewrite Hv. unfold emplace, store_initialized. rewrite !bind_bind.
  erewrite bind_run by (by apply slot_at_run). rewrite bind_bind.
  erewrite bind_run by reflexivity. rewrite bind_ret, bind_bind.
  erewrite bind_run by (by apply slot_at_set). erewrite bind_run by reflexivity.
  eexists. split; [reflexivity|]. rewrite set_slot_twice. simpl.
  unfold holds. simpl. rewrite fmap_app, length_app, Ht, wrap64_add_l. simpl.
  split_and!; [|f_equal; lia | lia..].
  fold (cell (wrap64 (head a + Z.of_nat (length q)))). rewrite cell_wrap64.
  rewrite <- (length_fmap Some q).
  apply ring_repr_push; [done | by rewrite Hlen, length_fmap | done].
Qed.

Lemma push_refused a v :
  (normilize_ring_slot (tail a) + 1 =? normilize_ring_slot (head a)) = true ->
  try_push v a = (Ret false, a).
Proof. intros Ht. unfold try_push. erewrite !bind_run by reflexivity. by rewrite Ht. Qed.

Lemma push_blocks a q v :
  holds a q -> length q = 4096%nat -> (try_push v a).1 = Halt Blocked.
Proof.
  intros Hq Hl. pose proof (full_test a q Hq) as Htest.
  rewrite bool_decide_false in Htest by lia. destruct Hq as (Hr & Ht & Hh).
  pose proof (ring_repr_length _ _ _ _ Hr) as Hlen.
  destruct (ring_repr_full _ _ _ _ Hr) as (s & o & Hs & Hv & _).
  { by rewrite Hlen, length_fmap. }
  apply view_inv in Hv as ->. rewrite length_fmap in Hs.
  unfold try_push. erewrite !bind_run by reflexivity. rewrite Htest.
  erewrite bind_run by reflexivity.
  erewrite bind_run; [|apply slot_at_run; simpl; by rewrite Ht, cell_wrap64].
  done.
Qed.

Lemma pop_empty a : holds a [] -> try_pop a = (Ret None, a).
Proof.
  intros Hq. unfold try_pop. erewrite !bind_run by reflexivity.
  by rewrite (empty_test a [] Hq).
Qed.

Lemma pop_run a v q :
  holds a (v :: q) -> exists a', try_pop a = (Ret (Some v), a') /\ holds a' q.
Proof.
  intros Hq. pose proof (empty_test a _ Hq) as Hne.
  rewrite bool_decide_false in Hne by done. destruct Hq as (Hr & Ht & Hh).
  pose proof (ring_repr_length _ _ _ _ Hr) as Hlen.
  destruct (ring_repr_head _ _ _ _ _ Hr) as (s & Hs & Hv). apply view_inv in Hv as ->.
  unfold try_pop. erewrite !bind_run by reflexivity. rewrite Hne.
  erewrite bind_run by reflexivity. erewrite bind_run by (by apply slot_at_run). simpl.
  unfold take, store_initialized. rewrite bind_bind.
  erewrite bind_run by (by apply slot_at_run). simpl.
  rewrite bind_bind. erewrite bind_run by reflexivity. rewrite bind_ret, bind_bind.
  erewrite bind_run by (by apply slot_at_set). erewrite bind_run by reflexivity.
  eexists. split; [reflexivity|]. rewrite set_slot_twice.
  unfold holds. simpl. split_and!; [| |apply wrap64_range..].
  - fold (cell (head a)). apply (proj1 (ring_repr_wrap64 _ _ _ _)).
    by eapply ring_repr_pop.
  - rewrite wrap64_add_l, Ht. f_equal. simpl. lia.
Qed.

Lemma empty_holds : holds (T := T) empty [].
Proof. split; [by apply ring_repr_init|]. split; [done|]. simpl. lia. Qed.

Lemma wait_for_data_run a q :
  holds a q -> wait_for_data a = (if q is [] then Halt Blocked else Ret tt, a).
Proof.
  intros (Hr & Ht & Hh). pose proof (ring_repr_length _ _ _ _ Hr) as Hlen.
  assert (Hc : forall i, normilize_ring_slot (wrap16 i) = normilize_ring_slot i).
  { intros i. rewrite !normilize_mod. apply Z.mod_mod_divide. by exists 16. }
  unfold wait_for_data. erewrite bind_run by reflexivity. rewrite Hc.
  destruct q as [|v q].
  - destruct (ring_repr_back _ _ _ _ Hr) as (s & Hs & Hv); [rewrite Hlen; compute; lia|].
    apply view_none in Hv. rewrite Z.add_0_r in Hs.
    erewrite bind_run by (by apply slot_at_run). by rewrite Hv.
  - destruct (ring_repr_head _ _ _ _ _ Hr) as (s & Hs & Hv). apply view_inv in Hv as ->.
    by erewrite bind_run by (by apply slot_at_run).
Qed.

#[export] Program Instance AtomicQueue_fifo : FifoQueue (t T) T := {
  fifo_push := try_push;
  fifo_pop := try_pop;
  fifo_capacity := 4095;
  fifo_item _ := True;
  fifo_holds := holds;
  fifo_pop_empty := pop_empty
}.
Next Obligation.
  intros a q v Hq _ Hl. apply push_run; [done | lia |].
  rewrite (full_test a q Hq). apply bool_decide_false. lia.
Qed.
Next Obligation. intros a q v. apply pop_run. Qed.
End AtomicQueueLemmas.

(** ** The constructor *)
Section ConstructLemmas.
Context {W : Type} `{Platform W} (sizeof_manager sizeof_pool : Z).
Implicit Types (m : MemoryManager.t) (k : Machine W).
Import AtomicQueue.

(** A pool nothing was ever given back to. *)
Definition unreturned (a : AllocatorPool.t) : Prop :=
  AllocatorPool.committed a /\ RingBuffer.holds (AllocatorPool.free_indexes_queue a) [].

Definition constructed_post (n : nat) m (r : outcome (list Z)) (s : Machine W * MemoryManager.t)
    : Prop :=
  let last := AllocatorPool.last_not_issued_index (MemoryManager.memory_pool_512_ m) in
  match r with
  | Ret slots =>
      slots = MemoryManager.at_index s.2 <$> seqZ last (Z.of_nat n) /\
      unreturned (MemoryManager.memory_pool_512_ s.2) /\
      AllocatorPool.virtual_pool_ptr_ (MemoryManager.memory_pool_512_ s.2) =
        AllocatorPool.virtual_pool_ptr_ (MemoryManager.memory_pool_512_ m) /\
      AllocatorPool.chunk_size (MemoryManager.memory_pool_512_ s.2) =
        AllocatorPool.chunk_size (MemoryManager.memory_pool_512_ m) /\
      AllocatorPool.last_not_issued_index (MemoryManager.memory_pool_512_ s.2) =
        last + Z.of_nat n
  | Halt h => h = Terminated /\ mprotect_failed s.1
  end.

Lemma manager_allocate_fresh k m :
  unreturned (MemoryManager.memory_pool_512_ m) ->
  AllocatorPool.last_not_issued_index (MemoryManager.memory_pool_512_ m) <= RING_BUFFER_SIZE ->
  wp MemoryManager.allocate
     (fun r s => fresh_post (MemoryManager.memory_pool_512_ m) r
                   (s.1, MemoryManager.memory_pool_512_ s.2)) (k, m).
Proof.
  intros [Hc Hq] Hl. pose proof (allocate_fresh k _ Hc Hq Hl) as Hf.
  unfold wp, MemoryManager.allocate, focus, zoom in *. simpl.
  by destruct (AllocatorPool.allocate _) as [r [k' a']].
Qed.

Lemma construct_slots_correct n k m :
  unreturned (MemoryManager.memory_pool_512_ m) ->
  AllocatorPool.last_not_issued_index (MemoryManager.memory_pool_512_ m) + Z.of_nat n
    <= RING_BUFFER_SIZE + 1 ->
  wp (construct_slots n) (constructed_post n m) (k, m).
Proof.
  revert k m. induction n as [|n IH]; intros k m Hu Hn.
  { split_and!; try done. simpl. lia. }
  apply wp_bind. eapply wp_mono; [|apply manager_allocate_fresh; [done | lia]].
  intros [[res|]|h] s; [|done..]. intros (e & He & Hlt & -> & Hs).
  destruct s as [k1 m1]. simpl in Hs.
  assert (Hu1 : unreturned (MemoryManager.memory_pool_512_ m1)).
  { rewrite Hs. split; [|by apply Hu]. apply committed_fresh; [by apply Hu | lia | done..]. }
  assert (Hl1 : AllocatorPool.last_not_issued_index (MemoryManager.memory_pool_512_ m1) =
    AllocatorPool.last_not_issued_index (MemoryManager.memory_pool_512_ m) + 1) by (by rewrite Hs).
  apply wp_bind. eapply wp_mono; [|apply IH; [done | lia]].
  intros [slots|h] s; [|done]. unfold constructed_post. rewrite Hl1.
  intros (-> & Hu2 & Hb & Hch & Hl). rewrite Hs in Hb, Hch.
  unfold wp, ret. cbn [fst snd]. split_and!; [| done | done | done | lia].
  rewrite Nat2Z.inj_succ, (seqZ_cons _ (Z.succ _)) by lia. rewrite fmap_cons. f_equal.
  - unfold MemoryManager.at_index, AllocatorPool.at_index. by rewrite Hb, Hch.
  - by rewrite Z.pred_succ, <- Z.add_1_r.
Qed.

Lemma manager_init_run k :
  (forall w, 2 < (sys_call c_sysconf_page_size w).1.1) ->
  exists k' m, MemoryManager.init sizeof_manager sizeof_pool k = (Ret m, k') /\
    unreturned (MemoryManager.memory_pool_512_ m) /\
    AllocatorPool.last_not_issued_index (MemoryManager.memory_pool_512_ m) = 0 /\
    AllocatorPool.chunk_size (MemoryManager.memory_pool_512_ m) = 512.
Proof.
  intros Hpage.
  unfold MemoryManager.init, MemoryManager.init_meta_storage, AllocatorPool.init,
    AllocatorPool.init_meta_storage, bind, ret, do_call.
  do 3 (destruct (sys_call _ _) as [[? ?] ?]; simpl).
  match goal with |- context [sys_call _ ?w] => specialize (Hpage w) end.
  destruct (sys_call _ _) as [[page ?] ?]; simpl in *.
  do 2 eexists. split; [reflexivity|]. split; [|done].
  split; [|apply ring_init_holds].
  unfold AllocatorPool.committed, AllocatorPool.PAGES_PER_NODE, RING_BUFFER_SIZE. simpl.
  split_and!; try lia.
Qed.
End ConstructLemmas.

(** ** Properties *)
Section AtomicQueueProperties.
Context {T : Type}.
Implicit Types (a : AtomicQueue.t T) (q : list T).
Import AtomicQueue.

(** C13: any sequence of pushes and pops on a fresh [AtomicQueue] that never
    holds more than 4095 items behaves as a FIFO queue: every push succeeds,
    every pop returns the oldest item still in, or nothing. *)
Theorem AtomicQueue_is_fifo (ops : list (queue_op T)) outs q :
  spec_ops 4095 ops [] = Some (outs, q) ->
  exists a, run_ops (H := AtomicQueue_fifo) ops empty = (Ret outs, a) /\ holds a q.
Proof.
  apply (fifo_refines (H := AtomicQueue_fifo) ops _ []); [apply empty_holds|].
  apply Forall_forall. by intros [].
Qed.

(** C36: [try_push] on a queue of [n] items, on every branch: below 4095 it
    succeeds; at 4095 it is refused, except when the oldest item sits in cell
    0, where the test misses the wrap-around and a 4096th item is accepted;
    at 4096 it waits for a pop. *)
Theorem try_push_outcomes a q v :
  holds a q ->
  ((length q < 4095)%nat \/ (length q = 4095%nat /\ head a mod 4096 = 0) ->
     exists a', try_push v a = (Ret true, a') /\ holds a' (q ++ [v])) /\
  (length q = 4095%nat -> head a mod 4096 <> 0 -> try_push v a = (Ret false, a)) /\
  (length q = 4096%nat -> (try_push v a).1 = Halt Blocked).
Proof.
  intros Hq. pose proof (full_test a q Hq) as Htest.
  pose proof (normilize_mod (head a)) as Hn. unfold RING_BUFFER_SIZE in Hn. split_and!.
  - intros Hroom. apply push_run; [done | lia |].
    rewrite Htest. apply bool_decide_false. lia.
  - intros Hl Hh. apply push_refused. rewrite Htest. apply bool_decide_true. lia.
  - by apply push_blocks.
Qed.

(** Once [wait_for_space] has found the queue full it never returns: the
    loop goes on as long as [head] differs from the value first read, and
    pops only move it away from that value. *)
Theorem wait_for_space_stuck a reads :
  space_exhausted a = true -> Forall (fun h => h <> head a) reads ->
  wait_for_space reads a = (Halt Blocked, a).
Proof.
  intros Hfull Hreads. unfold wait_for_space. erewrite bind_run by reflexivity.
  rewrite Hfull. assert (wait_for_space_loop (head a) reads = false) as ->; [|done].
  induction Hreads as [|h reads Hh _ IH]; [done|]. simpl.
  by rewrite (proj2 (Z.eqb_neq h (head a)) Hh).
Qed.
End AtomicQueueProperties.

(** 4095 items behind a head at cell 0. *)
Definition queue_of_fives : AtomicQueue.t Z :=
  AtomicQueue.mk 0 4095 (replicate 4095 (mkSlot true (Some 5)) ++ [mkSlot false None]).

Lemma cell_small i : 0 <= i < 4096 -> cell i = Z.to_nat i.
Proof. intros Hi. rewrite cell_mod. unfold RING_BUFFER_SIZE. by rewrite Z.mod_small. Qed.

Lemma queue_of_fives_holds : AtomicQueue.holds queue_of_fives (replicate 4095 5).
Proof.
  split; [|split; [by rewrite length_replicate | simpl; lia]].
  change (ring_repr AtomicQueue.view
    (replicate 4095 (mkSlot true (Some 5)) ++ [mkSlot false None]) 0 (Some <$> replicate 4095 5)).
  unfold ring_repr. rewrite length_app, length_fmap, !length_replicate.
  split; [done|]. split; [simpl; lia|]. intros j Hj. simpl in Hj.
  rewrite cell_small by lia. replace (Z.to_nat (0 + Z.of_nat j)) with j by lia.
  rewrite list_lookup_fmap. assert (j = 4095 \/ j < 4095)%nat as [->|Hne] by lia.
  - rewrite lookup_app_r by (by rewrite length_replicate).
    by rewrite length_replicate, (lookup_ge_None_2 (replicate _ _))
      by (by rewrite length_replicate).
  - rewrite lookup_app_l, !lookup_replicate_2 by (rewrite ?length_replicate; lia). done.
Qed.

Lemma AtomicQueue_is_fifo_witness :
  exists a, run_ops (H := AtomicQueue_fifo (T := Z)) [Push 1; Push 2; Pop; Pop; Pop] AtomicQueue.empty
            = (Ret [Some 1; Some 2; Some 1; Some 2; None], a) /\
            AtomicQueue.holds a [].
Proof. by apply (AtomicQueue_is_fifo (T := Z)). Defined.

Lemma try_push_outcomes_witness :
  exists a, AtomicQueue.try_push 9 queue_of_fives = (Ret true, a) /\
            AtomicQueue.holds a (replicate 4095 5 ++ [9]).
Proof.
  refine (proj1 (try_push_outcomes queue_of_fives _ 9 queue_of_fives_holds) _).
  right. split; [apply length_replicate | reflexivity].
Defined.

(** A head of 1: the cell behind it is the one the next push would need. *)
Definition queue_exhausted : AtomicQueue.t Z :=
  AtomicQueue.mk 1 4096 (mkSlot false None :: replicate 4095 (mkSlot true (Some 5))).

Lemma wait_for_space_stuck_witness :
  AtomicQueue.wait_for_space [2; 3] queue_exhausted = (Halt Blocked, queue_exhausted).
Proof.
  apply wait_for_space_stuck; [reflexivity|]. repeat constructor; simpl; lia.
Defined.

Section Construction.
Context {W : Type} `{Platform W}.

End Construction.

