(* ===== verification/Utility.v ===== *)
(** * [utility/]: message parsers, connection codes, configuration

    [utility/utility.cpp], [utility/data_storage.cpp] and
    [utility/config.cpp]; the error values and the terminating helpers of the
    same directory are in [Platform.v]. *)
From S2P Require Import Prelude.
From S2P Require Import CString.
From S2P Require Import Platform.
From Stdlib Require Import Ascii.

#[local] Open Scope Z_scope.
#[local] Open Scope bsm_scope.

(** ** [utility/utility.h] *)
Inductive ActionStatus := CONTINUE | TERMINATE.
Inductive ConnectionStatus := KEEP | RELEASE.

Record ActionResult := mkActionResult {
  action_status : ActionStatus;
  conn_status : ConnectionStatus;
  error : option Error;
  user_code : option user_error_e
}.

(** The designated initializers of the sources leave the other members at
    their defaults. *)
Definition default_result : ActionResult := mkActionResult CONTINUE KEEP None None.
Definition keep : ActionResult := default_result.
Definition release_result : ActionResult := mkActionResult CONTINUE RELEASE None None.
Definition keep_with_error (e : Error) : ActionResult := mkActionResult CONTINUE KEEP (Some e) None.
Definition keep_with_user_error (e : Error) (code : user_error_e) : ActionResult :=
  mkActionResult CONTINUE KEEP (Some e) (Some code).

#[export] Instance ActionStatus_eq_dec : EqDecision ActionStatus.
Proof. solve_decision. Defined.
#[export] Instance ConnectionStatus_eq_dec : EqDecision ConnectionStatus.
Proof. solve_decision. Defined.

(** ** [utility/utility.cpp] *)

(** [parse]: the text after the first space. *)
Definition parse (message : string) : string + Error :=
  match find_first_of " " message with
  | Some pos => inl (string_from message (S pos))
  | None => inr (new_error "Cant parse chat message")
  end.

Section ConnCode.
Context {W : Type} `{Platform W}.

(** The last five characters of the time as text; [substr] throws when there
    are fewer, and nothing catches it. *)
Definition generate_conn_code : M (Machine W) Z :=
  let* now := do_call c_time in
  let conn_code_s := to_string now in
  if (String.length conn_code_s <? 5)%nat then stop Terminated
  else
    let short_code_s := string_from conn_code_s (String.length conn_code_s - 5) in
    ret (strtol short_code_s).

Definition generate_name : M (Machine W) string :=
  let* code := generate_conn_code in
  ret ("user" +:+ to_string code).
End ConnCode.

(** ** [utility/data_storage.cpp] *)
Module JoinLobbyCode.
Record t := mk { string_code : string; int_code : Z }.

Definition parse (message : string) : t + Error :=
  let code := strtol message in
  if code =? 0 then
    match find_last_of " " message with
    | Some pos =>
      let string_code := string_from message (S pos) in
      inl (mk string_code (strtol string_code))
    | None => inr (new_error "Cant parse connetion code")
    end
  else inl (mk (to_string code) code).
End JoinLobbyCode.

(** ** [utility/config.cpp]

    The configuration file is given by its lines, [None] when it cannot be
    opened. *)
Module Config.
Record configopt_s := mkOpt { optname : string; val : Z + string }.
Record t := mk { configopt_sa : list configopt_s }.

Definition initial : t := mk [mkOpt "port" (inl 0)].

Fixpoint take_token (s : string) : string * string :=
  match s with
  | EmptyString => (EmptyString, EmptyString)
  | String c rest =>
    if is_space c then (EmptyString, s)
    else let '(token, after) := take_token rest in (String c token, after)
  end.

(** [stream >> key]: skip white space, read a word, fail at the end. *)
Definition read_token (s : string) : option (string * string) :=
  match skip_spaces s with
  | EmptyString => None
  | s' => Some (take_token s')
  end.

Definition read_option (option_line : string) : option (string * string) :=
  '(key, rest) ← read_token option_line;
  '(value, _) ← read_token rest;
  Some (key, value).

Definition set_option (key value : string) (c : t) : t :=
  mk ((fun o => if String.eqb (optname o) key then mkOpt (optname o) (inl (strtol value)) else o)
        <$> configopt_sa c).

Fixpoint read_lines (lines : list string) (c : t) : t :=
  match lines with
  | [] => c
  | option_line :: rest =>
    match read_option option_line with
    | Some (key, value) => read_lines rest (set_option key value c)
    | None => c
    end
  end.

Definition init {W} (file : option (list string)) (c : t) : M (Machine W) t :=
  match file with
  | Some lines => ret (read_lines lines c)
  | None => LOG "error" ;;; print_line "error" ;;; ret c
  end.

(** [Config::Config]. *)
Definition construct {W} (file : option (list string)) : M (Machine W) t := init file initial.

(** [Config::get_line]: a constant, whatever was read. *)
Definition get_line (c : t) (line : string) : Z := 8000.
End Config.

(** ** Lemmas *)
Lemma string_cons_app c (a b : string) : String c a +:+ b = String c (a +:+ b).
Proof. done. Qed.

Lemma strtol_backslash s : strtol (String "\" s) = 0.
Proof. done. Qed.

Lemma digits_app fuel n rest : digits fuel n rest = digits fuel n "" +:+ rest.
Proof.
  revert n rest. induction fuel as [|f IH]; intros n rest; [done|].
  unfold digits; fold digits. case_match; [done|].
  rewrite IH, (IH _ (String _ "")), string_app_assoc. done.
Qed.

(** The decimal digits of [n], low [k] places, with leading zeros. *)
Fixpoint low_digits (k : nat) (n : Z) (rest : string) : string :=
  match k with
  | O => rest
  | S k' => low_digits k' (n / 10) (String (digit (n mod 10)) rest)
  end.

Lemma digits_split k fuel n rest :
  10 ^ Z.of_nat k <= n ->
  digits (k + fuel) n rest = digits fuel (n / 10 ^ Z.of_nat k) (low_digits k n rest).
Proof.
  revert n rest. induction k as [|k IH]; intros n rest Hn.
  - simpl. by rewrite Z.div_1_r.
  - rewrite Nat2Z.inj_succ, Z.pow_succ_r in * by lia.
    pose proof (Z.pow_pos_nonneg 10 (Z.of_nat k) ltac:(lia) ltac:(lia)).
    simpl Nat.add. unfold digits; fold digits. rewrite (proj2 (Z.ltb_ge n 10)) by lia.
    rewrite IH by (apply Z.div_le_lower_bound; lia).
    simpl. by rewrite Z.div_div by lia.
Qed.

Lemma low_digits_chars k n rest :
  0 <= n -> all_chars is_digit rest = true -> all_chars is_digit (low_digits k n rest) = true.
Proof.
  revert n rest. induction k as [|k IH]; intros n rest Hn Hr; [done|].
  simpl. apply IH; [apply Z.div_pos; lia|]. simpl.
  pose proof (Z.mod_pos_bound n 10 ltac:(lia)). by rewrite is_digit_digit by lia.
Qed.

Lemma low_digits_length k n rest : String.length (low_digits k n rest) = (k + String.length rest)%nat.
Proof. revert n rest. induction k as [|k IH]; intros n rest; [done|]. simpl. rewrite IH. simpl. lia. Qed.

Lemma read_low_digits k n acc rest :
  0 <= n ->
  read_digits acc (low_digits k n rest) =
  read_digits (acc * 10 ^ Z.of_nat k + n mod 10 ^ Z.of_nat k) rest.
Proof.
  revert n rest. induction k as [|k IH]; intros n rest Hn.
  - simpl. f_equal. rewrite Z.mod_1_r. lia.
  - rewrite Nat2Z.inj_succ, Z.pow_succ_r by lia. simpl low_digits.
    pose proof (Z.pow_pos_nonneg 10 (Z.of_nat k) ltac:(lia) ltac:(lia)).
    pose proof (Z.mod_pos_bound n 10 ltac:(lia)).
    rewrite IH by (apply Z.div_pos; lia). simpl.
    rewrite is_digit_digit, code_digit by lia. f_equal.
    rewrite Z.rem_mul_r by lia. lia.
Qed.

Lemma strtol_digits s :
  all_chars is_digit s = true -> strtol s = clamp_long (read_digits 0 s).
Proof.
  intros Hs. unfold strtol. rewrite c_str_id.
  2: { revert Hs. apply all_chars_impl. intros c Hc. by destruct (digit_not c Hc) as (_ & -> & _). }
  destruct s as [|c s]; [done|]. simpl in Hs. apply andb_true_iff in Hs as [Hc _].
  destruct (digit_not c Hc) as (Hsp & _ & _ & Hm & Hp). simpl skip_spaces.
  by rewrite Hsp, Hm, Hp.
Qed.

(** The last five digits of a number of at least five digits. *)
Lemma to_string_last5 n :
  10 ^ 4 <= n ->
  exists a, to_string n = a +:+ low_digits 5 n "".
Proof.
  intros Hn. unfold to_string. rewrite (proj2 (Z.ltb_ge n 0)) by lia.
  pose proof (Z.log2_le_mono (10 ^ 4) n Hn) as Hlog. change (Z.log2 (10 ^ 4)) with 13 in Hlog.
  destruct (Z.le_gt_cases (10 ^ 5) n) as [H5|H5].
  - replace (digits_fuel n) with (5 + (digits_fuel n - 5))%nat by (unfold digits_fuel; lia).
    rewrite (digits_split 5) by done. rewrite digits_app. eauto.
  - exists "". replace (digits_fuel n) with (4 + S (digits_fuel n - 5))%nat
      by (unfold digits_fuel; lia).
    rewrite (digits_split 4) by done.
    change (low_digits 5 n "") with
      (String (digit (n / 10 / 10 / 10 / 10 mod 10)) (low_digits 4 n "")).
    unfold digits; fold digits. rewrite !Z.div_div by lia.
    change (10 ^ Z.of_nat 4) with (10 * 10 * 10 * 10).
    pose proof (Z.div_lt_upper_bound n (10 * 10 * 10 * 10) 10 ltac:(lia) ltac:(lia)).
    pose proof (Z.div_pos n (10 * 10 * 10 * 10) ltac:(lia) ltac:(lia)).
    rewrite (proj2 (Z.ltb_lt _ 10)) by done. by rewrite Z.mod_small.
Qed.

Lemma string_length_app (a b : string) :
  String.length (a +:+ b) = (String.length a + String.length b)%nat.
Proof. induction a as [|c a IH]; [done|]. rewrite string_cons_app. simpl. by rewrite IH. Qed.

(** The code of a join command. *)
Lemma parse_join_command (cmd : string) (n : Z) :
  int64_min <= n <= int64_max ->
  JoinLobbyCode.parse (String "\" cmd +:+ " " +:+ to_string n) =
    inl (JoinLobbyCode.mk (to_string n) n).
Proof.
  intros Hn. unfold JoinLobbyCode.parse.
  rewrite string_cons_app at 1. rewrite strtol_backslash. simpl Z.eqb. cbv iota.
  change (" " +:+ to_string n) with (String " " (to_string n)).
  rewrite find_last_of_app by apply to_string_no_space.
  by rewrite string_from_after, strtol_to_string.
Qed.

(** ** Properties *)

(** C35: a connection code survives its way to the user and back: for every
    64-bit id, the parser of join requests reads the id back from a command
    that starts with a backslash and ends with a space and [std::to_string] of
    the id, and, unless the id is 0, from the bare number. *)
Theorem join_code_roundtrip (cmd : string) (n : Z) :
  int64_min <= n <= int64_max ->
  JoinLobbyCode.parse (String "\" cmd +:+ " " +:+ to_string n) =
    inl (JoinLobbyCode.mk (to_string n) n) /\
  (n <> 0 -> JoinLobbyCode.parse (to_string n) = inl (JoinLobbyCode.mk (to_string n) n)).
Proof.
  intros Hn. split; [by apply parse_join_command|].
  intros Hne. unfold JoinLobbyCode.parse. rewrite strtol_to_string by done.
  by rewrite (proj2 (Z.eqb_neq n 0) Hne).
Qed.

Lemma join_code_roundtrip_witness :
  JoinLobbyCode.parse "\join 12345" = inl (JoinLobbyCode.mk "12345" 12345).
Proof.
  refine (proj1 (join_code_roundtrip "join" 12345 _)). unfold int64_min, int64_max. lia.
Defined.

(** The join parser fails exactly when the text reads as 0 and holds no
    space, and its codes are always in the range of [int64_t]. *)
Theorem join_code_parse_total (message : string) :
  match JoinLobbyCode.parse message with
  | inl c => int64_min <= JoinLobbyCode.int_code c <= int64_max
  | inr e => strtol message = 0 /\ find_last_of " " message = None /\
             backtrace e = ["Cant parse connetion code"]
  end.
Proof.
  unfold JoinLobbyCode.parse. destruct (strtol message =? 0) eqn:E.
  - apply Z.eqb_eq in E. destruct (find_last_of " " message); [apply strtol_range | done].
  - apply strtol_range.
Qed.

(** [parse] gives a chat command's text back unchanged, whatever the text,
    and fails exactly on messages without a space. *)
Theorem chat_parse_roundtrip (cmd text message : string) :
  (find_first_of " " cmd = None -> parse (cmd +:+ " " +:+ text) = inl text) /\
  (parse message = inr (new_error "Cant parse chat message") <->
   find_first_of " " message = None).
Proof.
  split.
  - intros Hc. apply find_first_of_none in Hc. unfold parse.
    change (" " +:+ text) with (String " " text). rewrite find_first_of_app by done.
    by rewrite string_from_after.
  - unfold parse. by destruct (find_first_of " " message).
Qed.

Lemma chat_parse_roundtrip_witness : parse "\msg hello there" = inl "hello there".
Proof. by apply (proj1 (chat_parse_roundtrip "\msg" "hello there" "")). Defined.

(** On a clock of at least five digits a connection code is the time
    modulo 100000, so it lies between 0 and 99999 and two codes made in the
    same second are equal. *)
Theorem conn_code_is_time_mod {W} `{Platform W} (k : Machine W) :
  10 ^ 4 <= (sys_call c_time (world k)).1.1 <= int64_max ->
  (generate_conn_code k).1 = Ret ((sys_call c_time (world k)).1.1 mod 100000).
Proof.
  unfold generate_conn_code, bind, ret, do_call.
  destruct (sys_call c_time (world k)) as [[now e] w]. simpl. intros Hnow.
  destruct (to_string_last5 now) as [a Ha]; [lia|].
  rewrite Ha, string_length_app, low_digits_length.
  rewrite (proj2 (Nat.ltb_ge _ 5)) by lia.
  replace (String.length a + (5 + String.length "") - 5)%nat with (String.length a)
    by (simpl; lia).
  cbn [fst]. rewrite string_from_app, strtol_digits by (apply low_digits_chars; [lia | done]).
  rewrite read_low_digits by lia. do 2 f_equal. simpl.
  change (10 ^ Z.of_nat 5) with 100000.
  pose proof (Z.mod_pos_bound now 100000 ltac:(lia)).
  apply clamp_long_id. unfold int64_min, int64_max. lia.
Qed.

Lemma conn_code_is_time_mod_witness :
  (generate_conn_code (H := scripted quiet_calls) (script_of [])).1 = Ret 12345.
Proof.
  apply (conn_code_is_time_mod (H := scripted quiet_calls) (script_of [])).
  unfold int64_max. simpl. lia.
Defined.
