(* ===== verification/Protocol.v ===== *)
(** * [protocol/]: message, network, lobby and task types

    The data the components exchange.  An [enum class] whose values arrive
    from the network may hold any byte, so [message_type_e] has a constructor
    for the values without a name. *)
From S2P Require Import Prelude.

#[local] Open Scope Z_scope.

(** ** [protocol/message] *)
Module message_type_e.
Inductive t :=
| NONE
| DEFAULT
| PRINTABLE
| SOCKET
| CONN_CODE
| LOBBY_ID
| ERROR
| UNNAMED (value : Z).   (* 7 to 255 *)

Definition to_Z (x : t) : Z :=
  match x with
  | NONE => 0 | DEFAULT => 1 | PRINTABLE => 2 | SOCKET => 3
  | CONN_CODE => 4 | LOBBY_ID => 5 | ERROR => 6 | UNNAMED v => v
  end.

Definition of_Z (v : Z) : t :=
  if v =? 0 then NONE else if v =? 1 then DEFAULT else if v =? 2 then PRINTABLE
  else if v =? 3 then SOCKET else if v =? 4 then CONN_CODE else if v =? 5 then LOBBY_ID
  else if v =? 6 then ERROR else UNNAMED v.

(** The values the type really has. *)
Definition valid (x : t) : Prop :=
  match x with UNNAMED v => 7 <= v < 256 | _ => True end.

#[global] Instance eq_dec : EqDecision t.
Proof. solve_decision. Defined.
End message_type_e.

Module message_status_e.
Inductive t := EMPTY | WOULDBLOCK | DISCONNECTED | DATA.
#[global] Instance eq_dec : EqDecision t.
Proof. solve_decision. Defined.
End message_status_e.

Record MessageHeader := mkHeader {
  header_type : message_type_e.t;
  payload_size : Z
}.
Definition default_header : MessageHeader := mkHeader message_type_e.NONE 0.

Record OutgoingMessage := mkOutgoing {
  out_payload : string;
  out_type : message_type_e.t;
  out_socket : option Z
}.

(** An outgoing message with the default type and no descriptor. *)
Definition plain_message (payload : string) : OutgoingMessage :=
  mkOutgoing payload message_type_e.DEFAULT None.
Definition typed_message (payload : string) (type : message_type_e.t) : OutgoingMessage :=
  mkOutgoing payload type None.

Record ReceivedMessage := mkReceived {
  status : message_status_e.t;
  type : message_type_e.t;
  payload : string;
  socket : option Z
}.
Definition default_received : ReceivedMessage :=
  mkReceived message_status_e.EMPTY message_type_e.DEFAULT "" None.

(** ** [protocol/network] *)
Module end_point_e.
Inductive t := NONE | TO_CLIENT | TO_LOBBY | TO_PARENT | LISTENER | TO_SERVER.
#[global] Instance eq_dec : EqDecision t.
Proof. solve_decision. Defined.
End end_point_e.

(** [task_tag_e] of [core/scheduler.h]. *)
Module task_tag_e.
Inductive t := SCHEDULER | NETWORK | CONSOLE.
#[global] Instance eq_dec : EqDecision t.
Proof. solve_decision. Defined.
End task_tag_e.

Record ConnectionView := mkView { get_slot : Z }.
Definition default_view : ConnectionView := mkView uint64_max.

Record DeliveryReport := mkDelivery { delivered : Z; delivery_failed : Z }.
Record RegistrationReport := mkRegistration { registered : Z; registration_failed : Z }.
Record TransferResult := mkTransfer {
  destination_conn_preserved : bool;
  source_conn_preserved : bool
}.

(** [ActionContext] of [utility/utility.h]. *)
Record ActionContext := mkContext {
  pending_view : ConnectionView;
  context_message : ReceivedMessage
}.

(** ** [protocol/lobby] *)
Record LobbyView := mkLobbyView {
  view_lobby_id : Z;
  view_control_connection : ConnectionView
}.

(** ** Lemmas *)
Lemma message_type_of_to x : message_type_e.valid x -> message_type_e.of_Z (message_type_e.to_Z x) = x.
Proof.
  destruct x as [| | | | | | |v]; try done. simpl. intros Hv.
  unfold message_type_e.of_Z.
  repeat (rewrite (proj2 (Z.eqb_neq v _)) by lia). done.
Qed.

Lemma message_type_range x : message_type_e.valid x -> 0 <= message_type_e.to_Z x < 256.
Proof. destruct x; simpl; lia. Qed.
