(* ===== verification/Dispatcher.v ===== *)
(** * [core/dispatcher]: which action a message asks for

    [Dispatcher::dispatch] walks a table of eight actions in order; an action
    matches by the type of the message or by a prefix of its text. *)
From S2P Require Import Prelude.
From S2P Require Import CString.
From S2P Require Import Platform.
From S2P Require Import Protocol.

#[local] Open Scope Z_scope.

Inductive ActionVariant :=
| CreateLobby
| JoinLobby
| Quit
| AcceptSocket
| SetLobbyId
| ChatMessage
| PrintMessage
| NotAllowed
| GeneralAction.

Module action_scope_e.
Inductive t := NONE | LOCAL | BROADCAST | NETWORK.
End action_scope_e.

Record ActionInfo := mkInfo { scope : action_scope_e.t; variant : ActionVariant }.

Record Action := mkAction {
  text_aliases : list string;
  action_type : option message_type_e.t;
  action_scope : action_scope_e.t;
  make : ActionVariant
}.

Definition actions : list Action := [
  mkAction ["\create"] None action_scope_e.BROADCAST CreateLobby;
  mkAction ["\close"] None action_scope_e.NETWORK Quit;
  mkAction ["\quit"] None action_scope_e.LOCAL Quit;
  mkAction ["\socket"] (Some message_type_e.SOCKET) action_scope_e.NETWORK AcceptSocket;
  mkAction ["\lobby_id"] (Some message_type_e.LOBBY_ID) action_scope_e.NETWORK SetLobbyId;
  mkAction ["\join"] (Some message_type_e.CONN_CODE) action_scope_e.BROADCAST JoinLobby;
  mkAction ["\msg"] None action_scope_e.BROADCAST ChatMessage;
  mkAction ["\printable"] (Some message_type_e.PRINTABLE) action_scope_e.LOCAL PrintMessage
].

Definition match_action (action : Action) (message : ReceivedMessage) : bool :=
  if bool_decide (action_type action = Some (type message)) then true
  else existsb (fun alias => starts_with (payload message) alias) (text_aliases action).

Fixpoint dispatch_in (table : list Action) (message : ReceivedMessage) : ActionInfo :=
  match table with
  | [] => mkInfo action_scope_e.NONE GeneralAction
  | action :: rest =>
    if match_action action message then mkInfo (action_scope action) (make action)
    else dispatch_in rest message
  end.

Definition dispatch (message : ReceivedMessage) : ActionInfo := dispatch_in actions message.

(** [filter_variant<Target>] of [utility/utility.h]: [into] is the injection of
    the target variant's alternatives. *)
Definition filter_variant {V} (into : ActionVariant -> option V) (source : ActionVariant)
    : V + Error :=
  match into source with
  | Some v => inl v
  | None => inr (new_error "No such command can be found as supported")
  end.

(** ** A reference reading of the table

    A message has at most one command, the alias its text starts with, and at
    most one row for its type; the earlier of the two rows is taken. *)
Definition aliases : list string :=
  ["\create"; "\close"; "\quit"; "\socket"; "\lobby_id"; "\join"; "\msg"; "\printable"].

Fixpoint command_from (i : nat) (names : list string) (text : string) : option nat :=
  match names with
  | [] => None
  | name :: rest => if starts_with text name then Some i else command_from (S i) rest text
  end.
Definition command (text : string) : option nat := command_from 0 aliases text.

Definition row_of_type (t : message_type_e.t) : option nat :=
  match t with
  | message_type_e.SOCKET => Some 3%nat
  | message_type_e.LOBBY_ID => Some 4%nat
  | message_type_e.CONN_CODE => Some 5%nat
  | message_type_e.PRINTABLE => Some 7%nat
  | _ => None
  end.

Definition chosen_row (message : ReceivedMessage) : option nat :=
  match command (payload message), row_of_type (type message) with
  | Some i, Some j => Some (Nat.min i j)
  | Some i, None => Some i
  | None, row => row
  end.

Definition row_info (row : option nat) : ActionInfo :=
  match row ≫= fun i => actions !! i with
  | Some a => mkInfo (action_scope a) (make a)
  | None => mkInfo action_scope_e.NONE GeneralAction
  end.

(** ** Lemmas *)
Lemma command_from_some i names text j :
  command_from i names text = Some j ->
  exists name, names !! (j - i)%nat = Some name /\ starts_with text name = true /\ (i <= j)%nat.
Proof.
  revert i. induction names as [|n names IH]; intros i; [done|]. simpl.
  destruct (starts_with text n) eqn:E.
  - intros [= <-]. exists n. by rewrite Nat.sub_diag.
  - intros (name & Hn & Hs & Hle)%IH. exists name.
    replace (j - i)%nat with (S (j - S i)) by lia. split; [done|]. split; [done | lia].
Qed.

(** Two texts are prefixes of the same text only if one is a prefix of the other. *)
Lemma starts_with_both s a b :
  starts_with s a = true -> starts_with s b = true ->
  starts_with a b = true \/ starts_with b a = true.
Proof.
  revert a b. induction s as [|c s IH]; intros [|d a] [|e b]; simpl; auto; [done|].
  rewrite !andb_true_iff, !Ascii.eqb_eq. intros [-> Ha] [-> Hb].
  destruct (IH a b Ha Hb); auto.
Qed.

#[global] Arguments starts_with : simpl never.

(** ** Properties *)

(** No two command names fit the same text, so the order of the table never
    decides between two texts. *)
Lemma commands_unambiguous (text : string) i j a b :
  aliases !! i = Some a -> aliases !! j = Some b ->
  starts_with text a = true -> starts_with text b = true -> i = j.
Proof.
  intros Hi Hj Ha Hb. pose proof (starts_with_both _ _ _ Ha Hb) as Hab.
  clear Ha Hb. unfold aliases in *.
  destruct i as [|[|[|[|[|[|[|[|i]]]]]]]]; simpl in Hi; simplify_eq;
    destruct j as [|[|[|[|[|[|[|[|j]]]]]]]]; simpl in Hj; simplify_eq;
    try done; by destruct Hab.
Qed.

(** C33: [dispatch] picks, of the row of the command the text starts with and
    the row of the message's type, the earlier one; with neither it answers
    [GeneralAction]. *)
Theorem dispatch_chooses_row (message : ReceivedMessage) :
  dispatch message = row_info (chosen_row message).
Proof.
  destruct message as [st ty text sock]. unfold dispatch, chosen_row, command. simpl.
  unfold match_action. simpl.
  destruct ty; simpl;
    repeat (match goal with
            | |- context [starts_with ?t ?a] => destruct (starts_with t a)
            end; simpl; try reflexivity).
Qed.

(** A typed message is read as a command when its text looks like one: a
    [PRINTABLE] message, which the server sends for every line of chat, whose
    text starts with the name of a command other than the last is dispatched as
    that command; only otherwise is it printed. *)
Lemma printable_text_is_command (message : ReceivedMessage) :
  type message = message_type_e.PRINTABLE ->
  dispatch message =
    match command (payload message) with
    | Some i => row_info (Some i)
    | None => mkInfo action_scope_e.LOCAL PrintMessage
    end.
Proof.
  intros Ht. destruct message as [st ty text sock]. simpl in Ht. subst ty.
  unfold dispatch, command. simpl. unfold match_action. simpl.
  repeat (match goal with
          | |- context [starts_with ?t ?a] => destruct (starts_with t a)
          end; simpl; try reflexivity).
Qed.
