(* ===== verification/Socket.v ===== *)
(** * [net/socket_routine]: sockets, framing, epoll

    [SocketHandler] owns a descriptor, its status and the coroutine that cuts
    the byte stream into messages.  The coroutine's frame (its buffer, the
    length of the unread rest and the point where it is suspended) is data, and
    one [resume] runs to the next [co_yield] or [co_return].  Reading outside
    the 1024 bytes of the buffer is [Undefined]. *)
From S2P Require Import Prelude.
From S2P Require Import CString.
From S2P Require Import Platform.
From S2P Require Import Protocol.
From Stdlib Require Import Strings.Byte.

#[local] Open Scope Z_scope.
#[local] Open Scope bsm_scope.

(** ** Bytes *)
Definition byte_of_Z (z : Z) : byte :=
  match Byte.of_N (Z.to_N (z mod 256)) with Some b => b | None => x00 end.
Definition Z_of_byte (b : byte) : Z := Z.of_N (Byte.to_N b).

(** A [uint64_t] in memory, least significant byte first (x86-64). *)
Fixpoint le_bytes (n : nat) (z : Z) : list byte :=
  match n with
  | O => []
  | S m => byte_of_Z z :: le_bytes m (z / 256)
  end.
Fixpoint le_value (bs : list byte) : Z :=
  match bs with
  | [] => 0
  | b :: rest => Z_of_byte b + 256 * le_value rest
  end.

(** [sizeof(MessageHeader)]: the type, seven bytes of padding, the size. *)
Definition HEADER_SIZE : nat := 16.
Definition BUFFER_SIZE : nat := 1024.

Definition decode_header (bs : list byte) : MessageHeader :=
  mkHeader
    (message_type_e.of_Z (match bs with b :: _ => Z_of_byte b | [] => 0 end))
    (le_value (take 8 (drop 8 bs))).

(** Reading [n] bytes at offset [d] of a buffer; [None] is out of bounds. *)
Definition read_range (buffer : list byte) (d n : nat) : option (list byte) :=
  if (d + n <=? length buffer)%nat then Some (take n (drop d buffer)) else None.

(** Writing bytes at offset [d]. *)
Definition write_range (buffer : list byte) (d : nat) (bs : list byte) : option (list byte) :=
  if (d + length bs <=? length buffer)%nat
  then Some (take d buffer ++ bs ++ drop (d + length bs) buffer) else None.

(** ** The receiving coroutine *)

(** The locals of the inner loop: the unread bytes are [bytes_received] many
    from offset [data_beggins] on. *)
Record batch := mkBatch {
  data_beggins : nat;
  bytes_received : nat;
  header : MessageHeader;
  received_message : ReceivedMessage
}.

Inductive resume_point :=
| AtReceive
| InBatch (b : batch).

Record coroutine := mkCoroutine {
  receive_buffer : list byte;
  free_beggins : Z;
  point : resume_point
}.

Definition new_coroutine : coroutine :=
  mkCoroutine (replicate BUFFER_SIZE x00) 0 AtReceive.

Definition with_socket (s : option Z) (m : ReceivedMessage) : ReceivedMessage :=
  mkReceived (status m) (type m) (payload m) s.

Definition process_control_message (control : option cmsghdr) : option Z :=
  match control with
  | Some c =>
    if (cmsg_level c =? SOL_SOCKET) && (cmsg_type c =? SCM_RIGHTS)
    then Some (cmsg_data c) else None
  | None => None
  end.

(** [true] with the locals moved on, or [false] with nothing changed; [None] is
    a read outside the buffer. *)
Definition process_message_header (buffer : list byte) (b : batch) : option (bool * batch) :=
  if (HEADER_SIZE <=? bytes_received b)%nat then
    bs ← read_range buffer (data_beggins b) HEADER_SIZE;
    Some (true, mkBatch (data_beggins b + HEADER_SIZE) (bytes_received b - HEADER_SIZE)
                        (decode_header bs) (received_message b))
  else Some (false, b).

Definition process_message_payload (buffer : list byte) (b : batch) : option (bool * batch) :=
  let size := payload_size (header b) in
  if size <=? Z.of_nat (bytes_received b) then
    bs ← read_range buffer (data_beggins b) (Z.to_nat size);
    let m := received_message b in
    Some (true, mkBatch (data_beggins b + Z.to_nat size) (bytes_received b - Z.to_nat size)
                        (header b)
                        (mkReceived message_status_e.DATA (type m)
                                    (String.string_of_list_byte bs) (socket m)))
  else Some (false, b).

(** What one round of [while (bytes_received > 0)] ends with. *)
Inductive batch_end :=
| BatchYield (m : ReceivedMessage) (b : batch)
| BatchBreak (b : batch)
| BatchUndefined.

(** From the test of the loop to the next yield or to its exit.  After the
    yield the message is moved from: its text is gone, the rest stays. *)
Definition drain (buffer : list byte) (b : batch) : batch_end :=
  if (bytes_received b =? 0)%nat then BatchBreak b
  else
    match (if bool_decide (header_type (header b) = message_type_e.NONE)
           then process_message_header buffer b else Some (true, b)) with
    | None => BatchUndefined
    | Some (false, b1) => BatchBreak b1
    | Some (true, b1) =>
      match process_message_payload buffer b1 with
      | None => BatchUndefined
      | Some (false, b2) => BatchBreak b2
      | Some (true, b2) =>
        let m := received_message b2 in
        let yielded := mkReceived (status m) (header_type (header b2)) (payload m) (socket m) in
        BatchYield yielded
          (mkBatch (data_beggins b2) (bytes_received b2)
                   (mkHeader message_type_e.NONE (payload_size (header b2)))
                   (mkReceived (status m) (header_type (header b2)) "" (socket m)))
      end
    end.

(** [memmove] of the unread rest to the front. *)
Definition move_leftover_to_beginning (buffer : list byte) (b : batch)
    : option (list byte * Z) :=
  rest ← read_range buffer (data_beggins b) (bytes_received b);
  buffer' ← write_range buffer 0 rest;
  Some (buffer', wrap16 (Z.of_nat (bytes_received b))).

Inductive signal :=
| Yielded (m : ReceivedMessage)
| Returned (r : ReceivedMessage + Error).

(** ** [class SocketHandler] *)
Module socket_status_e.
Inductive t := EMPTY | ALIVE | CLOSED | TRANSFERED.
#[global] Instance eq_dec : EqDecision t.
Proof. solve_decision. Defined.
End socket_status_e.

Record SocketHandler := mkSocket {
  socket_ : Z;
  receive_handle_ : option coroutine;
  socket_status_ : socket_status_e.t
}.

Definition default_handler : SocketHandler := mkSocket (-1) None socket_status_e.EMPTY.
(** [SocketHandler(int socket_fd)]. *)
Definition handler_of_fd (socket_fd : Z) : SocketHandler :=
  mkSocket socket_fd None socket_status_e.ALIVE.

Definition set_socket (fd : Z) (h : SocketHandler) : SocketHandler :=
  mkSocket fd (receive_handle_ h) (socket_status_ h).
Definition set_handle (c : option coroutine) (h : SocketHandler) : SocketHandler :=
  mkSocket (socket_ h) c (socket_status_ h).
Definition set_socket_status (s : socket_status_e.t) (h : SocketHandler) : SocketHandler :=
  mkSocket (socket_ h) (receive_handle_ h) s.

Definition get_socket (h : SocketHandler) : Z := socket_ h.
Definition get_socket_status (h : SocketHandler) : socket_status_e.t := socket_status_ h.
(** Two handlers are left as they are: the body is a comment. *)
Definition swap (left_sh r_sh : SocketHandler) : SocketHandler * SocketHandler := (left_sh, r_sh).

(** [SocketHandler(SocketHandler&&)]: the new handler and the one moved from,
    which keeps its coroutine and loses its descriptor. *)
Definition move_out (sock_hndl : SocketHandler) : SocketHandler * SocketHandler :=
  (mkSocket (socket_ sock_hndl) None (socket_status_ sock_hndl),
   mkSocket (-1) (receive_handle_ sock_hndl) socket_status_e.EMPTY).

Definition is_socket_alive (h : SocketHandler) : bool :=
  bool_decide (socket_status_ h = socket_status_e.ALIVE).

Definition BACKLOG : Z := 10.
Definition O_NONBLOCK : Z := 2048.
Definition FD_CLOEXEC : Z := 1.

Section WithPlatform.
Context {W : Type} `{Platform W}.
Abbreviation SH A := (SM W SocketHandler A).

Definition received (st : message_status_e.t) : ReceivedMessage :=
  mkReceived st message_type_e.DEFAULT "" None.

(** The inner loop from its test on: the next message is yielded, or the
    unread rest is moved to the front and [continue] receives more. *)
Definition end_of_batch (continue : list byte -> Z -> SH (signal * coroutine))
    (buffer : list byte) (free : Z) (b : batch) : SH (signal * coroutine) :=
  match drain buffer b with
  | BatchUndefined => stop Undefined
  | BatchYield m b' =>
    lift (LOG ("Message received: " +:+ payload m)) ;;;
    ret (Yielded m, mkCoroutine buffer free (InBatch b'))
  | BatchBreak b' =>
    match move_leftover_to_beginning buffer b' with
    | None => stop Undefined
    | Some (buffer', free') => continue buffer' free'
    end
  end.

(** [while (true)] of [co_receive_from_socket], from its top; [fuel] bounds
    the calls of [recvmsg]. *)
Fixpoint receive_loop (fuel : nat) (buffer : list byte) (free : Z) : SH (signal * coroutine) :=
  match fuel with
  | O => stop NoFuel
  | S fuel' =>
    let* fd := local_state (gets socket_) in
    let* answer := lift (do_recvmsg fd (Z.of_nat (length buffer) - free)) in
    match answer with
    | Received [] _ =>
      local_state (modify (set_socket_status socket_status_e.CLOSED)) ;;;
      ret (Returned (inl (received message_status_e.DISCONNECTED)),
           mkCoroutine buffer free AtReceive)
    | Received data control =>
      match write_range buffer (Z.to_nat free) data with
      | None => stop Undefined
      | Some buffer1 =>
        let n := (length data + Z.to_nat free)%nat in
        let m := match process_control_message control with
                 | Some s => with_socket (Some s) default_received
                 | None => default_received
                 end in
        end_of_batch (receive_loop fuel') buffer1 (wrap16 (Z.of_nat n))
                     (mkBatch 0 n default_header m)
      end
    | RecvFailed e =>
      if (e =? EAGAIN) || (e =? EWOULDBLOCK) then
        ret (Yielded (received message_status_e.WOULDBLOCK), mkCoroutine buffer free AtReceive)
      else
        let* error := lift (make_error_c "Read error") in
        ret (Returned (inr error), mkCoroutine buffer free AtReceive)
    end
  end.

(** [receive_handle_->resume()]. *)
Definition resume (fuel : nat) (c : coroutine) : SH (signal * coroutine) :=
  match point c with
  | AtReceive => receive_loop fuel (receive_buffer c) (free_beggins c)
  | InBatch b => end_of_batch (receive_loop fuel) (receive_buffer c) (free_beggins c) b
  end.

Definition destroy_co_handle : SH unit := local_state (modify (set_handle None)).

Definition close_socket : SH unit :=
  let* fd := local_state (gets socket_) in
  if negb (fd =? -1) then
    lift (do_call (c_close fd)) ;;;
    local_state (modify (set_socket (-1)))
  else ret tt.

(** A new coroutine that waits to begin. *)
Definition set_receive_handle : SH unit := local_state (modify (set_handle (Some new_coroutine))).

(** [SocketHandler::get_message]: [set_receive_handle], unless there is one, and
    a resumption. *)
Definition get_message (fuel : nat) : SH (option ReceivedMessage) :=
  let* handle := local_state (gets receive_handle_) in
  let c := match handle with Some c => c | None => new_coroutine end in
  let* outcome := resume fuel c in
  match outcome with
  | (Yielded m, c') => local_state (modify (set_handle (Some c'))) ;;; ret (Some m)
  | (Returned (inl m), _) => destroy_co_handle ;;; ret (Some m)
  | (Returned (inr e), _) =>
    destroy_co_handle ;;; lift (LOG (full_report e)) ;;; ret None
  end.

(** [payload.resize(1024)] of an empty string. *)
Definition resized_payload : string := String.string_of_list_byte (replicate 1024 Byte.x00).

(** The older [SocketHandler::receive_message]: one [recvmsg] into a header
    and 1024 bytes of text.  The text is made 1024 NUL bytes long before the
    call and is cut to what came only when something came.  Fewer bytes than a
    header make [payload.resize(n - sizeof(hdr))] ask for almost 2^64 bytes,
    which throws. *)
Definition receive_message : SH (ReceivedMessage + Error) :=
  let unfilled st := mkReceived st message_type_e.DEFAULT resized_payload None in
  let* fd := local_state (gets socket_) in
  let* answer := lift (do_recvmsg fd (Z.of_nat (HEADER_SIZE + 1024))) in
  match answer with
  | Received [] _ =>
    local_state (modify (set_socket_status socket_status_e.CLOSED)) ;;;
    ret (inl (unfilled message_status_e.DISCONNECTED))
  | Received data control =>
    if (length data <? HEADER_SIZE)%nat then stop Terminated
    else
      let payload := String.string_of_list_byte (drop HEADER_SIZE data) in
      lift (LOG ("Message received: " +:+ payload)) ;;;
      ret (inl (mkReceived message_status_e.DATA (header_type (decode_header data)) payload
                  (process_control_message control)))
  | RecvFailed e =>
    if (e =? EAGAIN) || (e =? EWOULDBLOCK) then ret (inl (unfilled message_status_e.WOULDBLOCK))
    else
      let* error := lift (make_error_c "Read error") in
      ret (inr error)
  end.

Definition reset_with_new (new_socket : Z) : SH unit :=
  destroy_co_handle ;;;
  close_socket ;;;
  local_state (modify (set_socket new_socket)) ;;;
  local_state (modify (set_socket_status socket_status_e.ALIVE)).

Definition reset_to_empty : SH unit :=
  destroy_co_handle ;;;
  close_socket ;;;
  local_state (modify (set_socket_status socket_status_e.EMPTY)).

(** [operator=(SocketHandler&&)] from another handler; the handler moved from
    is left without a descriptor. *)
Definition move_assign (other : SocketHandler) : SH SocketHandler :=
  destroy_co_handle ;;;
  close_socket ;;;
  local_state (modify (set_socket (socket_ other))) ;;;
  local_state (modify (set_socket_status (socket_status_ other))) ;;;
  ret (mkSocket (-1) (receive_handle_ other) socket_status_e.EMPTY).

(** [~SocketHandler]. *)
Definition destroy : SH unit := destroy_co_handle ;;; close_socket.

Definition fail_with (message : string) : SH (option Error) :=
  let* e := lift (make_error_c message) in ret (Some e).

Definition setup_listener (port : Z) : SH (option Error) :=
  let* fd := local_state (gets socket_) in
  if negb (fd =? -1) then fail_with "Socket is already exist"
  else
    let* new_fd := lift (do_call (c_socket true)) in
    local_state (modify (set_socket new_fd)) ;;;
    if new_fd =? -1 then fail_with "Error creating socket"
    else
      let* opt := lift (do_call (c_setsockopt_reuseaddr new_fd)) in
      if opt <? 0 then fail_with "Error setting socket options"
      else
        let* bound := lift (do_call (c_bind new_fd (wrap16 port))) in
        if bound =? -1 then
          lift (do_call (c_close new_fd)) ;;; fail_with "Error binding socket"
        else
          let* listening := lift (do_call (c_listen new_fd BACKLOG)) in
          if listening =? -1 then
            lift (do_call (c_close new_fd)) ;;; fail_with "Error listening on socket"
          else
            local_state (modify (set_socket_status socket_status_e.ALIVE)) ;;;
            ret None.

Definition setup_client : SH (option Error) :=
  let* new_fd := lift (do_call (c_socket false)) in
  local_state (modify (set_socket new_fd)) ;;;
  if new_fd <? 0 then ret (Some (new_error "Socket creation error"))
  else
    let* connected := lift (do_call (c_connect new_fd 8000)) in
    if connected <? 0 then ret (Some (new_error "Connection to the server failed"))
    else
      let* flags := lift (do_call (c_getfl new_fd)) in
      lift (do_call (c_setfl new_fd (Z.lor flags O_NONBLOCK))) ;;;
      local_state (modify (set_socket_status socket_status_e.ALIVE)) ;;;
      ret None.

(** [accept_connections]: descriptors in the order accepted. *)
Fixpoint accept_loop (fuel : nat) (fd : Z) : M (Machine W) (list Z + Error) :=
  match fuel with
  | O => stop NoFuel
  | S fuel' =>
    let* client_fd := do_call (c_accept4 fd) in
    if client_fd <? 0 then
      let* e := gets errno in
      if (e =? EAGAIN) || (e =? EWOULDBLOCK) then ret (inl [])
      else
        let* error := make_error_c "Unable to accept new connections, accept4 error:" in
        ret (inr error)
    else
      let* rest := accept_loop fuel' fd in
      match rest with
      | inl new_clients => ret (inl (client_fd :: new_clients))
      | inr e => ret (inr e)
      end
  end.

Definition accept_connections (fuel : nat) : SH (list Z + Error) :=
  let* fd := local_state (gets socket_) in lift (accept_loop fuel fd).

(** The header as [sendmsg] finds it in memory. *)
Definition encode_header (h : MessageHeader) : list byte :=
  byte_of_Z (message_type_e.to_Z (header_type h)) ::
  (header_padding <$> seq 0 7) ++ le_bytes 8 (payload_size h).

Definition encode (msg : OutgoingMessage) : list byte :=
  let body := String.list_byte_of_string (out_payload msg) in
  encode_header (mkHeader (out_type msg) (Z.of_nat (length body))) ++ body.

Definition send_message (msg : OutgoingMessage) : SH (option Error) :=
  let* fd := local_state (gets socket_) in
  let* sent := lift (do_call (c_sendmsg fd (encode msg) (out_socket msg))) in
  if sent =? -1 then fail_with "Unable to send message, sendmsg() error:" else ret None.

Definition remove_cloexec : SH (option Error) :=
  let* fd := local_state (gets socket_) in
  let* flags := lift (do_call (c_getfd fd)) in
  if flags =? -1 then fail_with "Cant get socket flags"
  else
    let* r := lift (do_call (c_setfd fd (Z.ldiff flags FD_CLOEXEC))) in
    if r =? -1 then fail_with "Cant set socket flags" else ret None.
End WithPlatform.

(** ** [class EpollHandler] *)
Module EpollHandler.
Section WithPlatform.
Context {W : Type} `{Platform W}.

Definition check (result : Z) (message : string) : M (Machine W) (option Error) :=
  if result =? -1 then let* e := make_error_c message in ret (Some e) else ret None.

(** The new [epollfd_] with the error. *)
Definition init : M (Machine W) (Z * option Error) :=
  let* epollfd := do_call c_epoll_create1 in
  let* e := check epollfd "Error creating epoll" in
  ret (epollfd, e).

(** [~EpollHandler]: also when there is no descriptor but the initial 0. *)
Definition destroy (epollfd : Z) : M (Machine W) unit :=
  do_call (c_close epollfd) ;;; ret tt.

(** The events asked for are always [EPOLLIN | EPOLLET | EPOLLONESHOT]. *)
Definition add_socket (epollfd fd slot : Z) : M (Machine W) (option Error) :=
  let* r := do_call (c_epoll_ctl_add epollfd fd slot) in
  check r "Error adding socket to epoll".

Definition rearm_socket (epollfd fd slot : Z) : M (Machine W) (option Error) :=
  let* r := do_call (c_epoll_ctl_mod epollfd fd slot) in
  check r "Error rearming socket in epoll".

Definition remove_socket (epollfd fd : Z) : M (Machine W) (option Error) :=
  let* r := do_call (c_epoll_ctl_del epollfd fd) in
  check r "Error removing socket from epoll".

(** [epoll_wait] is always asked for 10 events, the length of the array
    when [max_events] is 10. *)
Definition wait_for_events (epollfd max_events : Z) : M (Machine W) (list Z + Error) :=
  let* answer := do_epoll_wait epollfd 10 in
  match answer with
  | Ready slots =>
    if Z.of_nat (length slots) <=? max_events then ret (inl slots) else stop Undefined
  | WaitFailed _ =>
    let* e := make_error_c "Unable to get events from epoll, epoll_wait error:" in
    ret (inr e)
  end.
End WithPlatform.
End EpollHandler.
