(* ===== verification/Framing.v ===== *)
(** * Framing: what [SocketHandler::get_message] makes of a byte stream

    The theorems on the receiving coroutine of [Socket.v]: messages that arrive in
    pieces not cut inside a text are delivered as they were sent, no byte outside the
    1024-byte buffer is ever read or written, and what happens to a message
    whose text is cut between two calls. *)
From S2P Require Import Prelude.
From S2P Require Import CString.
From S2P Require Import Platform.
From S2P Require Import Protocol.
From S2P Require Import Socket.
From Stdlib Require Import Strings.Byte.

#[local] Open Scope Z_scope.
#[local] Open Scope bsm_scope.

(** [n] calls of [get_message] in a row. *)
Fixpoint get_messages {W} `{Platform W} (fuel n : nat)
    : SM W SocketHandler (list (option ReceivedMessage)) :=
  match n with
  | O => ret []
  | S n' =>
    let* m := get_message fuel in
    let* rest := get_messages fuel n' in
    ret (m :: rest)
  end.

(** The message a receiver should see; a descriptor that came with the batch is
    [control]'s. *)
Definition received_of (control : option cmsghdr) (m : OutgoingMessage) : ReceivedMessage :=
  mkReceived message_status_e.DATA (out_type m) (out_payload m) (process_control_message control).

Definition would_block : ReceivedMessage :=
  mkReceived message_status_e.WOULDBLOCK message_type_e.DEFAULT "" None.

(** A piece of the stream as one [recvmsg] delivers it: the messages it
    completes, then the beginning of a header, cut before its end. *)
Record piece := mkPiece {
  piece_control : option cmsghdr;
  piece_messages : list OutgoingMessage;
  piece_cut : list byte
}.

Definition stream {W} `{Platform W} (ms : list OutgoingMessage) (cut : list byte) : list byte :=
  concat (encode <$> ms) ++ cut.

(** What is left of the buffer behind the unread bytes [pre]. *)
Definition room (pre : list byte) : Z := Z.of_nat BUFFER_SIZE - Z.of_nat (length pre).

(** What the kernel will answer on [fd], [EAGAIN] last, when the bytes [pre] of
    a header have already arrived. *)
Fixpoint arrives {W} `{Platform W} (fd : Z) (pre : list byte) (w : W) (pieces : list piece) : Prop :=
  match pieces with
  | [] => exists w', sys_recvmsg fd (room pre) w = (RecvFailed EAGAIN, w')
  | p :: rest => exists data w',
      data <> [] /\ pre ++ data = stream (piece_messages p) (piece_cut p) /\
      (length (piece_cut p) < HEADER_SIZE)%nat /\ (length (pre ++ data) <= BUFFER_SIZE)%nat /\
      sys_recvmsg fd (room pre) w = (Received data (piece_control p), w') /\
      arrives fd (piece_cut p) w' rest
  end.

Definition delivery (pieces : list piece) : list ReceivedMessage :=
  pieces ≫= fun p => received_of (piece_control p) <$> piece_messages p.

(** The bytes left unread once the pieces have been received. *)
Fixpoint leftover (pre : list byte) (pieces : list piece) : list byte :=
  match pieces with [] => pre | p :: rest => leftover (piece_cut p) rest end.

Definition valid_messages (ms : list OutgoingMessage) : Prop :=
  Forall (fun m => message_type_e.valid (out_type m)) ms.

(** What a delivered message and a call of [recvmsg] leave in the trace. *)
Definition logs_message {W} (m : OutgoingMessage) (k : Machine W) : Machine W :=
  record_event (Logged ("Message received: " +:+ out_payload m)) k.
Definition received_on {W} (fd len e : Z) (w : W) (k : Machine W) : Machine W :=
  mkMachine w e (CalledRecvmsg fd len :: trace k).

(** [recvmsg] never delivers more bytes than it was given room for. *)
Definition recv_within {W} `{Platform W} : Prop :=
  forall fd len w, 0 <= len ->
    match (sys_recvmsg fd len w).1 with
    | Received data _ => Z.of_nat (length data) <= len
    | RecvFailed _ => True
    end.

(** Before [n] calls of [recvmsg] one brings no data. *)
Fixpoint ends_within {W} `{Platform W} (fd : Z) (n : nat) (w : W) : Prop :=
  match n with
  | O => False
  | S n' => forall len, match sys_recvmsg fd len w with
                        | (Received (_ :: _) _, w') => ends_within fd n' w'
                        | _ => True
                        end
  end.

Definition batch_ok (b : batch) : Prop :=
  (data_beggins b + bytes_received b <= BUFFER_SIZE)%nat /\ 0 <= payload_size (header b).

Definition coroutine_ok (c : coroutine) : Prop :=
  length (receive_buffer c) = BUFFER_SIZE /\
  0 <= free_beggins c <= Z.of_nat BUFFER_SIZE /\
  match point c with InBatch b => batch_ok b | AtReceive => True end.

Definition handler_ok (h : SocketHandler) : Prop :=
  match receive_handle_ h with Some c => coroutine_ok c | None => True end.

Lemma get_messages_S {W} `{Platform W} fuel n s :
  get_messages fuel (S n) s =
  bind (get_message fuel) (fun m => bind (get_messages fuel n) (fun rest => ret (m :: rest))) s.
Proof. done. Qed.

Lemma BUFFER_SIZE_eq : BUFFER_SIZE = 1024%nat.
Proof. done. Qed.

Lemma HEADER_SIZE_pos : (0 < HEADER_SIZE)%nat.
Proof. unfold HEADER_SIZE. lia. Qed.

(** A platform on which no socket ever has anything to say. *)
Definition silent : Platform unit := {|
  sys_call c w := (quiet_calls c, w);
  sys_recvmsg _ _ w := (RecvFailed EAGAIN, w);
  sys_epoll_wait _ _ w := (WaitFailed 4, w);
  sys_socketpair w := (PairFailed 24, w);
  sys_waitpid w := ((0, 0), w);
  strerror _ := "error";
  here file n := {| file_name := file; line := n; function_name := "f" |};
  header_padding _ := x00
|}.

Lemma HEADER_SIZE_small : (2 * HEADER_SIZE <= BUFFER_SIZE)%nat.
Proof. apply Nat.leb_le. reflexivity. Qed.

#[global] Opaque BUFFER_SIZE HEADER_SIZE.

(** ** Bytes *)
Lemma Z_of_byte_of_Z z : Z_of_byte (byte_of_Z z) = z mod 256.
Proof.
  unfold byte_of_Z, Z_of_byte. pose proof (Z.mod_pos_bound z 256 ltac:(lia)).
  destruct (Byte.of_N _) as [b|] eqn:E.
  - apply Byte.to_of_N in E. rewrite E, Z2N.id; lia.
  - apply Byte.of_N_None_iff in E. lia.
Qed.

Lemma Z_of_byte_range b : 0 <= Z_of_byte b < 256.
Proof. unfold Z_of_byte. pose proof (Byte.to_N_bounded b). lia. Qed.

Lemma length_le_bytes n z : length (le_bytes n z) = n.
Proof. revert z. induction n as [|n IH]; intros z; [done|]. simpl. by rewrite IH. Qed.

Lemma le_value_bytes n z : le_value (le_bytes n z) = z mod 256 ^ Z.of_nat n.
Proof.
  revert z. induction n as [|n IH]; intros z.
  - simpl. by rewrite Z.mod_1_r.
  - simpl. rewrite IH, Z_of_byte_of_Z, Nat2Z.inj_succ, Z.pow_succ_r by lia.
    rewrite Z.rem_mul_r by (try apply Z.pow_nonzero; lia). lia.
Qed.

Lemma le_value_nonneg bs : 0 <= le_value bs.
Proof. induction bs as [|b bs IH]; simpl; [lia|]. pose proof (Z_of_byte_range b). lia. Qed.

Section Encode.
Context {W : Type} `{Platform W}.

Lemma length_encode_header h : length (encode_header h) = HEADER_SIZE.
Proof. done. Qed.

Lemma decode_encode_header h :
  message_type_e.valid (header_type h) -> 0 <= payload_size h < 2 ^ 64 ->
  decode_header (encode_header h) = h.
Proof.
  intros Hv Hs. unfold decode_header, encode_header.
  pose proof (message_type_range _ Hv).
  rewrite Z_of_byte_of_Z, Z.mod_small, message_type_of_to by done.
  change (drop 8 _) with (le_bytes 8 (payload_size h)).
  rewrite take_ge by (by rewrite length_le_bytes).
  rewrite le_value_bytes, Z.mod_small by done. by destruct h.
Qed.

Definition body (m : OutgoingMessage) : list byte := String.list_byte_of_string (out_payload m).
Definition header_of (m : OutgoingMessage) : MessageHeader :=
  mkHeader (out_type m) (Z.of_nat (length (body m))).

Lemma encode_split m : encode m = encode_header (header_of m) ++ body m.
Proof. done. Qed.

Lemma length_encode m : length (encode m) = (HEADER_SIZE + length (body m))%nat.
Proof. by rewrite encode_split, length_app, length_encode_header. Qed.
Lemma decode_encode m rest : message_type_e.valid (out_type m) ->
  header_type (decode_header (encode m ++ rest)) = out_type m.
Proof.
  intros Hv. rewrite encode_split. unfold decode_header, encode_header.
  cbn [app header_type header_of].
  pose proof (message_type_range _ Hv). by rewrite Z_of_byte_of_Z, Z.mod_small, message_type_of_to.
Qed.

End Encode.

#[global] Opaque encode encode_header.

(** ** Ranges of the buffer *)
Lemma read_range_some buffer d n bs :
  read_range buffer d n = Some bs <->
  (d + n <= length buffer)%nat /\ bs = take n (drop d buffer).
Proof.
  unfold read_range. destruct (Nat.leb_spec (d + n) (length buffer)); [|split; [done | lia]].
  split; [intros [= <-]; done | by intros [_ ->]].
Qed.

Lemma read_range_length buffer d n bs : read_range buffer d n = Some bs -> length bs = n.
Proof. intros [Hl ->]%read_range_some. rewrite length_take, length_drop. lia. Qed.

Lemma read_range_app buffer d n bs1 bs2 :
  read_range buffer d n = Some (bs1 ++ bs2) ->
  read_range buffer d (length bs1) = Some bs1 /\
  read_range buffer (d + length bs1) (length bs2) = Some bs2.
Proof.
  intros Hr. pose proof (read_range_length _ _ _ _ Hr) as Hn. rewrite length_app in Hn.
  apply read_range_some in Hr as [Hl He].
  rewrite !read_range_some. split_and!; try lia.
  - transitivity (take (length bs1) (bs1 ++ bs2)); [by rewrite take_app_length|].
    rewrite He, take_take. f_equal. lia.
  - rewrite <- drop_drop, take_drop_commute, Hn, <- He. by rewrite drop_app_length.
Qed.

Lemma write_read_front buffer bs :
  (length bs <= length buffer)%nat ->
  exists buffer', write_range buffer 0 bs = Some buffer' /\
    length buffer' = length buffer /\ read_range buffer' 0 (length bs) = Some bs.
Proof.
  intros Hl. unfold write_range. simpl. rewrite (proj2 (Nat.leb_le _ _) Hl).
  eexists. split; [done|]. rewrite length_app, length_drop. split; [lia|].
  apply read_range_some. rewrite length_app, drop_0, take_app_length, length_drop.
  split; [lia | done].
Qed.

Lemma write_range_after buffer pre bs :
  read_range buffer 0 (length pre) = Some pre ->
  (length pre + length bs <= length buffer)%nat ->
  exists buffer', write_range buffer (length pre) bs = Some buffer' /\
    length buffer' = length buffer /\
    read_range buffer' 0 (length (pre ++ bs)) = Some (pre ++ bs).
Proof.
  intros [_ Hpre]%read_range_some Hl. rewrite drop_0 in Hpre.
  unfold write_range. rewrite (proj2 (Nat.leb_le _ _)) by done. rewrite <- Hpre.
  eexists. split; [done|]. rewrite !length_app, length_drop. split; [lia|].
  apply read_range_some. rewrite !length_app, length_drop. split; [lia|].
  by rewrite drop_0, app_assoc, <- length_app, take_app_length.
Qed.

Lemma write_range_length buffer d bs buffer' :
  write_range buffer d bs = Some buffer' -> length buffer' = length buffer.
Proof.
  unfold write_range. destruct (Nat.leb_spec (d + length bs) (length buffer)); [|done].
  intros [= <-]. rewrite !length_app, length_take, length_drop. lia.
Qed.

Lemma move_leftover buffer buffer' b rest :
  read_range buffer (data_beggins b) (bytes_received b) = Some rest ->
  write_range buffer 0 rest = Some buffer' ->
  move_leftover_to_beginning buffer b = Some (buffer', wrap16 (Z.of_nat (bytes_received b))).
Proof. unfold move_leftover_to_beginning. intros -> ?. simplify_option_eq. done. Qed.

(** ** One message *)
Section Drain.
Context {W : Type} `{Platform W}.

Lemma drain_encoded buffer d n h rm m rest :
  Z.of_nat (length buffer) < 2 ^ 64 ->
  message_type_e.valid (out_type m) -> header_type h = message_type_e.NONE ->
  read_range buffer d n = Some (encode m ++ rest) ->
  drain buffer (mkBatch d n h rm) =
    BatchYield (mkReceived message_status_e.DATA (out_type m) (out_payload m) (socket rm))
      (mkBatch (d + length (encode m)) (length rest)
               (mkHeader message_type_e.NONE (Z.of_nat (length (body m))))
               (mkReceived message_status_e.DATA (out_type m) "" (socket rm))).
Proof.
  intros Hb Hv Hh Hr. pose proof (read_range_length _ _ _ _ Hr) as Hn.
  assert (length (body m) <= length buffer)%nat as Hbody.
  { apply read_range_some in Hr as [Hl _]. rewrite length_app, length_encode in Hn. lia. }
  rewrite encode_split, <- app_assoc in Hr.
  apply read_range_app in Hr as [Hr1 Hr2]. rewrite length_encode_header in Hr1, Hr2.
  pose proof Hr2 as Hr3. apply read_range_app in Hr3 as [Hr3 _].
  rewrite length_app, length_encode in Hn. pose proof HEADER_SIZE_pos.
  unfold drain. simpl. rewrite (proj2 (Nat.eqb_neq n 0)) by lia.
  rewrite bool_decide_true by done. unfold process_message_header. simpl.
  rewrite (proj2 (Nat.leb_le HEADER_SIZE n)) by lia. rewrite Hr1. simpl.
  rewrite decode_encode_header by (simpl; first [done | lia]).
  unfold process_message_payload. simpl.
  rewrite (proj2 (Z.leb_le _ _)) by lia. rewrite Nat2Z.id, Hr3. simpl.
  unfold body. rewrite String.string_of_list_byte_of_string.
  fold (body m). do 2 f_equal; rewrite ?length_encode; lia.
Qed.

(** Less than a header stays where it is. *)
Lemma drain_short buffer d n h rm :
  header_type h = message_type_e.NONE -> (n < HEADER_SIZE)%nat ->
  drain buffer (mkBatch d n h rm) = BatchBreak (mkBatch d n h rm).
Proof.
  intros Hh Hn. unfold drain. simpl. destruct (n =? 0)%nat; [done|].
  rewrite bool_decide_true by done. unfold process_message_header. simpl.
  by rewrite (proj2 (Nat.leb_gt HEADER_SIZE n)).
Qed.

(** The text of a message that has not arrived in full is left in the
    buffer, its header is not. *)
Lemma drain_cut buffer d n h rm m part missing :
  Z.of_nat (length (body m)) < 2 ^ 64 ->
  message_type_e.valid (out_type m) -> header_type h = message_type_e.NONE ->
  body m = part ++ missing -> missing <> [] ->
  read_range buffer d n = Some (encode_header (header_of m) ++ part) ->
  drain buffer (mkBatch d n h rm) =
    BatchBreak (mkBatch (d + HEADER_SIZE) (length part) (header_of m) rm).
Proof.
  intros Hb Hv Hh Hbody Hmiss Hr. pose proof (read_range_length _ _ _ _ Hr) as Hn.
  apply read_range_app in Hr as [Hr1 _]. rewrite length_app, length_encode_header in *.
  pose proof HEADER_SIZE_pos.
  unfold drain. simpl. rewrite (proj2 (Nat.eqb_neq n 0)) by lia.
  rewrite bool_decide_true by done. unfold process_message_header. simpl.
  rewrite (proj2 (Nat.leb_le HEADER_SIZE n)) by lia. rewrite Hr1. simpl.
  rewrite decode_encode_header by (simpl; first [done | lia]).
  unfold process_message_payload. simpl.
  rewrite (proj2 (Z.leb_gt _ _)).
  - f_equal. f_equal. lia.
  - rewrite Hbody, length_app. destruct missing; [done|]. simpl. lia.
Qed.
End Drain.

(** ** Runs of the coroutine *)
Section Runs.
Context {W : Type} `{Platform W}.
Implicit Types (k : Machine W) (h : SocketHandler).

Lemma receive_data fuel buffer free k h c data control w buffer1 :
  sys_recvmsg (socket_ h) (Z.of_nat (length buffer) - free) (world k)
    = (Received (c :: data) control, w) ->
  write_range buffer (Z.to_nat free) (c :: data) = Some buffer1 ->
  receive_loop (S fuel) buffer free (k, h) =
  end_of_batch (receive_loop fuel) buffer1
    (wrap16 (Z.of_nat (length (c :: data) + Z.to_nat free)))
    (mkBatch 0 (length (c :: data) + Z.to_nat free) default_header
       match process_control_message control with
       | Some s => with_socket (Some s) default_received
       | None => default_received
       end)
    (mkMachine w (errno k)
       (CalledRecvmsg (socket_ h) (Z.of_nat (length buffer) - free) :: trace k), h).
Proof.
  intros Hr Hw. unfold receive_loop; fold receive_loop.
  erewrite bind_run by reflexivity.
  erewrite bind_run by (apply lift_run; unfold do_recvmsg; cbn [fst snd]; by rewrite Hr).
  cbv beta iota. by rewrite Hw.
Qed.

Lemma receive_would_block fuel buffer free k h w :
  sys_recvmsg (socket_ h) (Z.of_nat (length buffer) - free) (world k) = (RecvFailed EAGAIN, w) ->
  receive_loop (S fuel) buffer free (k, h) =
  (Ret (Yielded would_block, mkCoroutine buffer free AtReceive),
   (mkMachine w EAGAIN
      (CalledRecvmsg (socket_ h) (Z.of_nat (length buffer) - free) :: trace k), h)).
Proof.
  intros Hr. unfold receive_loop; fold receive_loop.
  erewrite bind_run by reflexivity.
  erewrite bind_run by (apply lift_run; unfold do_recvmsg; cbn [fst snd]; by rewrite Hr).
  done.
Qed.

(** A suspended coroutine whose unread bytes are the encodings of [ms] and the
    beginning [cut] of a header. *)
Definition holds_messages (c : coroutine) (control : option cmsghdr)
    (ms : list OutgoingMessage) (cut : list byte) : Prop :=
  length (receive_buffer c) = BUFFER_SIZE /\
  exists d hd rm, point c = InBatch (mkBatch d (length (stream ms cut)) hd rm) /\
    header_type hd = message_type_e.NONE /\ socket rm = process_control_message control /\
    read_range (receive_buffer c) d (length (stream ms cut)) = Some (stream ms cut).

Lemma stream_cons m ms cut : stream (m :: ms) cut = encode m ++ stream ms cut.
Proof. unfold stream. rewrite fmap_cons. simpl. by rewrite <- app_assoc. Qed.

Lemma buffer_bound (buffer : list byte) :
  length buffer = BUFFER_SIZE -> Z.of_nat (length buffer) < 2 ^ 64.
Proof. intros ->. rewrite BUFFER_SIZE_eq. done. Qed.

Lemma get_message_yields fuel k h m c' k' h' :
  resume fuel (default new_coroutine (receive_handle_ h)) (k, h)
    = (Ret (Yielded m, c'), (k', h')) ->
  get_message fuel (k, h) = (Ret (Some m), (k', set_handle (Some c') h')).
Proof.
  intros Hr. unfold get_message. erewrite bind_run by reflexivity. cbn [fst snd].
  by rewrite (bind_run _ _ _ _ _ Hr).
Qed.

(** The next message of a batch. *)
Lemma end_of_batch_message (continue : list byte -> Z -> SM W SocketHandler (signal * coroutine))
    buffer free control m ms cut d hd rm k h :
  length buffer = BUFFER_SIZE -> message_type_e.valid (out_type m) ->
  header_type hd = message_type_e.NONE -> socket rm = process_control_message control ->
  read_range buffer d (length (stream (m :: ms) cut)) = Some (stream (m :: ms) cut) ->
  exists c',
    end_of_batch continue buffer free (mkBatch d (length (stream (m :: ms) cut)) hd rm) (k, h)
      = (Ret (Yielded (received_of control m), c'), (logs_message m k, h)) /\
    holds_messages c' control ms cut.
Proof.
  intros Hl Hv Hh Hs Hr. unfold end_of_batch. rewrite stream_cons in *.
  rewrite (drain_encoded buffer d _ hd rm m (stream ms cut)); [|by apply buffer_bound | done..].
  erewrite bind_run by (apply lift_run; reflexivity). rewrite Hs.
  eexists. split; [reflexivity|].
  split; [done|]. eexists _, _, _. split; [reflexivity|]. split; [done|]. split; [done|].
  by apply read_range_app in Hr as [_ Hr].
Qed.

Lemma get_message_batch fuel control m ms cut c k h :
  default new_coroutine (receive_handle_ h) = c -> holds_messages c control (m :: ms) cut ->
  message_type_e.valid (out_type m) ->
  exists c',
    get_message fuel (k, h)
      = (Ret (Some (received_of control m)), (logs_message m k, set_handle (Some c') h)) /\
    holds_messages c' control ms cut.
Proof.
  intros Hc (Hl & d & hd & rm & Hp & Hh & Hs & Hr) Hv.
  destruct (end_of_batch_message (receive_loop fuel) _ (free_beggins c) control m ms cut d hd rm k h
              Hl Hv Hh Hs Hr) as (c' & Hrun & Hm).
  exists c'. split; [|done]. apply get_message_yields. rewrite Hc.
  unfold resume. rewrite Hp. exact Hrun.
Qed.

(** Only the beginning [cut] of a header is unread: a coroutine about to
    receive, or a batch that is used up. *)
Definition waits (c : coroutine) (cut : list byte) : Prop :=
  (length (receive_buffer c) = BUFFER_SIZE /\ free_beggins c = Z.of_nat (length cut) /\
   point c = AtReceive /\ read_range (receive_buffer c) 0 (length cut) = Some cut) \/
  exists control, holds_messages c control [] cut.

Lemma resume_waits fuel c cut :
  waits c cut -> (length cut < HEADER_SIZE)%nat ->
  exists buffer, length buffer = BUFFER_SIZE /\
    read_range buffer 0 (length cut) = Some cut /\
    forall s, resume fuel c s = receive_loop fuel buffer (Z.of_nat (length cut)) s.
Proof.
  intros [(Hl & Hf & Hp & Hr) | (control & Hl & d & hd & rm & Hp & Hh & _ & Hr)] Hcut.
  - exists (receive_buffer c). split_and!; [done..|]. intros s. unfold resume. by rewrite Hp, Hf.
  - unfold stream in Hp, Hr. simpl in Hp, Hr.
    pose proof HEADER_SIZE_small. pose proof BUFFER_SIZE_eq.
    destruct (write_read_front (receive_buffer c) cut) as (buffer' & Hw & Hl' & Hr'); [lia|].
    exists buffer'. split; [congruence|]. split; [done|]. intros s.
    unfold resume. rewrite Hp. unfold end_of_batch. rewrite drain_short by done.
    rewrite (move_leftover _ buffer' _ cut) by done. cbn [bytes_received]. unfold wrap16.
    by rewrite Z.mod_small by lia.
Qed.

Lemma new_coroutine_waits : waits new_coroutine [].
Proof.
  left. unfold new_coroutine. simpl. rewrite length_replicate. split_and!; [done..|].
  apply read_range_some. simpl. split; [lia | done].
Qed.

Lemma get_message_would_block fuel c cut k h w :
  default new_coroutine (receive_handle_ h) = c -> waits c cut -> (length cut < HEADER_SIZE)%nat ->
  sys_recvmsg (socket_ h) (room cut) (world k) = (RecvFailed EAGAIN, w) ->
  exists c', get_message (S fuel) (k, h)
    = (Ret (Some would_block), (received_on (socket_ h) (room cut) EAGAIN w k, set_handle (Some c') h)).
Proof.
  intros Hc Hd Hcut Hrecv. destruct (resume_waits (S fuel) c cut Hd Hcut) as (buffer & Hl & _ & Hres).
  unfold room in *. rewrite <- Hl in Hrecv |- *.
  eexists. apply get_message_yields. rewrite Hc, Hres. by apply receive_would_block.
Qed.

(** A piece that completes a message. *)
Lemma receive_message fuel buffer pre k h data control w m ms cut :
  length buffer = BUFFER_SIZE -> read_range buffer 0 (length pre) = Some pre ->
  data <> [] -> pre ++ data = stream (m :: ms) cut -> (length (pre ++ data) <= BUFFER_SIZE)%nat ->
  sys_recvmsg (socket_ h) (room pre) (world k) = (Received data control, w) ->
  message_type_e.valid (out_type m) ->
  exists c',
    receive_loop (S fuel) buffer (Z.of_nat (length pre)) (k, h)
      = (Ret (Yielded (received_of control m), c'),
         (logs_message m (received_on (socket_ h) (room pre) (errno k) w k), h)) /\
    holds_messages c' control ms cut.
Proof.
  intros Hl Hp Hd He Hlen Hrecv Hv. rewrite length_app in Hlen.
  destruct (write_range_after buffer pre data Hp) as (buffer1 & Hw & Hl1 & Hr); [lia|].
  destruct data as [|b data]; [done|]. unfold room in *. rewrite <- Hl in Hrecv.
  rewrite (receive_data fuel buffer _ k h b data control w buffer1 Hrecv) by (by rewrite Nat2Z.id).
  rewrite He in Hr.
  replace (length (b :: data) + Z.to_nat (Z.of_nat (length pre)))%nat
    with (length (stream (m :: ms) cut)) by (rewrite <- He, length_app; lia).
  rewrite Hl. apply end_of_batch_message; try done; [congruence|].
  by destruct (process_control_message control).
Qed.

(** The first call on a socket. *)
Lemma get_message_receives fuel k h w m ms cut control :
  receive_handle_ h = None -> message_type_e.valid (out_type m) ->
  sys_recvmsg (socket_ h) (Z.of_nat BUFFER_SIZE) (world k)
    = (Received (stream (m :: ms) cut) control, w) ->
  (length (stream (m :: ms) cut) <= BUFFER_SIZE)%nat ->
  exists c',
    get_message (S fuel) (k, h)
      = (Ret (Some (received_of control m)),
         (logs_message m (received_on (socket_ h) (Z.of_nat BUFFER_SIZE) (errno k) w k),
          set_handle (Some c') h)) /\
    holds_messages c' control ms cut.
Proof.
  intros Hh Hv Hr Hlen. rewrite <- (Z.sub_0_r (Z.of_nat BUFFER_SIZE)) in Hr |- *.
  assert (stream (m :: ms) cut <> []) as Hne.
  { rewrite stream_cons. intros E%(f_equal length). rewrite length_app, length_encode in E.
    pose proof HEADER_SIZE_pos. simpl in E. lia. }
  destruct (receive_message fuel (receive_buffer new_coroutine) [] k h _ control w m ms cut
              eq_refl eq_refl Hne eq_refl Hlen Hr Hv) as (c' & Hrun & Hm).
  exists c'. split; [|done]. apply get_message_yields. rewrite Hh. exact Hrun.
Qed.

(** Fewer bytes than a header are kept for later. *)
Lemma receive_short fuel buffer pre k h data control w :
  length buffer = BUFFER_SIZE -> read_range buffer 0 (length pre) = Some pre ->
  data <> [] -> (length (pre ++ data) < HEADER_SIZE)%nat ->
  sys_recvmsg (socket_ h) (room pre) (world k) = (Received data control, w) ->
  exists buffer' k', receive_loop (S fuel) buffer (Z.of_nat (length pre)) (k, h)
      = receive_loop fuel buffer' (Z.of_nat (length (pre ++ data))) (k', h) /\
    world k' = w /\ length buffer' = BUFFER_SIZE /\
    read_range buffer' 0 (length (pre ++ data)) = Some (pre ++ data).
Proof.
  intros Hl Hp Hd Hlen Hr. pose proof BUFFER_SIZE_eq. pose proof HEADER_SIZE_small.
  destruct (write_range_after buffer pre data Hp) as (buffer1 & Hw1 & Hl1 & Hr1);
    [rewrite length_app in Hlen; lia|].
  destruct data as [|c data]; [done|]. unfold room in Hr. rewrite <- Hl in Hr.
  rewrite (receive_data fuel buffer _ k h c data control w buffer1 Hr)
    by (rewrite Nat2Z.id; done).
  replace (length (c :: data) + Z.to_nat (Z.of_nat (length pre)))%nat
    with (length (pre ++ c :: data)) by (rewrite length_app; lia).
  destruct (write_read_front buffer1 (pre ++ c :: data)) as (buffer2 & Hw2 & Hl2 & Hr2); [lia|].
  unfold end_of_batch. rewrite drain_short by done.
  rewrite (move_leftover buffer1 buffer2 _ (pre ++ c :: data)); [|exact Hr1 | exact Hw2].
  cbn [bytes_received]. unfold wrap16. rewrite Z.mod_small by lia.
  eexists _, _. split; [reflexivity|]. split_and!; [done | lia | done].
Qed.

(** *** What is still to come

    [expects fd n c w l rest]: after no more than [n] pieces of data, the calls
    of [get_message] on the coroutine [c] will have returned the messages [l],
    and the bytes [rest] will be unread. *)
Definition pending (c : coroutine) (control : option cmsghdr) (ms : list OutgoingMessage)
    (cut : list byte) : Prop :=
  match ms with [] => waits c cut | _ => holds_messages c control ms cut end.

Definition expects (fd : Z) (n : nat) (c : coroutine) (w : W) (l : list ReceivedMessage)
    (rest : list byte) : Prop :=
  exists control ms cut pieces,
    pending c control ms cut /\ (length cut < HEADER_SIZE)%nat /\
    arrives fd cut w pieces /\ valid_messages (ms ++ (pieces ≫= piece_messages)) /\
    (length pieces <= n)%nat /\ l = (received_of control <$> ms) ++ delivery pieces /\
    rest = leftover cut pieces.

Lemma holds_pending c control ms cut : holds_messages c control ms cut -> pending c control ms cut.
Proof. destruct ms; [|done]. intros Hm. right. eauto. Qed.

(** What a call that has just returned the head of [l] leaves. *)
Definition goes_on (fd : Z) (n : nat) (c : coroutine) (w : W) (l : list ReceivedMessage)
    (rest : list byte) : Prop :=
  match l with
  | [] => waits c rest
  | m :: l' => status m = message_status_e.DATA /\ expects fd n c w l' rest
  end.

Lemma receive_pieces n pieces : forall fuel pre buffer k h,
  length buffer = BUFFER_SIZE -> read_range buffer 0 (length pre) = Some pre ->
  (length pre < HEADER_SIZE)%nat -> arrives (socket_ h) pre (world k) pieces ->
  valid_messages (pieces ≫= piece_messages) -> (length pieces <= fuel <= n)%nat ->
  exists k' c',
    receive_loop (S fuel) buffer (Z.of_nat (length pre)) (k, h)
      = (Ret (Yielded (default would_block (head (delivery pieces))), c'), (k', h)) /\
    goes_on (socket_ h) n c' (world k') (delivery pieces) (leftover pre pieces).
Proof.
  induction pieces as [|[control ms cut] pieces IH]; intros fuel pre buffer k h Hl Hp Hpre Ha Hv Hf.
  { destruct Ha as [w Hr]. unfold room in Hr. rewrite <- Hl in Hr.
    eexists _, _. split; [by apply receive_would_block | by left]. }
  destruct Ha as (data & w & Hd & He & Hcut & Hlen & Hr & Ha).
  cbn [piece_control piece_messages piece_cut length leftover] in *.
  rewrite bind_cons in Hv. unfold delivery. rewrite bind_cons. fold (delivery pieces).
  cbn [piece_control piece_messages piece_cut] in *.
  apply Forall_app in Hv as [Hms Hv]. destruct ms as [|m ms].
  - unfold stream in He. simpl in He. subst cut. destruct fuel as [|fuel]; [lia|].
    destruct (receive_short (S fuel) buffer pre k h data control w) as (b1 & k1 & -> & Hw & Hl1 & Hr1);
      [done..|]. subst w. apply IH; try done. lia.
  - apply Forall_cons in Hms as [Hm Hms].
    destruct (receive_message fuel buffer pre k h data control w m ms cut) as (c' & -> & Hh); [done..|].
    eexists _, c'. split; [reflexivity|]. split; [done|].
    exists control, ms, cut, pieces. split_and!; try done; [by apply holds_pending| |lia].
    by apply Forall_app.
Qed.

(** The next call: the oldest message expected, or WOULDBLOCK. *)
Lemma get_message_next n k h l rest :
  expects (socket_ h) n (default new_coroutine (receive_handle_ h)) (world k) l rest ->
  exists k' c',
    get_message (S n) (k, h)
      = (Ret (Some (default would_block (head l))), (k', set_handle (Some c') h)) /\
    goes_on (socket_ h) n c' (world k') l rest.
Proof.
  intros (control & ms & cut & pieces & Hp & Hcut & Ha & Hv & Hn & -> & ->).
  destruct ms as [|m ms].
  - destruct (resume_waits (S n) _ cut Hp Hcut) as (buffer & Hl & Hr & Hres).
    destruct (receive_pieces n pieces n cut buffer k h) as (k' & c' & Hrun & Hgo); [done..|].
    exists k', c'. split; [|exact Hgo]. apply get_message_yields. by rewrite Hres.
  - apply Forall_cons in Hv as [Hm Hv].
    destruct (get_message_batch (S n) control m ms cut _ k h eq_refl Hp Hm) as (c' & Hrun & Hh).
    eexists _, c'. split; [exact Hrun|]. split; [done|].
    exists control, ms, cut, pieces. split_and!; try done. by apply holds_pending.
Qed.

Lemma messages_expected n l rest : forall k h,
  expects (socket_ h) n (default new_coroutine (receive_handle_ h)) (world k) l rest ->
  exists k' c', get_messages (S n) (S (length l)) (k, h)
    = (Ret ((Some <$> l) ++ [Some would_block]), (k', set_handle (Some c') h)) /\ waits c' rest.
Proof.
  induction l as [|m l IH]; intros k h He;
    destruct (get_message_next n k h _ _ He) as (k' & c' & Hrun & Hgo).
  - exists k', c'. cbn [get_messages length]. by rewrite (bind_run _ _ _ _ _ Hrun).
  - destruct Hgo as [_ Hgo].
    destruct (IH k' (set_handle (Some c') h) Hgo) as (k2 & c2 & Hs & Hw).
    exists k2, c2. rewrite length_cons, get_messages_S, (bind_run _ _ _ _ _ Hrun).
    by rewrite (bind_run _ _ _ _ _ Hs).
Qed.

Lemma pieces_expected fd n c pre w pieces :
  waits c pre -> (length pre < HEADER_SIZE)%nat -> arrives fd pre w pieces ->
  valid_messages (pieces ≫= piece_messages) -> (length pieces <= n)%nat ->
  expects fd n c w (delivery pieces) (leftover pre pieces).
Proof. intros Hw Hpre Ha Hv Hn. exists None, [], pre, pieces. by split_and!. Qed.
End Runs.

(** ** No access outside the buffer *)
Section Safety.
Context {W : Type} `{Platform W}.

Lemma process_message_header_safe buffer b :
  length buffer = BUFFER_SIZE -> batch_ok b ->
  exists r b', process_message_header buffer b = Some (r, b') /\ batch_ok b'.
Proof.
  intros Hl [Hb Hs]. unfold process_message_header.
  destruct (Nat.leb_spec HEADER_SIZE (bytes_received b)) as [Hh|]; [|by repeat eexists].
  unfold read_range. rewrite (proj2 (Nat.leb_le _ _)) by lia. simpl.
  repeat eexists; simpl; [lia | apply le_value_nonneg].
Qed.

Lemma process_message_payload_safe buffer b :
  length buffer = BUFFER_SIZE -> batch_ok b ->
  exists r b', process_message_payload buffer b = Some (r, b') /\ batch_ok b'.
Proof.
  intros Hl [Hb Hs]. unfold process_message_payload.
  destruct (Z.leb_spec (payload_size (header b)) (Z.of_nat (bytes_received b)));
    [|by repeat eexists].
  unfold read_range. rewrite (proj2 (Nat.leb_le _ _)) by lia. simpl.
  repeat eexists; simpl; lia.
Qed.

Lemma drain_safe buffer b :
  length buffer = BUFFER_SIZE -> batch_ok b ->
  match drain buffer b with
  | BatchYield _ b' | BatchBreak b' => batch_ok b'
  | BatchUndefined => False
  end.
Proof.
  intros Hl Hb. unfold drain.
  destruct (bytes_received b =? 0)%nat; [done|].
  assert (exists r b1, (if bool_decide (header_type (header b) = message_type_e.NONE)
            then process_message_header buffer b else Some (true, b)) = Some (r, b1) /\
            batch_ok b1) as (r & b1 & -> & Hb1)
    by (destruct (bool_decide _); [by apply process_message_header_safe | by eauto]).
  destruct r; [|done].
  destruct (process_message_payload_safe buffer b1 Hl Hb1) as (r & b2 & -> & Hb2).
  by destruct r.
Qed.

Lemma move_leftover_safe buffer b :
  length buffer = BUFFER_SIZE -> batch_ok b ->
  exists buffer' free, move_leftover_to_beginning buffer b = Some (buffer', free) /\
    length buffer' = BUFFER_SIZE /\ 0 <= free <= Z.of_nat BUFFER_SIZE.
Proof.
  intros Hl [Hb _].
  assert (exists rest, read_range buffer (data_beggins b) (bytes_received b) = Some rest)
    as [rest Hr] by (eexists; apply read_range_some; split; [lia | reflexivity]).
  pose proof (read_range_length _ _ _ _ Hr).
  destruct (write_read_front buffer rest) as (buffer' & Hw & Hl' & _); [lia|].
  rewrite (move_leftover _ _ _ _ Hr Hw). repeat eexists; [lia|..];
    unfold wrap16; pose proof BUFFER_SIZE_eq; rewrite Z.mod_small; lia.
Qed.

Definition run_safe (starved : Prop) (r : outcome (signal * coroutine)) : Prop :=
  match r with
  | Ret (_, c) => coroutine_ok c
  | Halt x => x = NoFuel /\ starved
  end.

Lemma end_of_batch_safe
    (continue : list byte -> Z -> SM W SocketHandler (signal * coroutine)) buffer free b s P :
  length buffer = BUFFER_SIZE -> 0 <= free <= Z.of_nat BUFFER_SIZE -> batch_ok b ->
  (forall buffer free, length buffer = BUFFER_SIZE -> 0 <= free <= Z.of_nat BUFFER_SIZE ->
     wp (continue buffer free) (fun r _ => run_safe P r) s) ->
  wp (end_of_batch continue buffer free b) (fun r _ => run_safe P r) s.
Proof.
  intros Hl Hf Hb Hc. unfold end_of_batch. pose proof (drain_safe buffer b Hl Hb) as Hd.
  destruct (drain buffer b) as [m b'|b'|]; [|..|done].
  - apply wp_bind. unfold wp, lift, zoom. simpl. destruct s. unfold run_safe, coroutine_ok. simpl. tauto.
  - destruct (move_leftover_safe buffer b' Hl Hd) as (buffer' & f & -> & Hl' & Hf').
    by apply Hc.
Qed.

Lemma receive_loop_safe fuel : forall buffer free s,
  recv_within -> length buffer = BUFFER_SIZE -> 0 <= free <= Z.of_nat BUFFER_SIZE ->
  wp (receive_loop fuel buffer free)
     (fun r _ => run_safe (~ ends_within (socket_ s.2) fuel (world s.1)) r) s.
Proof.
  induction fuel as [|fuel IH]; intros buffer free [k h] Hrecv Hl Hf; [split; [done | tauto]|].
  specialize (Hrecv (socket_ h) (Z.of_nat (length buffer) - free) (world k) ltac:(lia)) as Hn.
  unfold receive_loop; fold receive_loop.
  apply wp_bind. unfold wp at 1. cbn [fst snd local_state zoom gets].
  apply wp_bind. unfold wp at 1, lift, zoom, do_recvmsg. cbn [fst snd].
  destruct (sys_recvmsg _ _ _) as [[data control|e] w] eqn:Er; cbn [fst snd] in *.
  - destruct data as [|c data]; [unfold wp, run_safe, coroutine_ok; simpl; tauto|].
    unfold write_range. rewrite (proj2 (Nat.leb_le _ _)) by lia.
    pose proof BUFFER_SIZE_eq.
    apply end_of_batch_safe; try done.
    + rewrite !length_app, length_take, length_drop. lia.
    + unfold wrap16. rewrite Z.mod_small by lia. lia.
    + split; simpl in *; lia.
    + intros. eapply wp_mono; [|by apply IH]. intros [|x] ?; [done|]. intros [-> Hx].
      split; [done|]. intros He. apply Hx. specialize (He (Z.of_nat (length buffer) - free)).
      cbn [fst snd] in He. by rewrite Er in He.
  - case_match; unfold wp, run_safe, coroutine_ok; simpl; tauto.
Qed.

Lemma new_coroutine_ok : coroutine_ok new_coroutine.
Proof.
  unfold coroutine_ok, new_coroutine. simpl. rewrite length_replicate. pose proof BUFFER_SIZE_eq.
  split_and!; [done | lia | lia | done].
Qed.

Lemma resume_safe fuel c s :
  recv_within -> coroutine_ok c -> 
  wp (resume fuel c)
     (fun r _ => run_safe (~ ends_within (socket_ s.2) fuel (world s.1)) r) s.
Proof.
  intros Hrecv (Hl & Hf & Hp). unfold resume. destruct (point c) as [|b].
  - by apply receive_loop_safe.
  - apply end_of_batch_safe; try done. intros. by apply receive_loop_safe.
Qed.

(** C7: as long as [recvmsg] writes no more bytes than it is given room for,
    no call of [get_message] reads or writes outside the 1024-byte buffer,
    whatever bytes arrive; it leaves a coroutine that can be resumed, and it
    returns when the kernel has no more than [fuel] pieces of data to give. *)
Theorem get_message_safe fuel k h :
  recv_within -> handler_ok h ->
  wp (get_message fuel)
     (fun r s => match r with
                 | Ret _ => handler_ok s.2
                 | Halt x => x = NoFuel /\ ~ ends_within (socket_ h) fuel (world k)
                 end) (k, h).
Proof.
  intros Hrecv Hh. unfold get_message. apply wp_bind.
  unfold wp at 1. cbn [fst snd local_state zoom gets].
  assert (coroutine_ok (match receive_handle_ h with Some c => c | None => new_coroutine end))
    as Hc by (unfold handler_ok in Hh; destruct (receive_handle_ h); [done | apply new_coroutine_ok]).
  apply wp_bind. eapply wp_mono; [|exact (resume_safe fuel _ (k, h) Hrecv Hc)].
  intros [[[m|[m|e]] c']|x] [k' h']; simpl; intros Hr; done.
Qed.
End Safety.

(** ** What is delivered *)
Section Delivery.
Context {W : Type} `{Platform W}.

(** The header of a cut message is consumed, its text stays in the buffer. *)
Lemma receive_cut fuel buffer k h m part missing control w :
  length buffer = BUFFER_SIZE -> message_type_e.valid (out_type m) ->
  body m = part ++ missing -> missing <> [] -> (length (encode m) <= BUFFER_SIZE)%nat ->
  sys_recvmsg (socket_ h) (room []) (world k)
    = (Received (encode_header (header_of m) ++ part) control, w) ->
  exists buffer' k', receive_loop (S fuel) buffer 0 (k, h)
      = receive_loop fuel buffer' (Z.of_nat (length part)) (k', h) /\
    world k' = w /\ length buffer' = BUFFER_SIZE /\
    read_range buffer' 0 (length part) = Some part.
Proof.
  intros Hl Hv Hb Hm Hlen Hr. pose proof HEADER_SIZE_pos. pose proof BUFFER_SIZE_eq.
  rewrite length_encode, Hb, length_app in Hlen.
  assert (length (encode_header (header_of m) ++ part) <= length buffer)%nat as Hfit
    by (rewrite length_app, length_encode_header; lia).
  destruct (write_read_front _ _ Hfit) as (buffer1 & Hw1 & Hl1 & Hr1).
  destruct (encode_header (header_of m) ++ part) as [|c data] eqn:E.
  { apply (f_equal length) in E. rewrite length_app, length_encode_header in E. simpl in E. lia. }
  unfold room in Hr. rewrite <- Hl in Hr. change (Z.of_nat (length [])) with 0 in Hr.
  rewrite (receive_data fuel buffer 0 k h c data control w buffer1 Hr Hw1).
  rewrite <- E, Nat.add_0_r in *. unfold end_of_batch.
  rewrite (drain_cut buffer1 0 _ default_header _ m part missing) by
    (first [done | exact Hr1 | rewrite Hb, length_app; lia]).
  rewrite length_app, length_encode_header in Hr1. apply read_range_app in Hr1 as [_ Hr1].
  rewrite length_encode_header in Hr1.
  destruct (write_read_front buffer1 part) as (buffer2 & Hw2 & Hl2 & Hr2); [lia|].
  rewrite (move_leftover buffer1 buffer2 _ part); [|exact Hr1 | exact Hw2].
  cbn [bytes_received]. unfold wrap16. rewrite Z.mod_small by lia.
  eexists _, _. split; [reflexivity|]. split_and!; [done | lia | done].
Qed.

End Delivery.

Section OneMessage.
Context {W : Type} `{Platform W}.
Implicit Types (k : Machine W) (h : SocketHandler).

(** [recvmsg] has nothing, an error, the end of the stream or one whole message. *)
Definition one_message (a : recv_answer) : Prop :=
  match a with
  | Received [] _ | RecvFailed _ => True
  | Received data _ =>
    exists m, message_type_e.valid (out_type m) /\ data = encode m /\ (length data <= BUFFER_SIZE)%nat
  end.

(** The message of the old routine beside that of the new one: a text that came
    is the same; where none came the old one is left with 1024 NUL bytes and the
    new one is empty. *)
Definition message_alike (old new : ReceivedMessage) : Prop :=
  status new = status old /\ type new = type old /\ Protocol.socket new = Protocol.socket old /\
  match status old with
  | message_status_e.DATA => payload new = payload old
  | _ => payload old = Socket.resized_payload /\ payload new = ""
  end.

(** What two ways of receiving have in common. *)
Definition received_alike (r1 : ReceivedMessage + Error) (s1 : Machine W * SocketHandler)
    (r2 : option ReceivedMessage) (s2 : Machine W * SocketHandler) : Prop :=
  match r1, r2 with
  | inl old, Some new => message_alike old new
  | inr _, None => True
  | _, _ => False
  end /\
  world s1.1 = world s2.1 /\ socket_ s1.2 = socket_ s2.2 /\ socket_status_ s1.2 = socket_status_ s2.2.

Lemma old_receive_data k h data control w :
  sys_recvmsg (socket_ h) (Z.of_nat (HEADER_SIZE + 1024)) (world k) = (Received data control, w) ->
  (HEADER_SIZE <= length data)%nat ->
  exists k', Socket.receive_message (k, h)
    = (Ret (inl (mkReceived message_status_e.DATA (header_type (decode_header data))
         (String.string_of_list_byte (drop HEADER_SIZE data)) (process_control_message control))), (k', h)) /\
    world k' = w.
Proof.
  intros Hr Hl. unfold Socket.receive_message. erewrite bind_run by reflexivity.
  erewrite bind_run by (apply lift_run; unfold do_recvmsg; cbn [fst snd]; by rewrite Hr).
  destruct data as [|b data]; [pose proof HEADER_SIZE_pos; simpl in Hl; lia|].
  cbv beta iota. rewrite (proj2 (Nat.ltb_ge _ _)) by done.
  erewrite bind_run by (apply lift_run; reflexivity). by eexists.
Qed.

(** The end of the stream and the errors of [recvmsg]. *)
Lemma receive_alike_no_data fuel k h a w :
  receive_handle_ h = None ->
  (forall len, sys_recvmsg (socket_ h) len (world k) = (a, w)) ->
  match a with Received (_ :: _) _ => False | _ => True end ->
  exists r1 s1 r2 s2, Socket.receive_message (k, h) = (Ret r1, s1) /\
    get_message (S fuel) (k, h) = (Ret r2, s2) /\ received_alike r1 s1 r2 s2.
Proof.
  intros Hh Hr Ha. unfold Socket.receive_message, get_message, resume, received_alike.
  destruct h as [fd handle st]. cbn in Hh, Hr. subst handle.
  unfold receive_loop, do_recvmsg, make_error_c, c_error_string, lift, local_state, zoom, bind. cbn.
  rewrite !Hr. destruct a as [[|]|e]; [|done|].
  - do 4 eexists. split; [reflexivity|]. split; [reflexivity|]. done.
  - destruct (_ || _); do 4 eexists; (split; [reflexivity|]); (split; [reflexivity|]); done.
Qed.
End OneMessage.

(** ** Properties *)

(** C39: the receive coroutine is faithful to the simple routine it replaced.
    When [recvmsg] brings nothing, an error, the end of the stream or one whole
    message, [get_message] on a fresh socket answers as [receive_message] does:
    a message of the same status, type and descriptor, or a failure, and the same
    state of the socket.  The text of a message is the same; where there is none
    (end of the stream, WOULDBLOCK) the text of [get_message] is empty and that of
    the old routine is the 1024 NUL bytes it made room with. *)
Theorem old_receive_agrees {W} `{Platform W} fuel k h a w :
  receive_handle_ h = None ->
  (forall len, sys_recvmsg (socket_ h) len (world k) = (a, w)) -> one_message a ->
  exists r1 s1 r2 s2, Socket.receive_message (k, h) = (Ret r1, s1) /\
    get_message (S fuel) (k, h) = (Ret r2, s2) /\ received_alike r1 s1 r2 s2.
Proof.
  intros Hh Hr Ha. destruct a as [[|b data] control|e]; [by eapply receive_alike_no_data| |by eapply receive_alike_no_data].
  destruct Ha as (m & Hv & Hd & Hl). rewrite Hd in Hr, Hl.
  assert (encode m = stream [m] []) as Hs by (unfold stream; cbn; by rewrite !app_nil_r).
  destruct (get_message_receives fuel k h w m [] [] control Hh Hv) as (c' & Hget & _); [by rewrite Hr, Hs | by rewrite <- Hs|].
  destruct (old_receive_data k h (encode m) control w) as (k' & Hold & Hk'); [by rewrite Hr | rewrite length_encode; lia|].
  do 4 eexists. split; [exact Hold|]. split; [exact Hget|]. unfold received_alike. cbn [fst snd].
  split_and!; [|by rewrite Hk' | done..].
  unfold received_of. f_equal. pose proof (decode_encode m [] Hv) as Htype. rewrite app_nil_r in Htype. rewrite Htype. f_equal.
  rewrite encode_split, drop_app_length' by (by rewrite length_encode_header).
  unfold body. by rewrite String.string_of_list_byte_of_string.
Qed.

(** C6: what is sent is what is received.  The encodings of messages of any
    types reach a socket in any pieces whose ends are not inside a text: each
    piece completes some messages, perhaps none, and may end with the beginning
    of a header ([pre] is what an earlier call has left of one).  Then the calls
    of [get_message] return exactly the messages sent, in order, with their text
    and type, and then WOULDBLOCK; a message is given the descriptor that came
    with the piece that completes it.  The coroutine then waits for the rest of
    the last header, so that the theorem applies to the calls that follow.
    Nothing but the room in the buffer bounds the pieces; the fuel is one
    [recvmsg] more than there are pieces. *)
Theorem pieces_delivered {W} `{Platform W} fuel k h pre pieces :
  waits (default new_coroutine (receive_handle_ h)) pre -> (length pre < HEADER_SIZE)%nat ->
  valid_messages (pieces ≫= piece_messages) -> arrives (socket_ h) pre (world k) pieces ->
  (length pieces < fuel)%nat ->
  exists k' c', get_messages fuel (S (length (delivery pieces))) (k, h)
      = (Ret ((Some <$> delivery pieces) ++ [Some would_block]), (k', set_handle (Some c') h)) /\
    waits c' (leftover pre pieces).
Proof.
  intros Hw Hpre Hv Ha Hf. destruct fuel as [|fuel]; [lia|].
  apply messages_expected. apply pieces_expected; [done..|lia].
Qed.

(** C38: a message cut after its header is lost.  If a short text (less than 16
    bytes) arrives in two pieces, [get_message] says WOULDBLOCK although every
    byte of the message has arrived: the header was consumed with the first
    piece, and the text, now at the front of the buffer, will be read as the
    beginning of the next header. *)
Theorem cut_message_lost {W} `{Platform W} fuel fd k m part missing control1 control2 w1 w2 w3 :
  message_type_e.valid (out_type m) ->
  body m = part ++ missing -> missing <> [] -> (length (body m) < HEADER_SIZE)%nat ->
  sys_recvmsg fd (room []) (world k)
    = (Received (encode_header (header_of m) ++ part) control1, w1) ->
  sys_recvmsg fd (room part) w1 = (Received missing control2, w2) ->
  sys_recvmsg fd (room (body m)) w2 = (RecvFailed EAGAIN, w3) ->
  exists k' buffer,
    get_message (S (S (S fuel))) (k, handler_of_fd fd)
      = (Ret (Some would_block),
         (k', set_handle (Some (mkCoroutine buffer (Z.of_nat (length (body m))) AtReceive))
                (handler_of_fd fd))) /\
    read_range buffer 0 (length (body m)) = Some (body m).
Proof.
  intros Hv Hb Hm Hshort H1 H2 H3.
  assert (HEADER_SIZE <= BUFFER_SIZE /\ HEADER_SIZE + length (body m) <= BUFFER_SIZE)%nat
    as [Hhb Hfit] by (pose proof HEADER_SIZE_small; lia).
  destruct (receive_cut (S (S fuel)) (receive_buffer new_coroutine) k (handler_of_fd fd)
              m part missing control1 w1) as (b1 & k1 & E1 & Hw1 & Hl1 & Hr1);
    [apply new_coroutine_ok | try rewrite length_encode; done..|].
  subst w1. unfold room in H3. rewrite Hb in *.
  destruct (receive_short (S fuel) b1 part k1 (handler_of_fd fd) missing control2 w2)
    as (b2 & k2 & E2 & Hw2 & Hl2 & Hr2); [done..|]. subst w2.
  eexists _, b2. split; [|exact Hr2]. apply get_message_yields.
  change (resume _ _) with (receive_loop (S (S (S fuel))) (receive_buffer new_coroutine) 0).
  rewrite E1, E2. apply receive_would_block. rewrite Hl2. exact H3.
Qed.

(** *** Witnesses *)
Definition hi : OutgoingMessage := plain_message "hello".

Definition descriptor_seven : option cmsghdr :=
  Some {| cmsg_level := SOL_SOCKET; cmsg_type := SCM_RIGHTS; cmsg_data := 7 |}.

(** Two messages and three bytes of the third one's header, then nothing but
    five bytes more of this header, then the rest with a descriptor. *)
Definition socket_bytes : list byte :=
  @encode Script (scripted quiet_calls) (typed_message "x" message_type_e.SOCKET).
Definition three_pieces : list piece :=
  [mkPiece None [typed_message "hello" message_type_e.PRINTABLE; plain_message "\create"]
           (take 3 socket_bytes);
   mkPiece None [] (take 8 socket_bytes);
   mkPiece descriptor_seven [typed_message "x" message_type_e.SOCKET] []].
Definition three_answers : list recv_answer :=
  [Received (@stream Script (scripted quiet_calls)
      [typed_message "hello" message_type_e.PRINTABLE; plain_message "\create"]
      (take 3 socket_bytes)) None;
   Received (take 5 (drop 3 socket_bytes)) None;
   Received (drop 8 socket_bytes) descriptor_seven].

(** Pieces that a script delivers one by one. *)
Ltac script_arrives :=
  repeat (eexists _, _; split_and!; [| | | | reflexivity |];
    [let E := fresh in intros E%(f_equal length); by vm_compute in E | by vm_compute
    | apply Nat.ltb_lt; by vm_compute | apply Nat.leb_le; by vm_compute|]);
  by eexists.

Lemma pieces_arrive fd :
  @arrives Script (scripted quiet_calls) fd [] (world (script_of three_answers)) three_pieces.
Proof. script_arrives. Qed.

Lemma pieces_delivered_witness :
  exists (k' : Machine Script) (c' : coroutine), @get_messages Script (scripted quiet_calls) 4 4
        (script_of three_answers, handler_of_fd 5)
      = (Ret ((Some <$> delivery three_pieces) ++ [Some would_block]),
         (k', set_handle (Some c') (handler_of_fd 5))) /\
    @waits Script (scripted quiet_calls) c' [].
Proof.
  apply (@pieces_delivered Script (scripted quiet_calls) 4 (script_of three_answers)
           (handler_of_fd 5) [] three_pieces).
  - apply new_coroutine_waits.
  - apply HEADER_SIZE_pos.
  - repeat constructor.
  - apply pieces_arrive.
  - simpl. lia.
Defined.

Lemma get_message_safe_witness :
  wp (@get_message unit silent 1)
     (fun r s => match r with
                 | Ret _ => handler_ok s.2
                 | Halt x => x = NoFuel /\ ~ @ends_within unit silent 5 1 tt
                 end) (mkMachine tt 0 [], handler_of_fd 5).
Proof.
  apply (@get_message_safe unit silent 1 (mkMachine tt 0 []) (handler_of_fd 5)).
  - intros fd len w Hlen. exact I.
  - exact I.
Defined.

Lemma cut_message_lost_witness :
  exists k' buffer,
    @get_message Script (scripted quiet_calls) 3
        (script_of [Received (take 18 (@encode Script (scripted quiet_calls) hi)) None;
                    Received (drop 18 (@encode Script (scripted quiet_calls) hi)) None],
         handler_of_fd 5)
      = (Ret (Some would_block),
         (k', set_handle (Some (mkCoroutine buffer 5 AtReceive)) (handler_of_fd 5))) /\
    read_range buffer 0 5 = Some (body hi).
Proof.
  eapply (@cut_message_lost Script (scripted quiet_calls) 0 5 _ hi (take 2 (body hi)) (drop 2 (body hi))).
  - exact I.
  - reflexivity.
  - discriminate.
  - apply Nat.ltb_lt. vm_compute. reflexivity.
  - vm_compute. reflexivity.
  - vm_compute. reflexivity.
  - vm_compute. reflexivity.
Defined.

Lemma old_receive_agrees_witness :
  let start := (script_of [Received (@encode Script (scripted quiet_calls) hi) None], handler_of_fd 5) in
  exists r1 s1 r2 s2, @Socket.receive_message _ (scripted quiet_calls) start = (Ret r1, s1) /\
    @get_message _ (scripted quiet_calls) 1 start = (Ret r2, s2) /\ received_alike r1 s1 r2 s2.
Proof.
  apply (@old_receive_agrees Script (scripted quiet_calls) 0
           (script_of [Received (@encode Script (scripted quiet_calls) hi) None]) (handler_of_fd 5)
           (Received (@encode Script (scripted quiet_calls) hi) None) (mkScript [] [] (PairFailed 24))).
  - reflexivity.
  - intros len. reflexivity.
  - exists hi. split; [exact I|]. split; [reflexivity|]. apply Nat.leb_le. vm_compute. reflexivity.
Defined.
