(* ===== verification/ObjectPool.v ===== *)
(** * [core/object_pool.h]: the pool of connections

    [ObjectPool<T>] keeps objects in the 512-byte chunks of a memory manager of
    its own and hands out their slot numbers; released slots wait in an
    [AtomicQueue] and are used again, oldest first.  An object is never
    destroyed: a released slot keeps its old object, and a new one is
    move-assigned to it.  How [T] is moved is the interface [PoolObject]. *)
From S2P Require Import Prelude.
From S2P Require Import Ring.
From S2P Require Import Platform.
From S2P Require Import MemoryManager.
From S2P Require Import AtomicQueue.

#[local] Open Scope Z_scope.
#[local] Open Scope bsm_scope.

(** Running a call on an object of its own, for instance a temporary. *)
Definition run_with {W T A} (t : T) (m : SM W T A) : M (Machine W) (A * T) := fun k =>
  match m (k, t) with
  | (Ret a, (k', t')) => (Ret (a, t'), k')
  | (Halt h, (k', _)) => (Halt h, k')
  end.

(** What the pool asks of [T]: its move constructor and its move assignment,
    each with the destruction of the temporary moved from.  Both return, and
    the value they leave is known. *)
Class PoolObject (W T : Type) := {
  move_construct : T -> M (Machine W) T;
  move_assign_to : T -> T -> M (Machine W) T;     (* the old object, the new one *)
  constructed : T -> T;
  assigned : T -> T -> T;
  move_construct_run t k : exists k', move_construct t k = (Ret (constructed t), k');
  move_assign_run old t k : exists k', move_assign_to old t k = (Ret (assigned old t), k')
}.

Module ObjectPool.
Section Pool.
Context {W T : Type} `{Platform W} `{PoolObject W T}.

Record t := mk {
  counter : Z;
  mmanager_ : MemoryManager.t;
  available_slots_ : AtomicQueue.t Z;
  objects : gmap Z T          (* the objects by slot, where [mmanager_[slot]] points *)
}.

Definition set_counter (n : Z) (p : t) : t :=
  mk n (mmanager_ p) (available_slots_ p) (objects p).
Definition set_manager (m : MemoryManager.t) (p : t) : t :=
  mk (counter p) m (available_slots_ p) (objects p).
Definition set_available (q : AtomicQueue.t Z) (p : t) : t :=
  mk (counter p) (mmanager_ p) q (objects p).
Definition set_objects (o : gmap Z T) (p : t) : t :=
  mk (counter p) (mmanager_ p) (available_slots_ p) o.

(** The members are built first, then [mmanager_.init()] runs. *)
Definition construct (sizeof_manager sizeof_pool : Z) : M (Machine W) t :=
  AtomicQueue.construct sizeof_manager sizeof_pool ;;;
  let* manager := MemoryManager.init sizeof_manager sizeof_pool in
  ret (mk 0 manager AtomicQueue.empty ∅).

(** A slot in which no object was ever built cannot be looked at. *)
Definition get_object (slot_index : Z) : SM W t T :=
  local_state (fun p => match objects p !! slot_index with
                        | Some o => (Ret o, p)
                        | None => (Halt Undefined, p)
                        end).

Definition put_object (slot_index : Z) (o : T) : SM W t unit :=
  local_state (modify (fun p => set_objects (<[slot_index := o]> (objects p)) p)).

(** A call on the object a reference [T&] names. *)
Definition on_object {A} (slot_index : Z) (m : SM W T A) : SM W t A :=
  let* o := get_object slot_index in
  let* r := lift (run_with o m) in
  put_object slot_index r.2 ;;;
  ret r.1.

(** Without memory the empty [allocation_result] is dereferenced. *)
Definition push_to_pool (object : T) : SM W t (Z + Error) :=
  let* empty_slot := local_state (zoom available_slots_ set_available AtomicQueue.try_pop) in
  match empty_slot with
  | Some slot =>
    let* old_object := get_object slot in
    let* o := lift (move_assign_to old_object object) in
    put_object slot o ;;;
    ret (inl slot)
  | None =>
    let* allocation_result := focus mmanager_ set_manager MemoryManager.allocate in
    (match allocation_result with
     | Some r =>
       let* o := lift (move_construct object) in put_object (AllocatorPool.index r) o
     | None => ret tt
     end) ;;;
    local_state (modify (fun p => set_counter (wrap64 (counter p + 1)) p)) ;;;
    match allocation_result with
    | Some r => ret (inl (AllocatorPool.index r))
    | None => stop Undefined
    end
  end.

(** The [new size_t(slot)] leaks and is not used; a refused push is ignored. *)
Definition release (slot : Z) : SM W t unit :=
  local_state (zoom available_slots_ set_available (AtomicQueue.try_push slot)) ;;;
  ret tt.

Definition pool (p : t) : AllocatorPool.t := MemoryManager.memory_pool_512_ (mmanager_ p).

(** [live] are the slots handed out, [q] the released ones in the order of
    their release: together every slot ever issued, each once. *)
Definition ok (p : t) (live q : list Z) : Prop :=
  unreturned (pool p) /\
  AllocatorPool.last_not_issued_index (pool p) = counter p /\
  AtomicQueue.holds (available_slots_ p) q /\
  NoDup (live ++ q) /\
  (forall i, i ∈ live ++ q <-> 0 <= i < counter p) /\
  (forall i, 0 <= i < counter p <-> is_Some (objects p !! i)).
End Pool.
Arguments t : clear implicits.
End ObjectPool.

(** ** Lemmas *)
Section PoolLemmas.
Context {W T : Type} `{Platform W} `{PoolObject W T}.
Implicit Types (p : ObjectPool.t T) (k : Machine W) (live q : list Z) (o : T).
Import ObjectPool.

Lemma get_object_run slot o k p :
  objects p !! slot = Some o -> get_object slot (k, p) = (Ret o, (k, p)).
Proof. intros Ho. apply local_state_run. by rewrite Ho. Qed.

Lemma get_object_missing slot k p :
  objects p !! slot = None -> get_object slot (k, p) = (Halt Undefined, (k, p)).
Proof. intros Ho. apply local_state_run. by rewrite Ho. Qed.

(** A call on an object changes this object only. *)
Lemma on_object_run {A} slot (m : SM W T A) o k p a k' o' :
  objects p !! slot = Some o -> m (k, o) = (Ret a, (k', o')) ->
  on_object slot m (k, p) = (Ret a, (k', set_objects (<[slot := o']> (objects p)) p)).
Proof.
  intros Ho Hm. unfold on_object. rewrite (bind_run _ _ _ _ _ (get_object_run _ _ _ _ Ho)).
  erewrite bind_run by (apply lift_run; unfold run_with; by rewrite Hm). done.
Qed.

Lemma on_object_halt {A} slot (m : SM W T A) o k p h k' o' :
  objects p !! slot = Some o -> m (k, o) = (Halt h, (k', o')) ->
  on_object slot m (k, p) = (Halt h, (k', p)).
Proof.
  intros Ho Hm. unfold on_object. rewrite (bind_run _ _ _ _ _ (get_object_run _ _ _ _ Ho)).
  apply bind_halts, lift_run. unfold run_with. by rewrite Hm.
Qed.

Lemma pop_slot_run k p r (q' : AtomicQueue.t Z) :
  AtomicQueue.try_pop (available_slots_ p) = (r, q') ->
  local_state (zoom available_slots_ set_available AtomicQueue.try_pop) (k, p)
    = (r, (k, set_available q' p)).
Proof. intros Hr. apply local_state_run. by rewrite (zoom_run _ _ _ _ _ _ Hr). Qed.

Lemma release_run k p live q slot :
  ok p live q -> (length q < 4095)%nat ->
  exists p', release slot (k, p) = (Ret tt, (k, p')) /\
    counter p' = counter p /\ objects p' = objects p /\ mmanager_ p' = mmanager_ p /\
    AtomicQueue.holds (available_slots_ p') (q ++ [slot]).
Proof.
  intros (_ & _ & Hq & _) Hl.
  destruct (fifo_push_spec (FifoQueue := AtomicQueue_fifo) _ q slot Hq I Hl) as (s & Hs & Hq').
  exists (set_available s p). split; [|done]. unfold release.
  erewrite bind_run; [done|]. apply local_state_run, zoom_run. exact Hs.
Qed.

Lemma ok_length p live q :
  ok p live q -> Z.of_nat (length live + length q) = counter p.
Proof.
  intros ((Hc & _) & Hl & _ & Hnd & Hi & _). rewrite <- length_app.
  assert (0 <= counter p) by (rewrite <- Hl; apply Hc).
  assert (live ++ q ≡ₚ seqZ 0 (counter p)) as ->.
  { apply NoDup_Permutation; [done | apply NoDup_seqZ |]. intros i. rewrite Hi, elem_of_seqZ. lia. }
  rewrite length_seqZ. lia.
Qed.

Lemma release_ok k p live q slot :
  ok p (slot :: live) q -> (length q < 4095)%nat ->
  exists p', release slot (k, p) = (Ret tt, (k, p')) /\
    objects p' = objects p /\ ok p' live (q ++ [slot]).
Proof.
  intros Hok Hl. destruct (release_run k p _ q slot Hok Hl) as (p' & Hr & Hc & Ho & Hm & Hq).
  exists p'. split_and!; [done..|]. destruct Hok as (Hu & Hlast & _ & Hnd & Hi & Hobj).
  assert (live ++ q ++ [slot] ≡ₚ (slot :: live) ++ q) as Hp by (simpl; solve_Permutation).
  unfold ok, pool. rewrite Hm, Hc, Ho. split_and!; try done.
  - by rewrite Hp.
  - intros i. by rewrite Hp.
Qed.

Lemma pop_ok k p live s q :
  ok p live (s :: q) ->
  exists q' : AtomicQueue.t Z, AtomicQueue.try_pop (available_slots_ p) = (Ret (Some s), q') /\
    ok (set_available q' p) (s :: live) q.
Proof.
  intros (Hu & Hlast & Hq & Hnd & Hi & Hobj).
  destruct (fifo_pop_spec (FifoQueue := AtomicQueue_fifo) _ _ _ Hq) as (s' & Hs & Hq').
  exists s'. split; [done|].
  assert (((s :: live) ++ q) ≡ₚ live ++ s :: q) as Hp by (simpl; solve_Permutation).
  unfold ok, pool. simpl counter. simpl mmanager_. simpl available_slots_. simpl objects.
  split_and!; try done.
  - by rewrite Hp.
  - intros i. by rewrite Hp.
Qed.

Lemma pop_ok_empty k p live :
  ok p live [] ->
  local_state (zoom available_slots_ set_available AtomicQueue.try_pop) (k, p) = (Ret None, (k, p)).
Proof.
  intros (_ & _ & Hq & _). rewrite (pop_slot_run k p (Ret None) (available_slots_ p)).
  - by destruct p.
  - exact (fifo_pop_empty (FifoQueue := AtomicQueue_fifo) _ Hq).
Qed.

Lemma put_object_ok p live q slot o :
  ok p live q -> 0 <= slot < counter p -> ok (set_objects (<[slot := o]> (objects p)) p) live q.
Proof.
  intros (Hu & Hlast & Hq & Hnd & Hi & Hobj) Hs.
  unfold ok, pool. simpl counter. simpl mmanager_. simpl available_slots_. simpl objects.
  split_and!; try done. intros i. rewrite Hobj, lookup_insert_is_Some'.
  split; [auto|]. intros [<-|]; [|done]. by apply Hobj.
Qed.

(** A fresh slot is the next number. *)
Lemma fresh_ok p live o e :
  let s := counter p in
  let p' := set_counter (wrap64 (s + 1))
    (set_objects (<[s := o]> (objects p))
      (set_manager (MemoryManager.set_pool
         (AllocatorPool.set_last (s + 1) (AllocatorPool.set_end e (pool p))) (mmanager_ p)) p)) in
  ok p live [] -> s <= RING_BUFFER_SIZE ->
  AllocatorPool.actual_memory_end (pool p) <= e ->
  AllocatorPool.at_index (pool p) (s + 1) < e ->
  ok p' (s :: live) [].
Proof.
  intros s p' (Hu & Hlast & Hq & Hnd & Hi & Hobj) Hs He Hlt.
  assert (0 <= s) as Hs0 by (unfold s; rewrite <- Hlast; apply Hu).
  assert (wrap64 (s + 1) = s + 1) as Hw
    by (apply wrap64_small; unfold RING_BUFFER_SIZE in *; lia).
  unfold p', ok, pool. simpl counter. simpl available_slots_. simpl objects.
  simpl mmanager_. simpl MemoryManager.memory_pool_512_. rewrite Hw. rewrite app_nil_r in *.
  split_and!; try done.
  - split; [|apply Hu]. subst s. rewrite <- Hlast.
    fold (pool p). apply committed_fresh; rewrite ?Hlast; [apply Hu | done..].
  - constructor; [|done]. rewrite Hi. lia.
  - intros i. rewrite elem_of_cons, Hi. fold s. lia.
  - intros i. rewrite lookup_insert_is_Some', <- Hobj. fold s. lia.
Qed.

(** A released slot: its old object is assigned to. *)
Lemma push_reuse_run object k p s (q' : AtomicQueue.t Z) old k' :
  AtomicQueue.try_pop (available_slots_ p) = (Ret (Some s), q') ->
  objects p !! s = Some old -> move_assign_to old object k = (Ret (assigned old object), k') ->
  push_to_pool object (k, p)
    = (Ret (inl s), (k', set_objects (<[s := assigned old object]> (objects p)) (set_available q' p))).
Proof.
  intros Hp Ho Hm. unfold push_to_pool. rewrite (bind_run _ _ _ _ _ (pop_slot_run k p _ _ Hp)).
  erewrite bind_run by (apply get_object_run; exact Ho).
  erewrite bind_run by (by apply lift_run). done.
Qed.

(** What [push_to_pool] promises, on every outcome. *)
Definition push_post (object : T) p live q (r : outcome (Z + Error))
    (s : Machine W * ObjectPool.t T) : Prop :=
  match r with
  | Ret (inl slot) => exists o,
      (slot ∉ live) /\ ok s.2 (slot :: live) (tail q) /\
      objects s.2 = <[slot := o]> (objects p) /\
      match head q with
      | Some free => slot = free /\ exists old, objects p !! slot = Some old /\ o = assigned old object
      | None => slot = counter p /\ o = constructed object
      end
  | Ret (inr _) => False
  | Halt Undefined => q = [] /\ length live = S (Z.to_nat RING_BUFFER_SIZE)
  | Halt h => h = Terminated /\ q = [] /\ mprotect_failed s.1
  end.

Lemma push_reuses object k p live s q :
  ok p live (s :: q) -> wp (push_to_pool object) (push_post object p live (s :: q)) (k, p).
Proof.
  intros Hok. pose proof Hok as (_ & _ & _ & Hnd & Hi & Hobj).
  assert (0 <= s < counter p) as Hs by (apply Hi, elem_of_app; right; left).
  destruct (pop_ok k p live s q Hok) as (q' & Hp & Hok1).
  destruct (proj1 (Hobj s) Hs) as [old Hold].
  destruct (move_assign_run old object k) as [k' Hma].
  unfold wp. rewrite (push_reuse_run object k p s q' old k' Hp Hold Hma).
  exists (assigned old object). simpl. split_and!; [| |done|done|eauto].
  - apply NoDup_app in Hnd as (_ & Hd & _). intros Hin. apply (Hd s Hin). left.
  - by apply (put_object_ok (set_available q' p)).
Qed.

Lemma focus_allocate k p (Q : outcome _ -> _ -> Prop) :
  wp AllocatorPool.allocate
    (fun r s => Q r (s.1, set_manager (MemoryManager.set_pool s.2 (mmanager_ p)) p)) (k, pool p) ->
  wp (focus mmanager_ set_manager MemoryManager.allocate) Q (k, p).
Proof.
  unfold wp, MemoryManager.allocate, focus, zoom, pool. simpl.
  by destruct (AllocatorPool.allocate _) as [r [k' a]].
Qed.

Lemma push_issues object k p live :
  ok p live [] -> wp (push_to_pool object) (push_post object p live []) (k, p).
Proof.
  intros Hok. pose proof Hok as ((Hc & Hfree) & Hlast & Hq & Hnd & Hi & Hobj).
  unfold push_to_pool. apply wp_bind. unfold wp at 1. rewrite (pop_ok_empty k p live Hok).
  cbn [fst snd]. apply wp_bind, focus_allocate.
  destruct (Z.lt_ge_cases RING_BUFFER_SIZE (counter p)) as [Hfull|Hroom].
  - eapply wp_mono; [|apply (allocate_full k (pool p) live); [done| |done|by rewrite Hlast]].
    2: { exists []. split; [done|]. by rewrite Hlast. }
    intros [[res|]|h] s Hs; simpl in Hs.
    + destruct Hs as (_ & Hni & _ & _ & _ & Hc2 & Hacc). exfalso.
      destruct Hc2 as (_ & _ & _ & _ & Hl2 & _).
      destruct (accounts_length s.2 _ Hacc) as (q2 & _ & Hlen); [lia|].
      pose proof (ok_length p live [] Hok). simpl in *. unfold RING_BUFFER_SIZE in *. lia.
    + destruct Hs as [-> Hl]. split; [done | exact Hl].
    + destruct Hs as [-> Hf]. done.
  - eapply wp_mono; [|apply (allocate_fresh k (pool p)); [done|done|by rewrite Hlast]].
    intros [[res|]|h] [k1 a1] Hs; simpl in Hs; [|done|destruct Hs as [-> ?]; done].
    destruct Hs as (e & He & Hlt & -> & ->). rewrite Hlast in *. cbn [fst snd].
    destruct (move_construct_run object k1) as [k2 Hm].
    apply wp_bind. unfold wp at 1. erewrite bind_run by (by apply lift_run).
    cbn [fst snd put_object local_state zoom modify]. unfold wp. simpl.
    exists (constructed object). split_and!; [|by apply fresh_ok|done|done|done].
    rewrite app_nil_r in Hi. rewrite Hi. lia.
Qed.

Lemma push_correct object k p live q :
  ok p live q -> wp (push_to_pool object) (push_post object p live q) (k, p).
Proof. destruct q; [apply push_issues | apply push_reuses]. Qed.
End PoolLemmas.

(** ** Runs of a pool *)
Section PoolRuns.
Context {W T : Type} `{Platform W} `{PoolObject W T} (sizeof_manager sizeof_pool : Z).
Import ObjectPool.

(** Pools a program can reach that releases only slots it holds, each once,
    and never has 4095 released slots waiting; [live] are the slots held. *)
Inductive pool_run : Machine W -> t T -> list Z -> list Z -> Prop :=
| run_init k m k0 :
    (forall w, 2 < (sys_call c_sysconf_page_size w).1.1) ->
    MemoryManager.init sizeof_manager sizeof_pool k0 = (Ret m, k) ->
    pool_run k (mk 0 m AtomicQueue.empty ∅) [] []
| run_push k p live q object slot k' p' :
    pool_run k p live q ->
    push_to_pool object (k, p) = (Ret (inl slot), (k', p')) ->
    pool_run k' p' (slot :: live) (tail q)
| run_release k p live1 live2 q slot k' p' :
    pool_run k p (live1 ++ slot :: live2) q -> (length q < 4095)%nat ->
    release slot (k, p) = (Ret tt, (k', p')) ->
    pool_run k' p' (live1 ++ live2) (q ++ [slot])
| run_object k p live q slot o k' :
    pool_run k p live q -> slot ∈ live ->
    pool_run k' (set_objects (<[slot := o]> (objects p)) p) live q.

Lemma fresh_pool_ok k m k0 :
  (forall w, 2 < (sys_call c_sysconf_page_size w).1.1) ->
  MemoryManager.init sizeof_manager sizeof_pool k0 = (Ret m, k) ->
  ok (T := T) (mk 0 m AtomicQueue.empty ∅) [] [].
Proof.
  intros Hpage Hm.
  destruct (manager_init_run sizeof_manager sizeof_pool k0 Hpage) as (k1 & m1 & E & Hu & Hl & _).
  rewrite E in Hm. injection Hm as -> ->. unfold ok, pool. simpl.
  split_and!; [done | done | apply empty_holds | constructor | |].
  - intros i. rewrite elem_of_nil. lia.
  - intros i. rewrite lookup_empty. split; [lia | by intros []].
Qed.

Lemma ok_live_perm (p : t T) live live' q : live ≡ₚ live' -> ok p live q -> ok p live' q.
Proof.
  intros Hp (Hu & Hl & Hq & Hnd & Hi & Ho). unfold ok. split_and!; try done.
  - by rewrite <- Hp.
  - intros i. by rewrite <- Hp.
Qed.

Lemma run_ok k p live q : pool_run k p live q -> ok p live q.
Proof.
  induction 1 as [k m k0 Hpage Hm | k p live q object slot k' p' _ IH Hpush
                 | k p live1 live2 q slot k' p' _ IH Hl Hrel | k p live q slot o k' _ IH Hs].
  - by eapply fresh_pool_ok.
  - pose proof (push_correct object k p live q IH) as Hpost. unfold wp in Hpost.
    rewrite Hpush in Hpost. simpl in Hpost. by destruct Hpost as (o & _ & Hok & _).
  - destruct (release_ok k p (live1 ++ live2) q slot) as (p1 & Hr & _ & Hok);
      [|done|].
    { eapply ok_live_perm; [|exact IH]. solve_Permutation. }
    rewrite Hr in Hrel. by injection Hrel as <- <-.
  - apply put_object_ok; [done|]. destruct IH as (_ & _ & _ & _ & Hi & _).
    apply Hi, elem_of_app. by left.
Qed.

(** C10: the pool never hands out a slot that is in use.  In every run that
    releases only slots it holds, the slots held are different from one
    another and each contains an object; [push_to_pool] returns a slot that
    nobody holds (the one released longest ago if there is one, else the next
    number), puts the object there and touches no other object; it does not
    return only if 4097 slots are held or the kernel refuses memory. *)
Theorem pool_slots_exclusive k p live q object :
  pool_run k p live q ->
  NoDup live /\ (forall slot, slot ∈ live -> is_Some (objects p !! slot)) /\
  wp (push_to_pool object) (push_post object p live q) (k, p).
Proof.
  intros Hr%run_ok. split_and!; [| |by apply push_correct].
  - destruct Hr as (_ & _ & _ & Hnd & _). by apply NoDup_app in Hnd as (? & _).
  - destruct Hr as (_ & _ & _ & _ & Hi & Ho). intros slot Hs.
    apply Ho, Hi, elem_of_app. by left.
Qed.

(** A slot released twice is handed out twice: the next two objects
    pushed into the pool get the same slot, the second is move-assigned over
    the first. *)
Theorem double_release_aliases k p live slot a b :
  pool_run k p (slot :: live) [] ->
  exists k' p' o,
    (release slot ;;; release slot ;;; let* x := push_to_pool a in
     let* y := push_to_pool b in ret (x, y)) (k, p) = (Ret (inl slot, inl slot), (k', p')) /\
    objects p !! slot = Some o /\ objects p' !! slot = Some (assigned (assigned o a) b).
Proof.
  intros Hok%run_ok.
  destruct (release_run k p _ [] slot Hok ltac:(simpl; lia)) as (p1 & Hr1 & Hc1 & Ho1 & Hm1 & Hq1).
  destruct (fifo_push_spec (FifoQueue := AtomicQueue_fifo) _ _ slot Hq1 I ltac:(simpl; lia))
    as (s2 & Hs2 & Hq2).
  destruct (fifo_pop_spec (FifoQueue := AtomicQueue_fifo) _ _ _ Hq2) as (s3 & Hs3 & Hq3).
  destruct (fifo_pop_spec (FifoQueue := AtomicQueue_fifo) _ _ _ Hq3) as (s4 & Hs4 & _).
  pose proof Hok as (_ & _ & _ & _ & Hi & Hobj).
  destruct (proj1 (Hobj slot)) as [o Ho]; [apply Hi; left|].
  destruct (move_assign_run o a k) as [k1 Ha].
  destruct (move_assign_run (assigned o a) b k1) as [k2 Hb].
  do 3 eexists. split.
  - rewrite (bind_run _ _ _ _ _ Hr1). unfold release at 1. rewrite !bind_bind.
    erewrite bind_run by (apply local_state_run, zoom_run; exact Hs2). rewrite bind_ret.
    erewrite bind_run by
      (apply (push_reuse_run a k (set_available s2 p1) slot s3 o k1 Hs3); [simpl; by rewrite Ho1 | exact Ha]).
    erewrite bind_run by
      (eapply (push_reuse_run b k1 (set_objects _ (set_available s3 _)) slot s4 (assigned o a) k2 Hs4);
         [apply lookup_insert_eq | exact Hb]).
    reflexivity.
  - split; [exact Ho|]. simpl. by rewrite lookup_insert_eq.
Qed.
End PoolRuns.

(** *** Witnesses: a pool of numbers on the quiet platform *)
#[local] Program Instance number_object : PoolObject Script Z := {
  move_construct v := ret v;
  move_assign_to _ v := ret v;
  constructed v := v;
  assigned _ v := v
}.
Next Obligation. intros v k. by exists k. Qed.
Next Obligation. intros old v k. by exists k. Qed.

Definition number_pool_0 : Machine Script * ObjectPool.t Z :=
  match @MemoryManager.init Script (scripted quiet_calls) 100 200 (script_of []) with
  | (Ret m, k) => (k, ObjectPool.mk 0 m AtomicQueue.empty ∅)
  | (_, k) => (k, ObjectPool.mk 0 (MemoryManager.mk 0 (AllocatorPool.mk 0 0 0 0 0 0 RingBuffer.init))
                               AtomicQueue.empty ∅)
  end.
Definition number_pool_1 : Machine Script * ObjectPool.t Z :=
  (ObjectPool.push_to_pool (H := scripted quiet_calls) 11 number_pool_0).2.

Lemma number_pool_1_run :
  @pool_run Script Z (scripted quiet_calls) _ 100 200 number_pool_1.1 number_pool_1.2 [0] [].
Proof.
  apply (@run_push Script Z (scripted quiet_calls) _ 100 200 number_pool_0.1 number_pool_0.2 [] [] 11).
  - apply (@run_init Script Z (scripted quiet_calls) _ 100 200 _ _ (script_of []));
      [intros w; vm_compute; reflexivity | vm_compute; reflexivity].
  - vm_compute. reflexivity.
Qed.

Lemma pool_slots_exclusive_witness :
  NoDup [0] /\ (forall slot, slot ∈ [0] -> is_Some (ObjectPool.objects number_pool_1.2 !! slot)) /\
  wp (ObjectPool.push_to_pool (H := scripted quiet_calls) 12)
     (push_post 12 number_pool_1.2 [0] []) (number_pool_1.1, number_pool_1.2).
Proof.
  apply (@pool_slots_exclusive Script Z (scripted quiet_calls) _ 100 200 _ _ [0] [] 12).
  exact number_pool_1_run.
Defined.

Lemma double_release_aliases_witness :
  exists k' p' o,
    (ObjectPool.release (W := Script) 0 ;;; ObjectPool.release 0 ;;;
     let* x := ObjectPool.push_to_pool (H := scripted quiet_calls) 12 in
     let* y := ObjectPool.push_to_pool (H := scripted quiet_calls) 13 in ret (x, y))
      (number_pool_1.1, number_pool_1.2) = (Ret (inl 0, inl 0), (k', p')) /\
    ObjectPool.objects number_pool_1.2 !! 0 = Some o /\
    ObjectPool.objects p' !! 0 = Some (assigned (assigned o 12) 13).
Proof.
  apply (@double_release_aliases Script Z (scripted quiet_calls) _ 100 200 _ _ [] 0 12 13).
  exact number_pool_1_run.
Defined.
