(* ===== verification/Network.v ===== *)
(** * [net/network_routine]: the network engine

    [NetworkEngine] keeps the connections in an [ObjectPool], watches them with
    epoll, and hands every message to the application's handler.  A reference
    [ConnectionEntry&] is the slot of the entry; a call through it reads and
    writes the pool's store, so two references to one slot see each other's
    changes.  The two queues are the application's; the engine only pushes to
    them.  The application's own state is a type [A] that contains the engine
    ([HasEngine]), because the handler may call the engine back. *)
From S2P Require Import Prelude.
From S2P Require Import CString.
From S2P Require Import Platform.
From S2P Require Import MemoryManager.
From S2P Require Import AtomicQueue.
From S2P Require Import ObjectPool.
From S2P Require Import Utility.
From S2P Require Import Protocol.
From S2P Require Import Socket.

#[local] Open Scope Z_scope.
#[local] Open Scope bsm_scope.

(** ** [struct ConnectionEntry] *)
Record ConnectionEntry := mkEntry {
  connection_type_ : end_point_e.t;
  socket_handler_ : SocketHandler;
  generation_ : Z
}.

Definition set_connection_type (x : end_point_e.t) (c : ConnectionEntry) : ConnectionEntry :=
  mkEntry x (socket_handler_ c) (generation_ c).
Definition set_socket_handler (h : SocketHandler) (c : ConnectionEntry) : ConnectionEntry :=
  mkEntry (connection_type_ c) h (generation_ c).
Definition set_generation (n : Z) (c : ConnectionEntry) : ConnectionEntry :=
  mkEntry (connection_type_ c) (socket_handler_ c) n.

Definition default_entry : ConnectionEntry := mkEntry end_point_e.NONE default_handler 0.
(** [ConnectionEntry(end_point_e, int)]. *)
Definition entry_of (x : end_point_e.t) (fd : Z) : ConnectionEntry := mkEntry x (handler_of_fd fd) 0.

(** What [send_message] and [get_view_by_type] show a filter. *)
Record ConnectionMeta := mkMeta { meta_slot : Z; meta_type : end_point_e.t }.

(** The context the sources add, with the line of the call. *)
Definition net_context {W} `{Platform W} : Z -> string -> Error -> Error :=
  add_context "network_routine.cpp".

Section Entry.
Context {W : Type} `{Platform W}.

Definition on_socket {A} (m : SM W SocketHandler A) : SM W ConnectionEntry A :=
  focus socket_handler_ set_socket_handler m.

Definition reset : SM W ConnectionEntry unit :=
  local_state (modify (set_connection_type end_point_e.NONE)) ;;;
  on_socket reset_to_empty ;;;
  local_state (modify (fun c => set_generation (wrap64 (generation_ c + 1)) c)).

(** [operator=(ConnectionEntry&&)]; the handler moved from dies with the
    temporary it belongs to. *)
Definition move_entry (other : ConnectionEntry) : SM W ConnectionEntry unit :=
  local_state (modify (set_connection_type (connection_type_ other))) ;;;
  let* moved := on_socket (move_assign (socket_handler_ other)) in
  lift (run_with moved destroy) ;;;
  ret tt.

(** [ConnectionEntry(ConnectionEntry&&)]: a default entry, then the same. *)
Definition construct_entry (other : ConnectionEntry) : M (Machine W) ConnectionEntry :=
  let* r := run_with default_entry (move_entry other) in ret r.2.

Definition assign_entry (old other : ConnectionEntry) : M (Machine W) ConnectionEntry :=
  let* r := run_with old (move_entry other) in ret r.2.

Definition send_message_impl (message : OutgoingMessage) : SM W ConnectionEntry (option Error) :=
  let* error := on_socket (Socket.send_message message) in
  ret (net_context 453 "Unable to send message via connection: failed to send message to socket"
         <$> error).

(** The handler a moved entry ends with. *)
Definition moved_entry (old other : ConnectionEntry) : ConnectionEntry :=
  mkEntry (connection_type_ other)
          (mkSocket (socket_ (socket_handler_ other)) None (socket_status_ (socket_handler_ other)))
          (generation_ old).
End Entry.

(** How the pool moves entries: the handler moved from dies without a call. *)
Section MoveEntry.
Context {W : Type} `{Platform W}.

Lemma move_entry_run old other k :
  exists k', move_entry other (k, old) = (Ret tt, (k', moved_entry old other)).
Proof.
  destruct old as [ot [ofd oh os] og], other as [t [fd h st] g].
  unfold move_entry, on_socket, move_assign, close_socket, destroy_co_handle, destroy, run_with,
    lift, local_state, focus, zoom, bind, modify, gets, ret. simpl.
  destruct (ofd =? -1); simpl; [by eexists|].
  unfold do_call. destruct (sys_call _ _) as [[n e] w]. simpl. by eexists.
Qed.

#[export] Program Instance ConnectionEntry_pool_object : PoolObject W ConnectionEntry := {
  move_construct := construct_entry;
  move_assign_to := assign_entry;
  constructed := moved_entry default_entry;
  assigned := moved_entry
}.
Next Obligation.
  intros other k. destruct (move_entry_run default_entry other k) as [k' E]. exists k'.
  unfold construct_entry. erewrite bind_run by (unfold run_with; by rewrite E). done.
Qed.
Next Obligation.
  intros old other k. destruct (move_entry_run old other k) as [k' E]. exists k'.
  unfold assign_entry. erewrite bind_run by (unfold run_with; by rewrite E). done.
Qed.
End MoveEntry.

(** ** [utility/scope_guard.h]

    [body] ends with its result and whether the guard is still active; the
    guard's destructor then runs [f]. *)
Definition scope_guard {S A} (f : M S unit) (body : M S (A * bool)) : M S A :=
  let* r := body in
  (if r.2 : bool then f else ret tt) ;;;
  ret r.1.

(** ** [class NetworkEngine] *)
Module NetworkEngine.
Record t := mk {
  connection_pool_ : ObjectPool.t ConnectionEntry;
  epollfd_ : Z;
  network_raw_tasks_ : AtomicQueue.t Z;
  available_task_tags_ : AtomicQueue.t task_tag_e.t
}.

Definition set_pool (p : ObjectPool.t ConnectionEntry) (e : t) : t :=
  mk p (epollfd_ e) (network_raw_tasks_ e) (available_task_tags_ e).
Definition set_epollfd (fd : Z) (e : t) : t :=
  mk (connection_pool_ e) fd (network_raw_tasks_ e) (available_task_tags_ e).
Definition set_raw_tasks (q : AtomicQueue.t Z) (e : t) : t :=
  mk (connection_pool_ e) (epollfd_ e) q (available_task_tags_ e).
Definition set_task_tags (q : AtomicQueue.t task_tag_e.t) (e : t) : t :=
  mk (connection_pool_ e) (epollfd_ e) (network_raw_tasks_ e) q.

Definition MAX_EVENTS : Z := 10.

Section WithPlatform.
Context {W : Type} `{Platform W}.
Abbreviation NE A := (SM W t A).

Definition on_pool {A} (m : SM W (ObjectPool.t ConnectionEntry) A) : NE A :=
  focus connection_pool_ set_pool m.
(** Reading an entry, calling one of its methods. *)
Definition connection (slot : Z) : NE ConnectionEntry := on_pool (ObjectPool.get_object slot).
Definition on_connection {A} (slot : Z) (m : SM W ConnectionEntry A) : NE A :=
  on_pool (ObjectPool.on_object slot m).
Definition connection_fd (slot : Z) : NE Z :=
  let* c := connection slot in ret (socket_ (socket_handler_ c)).

Definition init_connection_type (socket_type : end_point_e.t) (slot : Z) : NE (option Error) :=
  match socket_type with
  | end_point_e.NONE | end_point_e.TO_CLIENT | end_point_e.TO_LOBBY => ret None
  | end_point_e.TO_PARENT =>
    on_connection slot (local_state (modify (set_connection_type end_point_e.TO_PARENT))) ;;;
    ret None
  | end_point_e.LISTENER =>
    let* setup_error := on_connection slot
      (on_socket (setup_listener (Config.get_line Config.initial "port"))) in
    match setup_error with
    | Some e =>
      ret (Some (net_context 235
        "Unable to init connection based on type: failed to setup listener socket for server" e))
    | None =>
      on_connection slot (local_state (modify (set_connection_type end_point_e.LISTENER))) ;;;
      ret None
    end
  | end_point_e.TO_SERVER =>
    let* error := on_connection slot (on_socket setup_client) in
    match error with
    | Some e =>
      ret (Some (net_context 243
        "Unable to init connection based on type: failed to setup client socket" e))
    | None =>
      on_connection slot (local_state (modify (set_connection_type end_point_e.TO_SERVER))) ;;;
      ret None
    end
  end.

Definition subscribe_to_events (slot : Z) : NE (option Error) :=
  let* epfd := local_state (gets epollfd_) in
  let* fd := connection_fd slot in
  let* adding_error := lift (EpollHandler.add_socket epfd fd slot) in
  ret (net_context 260
    "Unable to subscribe connection to events: failed to add socket to epoll" <$> adding_error).

Definition rearm (slot : Z) : NE (option Error) :=
  let* epfd := local_state (gets epollfd_) in
  let* fd := connection_fd slot in
  lift (EpollHandler.rearm_socket epfd fd slot).

(** Whatever [remove_socket] says, the answer is empty. *)
Definition unsubscribe_from_events (slot : Z) : NE (option Error) :=
  let* epfd := local_state (gets epollfd_) in
  let* fd := connection_fd slot in
  let* error := lift (EpollHandler.remove_socket epfd fd) in
  ret None.

Definition release_slot (slot : Z) : NE unit := on_pool (ObjectPool.release slot).

Definition release_connection (slot : Z) : NE unit :=
  let* unsubscribe_error := unsubscribe_from_events slot in
  (match unsubscribe_error with
   | Some e => lift (LOG (full_report e))
   | None => ret tt
   end) ;;;
  on_connection slot reset ;;;
  release_slot slot.

Definition init_epoll : NE (option Error) :=
  let* r := lift EpollHandler.init in
  local_state (modify (set_epollfd r.1)) ;;;
  match r.2 with
  | Some e => ret (Some (net_context 204 "Unable to init epoll for Engine: failed to init" e))
  | None =>
    let* adding_error := subscribe_to_events 0 in
    ret (net_context 213
      "Unable to init epoll for Engine: failed to subscribe root connection to events"
        <$> adding_error)
  end.

Definition init_engine (socket_type : end_point_e.t) (root_socket : Z)
    : NE (ConnectionView + Error) :=
  let* root_socket_slot := on_pool (ObjectPool.push_to_pool
    (if negb (root_socket =? 0) then entry_of socket_type root_socket else default_entry)) in
  match root_socket_slot with
  | inr e =>
    ret (inr (net_context 67
      "Unable to init NetworkEngine: failed to push socket to connection pool" e))
  | inl slot =>
    let* init_error := init_connection_type socket_type slot in
    match init_error with
    | Some e =>
      ret (inr (net_context 76
        "Unable to init NetworkEngine: failed to init connection according to a type" e))
    | None =>
      let* epoll_error := init_epoll in
      match epoll_error with
      | Some e =>
        ret (inr (net_context 82 "Unable to init NetworkEngine: failed to init epoll" e))
      | None => ret (inl (mkView slot))
      end
    end
  end.

Definition send_message_to (recipient_view : ConnectionView) (outgoing : OutgoingMessage)
    : NE (option Error) :=
  on_connection (get_slot recipient_view) (send_message_impl outgoing).

Definition register_connection (socket_type : end_point_e.t) (fd : Z) : NE (Z + Error) :=
  let* push_result := on_pool (ObjectPool.push_to_pool (entry_of socket_type fd)) in
  match push_result with
  | inr e =>
    ret (inr (net_context 298
      "Unable to register new connection: failed to push to connection pool" e))
  | inl slot =>
    let* subscribe_error := subscribe_to_events slot in
    match subscribe_error with
    | Some e =>
      let e' := net_context 305
        "Unable to register new connection: failed to subscribe to events" e in
      on_connection slot (send_message_impl
        (typed_message (user_message GENERIC) message_type_e.PRINTABLE)) ;;;
      on_connection slot reset ;;;
      release_slot slot ;;;
      ret (inr e')
    | None => ret (inl slot)
    end
  end.

Definition attach_socket (fd : Z) (socket_type : end_point_e.t) : NE (ConnectionView + Error) :=
  let* registration_slot := register_connection socket_type fd in
  match registration_slot with
  | inr e =>
    ret (inr (net_context 119 "Unable to attach socket: failed to register connection" e))
  | inl slot => ret (inl (mkView slot))
  end.

(** The body of [transfer] after the guard is made: its result, and
    whether the guard is still active. *)
Definition transfer_body (destination source : Z) : NE (TransferResult * bool) :=
  unsubscribe_from_events source ;;;
  let* source_fd := connection_fd source in
  let* transfer_error := on_connection destination (send_message_impl
    (mkOutgoing "\socket" message_type_e.SOCKET (Some source_fd))) in
  match transfer_error with
  | None => ret (mkTransfer true true, true)
  | Some e0 =>
    let e1 := net_context 149 "Unable to transfer socket: failed to send socket to recipient" e0 in
    let e2 := net_context 151 "Releasing recipient connection" e1 in
    release_connection destination ;;;
    let e3 := net_context 154 "Trying to recover source connection..." e2 in
    let* recover_error := subscribe_to_events source in
    match recover_error with
    | Some r =>
      let e4 := net_context 157 (full_report r) e3 in
      let e5 := net_context 158
        "Unable to recover source connection: failed to subscribe back to events, releasing source connection"
        e4 in
      release_connection source ;;;
      lift (LOG (full_report e5)) ;;;
      ret (mkTransfer false false, false)
    | None =>
      let e4 := net_context 164 "Source connection preserved" e3 in
      lift (LOG (full_report e4)) ;;;
      ret (mkTransfer false true, false)
    end
  end.

Definition transfer (destination_view source_view : ConnectionView) : NE TransferResult :=
  let destination := get_slot destination_view in
  let source := get_slot source_view in
  connection destination ;;;
  connection source ;;;
  scope_guard (on_connection source reset ;;; release_slot source)
              (transfer_body destination source).

Definition reset_base_connection (socket_type : end_point_e.t) : NE (option Error) :=
  let* init_error := init_connection_type socket_type 0 in
  ret (net_context 185
    "Unable to reset base connection: failed to init connection according to a type"
      <$> init_error).

Definition release_connection_by_view (view_to_release : ConnectionView) : NE unit :=
  let slot := get_slot view_to_release in
  let* c := connection slot in
  if is_socket_alive (socket_handler_ c) then release_connection slot else ret tt.

(** [send_message] to every connection the filter takes; [index] counts up
    to [counter], which the loop does not change. *)
Fixpoint send_from (slots : list Z) (message : OutgoingMessage) (filter : ConnectionMeta -> bool)
    (report : DeliveryReport) : NE DeliveryReport :=
  match slots with
  | [] => ret report
  | index :: rest =>
    let* entry := connection index in
    if bool_decide (connection_type_ entry <> end_point_e.NONE) then
      if filter (mkMeta index (connection_type_ entry)) then
        let* send_error := on_connection index (send_message_impl message) in
        match send_error with
        | Some e =>
          lift (LOG (full_report e)) ;;;
          on_connection index reset ;;;
          release_slot index ;;;
          send_from rest message filter
            (mkDelivery (delivered report) (delivery_failed report + 1))
        | None =>
          send_from rest message filter
            (mkDelivery (delivered report + 1) (delivery_failed report))
        end
      else send_from rest message filter report
    else send_from rest message filter report
  end.

Definition send_message (message : OutgoingMessage) (filter : ConnectionMeta -> bool)
    : NE DeliveryReport :=
  let* e := local_state get in
  send_from (seqZ 0 (ObjectPool.counter (connection_pool_ e))) message filter (mkDelivery 0 0).

Fixpoint find_view (slots : list Z) (filter : ConnectionMeta -> bool)
    : NE (ConnectionView + Error) :=
  match slots with
  | [] => ret (inr (new_error "No such View could be found"))
  | index :: rest =>
    let* entry := connection index in
    if bool_decide (connection_type_ entry <> end_point_e.NONE) &&
       filter (mkMeta index (connection_type_ entry))
    then ret (inl (mkView index)) else find_view rest filter
  end.

Definition get_view_by_type (filter : ConnectionMeta -> bool) : NE (ConnectionView + Error) :=
  let* e := local_state get in
  find_view (seqZ 0 (ObjectPool.counter (connection_pool_ e))) filter.

Fixpoint register_connections (new_sockets : list Z) (report : RegistrationReport)
    : NE RegistrationReport :=
  match new_sockets with
  | [] => ret report
  | fd :: rest =>
    let* registration_result := register_connection end_point_e.TO_CLIENT fd in
    match registration_result with
    | inr e =>
      lift (LOG (full_report e)) ;;;
      register_connections rest
        (mkRegistration (registered report) (registration_failed report + 1))
    | inl _ =>
      register_connections rest
        (mkRegistration (registered report + 1) (registration_failed report))
    end
  end.

Definition process_server_socket (fuel : nat) (slot : Z) : NE unit :=
  let* accept_result := on_connection slot (on_socket (accept_connections fuel)) in
  match accept_result with
  | inr e =>
    lift (LOG (full_report (net_context 352
      "Unable to process server socket: failed to accept new connections" e)))
  | inl new_sockets =>
    let* report := register_connections new_sockets (mkRegistration 0 0) in
    lift (LOG ("Accepted connections: " +:+ to_string (registered report) +:+
               ", Rejected connections: " +:+ to_string (registration_failed report))) ;;;
    let* rearm_error := rearm slot in
    lift (success_or_terminate rearm_error)
  end.

Definition push_raw_task (slot : Z) : NE bool :=
  local_state (zoom network_raw_tasks_ set_raw_tasks (AtomicQueue.try_push slot)).
Definition push_tag (tag : task_tag_e.t) : NE bool :=
  local_state (zoom available_task_tags_ set_task_tags (AtomicQueue.try_push tag)).

(** What the two pushes answer is ignored. *)
Fixpoint process_events (fuel : nat) (event_slots : list Z) : NE unit :=
  match event_slots with
  | [] => ret tt
  | slot :: rest =>
    let* pending := connection slot in
    (if bool_decide (connection_type_ pending = end_point_e.LISTENER)
     then process_server_socket fuel slot
     else push_raw_task slot ;;; push_tag task_tag_e.NETWORK ;;; ret tt) ;;;
    process_events fuel rest
  end.

(** One round of [run_event_loop]. *)
Definition event_round (fuel : nat) : NE unit :=
  let* epfd := local_state (gets epollfd_) in
  let* wait_result := lift (EpollHandler.wait_for_events epfd MAX_EVENTS) in
  match wait_result with
  | inr e => lift (LOG "Error in run_event_loop") ;;; lift (LOG (full_report e))
  | inl slots => process_events fuel slots
  end.

Fixpoint run_event_loop (rounds fuel : nat) : NE unit :=
  match rounds with
  | O => stop NoFuel
  | S rounds' => event_round fuel ;;; run_event_loop rounds' fuel
  end.
End WithPlatform.
End NetworkEngine.

(** ** Processing a connection

    [on_message_callback_] is the application's handler. *)
Class HasEngine (A : Type) := {
  engine : A -> NetworkEngine.t;
  set_engine : NetworkEngine.t -> A -> A;
  engine_set_engine e a : engine (set_engine e a) = e;
  set_engine_engine a : set_engine (engine a) a = a;
  set_engine_twice e e' a : set_engine e (set_engine e' a) = set_engine e a
}.

Section Processing.
Context {W : Type} `{Platform W} {A : Type} `{HasEngine A}.
Context (on_message_callback_ : ActionContext -> SM W A ActionResult).

Definition on_engine {X} (m : SM W NetworkEngine.t X) : SM W A X := focus engine set_engine m.

Definition process_message (slot : Z) (received_message : ReceivedMessage) : SM W A ActionResult :=
  match status received_message with
  | message_status_e.EMPTY | message_status_e.WOULDBLOCK =>
    let* rearm_error := on_engine (NetworkEngine.rearm slot) in
    match rearm_error with
    | Some e =>
      ret (mkActionResult CONTINUE RELEASE (Some (net_context 421
        "No more data to receive from connection but failed to rearm socket, marking socket for releasing"
        e)) None)
    | None => ret (mkActionResult TERMINATE KEEP None None)
    end
  | message_status_e.DISCONNECTED => ret (mkActionResult CONTINUE RELEASE None None)
  | message_status_e.DATA =>
    lift (LOG (payload received_message)) ;;;
    on_message_callback_ (mkContext (mkView slot) received_message)
  end.

(** What follows one message: the answer to the user, the release, and the
    error that ends the loop. *)
Definition finish_message (slot : Z) (r : ActionResult) : SM W A (option Error) :=
  (match user_code r with
   | Some code =>
     on_engine (NetworkEngine.on_connection slot (send_message_impl
       (typed_message (user_message code) message_type_e.PRINTABLE))) ;;; ret tt
   | None => ret tt
   end) ;;;
  (match conn_status r with
   | RELEASE => on_engine (NetworkEngine.release_connection slot)
   | KEEP => ret tt
   end) ;;;
  ret (net_context 399
    "Error occured while processing connection: failed to process message" <$> error r).

(** The loop of [process_connection_impl]; [fuel] bounds its rounds and
    [recv_fuel] the calls of [recvmsg] in each. *)
Fixpoint process_loop (recv_fuel fuel : nat) (slot : Z) (action : ActionStatus)
    : SM W A (option Error) :=
  match fuel with
  | O => stop NoFuel
  | S fuel' =>
    let* c := on_engine (NetworkEngine.connection slot) in
    if is_socket_alive (socket_handler_ c) && bool_decide (action = CONTINUE) then
      let* receive_result := on_engine
        (NetworkEngine.on_connection slot (on_socket (get_message recv_fuel))) in
      match receive_result with
      | None =>
        on_engine (NetworkEngine.release_connection slot) ;;;
        ret (Some (new_error "Unable to process connection: failed to receive message"))
      | Some received_message =>
        let* process_result := process_message slot received_message in
        let* error := finish_message slot process_result in
        match error with
        | Some e => ret (Some e)
        | None => process_loop recv_fuel fuel' slot (action_status process_result)
        end
      end
    else ret None
  end.

Definition process_connection_impl (recv_fuel fuel : nat) (slot : Z) : SM W A (option Error) :=
  process_loop recv_fuel fuel slot CONTINUE.

Definition process_connection (recv_fuel fuel : nat) (pending_view : ConnectionView)
    : SM W A (option Error) :=
  process_connection_impl recv_fuel fuel (get_slot pending_view).
End Processing.
