(* ===== verification/LobbyManager.v ===== *)
(** * [services/lobby_manager]: the lobbies of a server

    A lobby is a child process with a control connection; [LobbyManager] keeps
    the pid and the connection of each under its connection code. *)
From S2P Require Import Prelude.
From S2P Require Import Platform.
From S2P Require Import CString.
From S2P Require Import Utility.
From S2P Require Import Protocol.

#[local] Open Scope Z_scope.
#[local] Open Scope bsm_scope.

Record LobbyProcess := mkProcess { process_pid : Z; control_socket : Z }.
Record LobbyEntry := mkLobbyEntry { pid : Z; control_connection : ConnectionView }.

(** What [lobbies_[id]] inserts when there is no such id. *)
Definition default_lobby : LobbyEntry := mkLobbyEntry 0 default_view.

Module LobbyManager.
Record t := mk { lobbies_ : gmap Z LobbyEntry }.
Definition initial : t := mk ∅.

Definition find (lobby_id : Z) (m : t) : LobbyView + Error :=
  match lobbies_ m !! lobby_id with
  | None => inr (new_error "Lobby with given id doesn`t exist")
  | Some e => inl (mkLobbyView lobby_id (control_connection e))
  end.

Section WithPlatform.
Context {W : Type} `{Platform W}.

(** The path is the developer's own. *)
Definition server_path : string := "/home/listochekhero/projects/battleships/build-debug/server".

(** The child of the fork: [execl] replaces the program image and does not
    answer, or the process exits. *)
Definition become_lobby (sv0 sv1 : Z) : M (Machine W) (LobbyProcess + Error) :=
  do_call (c_close sv1) ;;;
  let socket_string := to_string sv0 in
  let* r := do_call (c_execl server_path "./lobby" socket_string) in
  (if r =? -1 then perror "execl failed" else ret tt) ;;;
  stop Terminated.

Definition spawn_lobby : M (Machine W) (LobbyProcess + Error) :=
  let* sv := do_socketpair in
  match sv with
  | PairFailed _ =>
    let* e := make_error_c "Failed to create socketpair: {}" in ret (inr e)
  | SocketPair sv0 sv1 =>
    let* child := do_call c_fork in
    if child =? -1 then let* e := make_error_c "Failed to fork: {}" in ret (inr e)
    else if child =? 0 then become_lobby sv0 sv1
    else
      do_call (c_close sv0) ;;;
      ret (inl (mkProcess child sv1))
  end.

Definition attach (new_pid : Z) (control : ConnectionView) : SM W t (LobbyView + Error) :=
  let* lobby_id := lift generate_conn_code in
  let* m := local_state get in
  match lobbies_ m !! lobby_id with
  | Some _ =>
    lift (do_call (c_kill new_pid SIGKILL)) ;;;
    ret (inr (new_error "Unable to emplace lobby into map"))
  | None =>
    local_state (modify (fun m =>
      mk (<[lobby_id := mkLobbyEntry new_pid control]> (lobbies_ m)))) ;;;
    ret (inl (mkLobbyView lobby_id control))
  end.

Definition kill_lobby (lobby_id : Z) : SM W t unit :=
  let* m := local_state get in
  let entry := default default_lobby (lobbies_ m !! lobby_id) in
  local_state (modify (fun m => mk (<[lobby_id := entry]> (lobbies_ m)))) ;;;
  lift (do_call (c_kill (pid entry) SIGKILL)) ;;;
  ret tt.
End WithPlatform.
End LobbyManager.

(** ** Lemmas *)
Section Codes.
Context {W : Type} `{Platform W}.
Implicit Types (k : Machine W).

Definition clock_reads k (now : Z) (w : W) : Prop :=
  exists e, sys_call c_time (world k) = ((now, e), w).

(** [generate_conn_code] reads the clock once; its value depends on the time alone. *)
Definition code_of_time (now : Z) : option Z :=
  let s := to_string now in
  if (String.length s <? 5)%nat then None
  else Some (strtol (string_from s (String.length s - 5))).

Lemma conn_code_run k now w code :
  clock_reads k now w -> code_of_time now = Some code ->
  exists k', generate_conn_code k = (Ret code, k') /\ world k' = w /\
    trace k' = Called c_time now :: trace k.
Proof.
  intros [e Hc] Hcode. unfold generate_conn_code, code_of_time in *.
  eexists. erewrite bind_run by (unfold do_call; rewrite Hc; reflexivity). simpl.
  destruct (_ <? 5)%nat; [done|]. by injection Hcode as <-.
Qed.
End Codes.

(** ** Properties *)
Section LobbyProperties.
Context {W : Type} `{Platform W}.
Import LobbyManager.

(** A lobby attached under a free code is found under this code with its
    control connection, and the other lobbies are found as before; a lobby
    attached when the code of the current time is taken (two lobbies within a
    second of each other, or 100000 seconds apart) is killed and not found,
    and no entry changes. *)
Theorem attach_then_find k m new_pid view now w code :
  clock_reads k now w -> code_of_time now = Some code ->
  exists k' m',
    match lobbies_ m !! code with
    | None =>
      attach new_pid view (k, m) = (Ret (inl (mkLobbyView code view)), (k', m')) /\
      find code m' = inl (mkLobbyView code view) /\
      (forall id, id <> code -> find id m' = find id m)
    | Some _ =>
      attach new_pid view (k, m)
        = (Ret (inr (new_error "Unable to emplace lobby into map")), (k', m')) /\
      m' = m /\ exists result, head (trace k') = Some (Called (c_kill new_pid SIGKILL) result)
    end.
Proof.
  intros Hc Hcode. destruct (conn_code_run k now w code Hc Hcode) as (k1 & E & _ & _).
  unfold attach. erewrite bind_run by (by apply lift_run). erewrite bind_run by reflexivity.
  cbn [fst snd]. destruct (lobbies_ m !! code) as [entry|] eqn:El.
  - unfold lift, zoom, do_call, bind, ret. simpl. destruct (sys_call _ _) as [[n e] w2]. simpl.
    eexists _, _. split; [reflexivity|]. split; [done|]. by eexists.
  - eexists _, _. split; [reflexivity|]. unfold find. simpl. rewrite lookup_insert_eq. split; [done|].
    intros id Hne. by rewrite lookup_insert_ne.
Qed.

(** [kill_lobby] forgets nothing: the process is sent SIGKILL, but its
    entry stays, so [find] goes on returning the dead lobby and its code stays
    taken; for an id that was never attached it makes an entry with pid 0, and
    the signal goes to the server's own process group. *)
Theorem kill_lobby_keeps_entry k m id :
  exists k' m' result,
    kill_lobby id (k, m) = (Ret tt, (k', m')) /\
    head (trace k') = Some (Called (c_kill (default 0 (pid <$> lobbies_ m !! id)) SIGKILL) result) /\
    find id m' = inl (mkLobbyView id (default default_view (control_connection <$> lobbies_ m !! id))) /\
    (forall other, other <> id -> find other m' = find other m).
Proof.
  unfold kill_lobby, lift, local_state, zoom, do_call, bind, ret, get, modify. simpl.
  destruct (sys_call _ _) as [[n e] w2]. simpl. do 3 eexists. split; [reflexivity|]. simpl.
  unfold find. simpl. rewrite lookup_insert_eq. split_and!.
  - by destruct (lobbies_ m !! id).
  - by destruct (lobbies_ m !! id).
  - intros other Hne. by rewrite lookup_insert_ne.
Qed.
End LobbyProperties.

(** *** Witnesses *)
Lemma attach_then_find_witness :
  exists k' m',
    @LobbyManager.attach Script (scripted quiet_calls) 77 (mkView 3) (script_of [], LobbyManager.initial)
      = (Ret (inl (mkLobbyView 12345 (mkView 3))), (k', m')) /\
    LobbyManager.find 12345 m' = inl (mkLobbyView 12345 (mkView 3)) /\
    (forall id, id <> 12345 -> LobbyManager.find id m' = LobbyManager.find id LobbyManager.initial).
Proof.
  apply (@attach_then_find Script (scripted quiet_calls) (script_of []) LobbyManager.initial
           77 (mkView 3) 1700012345 (world (script_of [])) 12345).
  - by exists 0.
  - vm_compute. reflexivity.
Defined.
