(* ===== verification/Scheduler.v ===== *)
(** * [core/scheduler]: tasks, workers and coroutines

    Application code registers an executor and a coroutine per task tag; a
    coroutine takes raw input and pushes tasks, the workers take tasks and run
    their executors.  [Scheduler] has the operations, each run as a whole;
    [QueueSteps.v] takes [push_task] and [try_get_task] apart into their atomic
    operations. *)
From S2P Require Import Prelude.
From S2P Require Import Ring.
From S2P Require Import Platform.
From S2P Require Import Protocol.
From S2P Require Import AtomicQueue.

#[local] Open Scope Z_scope.
#[local] Open Scope bsm_scope.

(** [Task::ContextVariant]. *)
Inductive ContextVariant :=
| SlotContext (slot : Z)
| TextContext (text : string).

#[export] Instance ContextVariant_eq_dec : EqDecision ContextVariant.
Proof. solve_decision. Defined.

Record Task := mkTask { tag : task_tag_e.t; context : ContextVariant }.

(** [std::counting_semaphore]: the initial value is [4095] for pushing, [0] for
    popping, and the template argument is the largest value allowed. *)
Definition PUSH_MAX : Z := 4095.
Definition POP_MAX : Z := 65534.

(** [std::unordered_map<task_tag_e, V>]. *)
Definition tag_map (V : Type) : Type := list (task_tag_e.t * V).

Fixpoint find_tag {V} (x : task_tag_e.t) (m : tag_map V) : option V :=
  match m with
  | [] => None
  | (y, v) :: rest => if decide (x = y) then Some v else find_tag x rest
  end.

(** [try_emplace] keeps the value that is there and says so. *)
Definition try_emplace {V} (x : task_tag_e.t) (v : V) (m : tag_map V) : bool * tag_map V :=
  match find_tag x m with
  | Some _ => (false, m)
  | None => (true, (x, v) :: m)
  end.

Module Scheduler.
Section Scheduler.
(** Executors and coroutine handles are the application's. *)
Context {E C : Type}.

Record t := mk {
  co_handles_map_ : tag_map C;
  tasks_queue_ : AtomicQueue.t Task;
  pop_task_semaphore_ : Z;
  push_task_semaphore_ : Z;
  task_executors_ : tag_map E
}.

Definition initial : t := mk [] AtomicQueue.empty 0 PUSH_MAX [].

Definition set_co_handles (m : tag_map C) (s : t) : t :=
  mk m (tasks_queue_ s) (pop_task_semaphore_ s) (push_task_semaphore_ s) (task_executors_ s).
Definition set_tasks (q : AtomicQueue.t Task) (s : t) : t :=
  mk (co_handles_map_ s) q (pop_task_semaphore_ s) (push_task_semaphore_ s) (task_executors_ s).
Definition set_pop (n : Z) (s : t) : t :=
  mk (co_handles_map_ s) (tasks_queue_ s) n (push_task_semaphore_ s) (task_executors_ s).
Definition set_push (n : Z) (s : t) : t :=
  mk (co_handles_map_ s) (tasks_queue_ s) (pop_task_semaphore_ s) n (task_executors_ s).
Definition set_executors (m : tag_map E) (s : t) : t :=
  mk (co_handles_map_ s) (tasks_queue_ s) (pop_task_semaphore_ s) (push_task_semaphore_ s) m.

Definition add_task_executor (x : task_tag_e.t) (executor : E) : M t (option Error) :=
  let* s := get in
  let '(inserted, m) := try_emplace x executor (task_executors_ s) in
  modify (set_executors m) ;;;
  if inserted then ret None
  else ret (Some (new_error "Unable to add executor for task: failed to emplace into map")).

Definition add_co_handle (coroutine_handle : C) (x : task_tag_e.t) : M t (option Error) :=
  let* s := get in
  let '(inserted, m) := try_emplace x coroutine_handle (co_handles_map_ s) in
  modify (set_co_handles m) ;;;
  if inserted then ret None
  else ret (Some (new_error "Unable to add coroutine handle: failed to emplace into map")).

(** Without an entry [operator[]] makes an empty handle, and resuming it is
    undefined; an empty [std::function] throws, and nothing catches it. *)
Definition get_co_handle_by_tag (x : task_tag_e.t) : M t C :=
  let* s := get in
  match find_tag x (co_handles_map_ s) with Some c => ret c | None => stop Undefined end.

Definition get_executor_by_tag (x : task_tag_e.t) : M t E :=
  let* s := get in
  match find_tag x (task_executors_ s) with Some e => ret e | None => stop Terminated end.

Definition acquire (g : t -> Z) (p : Z -> t -> t) : M t unit :=
  let* n := gets g in
  if 0 <? n then modify (p (n - 1)) else stop Blocked.

Definition release (g : t -> Z) (p : Z -> t -> t) : M t unit :=
  modify (fun s => p (g s + 1) s).

(** What [try_push] answers is ignored. *)
Definition push_task (x : task_tag_e.t) (args : ContextVariant) : M t unit :=
  acquire push_task_semaphore_ set_push ;;;
  let* ignored := zoom tasks_queue_ set_tasks (AtomicQueue.try_push (mkTask x args)) in
  release pop_task_semaphore_ set_pop.

Definition try_get_task : M t (option Task) :=
  acquire pop_task_semaphore_ set_pop ;;;
  let* task := zoom tasks_queue_ set_tasks AtomicQueue.try_pop in
  (match task with
   | Some _ => release push_task_semaphore_ set_push
   | None => release pop_task_semaphore_ set_pop
   end) ;;;
  ret task.

(** One round of [worker_loop] up to the call of the executor. *)
Definition next_execution : M t (option (E * ContextVariant)) :=
  let* ready_task := try_get_task in
  match ready_task with
  | Some task =>
    let* task_executor := get_executor_by_tag (tag task) in
    ret (Some (task_executor, context task))
  | None => ret None
  end.

(** The tasks waiting, as the two semaphores count them. *)
Definition holds (s : t) (q : list Task) : Prop :=
  AtomicQueue.holds (tasks_queue_ s) q /\
  pop_task_semaphore_ s = Z.of_nat (length q) /\
  push_task_semaphore_ s = PUSH_MAX - Z.of_nat (length q).
End Scheduler.
Arguments t : clear implicits.
End Scheduler.

(** ** Lemmas *)
Section TagMapLemmas.
Context {V : Type}.
Implicit Types (m : tag_map V) (v : V).

(** The first value registered for a tag stays. *)
Lemma find_try_emplace x y v m :
  find_tag y (try_emplace x v m).2 =
  if decide (y = x) then Some (default v (find_tag x m)) else find_tag y m.
Proof.
  unfold try_emplace. destruct (find_tag x m) as [v'|] eqn:E; simpl.
  - case_decide as Hd; [by subst | done].
  - case_decide as Hd; [done | done].
Qed.
End TagMapLemmas.

(** ** The scheduler's own queue, one thread at a time *)
Section SchedulerLemmas.
Context {E C : Type}.
Implicit Types (s : Scheduler.t E C) (q : list Task).
Import Scheduler.

Lemma push_task_run s q x args :
  holds s q -> (length q < 4095)%nat ->
  exists s', push_task x args s = (Ret tt, s') /\ holds s' (q ++ [mkTask x args]) /\
    task_executors_ s' = task_executors_ s /\ co_handles_map_ s' = co_handles_map_ s.
Proof.
  intros (Hq & Hpop & Hpush) Hl. unfold push_task, acquire.
  destruct (fifo_push_spec (FifoQueue := AtomicQueue_fifo) _ q (mkTask x args) Hq I Hl)
    as (a & Ha & Hq').
  rewrite bind_bind. erewrite bind_run by reflexivity.
  rewrite (proj2 (Z.ltb_lt _ _)) by (unfold PUSH_MAX in *; lia).
  erewrite bind_run by reflexivity. erewrite bind_run by (apply zoom_run; exact Ha).
  eexists. split; [reflexivity|]. split; [|done]. unfold holds. simpl.
  rewrite length_app, Hpop, Hpush. simpl. split; [exact Hq' | lia].
Qed.

Lemma try_get_task_run s task q :
  holds s (task :: q) ->
  exists s', try_get_task s = (Ret (Some task), s') /\ holds s' q /\
    task_executors_ s' = task_executors_ s /\ co_handles_map_ s' = co_handles_map_ s.
Proof.
  intros (Hq & Hpop & Hpush). unfold try_get_task, acquire.
  destruct (fifo_pop_spec (FifoQueue := AtomicQueue_fifo) _ q task Hq) as (a & Ha & Hq').
  rewrite bind_bind. erewrite bind_run by reflexivity.
  rewrite (proj2 (Z.ltb_lt _ _)) by (simpl in *; lia).
  erewrite bind_run by reflexivity. erewrite bind_run by (apply zoom_run; exact Ha).
  eexists. split; [reflexivity|]. split; [|done]. unfold holds. simpl.
  rewrite Hpop, Hpush. simpl. split; [exact Hq' | lia].
Qed.

Lemma try_get_task_empty s : holds s [] -> try_get_task s = (Halt Blocked, s).
Proof.
  intros (_ & Hpop & _). unfold try_get_task, acquire. rewrite bind_bind.
  erewrite bind_run by reflexivity. by rewrite Hpop.
Qed.
End SchedulerLemmas.
