(* ===== verification/QueueSteps.v ===== *)
(** * [core/atomic_queue.h], one atomic operation at a time

    [AtomicQueue.v] runs [try_push] and [try_pop] without interruption.  Here
    the two are run inside [push_task] and [try_get_task] of
    [core/scheduler.h], and every load, store and compare-and-swap of the queue
    and every acquire and release of the scheduler's two semaphores is a step of
    its own.  Any number of pushing threads and one popping thread take steps in
    any order: [thread_pool_] has one worker.  A thread that waits ([wait],
    [acquire]) has no step until the condition holds; a release past the largest
    value the semaphore was declared with is undefined. *)
From S2P Require Import Prelude.
From S2P Require Import Ring.
From S2P Require Import Platform.
From S2P Require Import MemoryManager.
From S2P Require Import AtomicQueue.
From S2P Require Import Scheduler.

#[local] Open Scope Z_scope.
#[local] Open Scope bsm_scope.

Module AtomicSteps.
Section Steps.
Context {T : Type}.

(** What a thread in [push_task] does next. *)
Inductive pusher :=
| PushIdle (todo : list T)                     (* acquire [push_task_semaphore_] *)
| PushReady (v : T) (todo : list T)            (* load [tail] *)
| PushTail (v : T) (todo : list T) (t : Z)     (* load [head] *)
| PushHead (v : T) (todo : list T) (t h : Z)   (* compare, then swap [tail] *)
| PushWait (v : T) (todo : list T) (t : Z)     (* wait for the flag to be false *)
| PushFill (v : T) (todo : list T) (t : Z)     (* [emplace] *)
| PushFlag (v : T) (todo : list T) (t : Z)     (* set the flag *)
| PushRelease (todo : list T).                 (* release [pop_task_semaphore_] *)

(** What the thread in [try_get_task] does next. *)
Inductive popper :=
| PopIdle                      (* acquire [pop_task_semaphore_] *)
| PopReady                     (* load [head] *)
| PopHead (h : Z)              (* load [tail] and compare *)
| PopClaim (h : Z)             (* swap [head] *)
| PopWait (h : Z)              (* wait for the flag to be true *)
| PopTake (h : Z)              (* move the object out and destroy it *)
| PopClear (h : Z) (v : T)     (* clear the flag in [take] *)
| PopStore (h : Z) (v : T)     (* clear the flag in [try_pop] *)
| PopReturn (v : T)            (* release [push_task_semaphore_] *)
| PopEmpty.                    (* nothing taken: release [pop_task_semaphore_] *)

Record state := mkState {
  queue : AtomicQueue.t T;
  permits : Z;          (* [push_task_semaphore_] *)
  pop_permits : Z;      (* [pop_task_semaphore_] *)
  pushers : list pusher;
  popper_ : popper;
  pushed : list T;      (* the values that got a cell, in the order of the cells *)
  popped : list T;      (* the values [try_pop] has returned, oldest first *)
  refused : list T      (* the values [try_push] has returned [false] for *)
}.

Definition set_queue (q : AtomicQueue.t T) (s : state) : state :=
  mkState q (permits s) (pop_permits s) (pushers s) (popper_ s) (pushed s) (popped s) (refused s).
Definition set_permits (n : Z) (s : state) : state :=
  mkState (queue s) n (pop_permits s) (pushers s) (popper_ s) (pushed s) (popped s) (refused s).
Definition set_pop_permits (n : Z) (s : state) : state :=
  mkState (queue s) (permits s) n (pushers s) (popper_ s) (pushed s) (popped s) (refused s).
Definition set_pusher (i : nat) (p : pusher) (s : state) : state :=
  mkState (queue s) (permits s) (pop_permits s) (<[i := p]> (pushers s)) (popper_ s) (pushed s)
    (popped s) (refused s).
Definition set_popper (p : popper) (s : state) : state :=
  mkState (queue s) (permits s) (pop_permits s) (pushers s) p (pushed s) (popped s) (refused s).
Definition add_pushed (v : T) (s : state) : state :=
  mkState (queue s) (permits s) (pop_permits s) (pushers s) (popper_ s) (pushed s ++ [v]) (popped s)
    (refused s).
Definition add_popped (v : T) (s : state) : state :=
  mkState (queue s) (permits s) (pop_permits s) (pushers s) (popper_ s) (pushed s) (popped s ++ [v])
    (refused s).
Definition add_refused (v : T) (s : state) : state :=
  mkState (queue s) (permits s) (pop_permits s) (pushers s) (popper_ s) (pushed s) (popped s)
    (refused s ++ [v]).

Definition on_slot (q : AtomicQueue.t T) (i : Z) (k : AtomicSlot T -> outcome state)
    : outcome state :=
  match AtomicQueue.memory_queue q !! cell i with
  | Some c => k c
  | None => Halt Undefined
  end.

Definition store_slot (i : Z) (c : AtomicSlot T) (s : state) : state :=
  set_queue (AtomicQueue.set_slot (normilize_ring_slot i) c (queue s)) s.

(** The next step of a pushing thread; [Blocked] if it waits or has no more
    to push. *)
Definition push_step (i : nat) (s : state) : outcome state :=
  let q := queue s in
  match pushers s !! i with
  | None | Some (PushIdle []) => Halt Blocked
  | Some (PushIdle (v :: todo)) =>
    if 0 <? permits s
    then Ret (set_permits (permits s - 1) (set_pusher i (PushReady v todo) s))
    else Halt Blocked
  | Some (PushReady v todo) => Ret (set_pusher i (PushTail v todo (AtomicQueue.tail q)) s)
  | Some (PushTail v todo t) => Ret (set_pusher i (PushHead v todo t (AtomicQueue.head q)) s)
  | Some (PushHead v todo t h) =>
    if normilize_ring_slot t + 1 =? normilize_ring_slot h
    then Ret (add_refused v (set_pusher i (PushRelease todo) s))
    else if AtomicQueue.tail q =? t
    then Ret (add_pushed v (set_queue (AtomicQueue.set_tail (wrap64 (t + 1)) q)
                              (set_pusher i (PushWait v todo t) s)))
    else Ret (set_pusher i (PushReady v todo) s)
  | Some (PushWait v todo t) => on_slot q t (fun c =>
      if is_initialized_ c then Halt Blocked else Ret (set_pusher i (PushFill v todo t) s))
  | Some (PushFill v todo t) => on_slot q t (fun c =>
      Ret (store_slot t (mkSlot (is_initialized_ c) (Some v)) (set_pusher i (PushFlag v todo t) s)))
  | Some (PushFlag v todo t) => on_slot q t (fun c =>
      Ret (store_slot t (mkSlot true (object_ c)) (set_pusher i (PushRelease todo) s)))
  | Some (PushRelease todo) =>
    if pop_permits s <? POP_MAX
    then Ret (set_pop_permits (pop_permits s + 1) (set_pusher i (PushIdle todo) s))
    else Halt Undefined
  end.

(** The next step of the popping thread; [Blocked] if it waits. *)
Definition pop_step (s : state) : outcome state :=
  let q := queue s in
  match popper_ s with
  | PopIdle =>
    if 0 <? pop_permits s
    then Ret (set_pop_permits (pop_permits s - 1) (set_popper PopReady s))
    else Halt Blocked
  | PopReady => Ret (set_popper (PopHead (AtomicQueue.head q)) s)
  | PopHead h =>
    if h =? AtomicQueue.tail q then Ret (set_popper PopEmpty s) else Ret (set_popper (PopClaim h) s)
  | PopClaim h =>
    if AtomicQueue.head q =? h
    then Ret (set_queue (AtomicQueue.set_head (wrap64 (h + 1)) q) (set_popper (PopWait h) s))
    else Ret (set_popper PopEmpty s)
  | PopWait h => on_slot q h (fun c =>
      if is_initialized_ c then Ret (set_popper (PopTake h) s) else Halt Blocked)
  | PopTake h => on_slot q h (fun c =>
      match object_ c with
      | Some v => Ret (store_slot h (mkSlot (is_initialized_ c) None) (set_popper (PopClear h v) s))
      | None => Halt Undefined
      end)
  | PopClear h v => on_slot q h (fun c =>
      Ret (store_slot h (mkSlot false (object_ c)) (set_popper (PopStore h v) s)))
  | PopStore h v => on_slot q h (fun c =>
      Ret (store_slot h (mkSlot false (object_ c)) (set_popper (PopReturn v) s)))
  | PopReturn v =>
    if permits s <? PUSH_MAX
    then Ret (set_permits (permits s + 1) (add_popped v (set_popper PopIdle s)))
    else Halt Undefined
  | PopEmpty =>
    if pop_permits s <? POP_MAX
    then Ret (set_pop_permits (pop_permits s + 1) (set_popper PopIdle s))
    else Halt Undefined
  end.

Inductive step (s s' : state) : Prop :=
| step_push i : push_step i s = Ret s' -> step s s'
| step_pop : pop_step s = Ret s' -> step s s'.

Definition start (todo : list (list T)) : state :=
  mkState AtomicQueue.empty PUSH_MAX 0 (PushIdle <$> todo) PopIdle [] [] [].

(** A run of a schedule: [Some i] is pushing thread [i], [None] the popping
    thread. *)
Fixpoint run (schedule : list (option nat)) (s : state) : outcome state :=
  match schedule with
  | [] => Ret s
  | thread :: rest =>
    match (if thread is Some i then push_step i s else pop_step s) with
    | Ret s' => run rest s'
    | Halt x => Halt x
    end
  end.

(** ** The invariant *)

(** The cell a value was given, until its flag is set. *)
Definition ticket (p : pusher) : option Z :=
  match p with
  | PushWait _ _ t | PushFill _ _ t | PushFlag _ _ t => Some t
  | _ => None
  end.
(** A permit not yet turned into a cell. *)
Definition in_flight (p : pusher) : Z :=
  match p with PushReady _ _ | PushTail _ _ _ | PushHead _ _ _ _ => 1 | _ => 0 end.
(** A push whose permit for the popping thread is still to come. *)
Definition completing (p : pusher) : Z :=
  match p with PushWait _ _ _ | PushFill _ _ _ | PushFlag _ _ _ | PushRelease _ => 1 | _ => 0 end.
Definition remaining (p : pusher) : list T :=
  match p with
  | PushIdle todo | PushWait _ todo _ | PushFill _ todo _ | PushFlag _ todo _ | PushRelease todo => todo
  | PushReady v todo | PushTail v todo _ | PushHead v todo _ _ => v :: todo
  end.
Definition claimed (p : popper) : Z :=
  match p with PopIdle | PopReady | PopHead _ | PopClaim _ | PopEmpty => 0 | _ => 1 end.
(** A permit not yet turned into a claim. *)
Definition holding (p : popper) : Z :=
  match p with PopReady | PopHead _ | PopClaim _ | PopEmpty => 1 | _ => 0 end.

(** The life of the cell behind a counter value. *)
Inductive stage := Free | Claimed | Filled | Full | Taken | Cleared.

Definition matches (g : stage) (c : AtomicSlot T) (v : option T) : Prop :=
  match g with
  | Free | Claimed | Cleared => is_initialized_ c = false
  | Filled => is_initialized_ c = false /\ object_ c = v
  | Full => is_initialized_ c = true /\ object_ c = v
  | Taken => True
  end.

Definition holds_value (g : stage) : Prop := g = Claimed \/ g = Filled \/ g = Full.

Definition value (s : state) (t : Z) : option T := pushed s !! Z.to_nat t.
Definition finished (s : state) : Z := Z.of_nat (length (popped s)).
Definition issued (s : state) : Z := Z.of_nat (length (pushed s)).

Definition pusher_ok (st : Z -> stage) (s : state) (p : pusher) : Prop :=
  match p with
  | PushWait v _ t | PushFill v _ t =>
    finished s <= t < issued s /\ st t = Claimed /\ value s t = Some v
  | PushFlag v _ t => finished s <= t < issued s /\ st t = Filled /\ value s t = Some v
  | _ => True
  end.

Definition popper_ok (st : Z -> stage) (s : state) : Prop :=
  match popper_ s with
  | PopIdle | PopReady | PopEmpty => True
  | PopHead h => h = finished s
  | PopClaim h => h = finished s /\ h < issued s
  | PopWait h => h = finished s /\ holds_value (st h)
  | PopTake h => h = finished s /\ st h = Full
  | PopClear h v => h = finished s /\ st h = Taken /\ value s h = Some v
  | PopStore h v => h = finished s /\ st h = Cleared /\ value s h = Some v
  | PopReturn v => st (finished s) = Cleared /\ value s (finished s) = Some v
  end.

Record inv (all : list T) (st : Z -> stage) (s : state) : Prop := mkInv {
  inv_length : length (AtomicQueue.memory_queue (queue s)) = Z.to_nat RING_BUFFER_SIZE;
  inv_head : AtomicQueue.head (queue s) = finished s + claimed (popper_ s);
  inv_tail : AtomicQueue.tail (queue s) = issued s;
  inv_bound : finished s + claimed (popper_ s) <= issued s;
  inv_prefix : popped s `prefix_of` pushed s;
  inv_nonneg : 0 <= permits s;
  inv_permits : permits s + total in_flight (pushers s) + (issued s - finished s) +
                Z.of_nat (length (refused s)) = PUSH_MAX;
  inv_pop_nonneg : 0 <= pop_permits s;
  inv_pop_permits : pop_permits s + holding (popper_ s) + total completing (pushers s) =
                    issued s + Z.of_nat (length (refused s)) - finished s - claimed (popper_ s);
  inv_all : pushed s ++ refused s ++ (pushers s ≫= remaining) ≡ₚ all;
  inv_slots t : finished s <= t < finished s + RING_BUFFER_SIZE ->
    exists c, AtomicQueue.memory_queue (queue s) !! cell t = Some c /\ matches (st t) c (value s t);
  inv_free t : issued s <= t -> st t = Free;
  inv_open t : finished s + claimed (popper_ s) <= t < issued s -> holds_value (st t);
  inv_held t : finished s <= t < issued s -> st t = Claimed \/ st t = Filled ->
    exists i p, pushers s !! i = Some p /\ ticket p = Some t;
  inv_pushers i p : pushers s !! i = Some p -> pusher_ok st s p;
  inv_distinct i j p p' t : pushers s !! i = Some p -> pushers s !! j = Some p' ->
    ticket p = Some t -> ticket p' = Some t -> i = j;
  inv_popper : popper_ok st s
}.
End Steps.
Arguments state : clear implicits.
Arguments pusher : clear implicits.
Arguments popper : clear implicits.
End AtomicSteps.

(** ** Lemmas *)
Section AtomicStepsLemmas.
Context {T : Type} (all : list T).
Import AtomicSteps.
Implicit Types (s : state T) (p : pusher T) (st : Z -> stage) (c : AtomicSlot T).

Definition set_stage (t : Z) (g : stage) (st : Z -> stage) : Z -> stage :=
  fun t' => if decide (t' = t) then g else st t'.

Lemma set_stage_eq t g st : set_stage t g st t = g.
Proof. unfold set_stage. by rewrite decide_True. Qed.
Lemma set_stage_ne t t' g st : t' <> t -> set_stage t g st t' = st t'.
Proof. intros. unfold set_stage. by rewrite decide_False. Qed.

Lemma in_flight_nonneg p : 0 <= in_flight p.
Proof. destruct p; simpl; lia. Qed.
Lemma completing_nonneg p : 0 <= completing p.
Proof. destruct p; simpl; lia. Qed.

Lemma issued_bound st s : inv all st s -> issued s + Z.of_nat (length (pushers s ≫= remaining))
  <= Z.of_nat (length all).
Proof using Type.
  intros Hi. pose proof (Permutation_length (inv_all _ _ _ Hi)) as Hl.
  rewrite !length_app in Hl. unfold issued. lia.
Qed.

Lemma remaining_at s i p : pushers s !! i = Some p ->
  (length (remaining p) <= length (pushers s ≫= remaining))%nat.
Proof using Type.
  intros Hp. rewrite <- (take_drop_middle _ _ _ Hp), bind_app, bind_cons, !length_app. lia.
Qed.

(** No more than [PUSH_MAX] cells are in use. *)
Lemma used_bound st s : inv all st s ->
  issued s - finished s + total in_flight (pushers s) <= PUSH_MAX.
Proof using Type. intros Hi. pose proof (inv_nonneg _ _ _ Hi). pose proof (inv_permits _ _ _ Hi). lia. Qed.

Lemma pop_permits_bound st s : inv all st s -> pop_permits s + holding (popper_ s) +
  total completing (pushers s) <= PUSH_MAX /\ pop_permits s <= PUSH_MAX.
Proof using Type.
  intros Hi. pose proof (inv_nonneg _ _ _ Hi). pose proof (inv_permits _ _ _ Hi).
  pose proof (inv_pop_permits _ _ _ Hi).
  pose proof (total_nonneg in_flight in_flight_nonneg (pushers s)).
  pose proof (total_nonneg completing completing_nonneg (pushers s)).
  destruct (popper_ s); simpl in *; lia.
Qed.

Lemma in_window st s t : inv all st s -> finished s <= t < issued s ->
  finished s <= t < finished s + RING_BUFFER_SIZE.
Proof using Type.
  intros Hi Ht. pose proof (used_bound _ _ Hi).
  pose proof (total_nonneg in_flight in_flight_nonneg (pushers s)).
  unfold PUSH_MAX, RING_BUFFER_SIZE in *. lia.
Qed.

Lemma slot_lookup st s t : inv all st s -> finished s <= t < finished s + RING_BUFFER_SIZE ->
  exists c, AtomicQueue.memory_queue (queue s) !! cell t = Some c /\ matches (st t) c (value s t).
Proof using Type. intros Hi. apply (inv_slots _ _ _ Hi). Qed.

(** One cell changes, and its stage with it. *)
Lemma slots_set st s t c g : inv all st s ->
  finished s <= t < finished s + RING_BUFFER_SIZE -> matches g c (value s t) ->
  forall t', finished s <= t' < finished s + RING_BUFFER_SIZE ->
  exists c', <[cell t := c]> (AtomicQueue.memory_queue (queue s)) !! cell t' = Some c' /\
    matches (set_stage t g st t') c' (value s t').
Proof using Type.
  intros Hi Ht Hm t' Ht'. pose proof (inv_length _ _ _ Hi) as Hl.
  rewrite cell_insert by (done || lia).
  destruct (decide (t = t')) as [->|Hne].
  - exists c. by rewrite set_stage_eq.
  - rewrite set_stage_ne by done. by apply (inv_slots _ _ _ Hi).
Qed.

(** The states that differ in what one pushing thread does next. *)
Lemma distinct_insert s i p p' :
  (forall i j p p' t, pushers s !! i = Some p -> pushers s !! j = Some p' ->
     ticket p = Some t -> ticket p' = Some t -> i = j) ->
  pushers s !! i = Some p ->
  (forall t, ticket p' = Some t ->
     ticket p = Some t \/ forall j p1, pushers s !! j = Some p1 -> ticket p1 <> Some t) ->
  forall j1 j2 p1 p2 t, <[i := p']> (pushers s) !! j1 = Some p1 ->
    <[i := p']> (pushers s) !! j2 = Some p2 -> ticket p1 = Some t -> ticket p2 = Some t -> j1 = j2.
Proof.
  intros Hd Hp Hn j1 j2 p1 p2 t H1 H2 Ht1 Ht2.
  apply list_lookup_insert_Some in H1 as [(<- & <- & _)|[Hn1 H1]];
    apply list_lookup_insert_Some in H2 as [(<- & <- & _)|[Hn2 H2]]; try done.
  - destruct (Hn t Ht1) as [Ht|Hf]; [by eapply Hd | by destruct (Hf _ _ H2)].
  - destruct (Hn t Ht2) as [Ht|Hf]; [by eapply Hd | by destruct (Hf _ _ H1)].
  - by eapply Hd.
Qed.

Lemma held_insert s i p p' t :
  pushers s !! i = Some p -> (ticket p = Some t -> ticket p' = Some t) ->
  (exists j p1, pushers s !! j = Some p1 /\ ticket p1 = Some t) ->
  exists j p1, <[i := p']> (pushers s) !! j = Some p1 /\ ticket p1 = Some t.
Proof.
  intros Hp Ht (j & p1 & Hj & Ht1). destruct (decide (i = j)) as [<-|Hne].
  - exists i, p'. rewrite list_lookup_insert_eq by (by eapply lookup_lt_Some).
    split; [done|]. apply Ht. congruence.
  - exists j, p1. by rewrite list_lookup_insert_ne.
Qed.

Lemma remaining_insert s i p p' (l : list T) :
  pushers s !! i = Some p -> l ++ remaining p' ≡ₚ remaining p ->
  l ++ (<[i := p']> (pushers s) ≫= remaining) ≡ₚ (pushers s ≫= remaining).
Proof.
  intros Hp Hr. pose proof (bind_insert remaining _ _ _ p' Hp) as Hb.
  rewrite <- Hr in Hb. apply (Permutation_app_inv_l (remaining p')).
  rewrite <- Hb, app_assoc. f_equiv. apply Permutation_app_comm.
Qed.

(** A thread moves on: a permit may be taken or given, a value refused. *)
Lemma move_pusher_inv st s i p p' n m l :
  inv all st s -> pushers s !! i = Some p -> 0 <= n -> 0 <= m ->
  n + in_flight p' + Z.of_nat (length l) = permits s + in_flight p ->
  m + completing p' = pop_permits s + completing p + Z.of_nat (length l) ->
  l ++ remaining p' ≡ₚ remaining p -> ticket p' = ticket p -> pusher_ok st s p' ->
  inv all st (mkState (queue s) n m (<[i := p']> (pushers s)) (popper_ s) (pushed s) (popped s)
                (refused s ++ l)).
Proof.
  intros [Hlen Hhead Htail Hbound Hpre Hnn Hper Hqn Hqper Hall Hslots Hfree Hopen Hheld Hpush Hdist Hpop]
    Hp Hn Hm Hf Hc Hr Ht Hok.
  constructor; simpl; try done.
  - rewrite (total_insert _ _ _ _ _ Hp), length_app. unfold issued, finished in *. simpl. lia.
  - rewrite (total_insert _ _ _ _ _ Hp), length_app. unfold issued, finished in *. simpl. lia.
  - rewrite <- Hall, <- app_assoc. do 2 f_equiv. by apply (remaining_insert s i p p').
  - intros t Hb Hst. eapply held_insert; [exact Hp | by rewrite Ht | by apply Hheld].
  - intros j p1 Hj. apply list_lookup_insert_Some in Hj as [(_ & <- & _)|[_ Hj]]; [done|].
    by apply (Hpush _ _ Hj).
  - eapply distinct_insert; [exact Hdist | exact Hp |]. rewrite Ht. by left.
Qed.

Lemma set_pusher_inv st s i p p' :
  inv all st s -> pushers s !! i = Some p -> in_flight p' = in_flight p ->
  completing p' = completing p ->
  remaining p' = remaining p -> ticket p' = ticket p -> pusher_ok st s p' ->
  inv all st (set_pusher i p' s).
Proof.
  intros Hi Hp Hf Hc Hr Ht Hok.
  replace (set_pusher i p' s) with (mkState (queue s) (permits s) (pop_permits s) (<[i := p']> (pushers s))
    (popper_ s) (pushed s) (popped s) (refused s ++ [])) by (by rewrite app_nil_r).
  eapply move_pusher_inv; try done.
  - by apply (inv_nonneg _ _ _ Hi).
  - by apply (inv_pop_nonneg _ _ _ Hi).
  - rewrite Hf. simpl. lia.
  - rewrite Hc. simpl. lia.
  - by rewrite Hr.
Qed.

(** Other threads do not notice a change of the cell [t]. *)
Lemma pusher_ok_stage st s p t g :
  pusher_ok st s p -> ticket p <> Some t -> pusher_ok (set_stage t g st) s p.
Proof.
  destruct p; simpl; try done; intros (? & ? & ?) Hne; rewrite set_stage_ne by congruence; done.
Qed.

(** A pushing thread writes to the cell it was given. *)
Lemma pusher_writes st s i p p' t c g :
  inv all st s -> pushers s !! i = Some p -> ticket p = Some t ->
  finished s <= t < issued s -> holds_value g -> matches g c (value s t) ->
  (g = Claimed \/ g = Filled -> ticket p' = Some t) ->
  (forall t', ticket p' = Some t' -> t' = t) ->
  in_flight p' = in_flight p -> completing p' = completing p -> remaining p' = remaining p ->
  (popper_ s = PopWait t \/ popper_ok (set_stage t g st) s) ->
  pusher_ok (set_stage t g st) s p' ->
  inv all (set_stage t g st) (store_slot t c (set_pusher i p' s)).
Proof.
  intros Hi Hp Ht Hrange Hg Hm Hgt Ht' Hf Hcp Hr Hpp Hok.
  pose proof (slots_set st s t c g Hi (in_window st s t Hi Hrange) Hm) as Hset.
  destruct Hi as [Hlen Hhead Htail Hbound Hpre Hnn Hper Hqn Hqper Hall Hslots Hfree Hopen Hheld Hpush Hdist Hpop].
  constructor; simpl; try done.
  - by rewrite length_insert.
  - rewrite (total_insert _ _ _ _ _ Hp). unfold issued, finished in *. simpl. lia.
  - rewrite (total_insert _ _ _ _ _ Hp). unfold issued, finished in *. simpl. lia.
  - rewrite <- Hall. do 2 f_equiv. apply (remaining_insert s i p p' []); [done|]. by rewrite Hr.
  - intros t1 Ht1. unfold issued in *. simpl in Ht1. rewrite set_stage_ne by lia. by apply Hfree.
  - intros t1 Ht1. unfold set_stage. case_decide; [done|]. by apply Hopen.
  - intros t1 Ht1 Hst. destruct (decide (t1 = t)) as [->|Hne].
    + rewrite set_stage_eq in Hst. exists i, p'.
      rewrite list_lookup_insert_eq by (by eapply lookup_lt_Some). auto.
    + rewrite set_stage_ne in Hst by done.
      eapply held_insert; [exact Hp | congruence | by apply Hheld].
  - intros j p1 Hj. apply list_lookup_insert_Some in Hj as [(_ & <- & _)|[Hne Hj]]; [done|].
    apply pusher_ok_stage; [by apply (Hpush _ _ Hj)|]. intros Ht1. by destruct (Hne (Hdist _ _ _ _ _ Hp Hj Ht Ht1)).
  - eapply distinct_insert; [exact Hdist | exact Hp |].
    intros t1 Ht1. left. rewrite Ht. f_equal. symmetry. auto.
  - destruct Hpp as [Hpp|]; [|done]. unfold popper_ok in *. simpl. rewrite Hpp in *.
    destruct Hpop as [-> _]. split; [done|]. by rewrite set_stage_eq.
Qed.

(** The popping thread is at most waiting for a cell that is being filled. *)
Lemma popper_elsewhere st s t g :
  popper_ok st s -> st t = Claimed \/ st t = Filled ->
  popper_ s = PopWait t \/ popper_ok (set_stage t g st) s.
Proof.
  intros Hpop Ht. unfold popper_ok in *.
  destruct (popper_ s) as [| |h|h|h|h|h v|h v|v|] eqn:E; try by right.
  1: destruct (decide (h = t)) as [<-|Hne]; [by left|]; right; by rewrite set_stage_ne.
  all: right; rewrite set_stage_ne; [done|]; intros Heq;
    (destruct Hpop as (? & Hst & ?) || destruct Hpop as (? & Hst) || destruct Hpop as [Hst ?]);
    subst; destruct Ht as [Ht|Ht]; congruence.
Qed.

Lemma value_push s v t : 0 <= t < issued s -> (pushed s ++ [v]) !! Z.to_nat t = value s t.
Proof. intros Ht. unfold value, issued in *. apply lookup_app_l. lia. Qed.

(** The swap of [tail]: the thread owns the next cell. *)
Lemma claim_inv st s i v todo t h :
  Z.of_nat (length all) < 2 ^ 64 -> inv all st s ->
  pushers s !! i = Some (PushHead v todo t h) -> AtomicQueue.tail (queue s) = t ->
  inv all (set_stage t Claimed st)
    (add_pushed v (set_queue (AtomicQueue.set_tail (wrap64 (t + 1)) (queue s))
                     (set_pusher i (PushWait v todo t) s))).
Proof.
  intros Hfew Hi Hp Htl. pose proof (issued_bound _ _ Hi) as Hib.
  pose proof (remaining_at _ _ _ Hp) as Hrem. pose proof (used_bound _ _ Hi) as Hub.
  pose proof (total_at in_flight in_flight_nonneg _ _ _ Hp) as Hfl. simpl in Hrem, Hfl.
  destruct Hi as [Hlen Hhead Htail Hbound Hpre Hnn Hper Hqn Hqper Hall Hslots Hfree Hopen Hheld Hpush Hdist Hpop].
  assert (t = issued s) as Et by congruence. clear Htl.
  assert (0 <= finished s /\ 0 <= claimed (popper_ s)) as [Hf0 Hc0]
    by (split; [unfold finished; lia | destruct (popper_ s); simpl; lia]).
  set (s' := add_pushed v _).
  assert (finished s' = finished s /\ issued s' = issued s + 1) as [Ef Ei]
    by (unfold finished, issued; simpl; rewrite length_app; simpl; split; lia).
  assert (forall t1, 0 <= t1 < issued s -> value s' t1 = value s t1) as Hval
    by (intros t1 Ht1; unfold value at 1; simpl; by apply value_push).
  assert (st t = Free) as Hst by (apply Hfree; lia).
  assert (forall j p1 t1, pushers s !! j = Some p1 -> ticket p1 = Some t1 -> t1 < t) as Hold.
  { intros j p1 t1 Hj Ht1. specialize (Hpush _ _ Hj). destruct p1; simplify_eq/=; lia. }
  constructor; rewrite ?Ef, ?Ei; unfold s'; simpl; try done.
  - rewrite wrap64_small; lia.
  - lia.
  - by apply prefix_app_r.
  - rewrite (total_insert _ _ _ _ _ Hp). simpl in *. lia.
  - rewrite (total_insert _ _ _ _ _ Hp). simpl in *. lia.
  - rewrite <- Hall, <- app_assoc. f_equiv. rewrite Permutation_app_swap_app. f_equiv.
    by apply (remaining_insert s i _ _ [v] Hp).
  - intros t1 Ht1. destruct (Hslots t1 Ht1) as (c & Hc & Hm). exists c. split; [done|].
    unfold set_stage. case_decide as Hd; [subst t1; by rewrite Hst in Hm|].
    fold s'. destruct (decide (t1 < issued s)) as [Hlt|Hge].
    + by rewrite Hval by lia.
    + rewrite Hfree in * by lia. done.
  - intros t1 Ht1. rewrite set_stage_ne by lia. apply Hfree. lia.
  - intros t1 Ht1. unfold set_stage. case_decide as Hd; [by left|]. apply Hopen. lia.
  - intros t1 Ht1 Hs1. destruct (decide (t1 = t)) as [->|Hd].
    + exists i. eexists. by rewrite list_lookup_insert_eq by (by eapply lookup_lt_Some).
    + rewrite set_stage_ne in Hs1 by done. eapply held_insert; [exact Hp | done |].
      apply Hheld; [lia | done].
  - intros j p1 Hj. fold s'. apply list_lookup_insert_Some in Hj as [(_ & <- & _)|[Hne Hj]].
    + simpl. rewrite Ef, Ei, set_stage_eq. split; [lia|]. split; [done|].
      unfold value. simpl. rewrite Et. unfold issued. by rewrite Nat2Z.id, list_lookup_middle.
    + pose proof (Hpush _ _ Hj) as Hok.
      destruct p1 as [| | | |v1 td t1|v1 td t1|v1 td t1|]; try done;
        destruct Hok as (Hr & Hs1 & Hv1); simpl; rewrite Ef, Ei, set_stage_ne, Hval by lia;
        (split; [lia | done]).
  - eapply distinct_insert; [exact Hdist | exact Hp |].
    intros t1 [= <-]. right. intros j p1 Hj Ht1. specialize (Hold _ _ _ Hj Ht1). lia.
  - fold s'. unfold popper_ok in *. rewrite Ef, Ei. unfold s' at 1. simpl.
    destruct (popper_ s) as [| |h1|h1|h1|h1|h1 v1|h1 v1|v1|]; simpl in Hbound; try done;
      rewrite ?Hval, ?set_stage_ne by lia; done || lia.
Qed.

(** A step that neither leaves the invariant nor does anything undefined. *)
Definition safe (r : outcome (state T)) : Prop :=
  match r with Ret s' => exists st', inv all st' s' | Halt x => x = Blocked end.

Lemma on_slot_safe st s t k :
  inv all st s -> finished s <= t < issued s ->
  (forall c, matches (st t) c (value s t) -> safe (k c)) -> safe (on_slot (queue s) t k).
Proof.
  intros Hi Ht Hk. destruct (slot_lookup st s t Hi (in_window st s t Hi Ht)) as (c & Hc & Hm).
  unfold on_slot. rewrite Hc. by apply Hk.
Qed.

Lemma fill_inv st s i v todo t c :
  inv all st s -> pushers s !! i = Some (PushFill v todo t) -> matches Claimed c (value s t) ->
  inv all (set_stage t Filled st)
    (store_slot t (mkSlot (is_initialized_ c) (Some v)) (set_pusher i (PushFlag v todo t) s)).
Proof.
  intros Hi Hp Hm. pose proof (inv_pushers _ _ _ Hi _ _ Hp) as (Hr & Hst & Hv).
  eapply pusher_writes; [exact Hi | exact Hp | done | done | by right; left | by rewrite Hv | done
                        | by intros ? [= ->] | done | done | done | |].
  - apply popper_elsewhere; [apply (inv_popper _ _ _ Hi) | by left].
  - simpl. by rewrite set_stage_eq.
Qed.

Lemma flag_inv st s i v todo t c :
  inv all st s -> pushers s !! i = Some (PushFlag v todo t) -> matches Filled c (value s t) ->
  inv all (set_stage t Full st)
    (store_slot t (mkSlot true (object_ c)) (set_pusher i (PushRelease todo) s)).
Proof.
  intros Hi Hp [_ Hm]. pose proof (inv_pushers _ _ _ Hi _ _ Hp) as (Hr & Hst & Hv).
  eapply pusher_writes; [exact Hi | exact Hp | done | done | by right; right | done
                        | by intros [|] | done | done | done | done | | done].
  apply popper_elsewhere; [apply (inv_popper _ _ _ Hi) | by right].
Qed.

Lemma push_step_safe st s i :
  Z.of_nat (length all) < 2 ^ 64 -> inv all st s -> safe (push_step i s).
Proof.
  intros Hfew Hi. unfold push_step.
  destruct (pushers s !! i) as [p|] eqn:Hp; [|done].
  pose proof (inv_pushers _ _ _ Hi _ _ Hp) as Hok.
  pose proof (inv_nonneg _ _ _ Hi) as Hnn. pose proof (inv_pop_nonneg _ _ _ Hi) as Hqn.
  destruct p as [[|v todo]|v todo|v todo t|v todo t h|v todo t|v todo t|v todo t|todo]; [done|..].
  - destruct (Z.ltb_spec 0 (permits s)); [|done]. exists st.
    pose proof (move_pusher_inv st s i _ (PushReady v todo) (permits s - 1)
      (pop_permits s) [] Hi Hp) as Hm.
    rewrite app_nil_r in Hm. apply Hm; simpl; try done; lia.
  - exists st. by eapply set_pusher_inv.
  - exists st. by eapply set_pusher_inv.
  - destruct (_ + 1 =? _); [|destruct (Z.eqb_spec (AtomicQueue.tail (queue s)) t)].
    + exists st. pose proof (move_pusher_inv st s i _ (PushRelease todo) (permits s)
        (pop_permits s) [v] Hi Hp) as Hm.
      apply Hm; simpl; done || lia.
    + eexists. by apply (claim_inv st s i v todo t h).
    + exists st. by eapply set_pusher_inv.
  - destruct Hok as (Hr & Hst & Hv). apply (on_slot_safe st); [done..|]. intros c Hm.
    rewrite Hst in Hm. rewrite Hm. exists st. by eapply set_pusher_inv.
  - destruct Hok as (Hr & Hst & Hv). apply (on_slot_safe st); [done..|]. intros c Hm.
    rewrite Hst in Hm. eexists. by eapply fill_inv.
  - destruct Hok as (Hr & Hst & Hv). apply (on_slot_safe st); [done..|]. intros c Hm.
    rewrite Hst in Hm. eexists. by eapply flag_inv.
  - pose proof (pop_permits_bound _ _ Hi) as [_ Hb].
    rewrite (proj2 (Z.ltb_lt _ _)) by (unfold PUSH_MAX, POP_MAX in *; lia). exists st.
    pose proof (move_pusher_inv st s i _ (PushIdle todo) (permits s) (pop_permits s + 1) [] Hi Hp) as Hm.
    rewrite app_nil_r in Hm. apply Hm; simpl; done || lia.
Qed.

(** The popping thread moves on without touching a cell: a permit may be taken or
    given. *)
Lemma move_popper_inv st s (p : popper T) m :
  inv all st s -> claimed p = claimed (popper_ s) -> 0 <= m ->
  m + holding p = pop_permits s + holding (popper_ s) -> popper_ok st (set_popper p s) ->
  inv all st (set_pop_permits m (set_popper p s)).
Proof.
  intros [Hlen Hhead Htail Hbound Hpre Hnn Hper Hqn Hqper Hall Hslots Hfree Hopen Hheld Hpush Hdist Hpop] Hc Hm Hh Hok.
  constructor; simpl; rewrite ?Hc; try done.
  change (m + holding p + total completing (pushers s) =
    issued s + Z.of_nat (length (refused s)) - finished s - claimed (popper_ s)). lia.
Qed.

Lemma set_popper_inv st s (p : popper T) :
  inv all st s -> claimed p = claimed (popper_ s) -> holding p = holding (popper_ s) ->
  popper_ok st (set_popper p s) -> inv all st (set_popper p s).
Proof.
  intros Hi Hc Hh Hok. change (set_popper p s) with (set_pop_permits (pop_permits s) (set_popper p s)).
  apply move_popper_inv; [done..| by apply (inv_pop_nonneg _ _ _ Hi) | by rewrite Hh | done].
Qed.

(** The swap of [head]: the thread owns the oldest cell. *)
Lemma pop_claim_inv st s h :
  Z.of_nat (length all) < 2 ^ 64 -> inv all st s -> popper_ s = PopClaim h ->
  inv all st (set_queue (AtomicQueue.set_head (wrap64 (h + 1)) (queue s)) (set_popper (PopWait h) s)).
Proof.
  intros Hfew Hi Hp. pose proof (issued_bound _ _ Hi) as Hib.
  destruct Hi as [Hlen Hhead Htail Hbound Hpre Hnn Hper Hqn Hqper Hall Hslots Hfree Hopen Hheld Hpush Hdist Hpop].
  unfold popper_ok in Hpop. rewrite Hp in *. destruct Hpop as [-> Hlt]. simpl in *.
  assert (0 <= finished s) by (unfold finished; lia).
  constructor; simpl; try done.
  - rewrite wrap64_small by lia. done.
  - change (finished s + 1 <= issued s). lia.
  - unfold issued, finished in *. simpl. lia.
  - intros t Ht. apply Hopen. change (finished s + 1 <= t < issued s) in Ht. lia.
  - split; [done|]. apply Hopen. lia.
Qed.

(** No pushing thread owns a cell that is full or being emptied. *)
Lemma ticket_stage st s i p t :
  inv all st s -> pushers s !! i = Some p -> ticket p = Some t -> st t = Claimed \/ st t = Filled.
Proof.
  intros Hi Hp Ht. pose proof (inv_pushers _ _ _ Hi _ _ Hp) as Hok.
  destruct p; simplify_eq/=; destruct Hok as (_ & -> & _); auto.
Qed.

Lemma claimed_holding (p : popper T) : claimed p = 1 -> holding p = 0.
Proof. by destruct p. Qed.

(** The popping thread writes to the cell it owns. *)
Lemma popper_writes st s h c g (p : popper T) :
  inv all st s -> h = finished s -> claimed (popper_ s) = 1 -> claimed p = 1 ->
  (st h <> Claimed /\ st h <> Filled) -> g = Taken \/ g = Cleared ->
  matches g c (value s h) ->
  popper_ok (set_stage h g st) (store_slot h c (set_popper p s)) ->
  inv all (set_stage h g st) (store_slot h c (set_popper p s)).
Proof.
  intros Hi Hh Hc Hc' [Hn1 Hn2] Hg Hm Hok. pose proof (inv_bound _ _ _ Hi) as Hb. rewrite Hc in Hb.
  assert (finished s <= h < issued s) as Hr by lia.
  pose proof (slots_set st s h c g Hi (in_window st s h Hi Hr) Hm) as Hset.
  assert (forall i p t, pushers s !! i = Some p -> ticket p = Some t -> t <> h) as Hother.
  { intros i p1 t Hp1 Ht ->. destruct (ticket_stage _ _ _ _ _ Hi Hp1 Ht); done. }
  destruct Hi as [Hlen Hhead Htail Hbound Hpre Hnn Hper Hqn Hqper Hall Hslots Hfree Hopen Hheld Hpush Hdist Hpop].
  constructor; simpl; rewrite ?Hc', <- ?Hc; try done.
  - by rewrite length_insert.
  - rewrite (claimed_holding p) by done. by rewrite (claimed_holding (popper_ s)) in Hqper.
  - intros t Ht. change (issued s <= t) in Ht. rewrite set_stage_ne by lia. by apply Hfree.
  - intros t Ht. change (finished s + claimed (popper_ s) <= t < issued s) in Ht.
    rewrite set_stage_ne by lia. by apply Hopen.
  - intros t Ht Hst. unfold set_stage in Hst. case_decide; [|by apply Hheld].
    destruct Hst, Hg; congruence.
  - intros i p1 Hp1. apply pusher_ok_stage; [by apply (Hpush _ _ Hp1)|].
    intros Ht. by apply (Hother _ _ _ Hp1 Ht).
Qed.

(** The value is returned: its cell comes free, a lap later. *)
Lemma release_inv st s v :
  inv all st s -> popper_ s = PopReturn v ->
  inv all (set_stage (finished s) Free st)
    (set_permits (permits s + 1) (add_popped v (set_popper PopIdle s))).
Proof.
  intros Hi Hp. pose proof (used_bound _ _ Hi) as Hub.
  pose proof (total_nonneg in_flight in_flight_nonneg (pushers s)) as Htn.
  assert (forall i p t, pushers s !! i = Some p -> ticket p = Some t -> t <> finished s) as Hother.
  { intros i p1 t Hp1 Ht ->. pose proof (inv_popper _ _ _ Hi) as Hpop. unfold popper_ok in Hpop.
    rewrite Hp in Hpop. destruct Hpop as [Hst _].
    destruct (ticket_stage _ _ _ _ _ Hi Hp1 Ht); congruence. }
  destruct Hi as [Hlen Hhead Htail Hbound Hpre Hnn Hper Hqn Hqper Hall Hslots Hfree Hopen Hheld Hpush Hdist Hpop].
  unfold popper_ok in Hpop. rewrite Hp in *. destruct Hpop as [Hst Hv]. simpl in *.
  unfold PUSH_MAX, RING_BUFFER_SIZE in *.
  set (s' := set_permits _ _).
  assert (finished s' = finished s + 1 /\ issued s' = issued s) as [Ef Ei]
    by (unfold finished, issued; simpl; rewrite length_app; simpl; split; lia).
  constructor; rewrite ?Ef, ?Ei; unfold s'; simpl; try done; try (unfold PUSH_MAX; lia).
  - destruct Hpre as [rest Hpre]. unfold value, finished in Hv. rewrite Nat2Z.id in Hv.
    rewrite Hpre, lookup_app_r, Nat.sub_diag in Hv by done.
    destruct rest as [|v1 rest]; [done|]. simplify_eq/=.
    rewrite Hpre. exists rest. by rewrite <- app_assoc.
  - intros t Ht. destruct (decide (t = finished s + RING_BUFFER_SIZE)) as [->|Hne].
    + destruct (Hslots (finished s)) as (c & Hc & Hm); [lia|]. exists c.
      rewrite cell_lap, Hst in *. split; [done|].
      unfold RING_BUFFER_SIZE. rewrite set_stage_ne, Hfree by lia. done.
    + unfold RING_BUFFER_SIZE in *. destruct (Hslots t) as (c & Hc & Hm); [lia|].
      exists c. split; [done|]. rewrite set_stage_ne by lia. done.
  - intros t Ht. unfold set_stage. case_decide; [done|]. by apply Hfree.
  - intros t Ht. rewrite set_stage_ne by lia. apply Hopen. lia.
  - intros t Ht Hs. rewrite set_stage_ne in Hs by lia. apply Hheld; [lia | done].
  - intros i p1 Hp1. pose proof (Hpush _ _ Hp1) as Hok.
    assert (forall t, ticket p1 = Some t -> t <> finished s) as Hne by (intros t; by apply (Hother i)).
    fold s'. destruct p1 as [| | | |v1 td t1|v1 td t1|v1 td t1|]; try done;
      destruct Hok as (Hr & Hs1 & Hv1); specialize (Hne _ eq_refl); simpl;
      rewrite Ef, Ei, set_stage_ne by done; (split; [lia | done]).
Qed.

Lemma pop_step_safe st s :
  Z.of_nat (length all) < 2 ^ 64 -> inv all st s -> safe (pop_step s).
Proof.
  intros Hfew Hi. pose proof (inv_popper _ _ _ Hi) as Hok. pose proof (inv_head _ _ _ Hi) as Hh.
  pose proof (inv_tail _ _ _ Hi) as Ht. pose proof (inv_bound _ _ _ Hi) as Hb.
  pose proof (inv_pop_nonneg _ _ _ Hi) as Hqn. pose proof (used_bound _ _ Hi) as Hub.
  pose proof (inv_permits _ _ _ Hi) as Hper. pose proof (pop_permits_bound _ _ Hi) as [_ Hqb].
  pose proof (total_nonneg in_flight in_flight_nonneg (pushers s)) as Hfn.
  unfold pop_step. unfold popper_ok in Hok.
  destruct (popper_ s) as [| |h|h|h|h|h v|h v|v|] eqn:Hp; simpl in Hh, Hb.
  - destruct (Z.ltb_spec 0 (pop_permits s)); [|done]. exists st.
    apply move_popper_inv; rewrite ?Hp; simpl; done || lia.
  - exists st. apply set_popper_inv; [done | by rewrite Hp | by rewrite Hp |].
    unfold popper_ok. simpl. change (AtomicQueue.head (queue s) = finished s). lia.
  - destruct (Z.eqb_spec h (AtomicQueue.tail (queue s))); exists st;
      (apply set_popper_inv; [done | by rewrite Hp | by rewrite Hp |]); [done|].
    split; [done|]. change (h < issued s). lia.
  - destruct Hok as [-> Hlt]. rewrite (proj2 (Z.eqb_eq _ _)) by lia.
    exists st. by apply pop_claim_inv.
  - destruct Hok as [-> Hst]. apply (on_slot_safe st); [done | lia |]. intros c Hm.
    destruct (is_initialized_ c) eqn:Ec; [|done]. exists st.
    apply set_popper_inv; [done | by rewrite Hp | by rewrite Hp |]. split; [done|].
    destruct Hst as [Hst|[Hst|Hst]]; rewrite Hst in *; simpl in Hm; [congruence | | done].
    destruct Hm. congruence.
  - destruct Hok as [-> Hst]. apply (on_slot_safe st); [done | lia |]. intros c Hm.
    rewrite Hst in Hm. destruct Hm as [Hflag Hobj].
    assert (exists v, value s (finished s) = Some v) as [v Hv].
    { unfold value. apply lookup_lt_is_Some. unfold issued, finished in *. lia. }
    rewrite Hobj, Hv. exists (set_stage (finished s) Taken st).
    apply popper_writes; try done; [by rewrite Hp | rewrite Hst; by split | by left |].
    split; [done|]. rewrite set_stage_eq. done.
  - destruct Hok as (-> & Hst & Hv). apply (on_slot_safe st); [done | lia |]. intros c Hm.
    exists (set_stage (finished s) Cleared st).
    apply popper_writes; try done; [by rewrite Hp | rewrite Hst; by split | by right |].
    split; [done|]. rewrite set_stage_eq. done.
  - destruct Hok as (-> & Hst & Hv). apply (on_slot_safe st); [done | lia |]. intros c Hm.
    exists (set_stage (finished s) Cleared st).
    apply popper_writes; try done; [by rewrite Hp | rewrite Hst; by split | by right |].
    split; [|done]. change (set_stage (finished s) Cleared st (finished s) = Cleared).
    apply set_stage_eq.
  - rewrite (proj2 (Z.ltb_lt _ _)) by lia. eexists. by apply release_inv.
  - rewrite (proj2 (Z.ltb_lt _ _)) by (unfold PUSH_MAX, POP_MAX in *; lia). exists st.
    apply move_popper_inv; rewrite ?Hp; simpl; done || lia.
Qed.

Lemma start_atomic_inv todo : all = concat todo -> inv all (fun _ => Free) (start todo).
Proof.
  intros ->. constructor;
    cbn [start queue permits pushers popper_ pushed popped refused]; try done.
  - rewrite total_zero; [done|]. by intros p (? & -> & _)%list_elem_of_fmap.
  - rewrite total_zero; [done|]. by intros p (? & -> & _)%list_elem_of_fmap.
  - simpl. induction todo as [|l todo IH]; simpl; [done|]. by rewrite IH.
  - intros t _. eexists. split; [apply lookup_replicate_2, cell_lt | done].
  - intros t Ht. unfold finished, issued in Ht. simpl in Ht. lia.
  - by intros t _ [].
  - intros i p Hp. rewrite list_lookup_fmap in Hp. by destruct (todo !! i); simplify_eq/=.
  - intros i j p p' t Hp. rewrite list_lookup_fmap in Hp. by destruct (todo !! i); simplify_eq/=.
Qed.

Lemma step_inv_kept st s s' :
  Z.of_nat (length all) < 2 ^ 64 -> inv all st s -> step s s' -> exists st', inv all st' s'.
Proof.
  intros Hfew Hi [i Hs|Hs].
  - pose proof (push_step_safe st s i Hfew Hi) as Hsafe. by rewrite Hs in Hsafe.
  - pose proof (pop_step_safe st s Hfew Hi) as Hsafe. by rewrite Hs in Hsafe.
Qed.

Lemma reachable_atomic_inv todo s :
  all = concat todo -> Z.of_nat (length all) < 2 ^ 64 -> rtc step (start todo) s ->
  exists st, inv all st s.
Proof.
  intros Hall Hfew Hr. assert (exists st, inv all st (start todo)) as Hi
    by (eexists; by apply start_atomic_inv).
  induction Hr as [|s1 s2 s3 Hs _ IH]; [done|]. apply IH. destruct Hi as [st Hi].
  by eapply step_inv_kept.
Qed.

(** A thread in the middle of a push can go on. *)
Lemma busy_pusher_step st s i p :
  Z.of_nat (length all) < 2 ^ 64 -> inv all st s -> pushers s !! i = Some p ->
  (forall todo, p <> PushIdle todo) -> exists s', push_step i s = Ret s'.
Proof.
  intros Hfew Hi Hp Hbusy. pose proof (push_step_safe st s i Hfew Hi) as Hsafe.
  pose proof (inv_pushers _ _ _ Hi _ _ Hp) as Hok.
  destruct (push_step i s) as [s'|x] eqn:Hs; [by eexists|]. simpl in Hsafe. subst x. exfalso.
  unfold push_step, on_slot in Hs. rewrite Hp in Hs.
  destruct p as [todo|v todo|v todo t|v todo t h|v todo t|v todo t|v todo t|todo];
    try (by repeat (case_match; simplify_eq)); [by destruct (Hbusy todo)|].
  destruct Hok as (Hr & Hst & _).
  destruct (slot_lookup st s t Hi (in_window st s t Hi Hr)) as (c & Hc & Hm).
  rewrite Hst in Hm. simpl in Hm. by rewrite Hc, Hm in Hs.
Qed.

(** In the middle of a pop the popping thread can go on, or the thread it waits
    for can. *)
Lemma busy_popper_step st s :
  Z.of_nat (length all) < 2 ^ 64 -> inv all st s -> popper_ s <> PopIdle -> exists s', step s s'.
Proof.
  intros Hfew Hi Hbusy. pose proof (pop_step_safe st s Hfew Hi) as Hsafe.
  destruct (pop_step s) as [s'|x] eqn:Hs; [exists s'; by apply step_pop|].
  simpl in Hsafe. subst x. pose proof (inv_popper _ _ _ Hi) as Hok.
  pose proof (inv_bound _ _ _ Hi) as Hb. unfold pop_step, on_slot in Hs. unfold popper_ok in Hok.
  destruct (popper_ s) as [| |h|h|h|h|h v|h v|v|] eqn:Hp; simpl in Hb;
    try (by repeat (case_match; simplify_eq)).
  destruct Hok as [-> Hst].
  destruct (slot_lookup st s (finished s) Hi) as (c & Hc & Hm); [unfold RING_BUFFER_SIZE; lia|].
  rewrite Hc in Hs. destruct (is_initialized_ c) eqn:Ec; [done|].
  assert (st (finished s) = Claimed \/ st (finished s) = Filled) as Hcf.
  { destruct Hst as [|[|Hf]]; [by left | by right|]. rewrite Hf in Hm. destruct Hm. congruence. }
  destruct (inv_held _ _ _ Hi (finished s)) as (i & p & Hi1 & Ht); [lia | done|].
  destruct (busy_pusher_step st s i p) as [s' Hs']; [done..| by destruct p |].
  exists s'. by apply (step_push _ _ i).
Qed.

(** *** A single pushing thread *)
Lemma pop_step_frame s s' :
  pop_step s = Ret s' -> pushers s' = pushers s /\ pushed s' = pushed s /\ refused s' = refused s.
Proof.
  unfold pop_step, on_slot. intros Hs.
  repeat (case_match; simplify_eq/=; try done).
Qed.

Definition sole (s : state T) : Prop :=
  exists p, pushers s = [p] /\ pushed s ++ remaining p = all /\ refused s = [] /\
  popper_ s <> PopEmpty /\
  match p with
  | PushTail _ _ t => t = issued s
  | PushHead _ _ t h => t = issued s /\ h <= t <= h + (PUSH_MAX - 1)
  | _ => True
  end.

(** The steps a push takes and those the values left will take: eight each. *)
Definition push_work (p : pusher T) : Z :=
  Z.of_nat (length (remaining p)) * 8 +
  match p with
  | PushIdle _ => 0 | PushReady _ _ => -1 | PushTail _ _ _ => -2 | PushHead _ _ _ _ => -3
  | PushWait _ _ _ => 4 | PushFill _ _ _ => 3 | PushFlag _ _ _ => 2 | PushRelease _ => 1
  end.
(** The steps of the pop that is under way, of nine. *)
Definition pop_done (p : popper T) : Z :=
  match p with
  | PopIdle | PopEmpty => 0 | PopReady => 1 | PopHead _ => 2 | PopClaim _ => 3 | PopWait _ => 4
  | PopTake _ => 5 | PopClear _ _ => 6 | PopStore _ _ => 7 | PopReturn _ => 8
  end.
Definition taken (s : state T) : Z :=
  finished s * 9 + pop_done (popper_ s) - total push_work (pushers s).

(** The test for a full queue fails. *)
Lemma not_full t h :
  h <= t <= h + (PUSH_MAX - 1) -> (normilize_ring_slot t + 1 =? normilize_ring_slot h) = false.
Proof.
  intros Ht. apply Z.eqb_neq. rewrite !normilize_mod. unfold PUSH_MAX, RING_BUFFER_SIZE in *.
  intros He. pose proof (Z.div_mod t 4096 ltac:(lia)). pose proof (Z.div_mod h 4096 ltac:(lia)). lia.
Qed.

(** A popping thread that holds a permit has a value to pop. *)
Lemma holding_issued st s :
  inv all st s -> refused s = [] -> holding (popper_ s) = 1 -> finished s < issued s.
Proof using Type.
  intros Hi Href Hh. pose proof (inv_pop_permits _ _ _ Hi) as Hq. rewrite Href, Hh in Hq.
  pose proof (inv_pop_nonneg _ _ _ Hi). pose proof (total_nonneg _ completing_nonneg (pushers s)).
  destruct (popper_ s); simpl in *; lia.
Qed.

Lemma sole_pop_step st s s' :
  inv all st s -> sole s -> pop_step s = Ret s' -> sole s' /\ taken s' = taken s + 1.
Proof.
  intros Hi (p & Hp & Hall & Href & Hne & Hok) Hs.
  pose proof (inv_popper _ _ _ Hi) as Hpop. pose proof (inv_tail _ _ _ Hi) as Ht.
  pose proof (inv_head _ _ _ Hi) as Hh. pose proof (holding_issued _ _ Hi Href) as Hlt.
  pose proof (pop_step_frame _ _ Hs) as (E1 & E2 & E3).
  cut (popper_ s' <> PopEmpty /\
       finished s' * 9 + pop_done (popper_ s') = finished s * 9 + pop_done (popper_ s) + 1).
  { intros [Hne' Hd]. split; [|unfold taken; rewrite E1; lia].
    exists p. unfold issued. by rewrite E1, E2, E3. }
  unfold pop_step, on_slot in Hs. unfold popper_ok in Hpop. clear Hok.
  destruct (popper_ s) as [| |h|h|h|h|h v|h v|v|] eqn:E; simpl in Hlt, Hh; [..|done];
    try (simplify_eq/=; repeat (case_match; simplify_eq/=); split; [done|]; unfold finished; simpl;
         rewrite ?length_app; simpl; lia).
  - rewrite (proj2 (Z.eqb_neq _ _)) in Hs by lia. simplify_eq/=. split; [done|].
    unfold finished. simpl. lia.
  - destruct Hpop as [-> _]. rewrite (proj2 (Z.eqb_eq _ _)) in Hs by lia. simplify_eq/=.
    split; [done|]. unfold finished. simpl. lia.
Qed.

Lemma sole_push_step st s s' i :
  inv all st s -> sole s -> push_step i s = Ret s' -> sole s' /\ taken s' = taken s + 1.
Proof.
  intros Hi (p & Hp & Hall & Href & Hne & Hok) Hs.
  pose proof (used_bound _ _ Hi) as Hub. pose proof (inv_head _ _ _ Hi) as Hh.
  pose proof (inv_bound _ _ _ Hi) as Hb. pose proof (inv_tail _ _ _ Hi) as Ht.
  assert (0 <= claimed (popper_ s)) as Hc by (destruct (popper_ s); simpl; lia).
  unfold push_step in Hs. rewrite Hp in Hs, Hub. destruct i as [|i]; [|done].
  unfold sole, taken, on_slot in *. simpl in Hs. rewrite Hp.
  destruct p as [[|v todo]|v todo|v todo t|v todo t h|v todo t|v todo t|v todo t|todo];
    simpl in *; [done|..].
  4: { destruct Hok as [-> Hth]. rewrite not_full in Hs by done.
       rewrite (proj2 (Z.eqb_eq _ _)) in Hs by done. simplify_eq/=. rewrite Hp. split.
       - eexists. split_and!; try done. by rewrite <- app_assoc.
       - unfold finished. simpl. unfold push_work. simpl. lia. }
  all: simplify_eq/=; repeat (case_match; simplify_eq/=); rewrite Hp;
    (split; [eexists; split_and!; try done; unfold issued in *; simpl in *; lia
            |unfold finished; simpl; unfold push_work; simpl; lia]).
Qed.

Lemma sole_run st s s' n :
  Z.of_nat (length all) < 2 ^ 64 -> inv all st s -> sole s -> nsteps step n s s' ->
  (exists st', inv all st' s') /\ sole s' /\ taken s' = taken s + Z.of_nat n.
Proof.
  intros Hfew Hi Hs Hn. revert st Hi Hs.
  induction Hn as [s|n s1 s2 s3 Hst _ IH]; intros st Hi Hs; [split_and!; [by eexists | done | lia]|].
  destruct (step_inv_kept st s1 s2 Hfew Hi Hst) as [st2 Hi2].
  assert (sole s2 /\ taken s2 = taken s1 + 1) as [Hs2 Ht2].
  { destruct Hst as [i Hst|Hst]; [by eapply sole_push_step | by eapply sole_pop_step]. }
  destruct (IH st2 Hi2 Hs2) as (? & ? & ?). split_and!; [done.. | lia].
Qed.

(** As long as not everything is popped one of the two threads can go on. *)
Lemma sole_progress st s :
  Z.of_nat (length all) < 2 ^ 64 -> inv all st s -> sole s ->
  (exists s', step s s') \/
  pushers s = [PushIdle []] /\ popper_ s = PopIdle /\ popped s = all.
Proof.
  intros Hfew Hi (p & Hp & Hall & Href & _ & _).
  assert (popper_ s = PopIdle \/ popper_ s <> PopIdle) as [Hpop|Hbusy]
    by (destruct (popper_ s); (by left) || by right).
  2: left; by eapply busy_popper_step.
  pose proof (inv_permits _ _ _ Hi) as Hper. pose proof (inv_pop_permits _ _ _ Hi) as Hq.
  pose proof (inv_pop_nonneg _ _ _ Hi) as Hqn.
  rewrite Hp, Href in Hper, Hq. rewrite Hpop in Hq.
  assert (pushers s !! 0%nat = Some p) as Hp0 by (by rewrite Hp).
  destruct (Z.ltb_spec 0 (pop_permits s)) as [Hlt|Hge].
  { left. eexists. apply step_pop. unfold pop_step. by rewrite Hpop, (proj2 (Z.ltb_lt _ _)). }
  destruct p as [[|v todo]|v todo|v todo t|v todo t h|v todo t|v todo t|v todo t|todo];
    try (left; destruct (busy_pusher_step st s 0 _ Hfew Hi Hp0) as [s' Hs]; [done|];
         exists s'; by apply (step_push _ _ 0)).
  - right. simpl in Hq, Hall. rewrite app_nil_r in Hall. split_and!; [done..|].
    destruct (inv_prefix _ _ _ Hi) as [l Hl]. rewrite <- Hall, Hl. rewrite Hl in Hall.
    unfold issued, finished in Hq. rewrite Hl, length_app in Hq.
    destruct l; [by rewrite app_nil_r | simpl in *; lia].
  - left. eexists. apply (step_push _ _ 0). unfold push_step.
    simpl in Hper, Hq. rewrite Hp0, (proj2 (Z.ltb_lt _ _)) by (unfold PUSH_MAX in *; lia). done.
Qed.

Lemma sole_start : sole (start [all]) /\ taken (start [all]) = - (Z.of_nat (length all) * 8).
Proof using Type.
  split; [eexists; by split_and!|]. unfold taken, push_work, finished. simpl. lia.
Qed.

(** No more steps than the values take. *)
Lemma sole_taken st s :
  inv all st s -> sole s -> taken s <= Z.of_nat (length all) * 9 /\
  (taken s = Z.of_nat (length all) * 9 -> popped s = all).
Proof using Type.
  intros Hi (p & Hp & Hall & Href & Hne & _). pose proof (holding_issued _ _ Hi Href) as Hh.
  pose proof (inv_bound _ _ _ Hi) as Hb. destruct (inv_prefix _ _ _ Hi) as [l Hl].
  assert (Z.of_nat (length (remaining p)) + issued s = Z.of_nat (length all)) as Hn
    by (rewrite <- Hall, length_app; unfold issued; lia).
  assert (0 <= push_work p) by (destruct p as [[|??]| | | | | | |]; unfold push_work; simpl; lia).
  assert (finished s * 9 + pop_done (popper_ s) <= issued s * 9) as Hd
    by (clear - Hb Hh Hne; destruct (popper_ s); simpl in *; try done; try specialize (Hh eq_refl); lia).
  unfold taken. rewrite Hp. simpl. split; [lia|]. intros He.
  assert (remaining p = [] /\ finished s = issued s) as [Hr Hf].
  { assert (0 <= pop_done (popper_ s) < 9) by (destruct (popper_ s); simpl; lia).
    split; [apply length_zero_iff_nil; lia | lia]. }
  rewrite Hr, app_nil_r, Hl in Hall. unfold finished, issued in Hf.
  rewrite Hl, length_app in Hf. destruct l; [by rewrite app_nil_r in Hall | simpl in Hf; lia].
Qed.
End AtomicStepsLemmas.

(** A run of a schedule takes as many steps as the schedule is long. *)
Lemma run_nsteps {T} (schedule : list (option nat)) : forall s s' : AtomicSteps.state T,
  AtomicSteps.run schedule s = Ret s' -> nsteps AtomicSteps.step (length schedule) s s'.
Proof.
  induction schedule as [|thread rest IH]; intros s s'; simpl; [by intros [= ->]; constructor|].
  destruct thread as [i|].
  - destruct (AtomicSteps.push_step i s) as [s1|] eqn:E; [|done].
    intros Hr. eapply nsteps_l; [by apply (AtomicSteps.step_push _ _ i) | by apply IH].
  - destruct (AtomicSteps.pop_step s) as [s1|] eqn:E; [|done].
    intros Hr. eapply nsteps_l; [by apply AtomicSteps.step_pop | by apply IH].
Qed.

Lemma run_steps {T} (schedule : list (option nat)) (s s' : AtomicSteps.state T) :
  AtomicSteps.run schedule s = Ret s' -> rtc AtomicSteps.step s s'.
Proof. intros Hr. eapply rtc_nsteps_2, run_nsteps, Hr. Qed.

(** ** Properties *)

(** C15: step by step the queue is a FIFO queue.  Any number of threads push
    and one thread pops under the permits of the scheduler's two semaphores,
    their loads, stores, swaps, acquires and releases interleaved at will; there
    are fewer than 2^64 values in all.  Then the values popped are the values
    that got a cell, in the order in which they got it; no value is lost but for
    those whose push was refused; no thread reads a destroyed object, leaves the
    ring or releases a semaphore past its largest value; and at most 4095 values
    are in.  A refused push keeps the permit it acquired, so that nothing is
    said here about the threads going on: that is [no_task_lost], for the one
    pushing thread of the program. *)
Theorem atomic_steps_fifo {T} (todo : list (list T)) (s : AtomicSteps.state T) :
  Z.of_nat (length (concat todo)) < 2 ^ 64 -> rtc AtomicSteps.step (AtomicSteps.start todo) s ->
  AtomicSteps.popped s `prefix_of` AtomicSteps.pushed s /\
  AtomicSteps.pushed s ++ AtomicSteps.refused s ++ (AtomicSteps.pushers s ≫= AtomicSteps.remaining)
    ≡ₚ concat todo /\
  (length (AtomicSteps.pushed s) <= length (AtomicSteps.popped s) + Z.to_nat PUSH_MAX)%nat /\
  0 <= AtomicSteps.permits s <= PUSH_MAX - Z.of_nat (length (AtomicSteps.refused s)) /\
  0 <= AtomicSteps.pop_permits s <= PUSH_MAX /\
  (forall i, AtomicSteps.push_step i s <> Halt Undefined) /\
  AtomicSteps.pop_step s <> Halt Undefined.
Proof.
  intros Hfew Hr. destruct (reachable_atomic_inv _ todo s eq_refl Hfew Hr) as [st Hi].
  pose proof (used_bound _ _ _ Hi) as Hub. pose proof (pop_permits_bound _ _ _ Hi) as [_ Hq].
  pose proof (total_nonneg _ in_flight_nonneg (AtomicSteps.pushers s)) as Hn.
  pose proof (AtomicSteps.inv_permits _ _ _ Hi) as Hper.
  pose proof (AtomicSteps.inv_bound _ _ _ Hi) as Hb.
  assert (0 <= AtomicSteps.claimed (AtomicSteps.popper_ s)) by (by destruct (AtomicSteps.popper_ s)).
  split_and!; [apply (AtomicSteps.inv_prefix _ _ _ Hi) | apply (AtomicSteps.inv_all _ _ _ Hi) | |
    apply (AtomicSteps.inv_nonneg _ _ _ Hi) | lia | apply (AtomicSteps.inv_pop_nonneg _ _ _ Hi)
    | done | |].
  - unfold AtomicSteps.issued, AtomicSteps.finished in Hub. lia.
  - intros i Hu. pose proof (push_step_safe _ st s i Hfew Hi) as Hsafe. by rewrite Hu in Hsafe.
  - intros Hu. pose proof (pop_step_safe _ st s Hfew Hi) as Hsafe. by rewrite Hu in Hsafe.
Qed.

(** C14: no task is lost.  The program has one thread that calls [push_task],
    that of the coroutines, and one worker, and every load, store and swap of
    the queue and every acquire and release of the two semaphores is a step of
    its own.  Then in every interleaving no push is refused, so that ignoring
    what [try_push] answers loses nothing; the tasks taken are the tasks pushed,
    in that order; neither semaphore leaves the range it was declared with;
    and the two threads get done: whatever order the steps come in, one of the
    two threads can go on until after exactly 17 steps per task each of them
    was taken, for any number of tasks below 2^64. *)
Theorem no_task_lost {T} (todo : list T) (n : nat) (s : AtomicSteps.state T) :
  Z.of_nat (length todo) < 2 ^ 64 -> nsteps AtomicSteps.step n (AtomicSteps.start [todo]) s ->
  AtomicSteps.refused s = [] /\
  AtomicSteps.pushed s ++ (AtomicSteps.pushers s ≫= AtomicSteps.remaining) = todo /\
  AtomicSteps.popped s `prefix_of` AtomicSteps.pushed s /\
  0 <= AtomicSteps.permits s <= PUSH_MAX /\ 0 <= AtomicSteps.pop_permits s <= POP_MAX /\
  (n <= 17 * length todo)%nat /\
  ((exists s', AtomicSteps.step s s') \/
   AtomicSteps.popped s = todo /\ n = 17 * length todo)%nat /\
  (n = 17 * length todo -> AtomicSteps.popped s = todo)%nat.
Proof.
  intros Hfew Hr. assert (todo = concat [todo]) as Hall by (simpl; by rewrite app_nil_r).
  destruct (sole_start todo) as [Hs0 Ht0].
  destruct (sole_run todo (fun _ => AtomicSteps.Free) _ s n Hfew (start_atomic_inv _ _ Hall) Hs0 Hr)
    as ([st Hi] & Hs & Ht).
  pose proof (sole_taken _ _ _ Hi Hs) as [Hle Hend].
  assert ((exists s', AtomicSteps.step s s') \/
          AtomicSteps.popped s = todo /\ n = 17 * length todo)%nat as Hgo.
  { destruct (sole_progress _ _ _ Hfew Hi Hs) as [|(E1 & E2 & E3)]; [by left | right].
    split; [done|]. unfold taken, AtomicSteps.finished, push_work in Ht0, Ht.
    rewrite Ht0, E1, E2, E3 in Ht. simpl in Ht. lia. }
  pose proof (pop_permits_bound _ _ _ Hi) as [_ Hq]. pose proof (AtomicSteps.inv_permits _ _ _ Hi) as Hper.
  pose proof (AtomicSteps.inv_bound _ _ _ Hi) as Hb.
  pose proof (total_nonneg _ in_flight_nonneg (AtomicSteps.pushers s)) as Hn.
  assert (0 <= AtomicSteps.claimed (AtomicSteps.popper_ s)) by (by destruct (AtomicSteps.popper_ s)).
  destruct Hs as (p & Hp & Ha & Href & _). rewrite Ht0 in Ht.
  split_and!; [done | rewrite Hp; simpl; by rewrite app_nil_r | apply (AtomicSteps.inv_prefix _ _ _ Hi)
    | apply (AtomicSteps.inv_nonneg _ _ _ Hi) | lia | apply (AtomicSteps.inv_pop_nonneg _ _ _ Hi)
    | unfold PUSH_MAX, POP_MAX in *; lia | lia | done | intros ->; apply Hend; lia].
Qed.

(** C27: two threads that push can make a queue refuse although it is empty.  One
    thread loads [tail]; the other pushes a value and the value is popped; then
    the first thread loads [head], which is now one ahead of the [tail] it has,
    and takes this for a full queue.  [run_event_loop] and the console thread
    both push to [available_task_tags_] and ignore the answer. *)
Theorem push_refused_on_empty {T} (v w : T) :
  exists s, rtc AtomicSteps.step (AtomicSteps.start [[v]; [w]]) s /\
    AtomicSteps.refused s = [v] /\ AtomicSteps.popped s = [w] /\
    AtomicSteps.popper_ s = AtomicSteps.PopIdle /\
    AtomicSteps.pushers s = [AtomicSteps.PushIdle []; AtomicSteps.PushIdle []] /\
    AtomicQueue.head (AtomicSteps.queue s) = 1 /\ AtomicQueue.tail (AtomicSteps.queue s) = 1.
Proof.
  eexists. split.
  - apply (run_steps ([Some 0; Some 0] ++ replicate 8 (Some 1) ++ replicate 9 None ++
                      [Some 0; Some 0; Some 0])%nat).
    vm_compute. reflexivity.
  - vm_compute. by split_and!.
Qed.

(** *** Witnesses: two threads push three values, one of which is popped *)
Definition steps_of (todo : list (list Z)) (schedule : list (option nat)) : AtomicSteps.state Z :=
  match AtomicSteps.run schedule (AtomicSteps.start todo) with
  | Ret s => s
  | Halt _ => AtomicSteps.start todo
  end.

Lemma atomic_steps_fifo_witness :
  let s := steps_of [[1; 2]; [3]] ([Some 1; Some 0] ++ replicate 7 (Some 1) ++ replicate 9 None)%nat in
  AtomicSteps.popped s = [3] /\ AtomicSteps.popped s `prefix_of` AtomicSteps.pushed s.
Proof.
  set (s := steps_of _ _). split; [by vm_compute|].
  apply (atomic_steps_fifo [[1; 2]; [3]] s); [by vm_compute|].
  apply (run_steps ([Some 1; Some 0] ++ replicate 7 (Some 1) ++ replicate 9 None)%nat).
  vm_compute. reflexivity.
Defined.

(** The second push is under way while the first value is popped; then the rest
    of both. *)
Definition both_done : list (option nat) :=
  (replicate 12 (Some 0) ++ replicate 9 None ++ replicate 4 (Some 0) ++ replicate 9 None)%nat.

Lemma no_task_lost_witness :
  let s := steps_of [[1; 2]] both_done in
  AtomicSteps.popped s = [1; 2] /\ AtomicSteps.refused s = [] /\ (34 <= 17 * length [1; 2])%nat.
Proof.
  set (s := steps_of _ _). split; [by vm_compute|].
  assert (nsteps AtomicSteps.step 34 (AtomicSteps.start [[1; 2]]) s) as Hr
    by (apply (run_nsteps both_done); vm_compute; reflexivity).
  assert (Z.of_nat (length [1; 2]) < 2 ^ 64) as Hfew by reflexivity.
  destruct (no_task_lost [1; 2] 34 s Hfew Hr) as (Href & _ & _ & _ & _ & Hle & _).
  exact (conj Href Hle).
Defined.
