(* ===== verification/PoolSteps.v ===== *)
(** * [push_to_pool], one atomic operation at a time

    The event loop (for accepted clients) and the worker (for lobbies and for
    clients handed over) both push connections to the pool, and no lock keeps
    them apart.  Here every load, store and compare-and-swap of
    [AllocatorPool::allocate], with the growth of the pool, and of the counter
    that [push_to_pool] adds to, is a step of its own, and any number of
    threads take steps in any order.  No slot has been released yet, so every
    push allocates; nothing in the program calls [deallocate].  A thread that
    waits has no step until the condition holds.

    Everything the threads share here is atomic in the source but for the
    counter: [counter++] is done on a plain [size_t].  Two threads that can get
    at it at the same time are a data race, and C++ gives a program that has one
    no meaning.  The load and the store of [push_step] are what a machine does
    there; [races] says where the program has the race, and
    [counter_update_lost] reaches such a state. *)
From S2P Require Import Prelude.
From S2P Require Import Ring.
From S2P Require Import Platform.
From S2P Require Import MemoryManager.

#[local] Open Scope Z_scope.
#[local] Open Scope bsm_scope.

Module PoolSteps.
Section Steps.
(** What [mprotect] answers for an address and a length. *)
Context (mprotect : Z -> Z -> Z).

(** What a thread in [push_to_pool] does next; [i] is its [new_index]. *)
Inductive phase :=
| Load                      (* load [last_not_issued_index] *)
| Compare (i : Z)           (* the limit; load [actual_memory_end] and compare *)
| Acquire (i memory_end : Z)  (* [try_acquire] of the permit *)
| Protect (i : Z)           (* [mprotect] *)
| Extend (i : Z)            (* [actual_memory_end.fetch_add], [notify_all] *)
| Release (i : Z)           (* release the permit *)
| Wait (i memory_end : Z)   (* until [actual_memory_end] is another *)
| Swap (i : Z)              (* [compare_exchange_weak] *)
| Build (i : Z)             (* construct the object in its chunk *)
| LoadCounter (i : Z)
| StoreCounter (i n : Z).

Record thread := mkThread {
  todo : nat;               (* pushes still to begin *)
  at_ : phase
}.

Record state := mkState {
  pool : AllocatorPool.t;
  accessible : Z;           (* the end of what [mprotect] has made accessible *)
  counter : Z;
  threads : list thread;
  returned : list Z         (* the slots the pushes have returned, oldest first *)
}.

Definition set_pool (a : AllocatorPool.t) (s : state) : state :=
  mkState a (accessible s) (counter s) (threads s) (returned s).
Definition set_accessible (e : Z) (s : state) : state :=
  mkState (pool s) e (counter s) (threads s) (returned s).
Definition set_counter (n : Z) (s : state) : state :=
  mkState (pool s) (accessible s) n (threads s) (returned s).
Definition set_thread (j : nat) (t : thread) (s : state) : state :=
  mkState (pool s) (accessible s) (counter s) (<[j := t]> (threads s)) (returned s).
Definition add_returned (i : Z) (s : state) : state :=
  mkState (pool s) (accessible s) (counter s) (threads s) (returned s ++ [i]).

Definition memory_amount (a : AllocatorPool.t) : Z :=
  AllocatorPool.page_size a * AllocatorPool.PAGES_PER_NODE.

(** The next step of thread [j]; [Blocked] if it waits or has nothing to push.
    Past the last index [push_to_pool] dereferences an empty optional; a chunk
    that is not accessible cannot be written to. *)
Definition push_step (j : nat) (s : state) : outcome state :=
  let a := pool s in
  match threads s !! j with
  | None => Halt Blocked
  | Some (mkThread n p) =>
    let go q := Ret (set_thread j (mkThread n q) s) in
    match p with
    | Load =>
      match n with
      | O => Halt Blocked
      | S n' => Ret (set_thread j (mkThread n' (Compare (AllocatorPool.last_not_issued_index a))) s)
      end
    | Compare i =>
      if RING_BUFFER_SIZE <? i then Halt Undefined
      else if AllocatorPool.actual_memory_end a <=? AllocatorPool.at_index a (wrap32 (i + 1))
      then go (Acquire i (AllocatorPool.actual_memory_end a))
      else go (Swap i)
    | Acquire i e =>
      if 0 <? AllocatorPool.page_allocation_permit a
      then Ret (set_pool (AllocatorPool.set_permit (AllocatorPool.page_allocation_permit a - 1) a)
                  (set_thread j (mkThread n (Protect i)) s))
      else go (Wait i e)
    | Protect i =>
      if mprotect (AllocatorPool.actual_memory_end a) (memory_amount a) =? -1 then Halt Terminated
      else Ret (set_accessible (AllocatorPool.actual_memory_end a + memory_amount a)
                  (set_thread j (mkThread n (Extend i)) s))
    | Extend i =>
      Ret (set_pool (AllocatorPool.set_end (AllocatorPool.actual_memory_end a + memory_amount a) a)
             (set_thread j (mkThread n (Release i)) s))
    | Release i =>
      Ret (set_pool (AllocatorPool.set_permit (AllocatorPool.page_allocation_permit a + 1) a)
             (set_thread j (mkThread n (Swap i)) s))
    | Wait i e =>
      if AllocatorPool.actual_memory_end a =? e then Halt Blocked else go (Swap i)
    | Swap i =>
      if AllocatorPool.last_not_issued_index a =? i
      then Ret (set_pool (AllocatorPool.set_last (wrap32 (i + 1)) a)
                  (set_thread j (mkThread n (Build i)) s))
      else go (Compare (AllocatorPool.last_not_issued_index a))
    | Build i =>
      if AllocatorPool.at_index a (i + 1) <=? accessible s then go (LoadCounter i) else Halt Undefined
    (* [counter++], not atomic in the source: see [races] *)
    | LoadCounter i => go (StoreCounter i (counter s))
    | StoreCounter i c =>
      Ret (set_counter (wrap64 (c + 1)) (add_returned i (set_thread j (mkThread n Load) s)))
    end
  end.

(** A weak compare-and-swap may fail for no reason. *)
Inductive step (s s' : state) : Prop :=
| step_thread j : push_step j s = Ret s' -> step s s'
| step_weak j n i : threads s !! j = Some (mkThread n (Swap i)) ->
    s' = set_thread j (mkThread n (Compare (AllocatorPool.last_not_issued_index (pool s)))) s ->
    step s s'.

(** A data race on the counter: two threads can both get at it next, and one of
    them writes. *)
Definition at_counter (t : thread) : bool :=
  match at_ t with LoadCounter _ | StoreCounter _ _ => true | _ => false end.
Definition writes_counter (t : thread) : bool :=
  match at_ t with StoreCounter _ _ => true | _ => false end.
Definition races (s : state) : Prop :=
  exists i j t t', i <> j /\ threads s !! i = Some t /\ threads s !! j = Some t' /\
    at_counter t = true /\ writes_counter t' = true.

(** A new pool at [ptr], and how many objects each thread will push. *)
Definition start (ptr chunk page : Z) (pushes : list nat) : state :=
  mkState (AllocatorPool.mk ptr chunk page ptr 1 0 RingBuffer.init) ptr 0
    ((fun n => mkThread n Load) <$> pushes) [].

Fixpoint run (schedule : list nat) (s : state) : outcome state :=
  match schedule with
  | [] => Ret s
  | j :: rest => match push_step j s with Ret s' => run rest s' | Halt h => Halt h end
  end.
End Steps.

(** ** The invariant *)

(** Threads that have the permit, and those that have made memory accessible
    that [actual_memory_end] does not count yet. *)
Definition holding (t : thread) : Z :=
  match at_ t with Protect _ | Extend _ | Release _ => 1 | _ => 0 end.
Definition extending (t : thread) : Z := match at_ t with Extend _ => 1 | _ => 0 end.

(** The slot a thread was given and has not returned yet. *)
Definition claim (t : thread) : option Z :=
  match at_ t with Build i | LoadCounter i | StoreCounter i _ => Some i | _ => None end.

(** Still on its way to a slot, and not waiting. *)
Definition active (t : thread) : Prop :=
  match at_ t with
  | Compare _ | Acquire _ _ | Protect _ | Extend _ | Release _ | Swap _ => True
  | _ => False
  end.

Section Invariant.
Context (ptr chunk page : Z).
#[local] Abbreviation amount := (page * AllocatorPool.PAGES_PER_NODE).
#[local] Abbreviation at_slot i := (ptr + i * chunk).

Definition last (s : state) : Z := AllocatorPool.last_not_issued_index (pool s).
Definition memory_end (s : state) : Z := AllocatorPool.actual_memory_end (pool s).

Definition phase_ok (s : state) (p : phase) : Prop :=
  match p with
  | Load => True
  | Compare i => 0 <= i <= last s
  | Acquire i e | Wait i e =>
    0 <= i <= last s /\ i <= RING_BUFFER_SIZE /\ ptr <= e <= at_slot (i + 1) /\
    (e = memory_end s \/ e + amount <= memory_end s) /\ (i = last s -> i = 0 \/ at_slot i < e)
  | Protect i | Extend i => 0 <= i <= last s /\ i <= RING_BUFFER_SIZE
  | Release i | Swap i =>
    0 <= i <= last s /\ i <= RING_BUFFER_SIZE /\ (i = last s -> at_slot (i + 1) < memory_end s)
  | Build i | LoadCounter i | StoreCounter i _ => 0 <= i < last s
  end.

Record inv (s : state) : Prop := mkInv {
  inv_ptr : AllocatorPool.virtual_pool_ptr_ (pool s) = ptr;
  inv_chunk : AllocatorPool.chunk_size (pool s) = chunk;
  inv_page : AllocatorPool.page_size (pool s) = page;
  inv_last : 0 <= last s <= RING_BUFFER_SIZE + 1;
  inv_end : ptr <= memory_end s /\ (last s = 0 \/ at_slot (last s) < memory_end s);
  inv_permit : 0 <= AllocatorPool.page_allocation_permit (pool s) /\
    AllocatorPool.page_allocation_permit (pool s) + total holding (threads s) = 1;
  inv_accessible : accessible s = memory_end s + amount * total extending (threads s);
  inv_threads j t : threads s !! j = Some t -> phase_ok s (at_ t);
  inv_distinct i j t t' x : threads s !! i = Some t -> threads s !! j = Some t' ->
    claim t = Some x -> claim t' = Some x -> i = j;
  inv_returned : NoDup (returned s) /\ (forall x, x ∈ returned s -> 0 <= x < last s) /\
    (forall j t x, threads s !! j = Some t -> claim t = Some x -> x ∉ returned s);
  inv_wakes j n i : threads s !! j = Some (mkThread n (Wait i (memory_end s))) ->
    exists j' t', threads s !! j' = Some t' /\ active t'
}.
End Invariant.
End PoolSteps.

(** ** Lemmas *)
Lemma holding_nonneg t : 0 <= PoolSteps.holding t.
Proof. unfold PoolSteps.holding. destruct (PoolSteps.at_ t); lia. Qed.
Lemma extending_nonneg t : 0 <= PoolSteps.extending t.
Proof. unfold PoolSteps.extending. destruct (PoolSteps.at_ t); lia. Qed.

Lemma extending_holding t : PoolSteps.extending t <= PoolSteps.holding t.
Proof. unfold PoolSteps.extending, PoolSteps.holding. destruct (PoolSteps.at_ t); lia. Qed.

Lemma total_le {X} (f g : X -> Z) : (forall x, f x <= g x) ->
  forall l, total f l <= total g l.
Proof. intros Hfg. induction l as [|x l IH]; cbn; [done|]. specialize (Hfg x). unfold total in IH. lia. Qed.

Section PoolStepsLemmas.
Context (ptr chunk page : Z).
#[local] Abbreviation amount := (page * AllocatorPool.PAGES_PER_NODE).
Context (Hchunk : 0 < chunk) (Hamount : chunk < amount).
Import PoolSteps.
Implicit Types (s : state) (t : thread) (i j : nat) (x : Z).

#[local] Abbreviation inv := (inv ptr chunk page).
#[local] Abbreviation phase_ok := (phase_ok ptr chunk page).

(** Slots only become issued, memory only grows. *)
Lemma phase_ok_later s s' p :
  last s <= last s' -> memory_end s' = memory_end s \/ memory_end s' = memory_end s + amount ->
  phase_ok s p -> phase_ok s' p.
Proof using All.
  unfold PoolSteps.phase_ok. intros Hl He. destruct p; intros Hp; try lia.
  all: destruct Hp as (Hi & Hb & Hrest); split_and!; try lia.
Qed.

(** The slots claimed and returned when thread [j] moves on. *)
Definition slots_follow s t t' (ret' : list Z) : Prop :=
  (ret' = returned s /\ forall x, claim t' = Some x -> claim t = Some x \/ x = last s) \/
  (exists x, claim t = Some x /\ claim t' = None /\ ret' = returned s ++ [x]).

(** Who waits for memory will be woken. *)
Definition still_woken s t t' s' : Prop :=
  active t' \/ (memory_end s' = memory_end s /\ ~ active t /\ forall x e, at_ t' <> Wait x e) \/
  (forall j n x, threads s' !! j = Some (mkThread n (Wait x (memory_end s'))) ->
     exists j' t', threads s' !! j' = Some t' /\ active t').

Lemma claim_bound s j t x : inv s -> threads s !! j = Some t -> claim t = Some x -> 0 <= x < last s.
Proof using All.
  intros Hi Ht Hc. pose proof (inv_threads _ _ _ _ Hi _ _ Ht) as Hp. unfold claim in Hc.
  by destruct (at_ t); simplify_eq.
Qed.

Lemma slots_kept s s' j t t' :
  inv s -> threads s !! j = Some t -> threads s' = <[j := t']> (threads s) -> last s <= last s' ->
  (claim t' = Some (last s) -> last s < last s') -> slots_follow s t t' (returned s') ->
  (forall i i' u u' x, threads s' !! i = Some u -> threads s' !! i' = Some u' ->
     claim u = Some x -> claim u' = Some x -> i = i') /\
  NoDup (returned s') /\ (forall x, x ∈ returned s' -> 0 <= x < last s') /\
  (forall i u x, threads s' !! i = Some u -> claim u = Some x -> x ∉ returned s').
Proof using All.
  intros Hi Ht Hts Hl Hnew Hf. pose proof (claim_bound s) as Hb. rewrite Hts.
  destruct (inv_returned _ _ _ _ Hi) as (Hnd & Hr & Hnot).
  assert (forall x, claim t' = Some x -> claim t = Some x \/ x = last s) as Hc'
    by (destruct Hf as [(_ & Hf)|(x & _ & Hn & _)]; [exact Hf | by rewrite Hn]).
  assert (forall i u x, i <> j -> threads s !! i = Some u -> claim u = Some x -> claim t' <> Some x) as Hother.
  { intros i u x Hne Hu Hx Hx'. destruct (Hc' x Hx') as [Hx''| ->].
    - by destruct (Hne (inv_distinct _ _ _ _ Hi _ _ _ _ _ Hu Ht Hx Hx'')).
    - specialize (Hb i u _ Hi Hu Hx). lia. }
  split_and!.
  - intros i i' u u' x Hu Hu' Hx Hx'.
    apply list_lookup_insert_Some in Hu as [(<- & <- & _)|[Hne Hu]];
      apply list_lookup_insert_Some in Hu' as [(<- & <- & _)|[Hne' Hu']]; [done| | |].
    + by destruct (Hother i' u' x (not_eq_sym Hne') Hu' Hx').
    + by destruct (Hother i u x (not_eq_sym Hne) Hu Hx).
    + by apply (inv_distinct _ _ _ _ Hi _ _ _ _ _ Hu Hu' Hx).
  - destruct Hf as [(-> & _)|(x & Hx & _ & ->)]; [done|].
    apply NoDup_app. split_and!; [done| |by apply NoDup_singleton].
    intros y Hy ->%list_elem_of_singleton. by apply (Hnot _ _ _ Ht Hx).
  - intros y Hy. destruct Hf as [(Hret & _)|(x & Hx & _ & Hret)]; rewrite Hret in Hy.
    + specialize (Hr y Hy). lia.
    + apply elem_of_app in Hy as [Hy| ->%list_elem_of_singleton]; [specialize (Hr y Hy); lia|].
      specialize (Hb j t x Hi Ht Hx). lia.
  - intros i u y Hu Hy. destruct Hf as [(-> & Hf)|(x & Hx & Hn & ->)].
    + apply list_lookup_insert_Some in Hu as [(<- & <- & _)|[Hne Hu]]; [|by apply (Hnot _ _ _ Hu)].
      destruct (Hf y Hy) as [Hy'| ->]; [by apply (Hnot _ _ _ Ht) | intros Hin; specialize (Hr _ Hin); lia].
    + apply list_lookup_insert_Some in Hu as [(<- & <- & _)|[Hne Hu]]; [congruence|].
      intros [Hin| ->%list_elem_of_singleton]%elem_of_app; [by apply (Hnot _ _ _ Hu Hy)|].
      by destruct (Hne (inv_distinct _ _ _ _ Hi _ _ _ _ _ Ht Hu Hx Hy)).
Qed.

Lemma wakes_kept s s' j t t' :
  inv s -> threads s !! j = Some t -> threads s' = <[j := t']> (threads s) -> still_woken s t t' s' ->
  forall i n x, threads s' !! i = Some (mkThread n (Wait x (memory_end s'))) ->
  exists i' u, threads s' !! i' = Some u /\ active u.
Proof using All.
  intros Hi Ht Hts [Ha|[(He & Hna & Hnw)|Hw]] i n x Hx; [| |by eapply Hw].
  - exists j, t'. rewrite Hts, list_lookup_insert_eq by (by eapply lookup_lt_Some). done.
  - rewrite Hts in Hx |- *. rewrite He in Hx.
    apply list_lookup_insert_Some in Hx as [(_ & -> & _)|[Hne Hx]]; [by destruct (Hnw x (memory_end s))|].
    destruct (inv_wakes _ _ _ _ Hi _ _ _ Hx) as (i' & u & Hu & Hau). exists i', u.
    split; [|done]. rewrite list_lookup_insert_ne; [done|]. intros <-. congruence.
Qed.

(** Any step of thread [j]. *)
Lemma step_kept s s' j t t' :
  inv s -> threads s !! j = Some t -> threads s' = <[j := t']> (threads s) ->
  AllocatorPool.virtual_pool_ptr_ (pool s') = ptr -> AllocatorPool.chunk_size (pool s') = chunk ->
  AllocatorPool.page_size (pool s') = page ->
  last s <= last s' <= RING_BUFFER_SIZE + 1 ->
  memory_end s' = memory_end s \/ memory_end s' = memory_end s + amount ->
  last s' = last s \/ ptr + last s' * chunk < memory_end s' ->
  0 <= AllocatorPool.page_allocation_permit (pool s') ->
  AllocatorPool.page_allocation_permit (pool s') + holding t'
    = AllocatorPool.page_allocation_permit (pool s) + holding t ->
  accessible s' - accessible s = memory_end s' - memory_end s + amount * (extending t' - extending t) ->
  phase_ok s' (at_ t') -> (claim t' = Some (last s) -> last s < last s') ->
  slots_follow s t t' (returned s') -> still_woken s t t' s' ->
  inv s'.
Proof using All.
  intros Hi Ht Hts Hptr Hch Hpg Hlast Hend Hat Hp0 Hp Hacc Hok Hnew Hslots Hwake.
  destruct (slots_kept s s' j t t' Hi Ht Hts ltac:(lia) Hnew Hslots) as (Hd & Hnd & Hr & Hnot).
  pose proof (wakes_kept s s' j t t' Hi Ht Hts Hwake) as Hw.
  destruct Hi as [_ _ _ Hl [Hep He] Hpermit Hacc0 Hthreads _ _ _]. constructor; try done.
  - lia.
  - split; [lia|]. destruct Hat as [->|]; [|by right]. destruct He; [by left | right; lia].
  - split; [done|]. rewrite Hts, (total_insert _ _ _ _ _ Ht). lia.
  - rewrite Hts, (total_insert _ _ _ _ _ Ht). lia.
  - intros i u Hu. rewrite Hts in Hu. apply list_lookup_insert_Some in Hu as [(_ & <- & _)|[_ Hu]]; [done|].
    apply (phase_ok_later s); [lia | done | by apply (Hthreads i)].
Qed.

Lemma pool_start_inv pushes : inv (start ptr chunk page pushes).
Proof using All.
  assert (forall j t, ((fun n => mkThread n Load) <$> pushes) !! j = Some t -> exists n, t = mkThread n Load) as Hload.
  { intros j t. rewrite list_lookup_fmap. destruct (pushes !! j) as [n|]; [|done]. intros [= <-]. by exists n. }
  assert (forall f, f (mkThread 0 Load) = 0 -> (forall n, f (mkThread n Load) = f (mkThread 0 Load)) ->
    total f ((fun n => mkThread n Load) <$> pushes) = 0) as Htotal.
  { intros f H0 Hf. apply total_zero. intros t (n & -> & _)%list_elem_of_fmap. by rewrite Hf. }
  constructor; cbn [start pool accessible threads returned AllocatorPool.virtual_pool_ptr_ AllocatorPool.chunk_size
    AllocatorPool.page_size AllocatorPool.page_allocation_permit]; try done.
  - split; [unfold memory_end; cbn; lia | by left].
  - rewrite Htotal by done. lia.
  - rewrite Htotal by done. unfold memory_end. cbn. lia.
  - intros j t Ht. by destruct (Hload j t Ht) as (n & ->).
  - intros i j t t' x Ht Ht' Hx. by destruct (Hload i t Ht) as (n & ->).
  - split_and!; [constructor | by intros x []%elem_of_nil | intros; by apply not_elem_of_nil].
  - intros j n x Hx. by destruct (Hload _ _ Hx).
Qed.

Lemma wrap32_index s x : inv s -> x <= last s -> 0 <= x -> wrap32 (x + 1) = x + 1.
Proof using All.
  intros Hi Hx H0. pose proof (inv_last _ _ _ _ Hi). unfold wrap32, RING_BUFFER_SIZE in *. apply Z.mod_small. lia.
Qed.

(** A thread moves on and changes nothing else. *)
Lemma moves_kept s j n n' p p' :
  inv s -> threads s !! j = Some (mkThread n p) ->
  holding (mkThread n' p') = holding (mkThread n p) -> extending (mkThread n' p') = extending (mkThread n p) ->
  claim (mkThread n' p') = claim (mkThread n p) -> phase_ok s p' ->
  still_woken s (mkThread n p) (mkThread n' p') (set_thread j (mkThread n' p') s) ->
  inv (set_thread j (mkThread n' p') s).
Proof using All.
  intros Hi Ht Hh He Hc Hok Hw. pose proof (inv_last _ _ _ _ Hi).
  apply (step_kept s _ j (mkThread n p) (mkThread n' p')); try done; cbn.
  - apply (inv_ptr _ _ _ _ Hi).
  - apply (inv_chunk _ _ _ _ Hi).
  - apply (inv_page _ _ _ _ Hi).
  - unfold last in *. cbn. lia.
  - by left.
  - by left.
  - apply (inv_permit _ _ _ _ Hi).
  - lia.
  - unfold memory_end. cbn. rewrite He. lia.
  - rewrite Hc. intros Hx. pose proof (claim_bound s j _ _ Hi Ht Hx). lia.
  - left. split; [done|]. rewrite Hc. auto.
Qed.

(** With no permit left some thread is growing the pool. *)
Lemma permit_held s : inv s -> AllocatorPool.page_allocation_permit (pool s) <= 0 ->
  exists j t, threads s !! j = Some t /\ holding t = 1.
Proof using All.
  intros Hi Hp. destruct (inv_permit _ _ _ _ Hi) as [H0 Hpt].
  destruct (decide (Exists (fun t => holding t = 1) (threads s))) as [(t & Ht & H1)%Exists_exists|Hn].
  - apply list_elem_of_lookup in Ht as [j Hj]. by exists j, t.
  - exfalso. assert (total holding (threads s) = 0) as Hz; [|lia].
    apply total_zero. intros t Ht. destruct (decide (holding t = 1)) as [H1|H1].
    + destruct Hn. apply Exists_exists. by exists t.
    + pose proof (holding_nonneg t). unfold holding in *. destruct (at_ t); lia.
Qed.

Lemma holding_active t : holding t = 1 -> active t.
Proof using Type. unfold holding, active. by destruct (at_ t). Qed.
End PoolStepsLemmas.

(** ** Every step keeps the invariant *)
Section PoolStepsKept.
Context (mprotect : Z -> Z -> Z) (ptr chunk page : Z).
#[local] Abbreviation amount := (page * AllocatorPool.PAGES_PER_NODE).
Context (Hchunk : 0 < chunk) (Hamount : chunk < amount).
Import PoolSteps.
Implicit Types (s : state) (j n : nat) (x e : Z).

#[local] Abbreviation inv := (inv ptr chunk page).
#[local] Abbreviation phase_ok := (phase_ok ptr chunk page).

Lemma at_index_eq s x : inv s -> AllocatorPool.at_index (pool s) x = ptr + x * chunk.
Proof using Type. intros Hi. unfold AllocatorPool.at_index. by rewrite (inv_ptr _ _ _ _ Hi), (inv_chunk _ _ _ _ Hi). Qed.

Lemma amount_eq s : inv s -> memory_amount (pool s) = amount.
Proof using Type. intros Hi. unfold memory_amount. by rewrite (inv_page _ _ _ _ Hi). Qed.

(** The outcome a step may have. *)
Definition step_fine s (r : outcome state) : Prop :=
  match r with
  | Ret s' => inv s'
  | Halt Undefined => last s = RING_BUFFER_SIZE + 1
  | Halt _ => True
  end.

Lemma load_fine s j n : inv s -> threads s !! j = Some (mkThread (S n) Load) ->
  inv (set_thread j (mkThread n (Compare (last s))) s).
Proof using All.
  intros Hi Ht. pose proof (inv_last _ _ _ _ Hi). eapply moves_kept; try done; [cbn; lia | by left].
Qed.

Lemma compare_fine s j n x : inv s -> threads s !! j = Some (mkThread n (Compare x)) ->
  step_fine s (push_step mprotect j s).
Proof using All.
  intros Hi Ht. unfold push_step. rewrite Ht. pose proof (inv_threads _ _ _ _ Hi _ _ Ht) as Hx. cbn in Hx.
  pose proof (inv_last _ _ _ _ Hi). pose proof (inv_end _ _ _ _ Hi) as [Hep He].
  destruct (Z.ltb_spec RING_BUFFER_SIZE x) as [Hl|Hl]; [cbn; lia|].
  rewrite (wrap32_index ptr chunk page Hchunk Hamount s x Hi) by lia. rewrite at_index_eq by done. fold (memory_end s).
  destruct (Z.leb_spec (memory_end s) (ptr + (x + 1) * chunk)) as [Hc|Hc]; cbn;
    (eapply moves_kept; try done; try by left).
  cbn. split_and!; lia.
Qed.

Lemma acquire_fine s j n x e : inv s -> threads s !! j = Some (mkThread n (Acquire x e)) ->
  step_fine s (push_step mprotect j s).
Proof using All.
  intros Hi Ht. unfold push_step. rewrite Ht. pose proof (inv_threads _ _ _ _ Hi _ _ Ht) as Hx. cbn in Hx.
  pose proof (inv_last _ _ _ _ Hi). destruct (Z.ltb_spec 0 (AllocatorPool.page_allocation_permit (pool s))) as [Hp|Hp].
  - eapply (step_kept ptr chunk page Hchunk Hamount s _ j); try done; unfold last, memory_end in *; cbn;
      try (by left); try lia; try apply Hi.
  - cbn. eapply moves_kept; try done. destruct (permit_held ptr chunk page Hchunk Hamount s Hi Hp) as (j' & t & Hj' & Hh).
    right. right. intros _ _ _ _. exists j', t. split; [|by apply holding_active].
    cbn. rewrite list_lookup_insert_ne; [done|]. intros <-. rewrite Ht in Hj'. by injection Hj' as <-.
Qed.

Lemma protect_fine s j n x : inv s -> threads s !! j = Some (mkThread n (Protect x)) ->
  step_fine s (push_step mprotect j s).
Proof using All.
  intros Hi Ht. unfold push_step. rewrite Ht. pose proof (inv_threads _ _ _ _ Hi _ _ Ht) as Hx. cbn in Hx.
  pose proof (inv_last _ _ _ _ Hi). pose proof (inv_permit _ _ _ _ Hi) as [Hp0 Hp].
  destruct (_ =? -1); [done|]. rewrite amount_eq by done.
  assert (accessible s = memory_end s) as Hacc.
  { pose proof (inv_accessible _ _ _ _ Hi) as Ha.
    pose proof (total_le _ _ extending_holding (<[j := mkThread n Load]> (threads s))) as Hle.
    rewrite !(total_insert _ _ _ _ _ Ht) in Hle. cbn in Hle.
    pose proof (total_nonneg _ extending_nonneg (threads s)). nia. }
  eapply (step_kept ptr chunk page Hchunk Hamount s _ j); try done; unfold last, memory_end in *; cbn;
    try (by left); try lia; try apply Hi.
Qed.

Lemma extend_fine s j n x : inv s -> threads s !! j = Some (mkThread n (Extend x)) ->
  step_fine s (push_step mprotect j s).
Proof using All.
  intros Hi Ht. unfold push_step. rewrite Ht. pose proof (inv_threads _ _ _ _ Hi _ _ Ht) as Hx. cbn in Hx.
  pose proof (inv_last _ _ _ _ Hi). pose proof (inv_end _ _ _ _ Hi) as [Hep He]. rewrite amount_eq by done.
  eapply (step_kept ptr chunk page Hchunk Hamount s _ j); try done; unfold last, memory_end in *; cbn;
    try (by left); try lia; try apply Hi.
Qed.

Lemma release_fine s j n x : inv s -> threads s !! j = Some (mkThread n (Release x)) ->
  step_fine s (push_step mprotect j s).
Proof using All.
  intros Hi Ht. unfold push_step. rewrite Ht. pose proof (inv_threads _ _ _ _ Hi _ _ Ht) as Hx. cbn in Hx.
  pose proof (inv_last _ _ _ _ Hi). pose proof (inv_permit _ _ _ _ Hi).
  eapply (step_kept ptr chunk page Hchunk Hamount s _ j); try done; unfold last, memory_end in *; cbn;
    try (by left); try lia; try apply Hi.
Qed.

Lemma wait_fine s j n x e : inv s -> threads s !! j = Some (mkThread n (Wait x e)) ->
  step_fine s (push_step mprotect j s).
Proof using All.
  intros Hi Ht. unfold push_step. rewrite Ht. pose proof (inv_threads _ _ _ _ Hi _ _ Ht) as Hx. cbn in Hx.
  destruct (Z.eqb_spec (AllocatorPool.actual_memory_end (pool s)) e) as [|Hne]; [done|].
  cbn. eapply moves_kept; try done; try by left. cbn. unfold memory_end in *. split_and!; lia.
Qed.

(** A thread that gets a slot: there was room, so nobody waits for memory. *)
Lemma swap_fine s j n x : inv s -> threads s !! j = Some (mkThread n (Swap x)) ->
  step_fine s (push_step mprotect j s).
Proof using All.
  intros Hi Ht. unfold push_step. rewrite Ht. pose proof (inv_threads _ _ _ _ Hi _ _ Ht) as Hx. cbn in Hx.
  pose proof (inv_last _ _ _ _ Hi). fold (last s). destruct (Z.eqb_spec (last s) x) as [Heq|Hne].
  2: { cbn. eapply moves_kept; try done; try by left. cbn. lia. }
  rewrite (wrap32_index ptr chunk page Hchunk Hamount s x Hi) by lia.
  eapply (step_kept ptr chunk page Hchunk Hamount s _ j); try done; unfold last, memory_end in *; cbn;
    try (by left); try lia; try apply Hi.
  - left. split; [done|]. intros y [= <-]. by right.
  - right. right. intros i n' y Hy. cbn in Hy. apply list_lookup_insert_Some in Hy as [(_ & [=] & _)|[_ Hy]].
    pose proof (inv_threads _ _ _ _ Hi _ _ Hy) as Hwait. cbn in Hwait. unfold last, memory_end in Hwait. exfalso. nia.
Qed.

Lemma build_fine s j n x : inv s -> threads s !! j = Some (mkThread n (Build x)) ->
  step_fine s (push_step mprotect j s).
Proof using All.
  intros Hi Ht. unfold push_step. rewrite Ht. pose proof (inv_threads _ _ _ _ Hi _ _ Ht) as Hx. cbn in Hx.
  pose proof (inv_end _ _ _ _ Hi) as [Hep He]. rewrite at_index_eq by done.
  destruct (Z.leb_spec (ptr + (x + 1) * chunk) (accessible s)) as [Hl|Hl].
  - cbn. eapply moves_kept; try done. right. left. split_and!; [done | by intros [] | by intros ? ?].
  - exfalso. pose proof (inv_accessible _ _ _ _ Hi) as Ha. pose proof (total_nonneg _ extending_nonneg (threads s)). nia.
Qed.

Lemma counter_fine s j n x p : inv s -> threads s !! j = Some (mkThread n p) ->
  p = LoadCounter x \/ (exists c, p = StoreCounter x c) -> step_fine s (push_step mprotect j s).
Proof using All.
  intros Hi Ht Hp. unfold push_step. rewrite Ht. pose proof (inv_threads _ _ _ _ Hi _ _ Ht) as Hx.
  pose proof (inv_last _ _ _ _ Hi). destruct Hp as [->|[c ->]]; cbn in Hx.
  - cbn. eapply moves_kept; try done. right. left. split_and!; [done | by intros [] | by intros ? ?].
  - eapply (step_kept ptr chunk page Hchunk Hamount s _ j); try done; unfold last, memory_end in *; cbn;
      try (by left); try lia; try apply Hi.
    + right. by exists x.
    + right. left. split_and!; [done | by intros [] | by intros ? ?].
Qed.

Lemma push_step_fine s j : inv s -> step_fine s (push_step mprotect j s).
Proof using All.
  intros Hi. destruct (threads s !! j) as [[n p]|] eqn:Ht; [|by unfold push_step; rewrite Ht].
  destruct p as [|x|x e|x|x|x|x e|x|x|x|x c]; eauto using compare_fine, acquire_fine, protect_fine, extend_fine,
    release_fine, wait_fine, swap_fine, build_fine, counter_fine.
  unfold push_step. rewrite Ht. destruct n as [|n]; [done|]. by apply load_fine.
Qed.

Lemma pool_step_inv s s' : step mprotect s s' -> inv s -> inv s'.
Proof using All.
  intros [j Hs|j n x Ht ->] Hi.
  - pose proof (push_step_fine s j Hi) as Hf. by rewrite Hs in Hf.
  - pose proof (inv_last _ _ _ _ Hi). eapply moves_kept; try done; [cbn; unfold last in *; lia | by left].
Qed.

Lemma pool_reachable_inv pushes s : rtc (step mprotect) (start ptr chunk page pushes) s -> inv s.
Proof using All.
  intros Hr. assert (forall s s', rtc (step mprotect) s s' -> inv s -> inv s') as Hk.
  { induction 1 as [|s1 s2 s3 H12 _ IH]; [done|]. intros Hi. by apply IH, (pool_step_inv s1). }
  apply (Hk _ _ Hr). by apply pool_start_inv.
Qed.

(** A thread that is not done can go on, or another one can. *)
Lemma someone_steps s j n p : inv s -> threads s !! j = Some (mkThread n p) -> p <> Load \/ n <> O ->
  exists i, push_step mprotect i s <> Halt Blocked.
Proof using All.
  intros Hi Ht Hp.
  assert (forall i m q, threads s !! i = Some (mkThread m q) -> active (mkThread m q) ->
    push_step mprotect i s <> Halt Blocked) as Hactive.
  { intros i m q Hq Ha. unfold push_step. rewrite Hq. destruct q; try done; repeat case_match; done. }
  destruct p as [|x|x e|x|x|x|x e|x|x|x|x c]; try (exists j; by eapply Hactive); try (exists j; unfold push_step; rewrite Ht; by repeat case_match).
  - exists j. unfold push_step. rewrite Ht. by destruct n, Hp.
  - destruct (decide (e = memory_end s)) as [->|Hne].
    + destruct (inv_wakes _ _ _ _ Hi _ _ _ Ht) as (i & [m q] & Hq & Ha). exists i. by eapply Hactive.
    + exists j. unfold push_step. rewrite Ht. unfold memory_end in Hne. by rewrite (proj2 (Z.eqb_neq _ _)).
Qed.
End PoolStepsKept.

Lemma pool_run_steps mprotect schedule : forall s s', PoolSteps.run mprotect schedule s = Ret s' ->
  rtc (PoolSteps.step mprotect) s s'.
Proof.
  induction schedule as [|j rest IH]; intros s s' Hr; cbn in Hr; [by injection Hr as ->|].
  destruct (PoolSteps.push_step mprotect j s) as [s1|h] eqn:E; [|done].
  eapply rtc_l; [by apply (PoolSteps.step_thread _ _ _ j) | by apply IH].
Qed.

Lemma step_threads mprotect s s' : PoolSteps.step mprotect s s' ->
  length (PoolSteps.threads s') = length (PoolSteps.threads s).
Proof.
  intros [j Hs|j n i _ ->]; [|cbn; by rewrite length_insert].
  unfold PoolSteps.push_step in Hs. repeat (case_match; simplify_eq; cbn; rewrite ?length_insert; try done).
Qed.

Lemma reachable_threads mprotect s s' : rtc (PoolSteps.step mprotect) s s' ->
  length (PoolSteps.threads s') = length (PoolSteps.threads s).
Proof. induction 1 as [|s1 s2 s3 Hs _ IH]; [done|]. by rewrite IH, (step_threads mprotect s1 s2). Qed.

(** ** Properties *)

(** C11: pushes to the pool by any number of threads stay apart.  Whatever the
    interleaving of their atomic steps, the slots returned and the slots being
    filled are distinct, below 4097 and in memory that is accessible, and no
    thread writes to memory that is not, or dereferences an allocation that
    failed, until all 4097 slots are out.  This is said of the loads and stores
    of a machine: the unlocked [counter++] is a data race as soon as two threads
    push ([counter_update_lost]), which C++ leaves undefined; with one pushing
    thread there is no race. *)
Theorem concurrent_slots_exclusive mprotect ptr chunk page pushes s :
  0 < chunk < page * AllocatorPool.PAGES_PER_NODE ->
  rtc (PoolSteps.step mprotect) (PoolSteps.start ptr chunk page pushes) s ->
  NoDup (PoolSteps.returned s) /\
  (forall x, x ∈ PoolSteps.returned s ->
     0 <= x <= RING_BUFFER_SIZE /\ ptr + (x + 1) * chunk <= PoolSteps.accessible s /\
     forall j t, PoolSteps.threads s !! j = Some t -> PoolSteps.claim t <> Some x) /\
  (forall i j t t' x, PoolSteps.threads s !! i = Some t -> PoolSteps.threads s !! j = Some t' ->
     PoolSteps.claim t = Some x -> PoolSteps.claim t' = Some x -> i = j) /\
  (forall j, PoolSteps.push_step mprotect j s = Halt Undefined -> PoolSteps.last s = RING_BUFFER_SIZE + 1) /\
  ((length pushes <= 1)%nat -> ~ PoolSteps.races s).
Proof.
  intros [Hc Ha] Hr. pose proof (pool_reachable_inv mprotect ptr chunk page Hc Ha pushes s Hr) as Hi.
  destruct (PoolSteps.inv_returned _ _ _ _ Hi) as (Hnd & Hret & Hnot).
  pose proof (PoolSteps.inv_last _ _ _ _ Hi) as Hl. pose proof (PoolSteps.inv_end _ _ _ _ Hi) as [Hep He].
  split_and!; [done| |apply (PoolSteps.inv_distinct _ _ _ _ Hi)| |].
  - intros x Hx. specialize (Hret x Hx). split_and!; [lia|lia| |].
    + rewrite (PoolSteps.inv_accessible _ _ _ _ Hi).
      pose proof (total_nonneg _ extending_nonneg (PoolSteps.threads s)). nia.
    + intros j t Ht Hcl. by apply (Hnot j t x).
  - intros j Hu. pose proof (push_step_fine mprotect ptr chunk page Hc Ha s j Hi) as Hf. by rewrite Hu in Hf.
  - intros Hone (i & j & t & t' & Hne & Hti%lookup_lt_Some & Htj%lookup_lt_Some & _).
    pose proof (reachable_threads _ _ _ Hr) as Hlen. cbn in Hlen. rewrite length_fmap in Hlen. lia.
Qed.

(** C26: the growing pool never blocks for ever.  Whatever has happened, if a
    thread has a push to begin or to finish, some thread has a step: who waits
    for memory is woken, because the thread that grew the pool last either
    takes the slot it grew it for or finds that it must grow it again. *)
Theorem concurrent_pool_progress mprotect ptr chunk page pushes s j t :
  0 < chunk < page * AllocatorPool.PAGES_PER_NODE ->
  rtc (PoolSteps.step mprotect) (PoolSteps.start ptr chunk page pushes) s ->
  PoolSteps.threads s !! j = Some t -> PoolSteps.at_ t <> PoolSteps.Load \/ PoolSteps.todo t <> O ->
  exists i, PoolSteps.push_step mprotect i s <> Halt Blocked.
Proof.
  intros [Hc Ha] Hr Ht Hp. pose proof (pool_reachable_inv mprotect ptr chunk page Hc Ha pushes s Hr) as Hi.
  destruct t as [n p]. by apply (someone_steps mprotect ptr chunk page Hc Ha s j n p).
Qed.

(** The event loop and the worker each push one connection. *)
Definition two_pushes : PoolSteps.state := PoolSteps.start 65536 512 4096 [1; 1]%nat.
Definition always_granted : Z -> Z -> Z := fun _ _ => 0.
Definition both_at_counter : list nat := (replicate 9 0 ++ replicate 4 1)%nat.
Definition overlapping : list nat := both_at_counter ++ [1; 1; 0]%nat.

Definition after (schedule : list nat) : PoolSteps.state :=
  match PoolSteps.run always_granted schedule two_pushes with Ret s => s | Halt _ => two_pushes end.
Definition after_overlap : PoolSteps.state := after overlapping.

Lemma at_counter_reached : rtc (PoolSteps.step always_granted) two_pushes (after both_at_counter).
Proof. apply (pool_run_steps _ both_at_counter). vm_compute. reflexivity. Qed.
Lemma overlap_from_counter :
  rtc (PoolSteps.step always_granted) (after both_at_counter) after_overlap.
Proof. apply (pool_run_steps _ [1; 1; 0]%nat). vm_compute. reflexivity. Qed.
Lemma overlap_reached : rtc (PoolSteps.step always_granted) two_pushes after_overlap.
Proof. etrans; [exact at_counter_reached | exact overlap_from_counter]. Qed.

(** C28: the pool can lose count of its slots.  [counter++] is a load and a store
    without a lock: when the event loop accepts a client while the worker
    attaches a lobby, both connections can get their slots and the counter ends
    at 1.  [send_message] and [get_view_by_type] only look at the slots below
    the counter, so the connection in slot 1 is never sent a broadcast.  On the
    way both threads can get at the counter and one writes it: the data race. *)
Theorem counter_update_lost :
  exists s, rtc (PoolSteps.step always_granted) two_pushes s /\
    (exists s0, rtc (PoolSteps.step always_granted) two_pushes s0 /\
       rtc (PoolSteps.step always_granted) s0 s /\ PoolSteps.races s0) /\
    (forall t, t ∈ PoolSteps.threads s -> t = PoolSteps.mkThread 0 PoolSteps.Load) /\
    PoolSteps.returned s = [1; 0] /\ PoolSteps.counter s = 1 /\
    1 ∉ seqZ 0 (PoolSteps.counter s).
Proof.
  exists after_overlap. split; [exact overlap_reached|]. split.
  - exists (after both_at_counter). split_and!; [exact at_counter_reached | exact overlap_from_counter|].
    exists 1%nat, 0%nat, (PoolSteps.mkThread 0 (PoolSteps.LoadCounter 1)),
      (PoolSteps.mkThread 0 (PoolSteps.StoreCounter 0 0)). by vm_compute.
  - assert (PoolSteps.threads after_overlap = replicate 2 (PoolSteps.mkThread 0 PoolSteps.Load)) as ->
      by (by vm_compute).
    assert (PoolSteps.counter after_overlap = 1) as -> by (by vm_compute).
    split_and!; [by intros t [-> _]%elem_of_replicate | by vm_compute | done |].
    rewrite elem_of_seqZ. lia.
Qed.

(** *** Witnesses *)
Lemma concurrent_slots_exclusive_witness :
  PoolSteps.returned after_overlap = [1; 0] /\ NoDup (PoolSteps.returned after_overlap).
Proof.
  split; [by vm_compute|].
  apply (concurrent_slots_exclusive always_granted 65536 512 4096 [1; 1]%nat after_overlap);
    [unfold AllocatorPool.PAGES_PER_NODE; lia | exact overlap_reached].
Defined.

(** The second thread waits for the first to grow the pool. *)
Definition one_grows : PoolSteps.state := after [0; 0; 0; 1; 1; 1]%nat.

Lemma one_grows_reached : rtc (PoolSteps.step always_granted) two_pushes one_grows.
Proof. apply (pool_run_steps _ [0; 0; 0; 1; 1; 1]%nat). vm_compute. reflexivity. Qed.

Lemma concurrent_pool_progress_witness :
  PoolSteps.push_step always_granted 1 one_grows = Halt Blocked /\
  exists i, PoolSteps.push_step always_granted i one_grows <> Halt Blocked.
Proof.
  split; [by vm_compute|].
  apply (concurrent_pool_progress always_granted 65536 512 4096 [1; 1]%nat one_grows 1
           (PoolSteps.mkThread 0 (PoolSteps.Wait 0 65536)));
    [unfold AllocatorPool.PAGES_PER_NODE; lia | exact one_grows_reached | by vm_compute | by left].
Defined.
