(* ===== verification/Engine.v ===== *)
(** * Engine: what the network engine does with its connections

    The theorems on [Network.v]: how a connection's messages reach the handler,
    when it is watched again, and what transfers, broadcasts and failures leave
    behind. *)
From S2P Require Import Prelude.
From S2P Require Import Ring.
From S2P Require Import Platform.
From S2P Require Import AtomicQueue.
From S2P Require Import ObjectPool.
From S2P Require Import Utility.
From S2P Require Import Protocol.
From S2P Require Import Socket.
From S2P Require Import Framing.
From S2P Require Import Network.

#[local] Open Scope Z_scope.
#[local] Open Scope bsm_scope.

(** ** Entries by slot *)
Definition entry (e : NetworkEngine.t) (slot : Z) : option ConnectionEntry :=
  ObjectPool.objects (NetworkEngine.connection_pool_ e) !! slot.

Definition set_entry (slot : Z) (c : ConnectionEntry) (e : NetworkEngine.t) : NetworkEngine.t :=
  let p := NetworkEngine.connection_pool_ e in
  NetworkEngine.set_pool (ObjectPool.set_objects (<[slot := c]> (ObjectPool.objects p)) p) e.

Definition fd_of (c : ConnectionEntry) : Z := socket_ (socket_handler_ c).

Definition closed {W} `{Platform W} (fd : Z) (k : Machine W) : Machine W :=
  if fd =? -1 then k else after (c_close fd) k.

(** What [ConnectionEntry::reset] leaves. *)
Definition reset_entry (c : ConnectionEntry) : ConnectionEntry :=
  mkEntry end_point_e.NONE (mkSocket (-1) None socket_status_e.EMPTY) (wrap64 (generation_ c + 1)).

(** The pool of an engine with a released slot to come, see [ObjectPool.ok]. *)
Definition engine_ok (e : NetworkEngine.t) (live q : list Z) : Prop :=
  ObjectPool.ok (NetworkEngine.connection_pool_ e) live q.

(** ** Lemmas *)
Section EngineLemmas.
Context {W : Type} `{Platform W}.
Implicit Types (k : Machine W) (e : NetworkEngine.t) (c : ConnectionEntry) (slot fd : Z).
Import NetworkEngine.

Lemma entry_set_eq slot c e : entry (set_entry slot c e) slot = Some c.
Proof. apply lookup_insert_eq. Qed.

Lemma entry_set_ne slot slot' c e :
  slot <> slot' -> entry (set_entry slot c e) slot' = entry e slot'.
Proof. intros Hne. unfold entry, set_entry. simpl. by apply lookup_insert_ne. Qed.

Lemma set_entry_twice slot c c' e : set_entry slot c (set_entry slot c' e) = set_entry slot c e.
Proof.
  unfold set_entry, set_pool, ObjectPool.set_objects. simpl. do 2 f_equal. apply insert_insert_eq.
Qed.

Lemma set_entry_id slot c e : entry e slot = Some c -> set_entry slot c e = e.
Proof.
  intros Hc. destruct e as [[n m q o] fd r t].
  unfold set_entry, set_pool, ObjectPool.set_objects. simpl. do 2 f_equal.
  by apply insert_id.
Qed.

Lemma connection_run slot k e c :
  entry e slot = Some c -> connection slot (k, e) = (Ret c, (k, e)).
Proof.
  intros Hc. unfold connection, on_pool.
  rewrite (focus_run _ _ _ _ _ _ _ _ (get_object_run slot c k _ Hc)). by destruct e.
Qed.

Lemma on_connection_run {A} slot (m : SM W ConnectionEntry A) k e c a k' c' :
  entry e slot = Some c -> m (k, c) = (Ret a, (k', c')) ->
  on_connection slot m (k, e) = (Ret a, (k', set_entry slot c' e)).
Proof.
  intros Hc Hm. unfold on_connection, on_pool.
  by rewrite (focus_run _ _ _ _ _ _ _ _ (on_object_run slot m c k _ a k' c' Hc Hm)).
Qed.

Lemma connection_fd_run slot k e c :
  entry e slot = Some c -> connection_fd slot (k, e) = (Ret (fd_of c), (k, e)).
Proof. intros Hc. unfold connection_fd. by rewrite (bind_run _ _ _ _ _ (connection_run _ _ _ _ Hc)). Qed.

Lemma reset_run k c : reset (k, c) = (Ret tt, (closed (fd_of c) k, reset_entry c)).
Proof.
  unfold reset, on_socket, reset_to_empty, destroy_co_handle, close_socket, closed, fd_of.
  destruct c as [t [fd h st] g].
  unfold lift, local_state, focus, zoom, bind, modify, gets, ret. simpl.
  destruct (fd =? -1) eqn:E; simpl.
  - apply Z.eqb_eq in E as ->. done.
  - by rewrite call_run.
Qed.

Lemma release_slot_run slot k e live q :
  engine_ok e (slot :: live) q -> (length q < 4095)%nat ->
  exists e', release_slot slot (k, e) = (Ret tt, (k, e')) /\
    engine_ok e' live (q ++ [slot]) /\ (forall s, entry e' s = entry e s) /\
    epollfd_ e' = epollfd_ e.
Proof.
  intros Hok Hq. destruct (release_ok k _ live q slot Hok Hq) as (p' & Hr & Ho & Hok').
  exists (set_pool p' e). split; [|split; [done|]].
  - unfold release_slot, on_pool. by rewrite (focus_run _ _ _ _ _ _ _ _ Hr).
  - split; [|done]. intros s. unfold entry. simpl. by rewrite Ho.
Qed.

Lemma epoll_run msg (x : call) k :
  answer x k <> -1 ->
  bind (do_call x) (fun r => EpollHandler.check r msg) k = (Ret None, after x k).
Proof.
  intros Ha. rewrite (bind_run _ _ _ _ _ (call_run _ _)). unfold EpollHandler.check.
  by rewrite (proj2 (Z.eqb_neq _ _) Ha).
Qed.

Lemma epoll_fails msg (x : call) k :
  answer x k = -1 ->
  bind (do_call x) (fun r => EpollHandler.check r msg) k
    = (Ret (Some (mkError [strerror (errno (after x k)); msg] (Some (errno (after x k))))), after x k).
Proof.
  intros Ha. rewrite (bind_run _ _ _ _ _ (call_run _ _)), Ha. reflexivity.
Qed.

Lemma rearm_run slot k e c :
  entry e slot = Some c -> answer (c_epoll_ctl_mod (epollfd_ e) (fd_of c) slot) k <> -1 ->
  rearm slot (k, e) = (Ret None, (after (c_epoll_ctl_mod (epollfd_ e) (fd_of c) slot) k, e)).
Proof.
  intros Hc Ha. unfold rearm. erewrite bind_run by reflexivity. cbn [fst snd].
  rewrite (bind_run _ _ _ _ _ (connection_fd_run _ _ _ _ Hc)).
  apply lift_run. unfold EpollHandler.rearm_socket. by apply epoll_run.
Qed.

Lemma unsubscribe_run slot k e c :
  entry e slot = Some c ->
  unsubscribe_from_events slot (k, e)
    = (Ret None, (after (c_epoll_ctl_del (epollfd_ e) (fd_of c)) k, e)).
Proof.
  intros Hc. unfold unsubscribe_from_events. erewrite bind_run by reflexivity. cbn [fst snd].
  rewrite (bind_run _ _ _ _ _ (connection_fd_run _ _ _ _ Hc)).
  unfold EpollHandler.remove_socket.
  destruct (decide (answer (c_epoll_ctl_del (epollfd_ e) (fd_of c)) k = -1)) as [Ha|Ha].
  - by erewrite bind_run by (apply lift_run, epoll_fails; exact Ha).
  - by erewrite bind_run by (apply lift_run, epoll_run; exact Ha).
Qed.

Lemma subscribe_run slot k e c :
  entry e slot = Some c ->
  let x := c_epoll_ctl_add (epollfd_ e) (fd_of c) slot in
  exists r, subscribe_to_events slot (k, e) = (Ret r, (after x k, e)) /\
    (r = None <-> answer x k <> -1).
Proof.
  intros Hc x. unfold subscribe_to_events. erewrite bind_run by reflexivity. cbn [fst snd].
  rewrite (bind_run _ _ _ _ _ (connection_fd_run _ _ _ _ Hc)).
  unfold EpollHandler.add_socket. fold x.
  destruct (decide (answer x k = -1)) as [Ha|Ha].
  - erewrite bind_run by (apply lift_run, epoll_fails; exact Ha). by eexists.
  - erewrite bind_run by (apply lift_run, epoll_run; exact Ha). by eexists.
Qed.

(** [sendmsg] on an entry's descriptor; the entry stays as it is. *)
Definition sending (c : ConnectionEntry) (msg : OutgoingMessage) : call :=
  c_sendmsg (fd_of c) (encode msg) (out_socket msg).

Lemma send_run msg k c :
  exists r, send_message_impl msg (k, c) = (Ret r, (after (sending c msg) k, c)) /\
    (r = None <-> answer (sending c msg) k <> -1).
Proof.
  destruct c as [t [fd h st] g]. unfold send_message_impl, on_socket.
  assert (exists r, Socket.send_message msg (k, mkSocket fd h st)
            = (Ret r, (after (sending (mkEntry t (mkSocket fd h st) g) msg) k, mkSocket fd h st)) /\
            (r = None <-> answer (sending (mkEntry t (mkSocket fd h st) g) msg) k <> -1))
    as (r & Hs & Hr).
  { unfold Socket.send_message. erewrite bind_run by reflexivity. cbn [fst snd socket_].
    erewrite bind_run by (apply lift_run, call_run). fold (sending (mkEntry t (mkSocket fd h st) g) msg).
    destruct (Z.eqb_spec (answer (sending (mkEntry t (mkSocket fd h st) g) msg) k) (-1)) as [Ha|Ha].
    - unfold sending, fd_of in Ha. simpl in Ha. rewrite Ha. by eexists.
    - unfold sending, fd_of in Ha. simpl in Ha. rewrite (proj2 (Z.eqb_neq _ _) Ha). by eexists. }
  erewrite bind_run by (apply focus_run; exact Hs).
  eexists. split; [reflexivity|]. rewrite <- Hr. by destruct r.
Qed.

Lemma send_on_run slot msg k e c :
  entry e slot = Some c ->
  exists r, on_connection slot (send_message_impl msg) (k, e)
      = (Ret r, (after (sending c msg) k, e)) /\
    (r = None <-> answer (sending c msg) k <> -1).
Proof.
  intros Hc. destruct (send_run msg k c) as (r & Hs & Hr). exists r. split; [|done].
  rewrite (on_connection_run _ _ _ _ _ _ _ _ Hc Hs). by rewrite set_entry_id.
Qed.

Lemma engine_ok_perm e live live' q : live ≡ₚ live' -> engine_ok e live q -> engine_ok e live' q.
Proof. apply ok_live_perm. Qed.

Lemma engine_ok_entry e live q slot : engine_ok e live q -> slot ∈ live -> is_Some (entry e slot).
Proof.
  intros (_ & _ & _ & _ & Hi & Ho) Hs. apply Ho, Hi, elem_of_app. by left.
Qed.

Lemma engine_ok_set e live q slot c :
  engine_ok e live q -> slot ∈ live -> engine_ok (set_entry slot c e) live q.
Proof.
  intros Hok Hs. apply put_object_ok; [done|].
  destruct Hok as (_ & _ & _ & _ & Hi & _). apply Hi, elem_of_app. by left.
Qed.

(** [reset] and [release], the last steps of every release of a connection. *)
Lemma retire_run slot k e c live q :
  engine_ok e (slot :: live) q -> (length q < 4095)%nat -> entry e slot = Some c ->
  exists e',
    (on_connection slot reset ;;; release_slot slot) (k, e) = (Ret tt, (closed (fd_of c) k, e')) /\
    engine_ok e' live (q ++ [slot]) /\ entry e' slot = Some (reset_entry c) /\
    (forall s, s <> slot -> entry e' s = entry e s) /\ epollfd_ e' = epollfd_ e.
Proof.
  intros Hok Hq Hc.
  rewrite (bind_run _ _ _ _ _ (on_connection_run _ _ _ _ _ _ _ _ Hc (reset_run k c))).
  destruct (release_slot_run slot (closed (fd_of c) k) (set_entry slot (reset_entry c) e) live q)
    as (e' & Hr & Hok' & He & Hfd); [by apply engine_ok_set; [|left] | done |].
  exists e'. split; [exact Hr|]. split; [done|]. split; [|split; [|done]].
  - by rewrite He, entry_set_eq.
  - intros s Hs. by rewrite He, entry_set_ne.
Qed.

Definition released (e : NetworkEngine.t) c k : Machine W :=
  closed (fd_of c) (after (c_epoll_ctl_del (epollfd_ e) (fd_of c)) k).

Lemma release_connection_run slot k e c live q :
  engine_ok e (slot :: live) q -> (length q < 4095)%nat -> entry e slot = Some c ->
  exists e', release_connection slot (k, e) = (Ret tt, (released e c k, e')) /\
    engine_ok e' live (q ++ [slot]) /\ entry e' slot = Some (reset_entry c) /\
    (forall s, s <> slot -> entry e' s = entry e s) /\ epollfd_ e' = epollfd_ e.
Proof.
  intros Hok Hq Hc. unfold release_connection.
  rewrite (bind_run _ _ _ _ _ (unsubscribe_run _ _ _ _ Hc)).
  erewrite bind_run by reflexivity. by apply retire_run.
Qed.
End EngineLemmas.

(** ** The loop of [process_connection_impl] *)
Section Loop.
Context {W : Type} `{Platform W} {A : Type} `{HasEngine A}.
Context (handler : ActionContext -> SM W A ActionResult) (slot : Z).
Implicit Types (k : Machine W) (a : A) (c : ConnectionEntry).

Lemma on_engine_run {X} (m : SM W NetworkEngine.t X) k a r k' e' :
  m (k, engine a) = (r, (k', e')) -> on_engine m (k, a) = (r, (k', set_engine e' a)).
Proof. apply focus_run. Qed.

Lemma wp_on_engine {X} (m : SM W NetworkEngine.t X) (Q : outcome X -> Machine W * A -> Prop) k a :
  wp m (fun r s => Q r (s.1, set_engine s.2 a)) (k, engine a) -> wp (on_engine m) Q (k, a).
Proof. unfold wp, on_engine, focus, zoom. simpl. by destruct (m (k, engine a)). Qed.

Lemma on_engine_read {X} (m : SM W NetworkEngine.t X) k a r k' :
  m (k, engine a) = (r, (k', engine a)) -> on_engine m (k, a) = (r, (k', a)).
Proof. intros Hm. rewrite (on_engine_run _ _ _ _ _ _ Hm). by rewrite set_engine_engine. Qed.

(** The state of the entry after [get_message]. *)
Definition with_handler (h : SocketHandler) c a : A :=
  set_engine (set_entry slot (set_socket_handler h c) (engine a)) a.

Lemma entry_with_handler h c a :
  entry (engine (with_handler h c a)) slot = Some (set_socket_handler h c).
Proof. unfold with_handler. rewrite engine_set_engine. apply entry_set_eq. Qed.

Lemma receive_run recv_fuel k a c m k' h' :
  entry (engine a) slot = Some c ->
  get_message recv_fuel (k, socket_handler_ c) = (Ret m, (k', h')) ->
  on_engine (NetworkEngine.on_connection slot (on_socket (get_message recv_fuel))) (k, a)
    = (Ret m, (k', with_handler h' c a)).
Proof.
  intros Hc Hm. apply on_engine_run. apply (on_connection_run _ _ _ _ c); [done|].
  unfold on_socket. by rewrite (focus_run _ _ _ _ _ _ _ _ Hm).
Qed.

(** A round: the entry is alive and its socket yields a message. *)
Lemma loop_round recv_fuel fuel k a c m k' h' :
  entry (engine a) slot = Some c -> is_socket_alive (socket_handler_ c) = true ->
  get_message recv_fuel (k, socket_handler_ c) = (Ret (Some m), (k', h')) ->
  process_loop handler recv_fuel (S fuel) slot CONTINUE (k, a)
  = (let* process_result := process_message handler slot m in
     let* error := finish_message slot process_result in
     match error with
     | Some e => ret (Some e)
     | None => process_loop handler recv_fuel fuel slot (action_status process_result)
     end) (k', with_handler h' c a).
Proof.
  intros Hc Ha Hm. unfold process_loop; fold (process_loop handler).
  erewrite bind_run by (apply on_engine_read, connection_run; exact Hc).
  rewrite Ha, bool_decide_true by done. cbn [andb].
  by erewrite bind_run by (eapply receive_run; eauto).
Qed.

(** A round with a message, whatever the handler does. *)
Lemma loop_hands_on recv_fuel fuel k a c m k' h' :
  entry (engine a) slot = Some c -> is_socket_alive (socket_handler_ c) = true ->
  status m = message_status_e.DATA ->
  get_message recv_fuel (k, socket_handler_ c) = (Ret (Some m), (k', h')) ->
  process_loop handler recv_fuel (S fuel) slot CONTINUE (k, a) =
    match handler (mkContext (mkView slot) m)
            (record_event (Logged (payload m)) k', with_handler h' c a) with
    | (Ret r, s) => (let* error := finish_message slot r in
        match error with
        | Some e => ret (Some e)
        | None => process_loop handler recv_fuel fuel slot (action_status r)
        end) s
    | (Halt h, s) => (Halt h, s)
    end.
Proof.
  intros Hc Ha Hst Hm. rewrite (loop_round _ _ _ _ _ _ _ _ Hc Ha Hm).
  unfold process_message. rewrite Hst, bind_bind. erewrite bind_run by (apply lift_run; reflexivity).
  unfold bind at 1. by destruct (handler _ _) as [[r|h] s].
Qed.

Lemma loop_stops recv_fuel fuel k a c action :
  entry (engine a) slot = Some c ->
  is_socket_alive (socket_handler_ c) = false \/ action = TERMINATE ->
  process_loop handler recv_fuel (S fuel) slot action (k, a) = (Ret None, (k, a)).
Proof.
  intros Hc Hs. unfold process_loop.
  erewrite bind_run by (apply on_engine_read, connection_run; exact Hc).
  destruct Hs as [->| ->]; [done|]. by rewrite andb_false_r.
Qed.

(** Nothing more to read: the socket is armed again and the loop ends. *)
Lemma loop_drained recv_fuel fuel k a c h' k' :
  entry (engine a) slot = Some c -> is_socket_alive (socket_handler_ c) = true ->
  get_message recv_fuel (k, socket_handler_ c)
    = (Ret (Some would_block), (k', set_handle h' (socket_handler_ c))) ->
  let x := c_epoll_ctl_mod (NetworkEngine.epollfd_ (engine a)) (fd_of c) slot in
  answer x k' <> -1 ->
  process_loop handler recv_fuel (S (S fuel)) slot CONTINUE (k, a)
    = (Ret None, (after x k', with_handler (set_handle h' (socket_handler_ c)) c a)).
Proof.
  intros Hc Ha Hm x Hx. rewrite (loop_round _ _ _ _ _ _ _ _ Hc Ha Hm).
  set (h1 := set_handle h' (socket_handler_ c)). set (a1 := with_handler h1 c a).
  assert (entry (engine a1) slot = Some (set_socket_handler h1 c)) as Hc1
    by apply entry_with_handler.
  assert (on_engine (NetworkEngine.rearm slot) (k', a1) = (Ret None, (after x k', a1))) as Hre.
  { apply on_engine_read. assert (NetworkEngine.epollfd_ (engine a1)
                                  = NetworkEngine.epollfd_ (engine a)) as He
      by (unfold a1, with_handler; by rewrite engine_set_engine).
    pose proof (rearm_run slot k' (engine a1) _ Hc1) as Hr. rewrite He in Hr. by apply Hr. }
  assert (process_message handler slot would_block (k', a1)
          = (Ret (mkActionResult TERMINATE KEEP None None), (after x k', a1))) as Hp.
  { unfold process_message. cbn [status would_block]. by rewrite (bind_run _ _ _ _ _ Hre). }
  rewrite (bind_run _ _ _ _ _ Hp). erewrite bind_run by reflexivity. cbn [action_status].
  by apply (loop_stops _ _ _ _ (set_socket_handler h1 c)); [|right].
Qed.

(** The coroutine of a connection: a new one is made when there is none. *)
Definition receiver c : coroutine := default new_coroutine (receive_handle_ (socket_handler_ c)).

(** The entry once the loop has run: the same socket, ready to go on. *)
Definition same_socket (c c' : ConnectionEntry) : Prop :=
  fd_of c' = fd_of c /\ connection_type_ c' = connection_type_ c /\
  is_socket_alive (socket_handler_ c') = is_socket_alive (socket_handler_ c).

(** One call of [get_message] on the connection. *)
Definition receive (recv_fuel : nat) : SM W A (option ReceivedMessage) :=
  on_engine (NetworkEngine.on_connection slot (on_socket (get_message recv_fuel))).

(** The messages [ms] are received one after the other, until there is nothing
    more to read; each is logged and handed to the handler once, in the state
    the receipt has left, and the handler's state is the one the next is
    received in. *)
Inductive handed (recv_fuel : nat) : list ReceivedMessage -> Machine W * A -> Machine W * A -> Prop :=
| handed_none s s' : receive recv_fuel s = (Ret (Some would_block), s') -> handed recv_fuel [] s s'
| handed_one m ms s k1 a1 s2 s' :
    receive recv_fuel s = (Ret (Some m), (k1, a1)) ->
    handler (mkContext (mkView slot) m) (record_event (Logged (payload m)) k1, a1) = (Ret keep, s2) ->
    handed recv_fuel ms s2 s' -> handed recv_fuel (m :: ms) s s'.

(** A handler that keeps the connection when it is given [m] in a state of [P]:
    it may make calls and change the application, [P] holds again, the
    connection's own entry and the epoll descriptor are as before, and so are
    the bytes still to come on its socket. *)
Definition keeps_connection (P : A -> Prop) (m : ReceivedMessage) : Prop :=
  forall k a c, P a -> entry (engine a) slot = Some c ->
  exists k' a', handler (mkContext (mkView slot) m) (k, a) = (Ret keep, (k', a')) /\
    P a' /\ entry (engine a') slot = Some c /\
    NetworkEngine.epollfd_ (engine a') = NetworkEngine.epollfd_ (engine a) /\
    forall n co l rest, expects (fd_of c) n co (world k) l rest -> expects (fd_of c) n co (world k') l rest.

Context (P : A -> Prop).
Context (P_received : forall x c a, P a -> entry (engine a) slot = Some c ->
  P (with_handler (set_handle x (socket_handler_ c)) c a)).

Lemma loop_hands n rest ms : forall k a c fuel,
  Forall (keeps_connection P) ms -> P a ->
  entry (engine a) slot = Some c -> is_socket_alive (socket_handler_ c) = true ->
  expects (fd_of c) n (receiver c) (world k) ms rest ->
  let rearm := c_epoll_ctl_mod (NetworkEngine.epollfd_ (engine a)) (fd_of c) slot in
  (forall k', answer rearm k' <> -1) -> (length ms + 2 <= fuel)%nat ->
  exists k' a' c',
    process_loop handler (S n) fuel slot CONTINUE (k, a) = (Ret None, (after rearm k', a')) /\
    handed (S n) ms (k, a) (k', a') /\ P a' /\
    entry (engine a') slot = Some c' /\ same_socket c c' /\ waits (receiver c') rest.
Proof using P_received.
  induction ms as [|m ms IH]; intros k a c fuel Hms HP Hc Ha He rearm Hx Hfuel;
    destruct (get_message_next n k (socket_handler_ c) _ _ He) as (k' & co & Hg & Hgo);
    pose proof (receive_run _ _ _ _ _ _ _ Hc Hg) as Hrecv.
  - destruct fuel as [|[|fuel]]; [simpl in Hfuel; lia..|].
    eexists k', _, _. split; [by apply (loop_drained _ _ _ _ _ (Some co) k' Hc Ha Hg)|].
    split; [by apply handed_none|]. split; [by apply P_received|].
    split; [apply entry_with_handler|]. by split.
  - destruct Hgo as [Hst Hgo]. destruct fuel as [|fuel]; [simpl in Hfuel; lia|].
    apply Forall_cons in Hms as [Hm Hms].
    set (h1 := set_handle (Some co) (socket_handler_ c)) in *. set (a1 := with_handler h1 c a).
    destruct (Hm (record_event (Logged (payload m)) k') a1 (set_socket_handler h1 c))
      as (k2 & a2 & Hrun & HP2 & Hc2 & Hep & Hkeep); [by apply P_received | apply entry_with_handler|].
    assert (NetworkEngine.epollfd_ (engine a2) = NetworkEngine.epollfd_ (engine a)) as Hep2
      by (rewrite Hep; unfold a1, with_handler; by rewrite engine_set_engine).
    destruct (IH k2 a2 (set_socket_handler h1 c) fuel) as (k3 & a3 & c3 & Hrun3 & Hh & HP3 & Hc3 & Hsame & Hw);
      try done.
    + apply Hkeep. exact Hgo.
    + by rewrite Hep2.
    + simpl in Hfuel. lia.
    + exists k3, a3, c3. split; [|split; [by eapply handed_one|done]].
      rewrite (loop_hands_on _ _ _ _ _ _ _ _ Hc Ha Hst Hg). fold a1. rewrite Hrun.
      erewrite bind_run by reflexivity. cbn. rewrite Hrun3. unfold rearm. by rewrite Hep2.
Qed.
End Loop.

(** ** Broadcasts *)
Section Broadcast.
Context {W : Type} `{Platform W}.
Implicit Types (k : Machine W) (e : NetworkEngine.t).
Import NetworkEngine.

(** The slots a message goes to: entries in use that the filter takes. *)
Definition wants (filter : ConnectionMeta -> bool) e (slot : Z) : bool :=
  match entry e slot with
  | Some c => bool_decide (connection_type_ c <> end_point_e.NONE) &&
              filter (mkMeta slot (connection_type_ c))
  | None => false
  end.
Definition targets (filter : ConnectionMeta -> bool) e (slots : list Z) : list Z :=
  List.filter (wants filter e) slots.

(** The [sendmsg] calls of a trace with their answers, and the descriptors it
    closed, newest first. *)
Definition sends (tr : list event) : list (Z * list Byte.byte * option Z * Z) :=
  omap (fun ev => match ev with
                  | Called (c_sendmsg fd data rights) r => Some (fd, data, rights, r)
                  | _ => None
                  end) tr.
Definition closings (tr : list event) : list Z :=
  omap (fun ev => match ev with Called (c_close fd) _ => Some fd | _ => None end) tr.

(** [message] was sent to [fd] and [sendmsg] answered [r]. *)
Definition attempt (message : OutgoingMessage) (fd r : Z) : Z * list Byte.byte * option Z * Z :=
  (fd, encode message, out_socket message, r).

(** The slots whose [sendmsg] answered -1. *)
Definition lost (slots answers : list Z) : list Z :=
  omap (fun '(slot, r) => if r =? -1 then Some slot else None) (zip slots answers).

Definition fds_of e (slots : list Z) : list Z :=
  omap (fun s => fd_of <$> entry e s) slots.

(** The descriptors of a list that are any. *)
Definition open_fds (fds : list Z) : list Z := List.filter (fun fd => negb (fd =? -1)) fds.

Lemma sends_closed fd k : sends (trace (closed fd k)) = sends (trace k).
Proof. unfold closed. destruct (fd =? -1); [done|]. by rewrite trace_after. Qed.

Lemma closings_closed fd k : closings (trace (closed fd k)) = open_fds [fd] ++ closings (trace k).
Proof. unfold closed, open_fds. simpl. destruct (fd =? -1); [done|]. by rewrite trace_after. Qed.

Lemma lost_sublist slots : forall answers, lost slots answers `sublist_of` slots.
Proof.
  induction slots as [|slot slots IH]; intros [|r answers]; simpl; try (by apply sublist_nil_l).
  unfold lost in *. simpl. destruct (r =? -1); by constructor.
Qed.

Lemma filter_sublist_list {X} (p : X -> bool) l : List.filter p l `sublist_of` l.
Proof. induction l as [|x l IH]; simpl; [constructor|]. destruct (p x); by constructor. Qed.

Lemma fds_of_same e e' l : (forall s, s ∈ l -> entry e' s = entry e s) -> fds_of e' l = fds_of e l.
Proof.
  unfold fds_of. induction l as [|s l IH]; intros Hs; [done|]. simpl.
  rewrite Hs by left. destruct (entry e s); simpl; [f_equal|];
    apply IH; intros s' Hin; apply Hs; by right.
Qed.

Lemma targets_sublist filter e slots : targets filter e slots `sublist_of` slots.
Proof. apply filter_sublist_list. Qed.

Lemma targets_same filter e e' slots :
  (forall s, s ∈ slots -> entry e' s = entry e s) ->
  targets filter e' slots = targets filter e slots.
Proof.
  intros Hs. unfold targets. apply List.filter_ext_in. intros s Hin%list_elem_of_In.
  unfold wants. by rewrite Hs.
Qed.

(** What a broadcast over [slots] leaves when [sendmsg] gave [answers], one to
    each target. *)
Definition broadcast_result (message : OutgoingMessage) (filter : ConnectionMeta -> bool) e
    (slots live q : list Z) (report : DeliveryReport) k (r : outcome DeliveryReport)
    (s : Machine W * NetworkEngine.t) : Prop :=
  exists answers live',
    let reached := targets filter e slots in
    let failed := lost reached answers in
    length answers = length reached /\
    r = Ret (mkDelivery (delivered report + Z.of_nat (length reached) - Z.of_nat (length failed))
                        (delivery_failed report + Z.of_nat (length failed))) /\
    sends (trace s.1) =
      rev (zip_with (attempt message) (fds_of e reached) answers) ++ sends (trace k) /\
    closings (trace s.1) = rev (open_fds (fds_of e failed)) ++ closings (trace k) /\
    live ≡ₚ failed ++ live' /\ engine_ok s.2 live' (q ++ failed) /\
    (forall slot, slot ∈ failed -> entry s.2 slot = reset_entry <$> entry e slot) /\
    (forall slot, slot ∉ failed -> entry s.2 slot = entry e slot).

Lemma targets_cons filter e slot slots :
  targets filter e (slot :: slots) =
  if wants filter e slot then slot :: targets filter e slots else targets filter e slots.
Proof. done. Qed.

Lemma fds_of_cons e slot slots c :
  entry e slot = Some c -> fds_of e (slot :: slots) = fd_of c :: fds_of e slots.
Proof. intros Hc. unfold fds_of. simpl. by rewrite Hc. Qed.

Lemma sends_sending c message k :
  sends (trace (after (sending c message) k))
    = attempt message (fd_of c) (answer (sending c message) k) :: sends (trace k).
Proof. by rewrite trace_after. Qed.

Lemma closings_sending c message k :
  closings (trace (after (sending c message) k)) = closings (trace k).
Proof. by rewrite trace_after. Qed.

Lemma lost_in filter e slots answers s : s ∈ lost (targets filter e slots) answers -> s ∈ slots.
Proof.
  intros Hin. eapply elem_of_submseteq; [exact Hin|]. apply sublist_submseteq.
  etrans; [apply lost_sublist | apply targets_sublist].
Qed.

Lemma lost_cons slot slots r answers :
  lost (slot :: slots) (r :: answers)
    = if r =? -1 then slot :: lost slots answers else lost slots answers.
Proof. unfold lost. simpl. by destruct (r =? -1). Qed.

Lemma broadcast_kept filter message e slot slots c live q d f k r s :
  entry e slot = Some c -> wants filter e slot = true -> answer (sending c message) k <> -1 ->
  broadcast_result message filter e slots live q (mkDelivery (d + 1) f)
    (after (sending c message) k) r s ->
  broadcast_result message filter e (slot :: slots) live q (mkDelivery d f) k r s.
Proof.
  intros Hc Hw Hsent (answers & live' & Hlen & Hr & Hsf & Hcl & Hperm & Hok & Hfail & Hkeep).
  exists (answer (sending c message) k :: answers), live'. rewrite targets_cons, Hw. cbn zeta in *.
  rewrite (fds_of_cons _ _ _ _ Hc), lost_cons, (proj2 (Z.eqb_neq _ _)) by done.
  split_and!; try done.
  - simpl. by rewrite Hlen.
  - rewrite Hr. simpl. do 2 f_equal; lia.
  - rewrite Hsf, sends_sending. simpl. by rewrite <- app_assoc.
  - by rewrite Hcl, closings_sending.
Qed.

Lemma broadcast_lost filter message e e' slot slots c live live1 q d f k err r s :
  entry e slot = Some c -> wants filter e slot = true -> answer (sending c message) k = -1 ->
  slot ∉ slots -> live ≡ₚ slot :: live1 ->
  entry e' slot = Some (reset_entry c) -> (forall s, s <> slot -> entry e' s = entry e s) ->
  broadcast_result message filter e' slots live1 (q ++ [slot]) (mkDelivery d (f + 1))
    (closed (fd_of c) (record_event (Logged err) (after (sending c message) k))) r s ->
  broadcast_result message filter e (slot :: slots) live q (mkDelivery d f) k r s.
Proof.
  intros Hc Hw Hlost Hni Hl He1 He (answers & live' & Hlen & Hr & Hsf & Hcl & Hperm & Hok & Hfail & Hkeep).
  assert (Hsame : forall s, s ∈ slots -> entry e' s = entry e s) by (intros s' Hs'; apply He; by intros ->).
  rewrite (targets_same filter e e' slots Hsame) in *. cbn zeta in *.
  pose proof (fun s => lost_in filter e slots answers s) as Hin.
  assert (slot ∉ lost (targets filter e slots) answers) as Hnf by (intros Hs%Hin; done).
  rewrite (fds_of_same e e' (targets filter e slots)) in Hsf
    by (intros s' Hs'; apply Hsame; eapply elem_of_submseteq; [exact Hs'|];
        apply sublist_submseteq, targets_sublist).
  rewrite (fds_of_same e e' (lost _ _)) in Hcl by (intros s' Hs'; by apply Hsame, Hin).
  exists (answer (sending c message) k :: answers), live'. rewrite targets_cons, Hw. cbn zeta.
  rewrite (fds_of_cons _ _ _ _ Hc), lost_cons, (proj2 (Z.eqb_eq _ _)), (fds_of_cons _ _ _ _ Hc) by done.
  split_and!.
  - simpl. by rewrite Hlen.
  - rewrite Hr. simpl. do 2 f_equal; lia.
  - rewrite Hsf, sends_closed. cbn [record_event trace].
    change (sends (Logged err :: ?tr)) with (sends tr).
    rewrite sends_sending. simpl. by rewrite <- app_assoc.
  - rewrite Hcl, closings_closed. cbn [record_event trace].
    change (closings (Logged err :: ?tr)) with (closings tr). rewrite closings_sending.
    unfold open_fds. simpl. destruct (fd_of c =? -1); simpl; [done|]. by rewrite <- app_assoc.
  - by rewrite Hl, Hperm.
  - by rewrite <- app_assoc in Hok.
  - intros s' [->|Hs']%elem_of_cons.
    + by rewrite Hkeep, He1, Hc.
    + rewrite Hfail, He; [done| |done]. by intros ->.
  - intros s' Hs'. apply not_elem_of_cons in Hs' as [Hne Hs']. by rewrite Hkeep, He.
Qed.

Lemma wants_entry filter e slot :
  wants filter e slot = true ->
  exists c, entry e slot = Some c /\ bool_decide (connection_type_ c <> end_point_e.NONE) = true /\
    filter (mkMeta slot (connection_type_ c)) = true.
Proof.
  unfold wants. destruct (entry e slot) as [c|]; [|done].
  intros [Ht Hf]%andb_true_iff. by exists c.
Qed.

Lemma send_from_skip message filter slot slots report k e c :
  entry e slot = Some c -> wants filter e slot = false ->
  send_from (slot :: slots) message filter report (k, e)
    = send_from slots message filter report (k, e).
Proof.
  intros Hc Hw. cbn [send_from]. rewrite (bind_run _ _ _ _ _ (connection_run slot k e c Hc)).
  unfold wants in Hw. rewrite Hc in Hw.
  destruct (bool_decide _); [|done]. simpl in Hw. by rewrite Hw.
Qed.

(** One target: the message is sent, and a connection that fails is retired. *)
Lemma send_from_one message filter slot slots d f k e c live1 q :
  entry e slot = Some c -> wants filter e slot = true ->
  engine_ok e (slot :: live1) q -> (length q < 4095)%nat ->
  send_from (slot :: slots) message filter (mkDelivery d f) (k, e)
    = send_from slots message filter (mkDelivery (d + 1) f) (after (sending c message) k, e) /\
    answer (sending c message) k <> -1 \/
  exists err e', answer (sending c message) k = -1 /\
    send_from (slot :: slots) message filter (mkDelivery d f) (k, e)
      = send_from slots message filter (mkDelivery d (f + 1))
          (closed (fd_of c) (record_event (Logged err) (after (sending c message) k)), e') /\
    engine_ok e' live1 (q ++ [slot]) /\ entry e' slot = Some (reset_entry c) /\
    (forall s, s <> slot -> entry e' s = entry e s).
Proof.
  intros Hc Hw Hok Hq. destruct (wants_entry _ _ _ Hw) as (c' & Hc' & Ht & Hf).
  rewrite Hc in Hc'. injection Hc' as <-.
  destruct (send_on_run slot message k e c Hc) as (r & Hs & Hiff).
  cbn [send_from]. rewrite (bind_run _ _ _ _ _ (connection_run slot k e c Hc)), Ht, Hf.
  rewrite (bind_run _ _ _ _ _ Hs). destruct r as [err|];
    [right | left; split; [done|]; by apply Hiff].
  assert (answer (sending c message) k = -1) as Hlost
    by (destruct (decide (answer (sending c message) k = -1)) as [|Hn]; [done|]; by apply Hiff in Hn).
  erewrite bind_run by (apply lift_run; reflexivity).
  destruct (retire_run slot (record_event (Logged (full_report err)) (after (sending c message) k))
              e c live1 q Hok Hq Hc) as (e' & Hret & Hok' & He1 & He & _).
  exists (full_report err), e'. split; [done|]. split; [|done].
  by rewrite (bind_run_seq _ _ _ _ _ _ Hret).
Qed.

Lemma send_from_run message filter slots : forall d f k e live q,
  NoDup slots -> (forall s, s ∈ slots -> is_Some (entry e s)) ->
  (forall s, s ∈ slots -> wants filter e s = true -> s ∈ live) ->
  engine_ok e live q -> (length q + length slots <= 4095)%nat ->
  wp (send_from slots message filter (mkDelivery d f))
     (broadcast_result message filter e slots live q (mkDelivery d f) k) (k, e).
Proof.
  induction slots as [|slot slots IH]; intros d f k e live q Hnd Hex Hlive Hok Hq.
  { exists [], live. simpl. rewrite app_nil_r.
    split_and!; try done; [simpl; do 2 f_equal; lia | by intros ? ?%elem_of_nil]. }
  apply NoDup_cons in Hnd as [Hni Hnd]. simpl in Hq.
  destruct (Hex slot) as [c Hc]; [left|]. unfold wp.
  destruct (wants filter e slot) eqn:Hw.
  2: { rewrite (send_from_skip _ _ _ _ _ _ _ _ Hc Hw).
       eapply wp_mono; [|apply (IH d f k e live q); try done; try lia].
       - intros r s. unfold broadcast_result. by rewrite targets_cons, Hw.
       - intros s Hs. apply Hex. by right.
       - intros s Hs. apply Hlive. by right. }
  assert (slot ∈ live) as [live1 Hl]%elem_of_Permutation by (by apply Hlive; [left|]).
  destruct (send_from_one message filter slot slots d f k e c live1 q Hc Hw)
    as [[-> Hsent] | (err & e' & Hlost & -> & Hok' & He1 & He)]; [by eapply engine_ok_perm | lia | |].
  - eapply wp_mono; [|apply (IH _ _ _ e live q); try done; try lia].
    + intros r s. by apply broadcast_kept.
    + intros s Hs. apply Hex. by right.
    + intros s Hs. apply Hlive. by right.
  - assert (Hsame : forall s, s ∈ slots -> entry e' s = entry e s)
      by (intros s Hs'; apply He; by intros ->).
    eapply wp_mono; [|apply (IH _ _ _ e' live1 (q ++ [slot])); try done].
    + intros r s. by apply (broadcast_lost filter message e e' slot slots c live live1).
    + intros s Hs'. rewrite Hsame by done. apply Hex. by right.
    + intros s Hs' Hws. assert (s ∈ live) as Hsl.
      { apply Hlive; [by right|]. rewrite <- Hws. unfold wants. by rewrite Hsame. }
      rewrite Hl in Hsl. by apply elem_of_cons in Hsl as [->|].
    + rewrite length_app. simpl in *. lia.
Qed.
End Broadcast.

(** ** Transfers *)
Section Transfer.
Context {W : Type} `{Platform W}.
Implicit Types (k : Machine W) (e : NetworkEngine.t).
Import NetworkEngine.

Definition socket_message (fd : Z) : OutgoingMessage :=
  mkOutgoing "\socket" message_type_e.SOCKET (Some fd).

(** The message went out: the guard retires the source. *)
Lemma transfer_sends k e src dst cs cd live q :
  src <> dst -> engine_ok e (src :: dst :: live) q -> (length q < 4095)%nat ->
  entry e src = Some cs -> entry e dst = Some cd ->
  let k1 := after (c_epoll_ctl_del (epollfd_ e) (fd_of cs)) k in
  let send := sending cd (socket_message (fd_of cs)) in
  answer send k1 <> -1 ->
  exists e', transfer (mkView dst) (mkView src) (k, e)
      = (Ret (mkTransfer true true), (closed (fd_of cs) (after send k1), e')) /\
    engine_ok e' (dst :: live) (q ++ [src]) /\ entry e' src = Some (reset_entry cs) /\
    (forall s, s <> src -> entry e' s = entry e s) /\ epollfd_ e' = epollfd_ e.
Proof.
  intros Hne Hok Hq Hcs Hcd k1 send Hsend.
  destruct (retire_run src (after send k1) e cs (dst :: live) q Hok Hq Hcs)
    as (e' & Hret & Hok' & Hs' & Ho' & He').
  exists e'. split; [|by split_and!].
  unfold transfer. simpl get_slot.
  rewrite (bind_run _ _ _ _ _ (connection_run _ _ _ _ Hcd)).
  rewrite (bind_run _ _ _ _ _ (connection_run _ _ _ _ Hcs)).
  unfold scope_guard, transfer_body. rewrite bind_bind.
  rewrite (bind_run _ _ _ _ _ (unsubscribe_run _ _ _ _ Hcs)). rewrite bind_bind.
  rewrite (bind_run _ _ _ _ _ (connection_fd_run _ _ _ _ Hcs)). rewrite bind_bind.
  destruct (send_on_run dst (socket_message (fd_of cs)) k1 e cd Hcd) as (r & Hr & Hiff).
  rewrite (bind_run _ _ _ _ _ Hr). rewrite (proj2 Hiff Hsend). rewrite bind_ret.
  cbn [snd fst]. by rewrite (bind_run _ _ _ _ _ Hret).
Qed.

Lemma transfer_sent k e src dst cs cd live q :
  src <> dst -> engine_ok e (src :: dst :: live) q -> (length q < 4095)%nat ->
  entry e src = Some cs -> entry e dst = Some cd ->
  let k1 := after (c_epoll_ctl_del (epollfd_ e) (fd_of cs)) k in
  let send := sending cd (socket_message (fd_of cs)) in
  answer send k1 <> -1 ->
  exists e', transfer (mkView dst) (mkView src) (k, e)
      = (Ret (mkTransfer true true), (closed (fd_of cs) (after send k1), e')) /\
    engine_ok e' (dst :: live) (q ++ [src]) /\ entry e' src = Some (reset_entry cs) /\
    entry e' dst = Some cd.
Proof.
  intros Hne Hok Hq Hcs Hcd k1 send Hsend.
  destruct (transfer_sends k e src dst cs cd live q Hne Hok Hq Hcs Hcd Hsend) as (e' & Hrun & Hok' & Hs & Ho & _).
  exists e'. split_and!; [done..|]. by rewrite Ho.
Qed.

(** The message did not go out: the destination is retired, the source is
    watched again or retired too. *)
Lemma transfer_failed k e src dst cs cd live q :
  src <> dst -> engine_ok e (src :: dst :: live) q -> (length q < 4094)%nat ->
  entry e src = Some cs -> entry e dst = Some cd ->
  let k1 := after (c_epoll_ctl_del (epollfd_ e) (fd_of cs)) k in
  let send := sending cd (socket_message (fd_of cs)) in
  let k2 := released e cd (after send k1) in
  let subscribe := c_epoll_ctl_add (epollfd_ e) (fd_of cs) src in
  answer send k1 = -1 ->
  exists k' e',
    transfer (mkView dst) (mkView src) (k, e)
      = (Ret (mkTransfer false (negb (answer subscribe k2 =? -1))), (k', e')) /\
    entry e' dst = Some (reset_entry cd) /\
    if answer subscribe k2 =? -1
    then engine_ok e' live (q ++ [dst; src]) /\ entry e' src = Some (reset_entry cs)
    else engine_ok e' (src :: live) (q ++ [dst]) /\ entry e' src = Some cs.
Proof.
  intros Hne Hok Hq Hcs Hcd k1 send k2 subscribe Hsend.
  destruct (release_connection_run dst (after send k1) e cd (src :: live) q)
    as (e1 & Hrel & Hok1 & Hd1 & Ho1 & Hfd1);
    [eapply engine_ok_perm; [|exact Hok]; solve_Permutation | lia | done |].
  assert (Hcs1 : entry e1 src = Some cs) by (by rewrite Ho1).
  destruct (subscribe_run src k2 e1 cs Hcs1) as (rs & Hsub & Hsubiff). rewrite Hfd1 in Hsub, Hsubiff.
  fold subscribe in Hsub, Hsubiff.
  unfold transfer. simpl get_slot.
  rewrite (bind_run _ _ _ _ _ (connection_run _ _ _ _ Hcd)).
  rewrite (bind_run _ _ _ _ _ (connection_run _ _ _ _ Hcs)).
  unfold scope_guard, transfer_body. rewrite bind_bind.
  rewrite (bind_run _ _ _ _ _ (unsubscribe_run _ _ _ _ Hcs)). rewrite bind_bind.
  rewrite (bind_run _ _ _ _ _ (connection_fd_run _ _ _ _ Hcs)). rewrite bind_bind.
  destruct (send_on_run dst (socket_message (fd_of cs)) k1 e cd Hcd) as (r & Hr & Hiff).
  rewrite (bind_run _ _ _ _ _ Hr). destruct r as [err|]; [|by destruct (proj1 Hiff eq_refl)].
  rewrite bind_bind, (bind_run _ _ _ _ _ Hrel), bind_bind. fold k2.
  rewrite (bind_run _ _ _ _ _ Hsub).
  destruct rs as [es|].
  - assert (answer subscribe k2 = -1) as ->
      by (destruct (decide (answer subscribe k2 = -1)) as [|Hn]; [done|];
          discriminate (proj2 Hsubiff Hn)).
    destruct (release_connection_run src (after subscribe k2) e1 cs live (q ++ [dst]))
      as (e2 & Hrel2 & Hok2 & Hs2 & Ho2 & _); [done | rewrite length_app; simpl; lia | done |].
    rewrite bind_bind, (bind_run _ _ _ _ _ Hrel2).
    eexists _, e2. split; [reflexivity|]. rewrite Ho2 by done. rewrite <- app_assoc in Hok2. done.
  - rewrite (proj2 (Z.eqb_neq _ _) (proj1 Hsubiff eq_refl)).
    eexists _, e1. split; [reflexivity|]. done.
Qed.
End Transfer.

(** ** A handler that reports an error *)
Section KeepError.
Context {W : Type} `{Platform W} {A : Type} `{HasEngine A}.
Implicit Types (k : Machine W).

(** The connection that [process_connection] gave up with an error: in use,
    and not armed. *)
Definition stalled (handler : ActionContext -> SM W A ActionResult) recv_fuel fuel slot k a
    type fd control m ms cut : Prop :=
  exists k' c' e',
    process_connection handler recv_fuel fuel (mkView slot) (k, a)
      = (Ret (Some e'), (k', set_engine (set_entry slot c' (engine a)) a)) /\
    fd_of c' = fd /\ connection_type_ c' = type /\ is_socket_alive (socket_handler_ c') = true /\
    trace k' = Logged (out_payload m) :: Logged ("Message received: " +:+ out_payload m) ::
               CalledRecvmsg fd (Z.of_nat BUFFER_SIZE) :: trace k /\
    pending (receiver c') control ms cut.

Lemma loop_keep_error handler recv_fuel fuel slot k a type fd m ms cut control w err :
  (forall k a, handler (mkContext (mkView slot) (received_of control m)) (k, a)
               = (Ret (keep_with_error err), (k, a))) ->
  entry (engine a) slot = Some (entry_of type fd) ->
  message_type_e.valid (out_type m) ->
  sys_recvmsg fd (Z.of_nat BUFFER_SIZE) (world k) = (Received (stream (m :: ms) cut) control, w) ->
  (length (stream (m :: ms) cut) <= BUFFER_SIZE)%nat ->
  stalled handler (S recv_fuel) (S fuel) slot k a type fd control m ms cut.
Proof.
  intros Hh Hc Hm Hr Hlen.
  destruct (get_message_receives recv_fuel k (handler_of_fd fd) w m ms cut control)
    as (c' & Hg & Hhm); try done.
  eexists _, _, _. split.
  - unfold process_connection, process_connection_impl. simpl get_slot.
    rewrite (loop_round handler slot _ _ _ _ _ _ _ _ Hc eq_refl Hg).
    erewrite bind_run.
    2: { unfold process_message. simpl.
         erewrite bind_run by (apply lift_run; reflexivity). by rewrite Hh. }
    reflexivity.
  - repeat (split; [done|]). by apply holds_pending.
Qed.
End KeepError.

(** ** The end of a connection *)
Section Disconnect.
Context {W : Type} `{Platform W}.
Implicit Types (k : Machine W).

Definition disconnected : ReceivedMessage :=
  mkReceived message_status_e.DISCONNECTED message_type_e.DEFAULT "" None.

Definition closed_handler (h : SocketHandler) : SocketHandler :=
  mkSocket (socket_ h) None socket_status_e.CLOSED.

Lemma get_message_end recv_fuel k h control w cut :
  waits (default new_coroutine (receive_handle_ h)) cut -> (length cut < HEADER_SIZE)%nat ->
  sys_recvmsg (socket_ h) (room cut) (world k) = (Received [] control, w) ->
  get_message (S recv_fuel) (k, h)
    = (Ret (Some disconnected), (received_on (socket_ h) (room cut) (errno k) w k, closed_handler h)).
Proof.
  intros Hd Hcut Hr. destruct (resume_waits (S recv_fuel) _ cut Hd Hcut) as (buffer & Hl & _ & Hres).
  unfold room in *. rewrite <- Hl in *.
  assert (resume (S recv_fuel) (default new_coroutine (receive_handle_ h)) (k, h)
    = (Ret (Returned (inl disconnected), mkCoroutine buffer (Z.of_nat (length cut)) AtReceive),
       (received_on (socket_ h) (Z.of_nat (length buffer) - Z.of_nat (length cut)) (errno k) w k,
        set_socket_status socket_status_e.CLOSED h))) as Hrun.
  { rewrite Hres. unfold receive_loop. erewrite bind_run by reflexivity.
    by erewrite bind_run by (apply lift_run; unfold do_recvmsg; cbn [fst snd]; by rewrite Hr). }
  unfold get_message. erewrite bind_run by reflexivity. cbn [fst snd].
  rewrite (bind_run _ _ _ _ _ Hrun). reflexivity.
Qed.

Lemma loop_disconnected {A} `{HasEngine A} handler recv_fuel fuel slot k a c cut control w live q :
  entry (engine a) slot = Some c -> is_socket_alive (socket_handler_ c) = true ->
  waits (receiver c) cut -> (length cut < HEADER_SIZE)%nat ->
  sys_recvmsg (fd_of c) (room cut) (world k) = (Received [] control, w) ->
  engine_ok (engine a) (slot :: live) q -> (length q < 4095)%nat ->
  exists e',
    process_loop handler (S recv_fuel) (S (S fuel)) slot CONTINUE (k, a)
      = (Ret None, (released (engine a) c (received_on (fd_of c) (room cut) (errno k) w k), set_engine e' a)) /\
    engine_ok e' live (q ++ [slot]) /\ entry e' slot = Some (reset_entry c) /\
    (forall s, s <> slot -> entry e' s = entry (engine a) s).
Proof.
  intros Hc Ha Hd Hcut Hr Hok Hq.
  pose proof (get_message_end recv_fuel k _ control w cut Hd Hcut Hr) as Hm.
  rewrite (loop_round handler slot _ _ _ _ _ _ _ _ Hc Ha Hm).
  set (h1 := closed_handler (socket_handler_ c)). set (a1 := with_handler slot h1 c a).
  set (c1 := set_socket_handler h1 c).
  set (k1 := received_on (socket_ (socket_handler_ c)) (room cut) (errno k) w k).
  assert (engine a1 = set_entry slot c1 (engine a)) as Ha1 by apply engine_set_engine.
  destruct (release_connection_run slot k1 (set_entry slot c1 (engine a)) c1 live q)
    as (e' & Hrel & Hok' & He & Ho & _);
    [apply engine_ok_set; [done | left] | done | apply entry_set_eq |].
  exists e'. split.
  - assert (process_message handler slot disconnected (k1, a1)
            = (Ret (mkActionResult CONTINUE RELEASE None None), (k1, a1))) as Hp by done.
    rewrite (bind_run _ _ _ _ _ Hp). unfold finish_message. cbn [user_code conn_status Utility.error].
    rewrite !bind_bind, bind_ret. rewrite !bind_bind.
    erewrite bind_run by (apply on_engine_run; rewrite Ha1; exact Hrel). rewrite bind_ret.
    cbn [fmap option_fmap option_map action_status]. unfold a1, with_handler. rewrite set_engine_twice.
    apply (loop_stops handler slot _ _ _ _ (reset_entry c1)); [by rewrite engine_set_engine | by left].
  - split_and!; [done | exact He |]. intros s Hs. rewrite Ho, entry_set_ne by done. done.
Qed.
End Disconnect.

(** ** Registering a descriptor *)
Section Register.
Context {W : Type} `{Platform W}.
Implicit Types (k : Machine W) (e : NetworkEngine.t).
Import NetworkEngine.

(** What [register_connection] promises, on every outcome. *)
Definition register_post (type : end_point_e.t) (fd : Z) e (live q : list Z)
    (r : outcome (Z + Error)) (s : Machine W * NetworkEngine.t) : Prop :=
  match r with
  | Ret (inl slot) =>
    (slot ∉ live) /\ engine_ok s.2 (slot :: live) (tail q) /\ epollfd_ s.2 = epollfd_ e /\
    (exists c, entry s.2 slot = Some c /\ connection_type_ c = type /\ fd_of c = fd /\
               is_socket_alive (socket_handler_ c) = true /\ receive_handle_ (socket_handler_ c) = None) /\
    (forall s', s' <> slot -> entry s.2 s' = entry e s') /\
    exists r, head (trace s.1) = Some (Called (c_epoll_ctl_add (epollfd_ e) fd slot) r) /\ r <> -1
  | Ret (inr _) => exists slot,
    (slot ∉ live) /\ engine_ok s.2 live (tail q ++ [slot]) /\ epollfd_ s.2 = epollfd_ e /\
    (exists c, entry s.2 slot = Some (reset_entry c)) /\
    (forall s', s' <> slot -> entry s.2 s' = entry e s') /\
    (fd <> -1 -> exists r, head (trace s.1) = Some (Called (c_close fd) r))
  | Halt Undefined => q = [] /\ length live = 4097%nat
  | Halt h => h = Terminated /\ q = []
  end.

(** The entry as the pool stored it. *)
Lemma pushed_entry type fd e live q (s : Machine W * ObjectPool.t ConnectionEntry) slot :
  push_post (entry_of type fd) (connection_pool_ e) live q (Ret (inl slot)) s ->
  let e1 := set_pool s.2 e in
  (slot ∉ live) /\ engine_ok e1 (slot :: live) (tail q) /\ epollfd_ e1 = epollfd_ e /\
  (exists c, entry e1 slot = Some c /\ connection_type_ c = type /\ fd_of c = fd /\
             is_socket_alive (socket_handler_ c) = true /\ receive_handle_ (socket_handler_ c) = None) /\
  (forall s', s' <> slot -> entry e1 s' = entry e s').
Proof.
  intros (o & Hni & Hok & Ho & Hq). split_and!; try done.
  - exists o. unfold entry. simpl. rewrite Ho, lookup_insert_eq. split; [done|].
    destruct (head q); [destruct Hq as (_ & old & _ & ->) | destruct Hq as [_ ->]]; done.
  - intros s' Hs. unfold entry. simpl. by rewrite Ho, lookup_insert_ne.
Qed.

Lemma on_pool_push type fd k e live q :
  engine_ok e live q ->
  wp (on_pool (ObjectPool.push_to_pool (entry_of type fd)))
     (fun r s => exists p, s.2 = set_pool p e /\
        push_post (entry_of type fd) (connection_pool_ e) live q r (s.1, p)) (k, e).
Proof.
  intros Hok. pose proof (push_correct (entry_of type fd) k _ live q Hok) as Hp.
  unfold wp, on_pool, focus, zoom in *. simpl.
  destruct (ObjectPool.push_to_pool _ _) as [r [k' p]]. by exists p.
Qed.

Lemma register_correct type fd k e live q :
  engine_ok e live q -> (length q < 4095)%nat ->
  wp (register_connection type fd) (register_post type fd e live q) (k, e).
Proof.
  intros Hok Hq. unfold register_connection. apply wp_bind.
  eapply wp_mono; [|by apply (on_pool_push type fd k e live q)].
  intros [[slot|err]|h] [k1 e1] (p & He1 & Hpost); simpl in He1; subst e1; [|done|].
  2: { destruct h; try done; by destruct Hpost as (? & ? & ?). }
  destruct (pushed_entry type fd e live q _ slot Hpost)
    as (Hni & Hok1 & Hfd1 & (c & Hc & Ht & Hfd & Ha & Hh) & Ho).
  cbn [fst snd] in *. set (e1 := set_pool p e) in *.
  destruct (subscribe_run slot k1 e1 c Hc) as (rs & Hsub & Hiff).
  unfold wp. rewrite (bind_run _ _ _ _ _ Hsub). rewrite Hfd in *.
  destruct rs as [es|].
  - destruct (send_on_run slot (typed_message (user_message GENERIC) message_type_e.PRINTABLE)
                (after (c_epoll_ctl_add (epollfd_ e1) fd slot) k1) e1 c Hc) as (r & Hs & _).
    rewrite (bind_run _ _ _ _ _ Hs).
    match type of Hs with _ = (_, (?k2, _)) =>
      destruct (retire_run slot k2 e1 c live (tail q) Hok1
        ltac:(destruct q; simpl in *; lia) Hc) as (e' & Hret & Hok' & Hs' & Ho' & Hfd') end.
    rewrite (bind_run_seq _ _ _ _ _ _ Hret). exists slot. split_and!; try done.
    + by exists c.
    + intros s' Hne. rewrite Ho' by done. by apply Ho.
    + intros Hne. unfold closed, ret. cbn [fst snd]. rewrite Hfd, (proj2 (Z.eqb_neq _ _) Hne), trace_after.
      by eexists.
  - split_and!; try done; [by exists c|].
    eexists. cbn [fst snd ret]. rewrite trace_after. split; [reflexivity|]. by apply Hiff.
Qed.

Lemma attach_socket_correct type fd k e live q :
  engine_ok e live q -> (length q < 4095)%nat ->
  wp (attach_socket fd type)
     (fun r s => register_post type fd e live q
        match r with
        | Ret (inl view) => Ret (inl (get_slot view))
        | Ret (inr err) => Ret (inr err)
        | Halt h => Halt h
        end s) (k, e).
Proof.
  intros Hok Hq. unfold attach_socket. apply wp_bind.
  eapply wp_mono; [|by apply register_correct].
  by intros [[slot|err]|h] s Hpost.
Qed.
End Register.

(** ** Properties *)

(** C5: [process_connection] hands every message of a connection to the
    handler, once and in order, and then watches the socket again.  The
    connection may be new or have been served before; its data arrive in
    [pieces] as in [pieces_delivered].  The handler may make calls and change
    the application, but must keep the connection for each of these messages
    ([keeps_connection]: it answers [keep], and the connection's entry, the epoll
    descriptor and the bytes still to come are as before).  Then the call
    returns without an error; what it does is to receive each message and hand
    it to the handler, in the order of the stream and each in the state the one
    before has left ([handed]), until there is nothing to read, and then to
    re-arm the connection's epoll registration; the entry keeps its descriptor,
    type and status and is ready for the next event.  [fuel] is two rounds more
    than there are messages. *)
Theorem process_connection_delivers {W A} `{Platform W} `{HasEngine A}
    (handler : ActionContext -> SM W A ActionResult) (P : A -> Prop)
    recv_fuel fuel slot k a c pre pieces :
  (forall x c a, P a -> entry (engine a) slot = Some c ->
     P (with_handler slot (set_handle x (socket_handler_ c)) c a)) ->
  Forall (keeps_connection handler slot P) (delivery pieces) -> P a ->
  entry (engine a) slot = Some c -> is_socket_alive (socket_handler_ c) = true ->
  waits (receiver c) pre -> (length pre < HEADER_SIZE)%nat ->
  valid_messages (pieces ≫= piece_messages) -> arrives (fd_of c) pre (world k) pieces ->
  let rearm := c_epoll_ctl_mod (NetworkEngine.epollfd_ (engine a)) (fd_of c) slot in
  (forall k, answer rearm k <> -1) ->
  (length pieces <= recv_fuel)%nat -> (length (delivery pieces) + 2 <= fuel)%nat ->
  exists k' a' c',
    process_connection handler (S recv_fuel) fuel (mkView slot) (k, a) = (Ret None, (after rearm k', a')) /\
    handed handler slot (S recv_fuel) (delivery pieces) (k, a) (k', a') /\ P a' /\
    entry (engine a') slot = Some c' /\ same_socket c c' /\ waits (receiver c') (leftover pre pieces).
Proof.
  intros HP Hms Ha0 Hc Ha Hw Hpre Hv Harr rearm Hx Hrf Hfuel.
  apply (loop_hands handler slot P HP recv_fuel); try done. by apply pieces_expected.
Qed.

(** C37: a connection whose message is answered with an error is never heard
    again.  When the handler keeps the connection but reports an error (every
    refused command does), [process_connection] returns the error; the entry
    stays in use with its descriptor open, and between the receipt of the
    message and the return no call is made: the one-shot epoll registration is
    not re-armed, and the messages left in the buffer stay there. *)
Theorem keep_error_stalls {W A} `{Platform W} `{HasEngine A}
    (handler : ActionContext -> SM W A ActionResult)
    recv_fuel fuel slot k a type fd m ms cut control w err :
  (forall k a, handler (mkContext (mkView slot) (received_of control m)) (k, a)
               = (Ret (keep_with_error err), (k, a))) ->
  entry (engine a) slot = Some (entry_of type fd) ->
  message_type_e.valid (out_type m) ->
  sys_recvmsg fd (Z.of_nat BUFFER_SIZE) (world k) = (Received (stream (m :: ms) cut) control, w) ->
  (length (stream (m :: ms) cut) <= BUFFER_SIZE)%nat ->
  stalled handler (S recv_fuel) (S fuel) slot k a type fd control m ms cut.
Proof. intros Hh Hc Hm Hr Hlen. by eapply loop_keep_error. Qed.

(** C21: the end of the stream gives everything back.  When the peer has
    closed, [process_connection] calls no handler: it takes the descriptor out
    of epoll, closes it, marks the entry free, puts its slot behind the other
    released slots, and returns without an error; no other entry changes.  The
    beginning [cut] of a header that never came to an end is dropped. *)
Theorem disconnect_releases {W A} `{Platform W} `{HasEngine A}
    (handler : ActionContext -> SM W A ActionResult) recv_fuel fuel slot k a c cut control w live q :
  entry (engine a) slot = Some c -> is_socket_alive (socket_handler_ c) = true -> fd_of c <> -1 ->
  waits (receiver c) cut -> (length cut < HEADER_SIZE)%nat ->
  sys_recvmsg (fd_of c) (room cut) (world k) = (Received [] control, w) ->
  engine_ok (engine a) (slot :: live) q -> (length q < 4095)%nat ->
  exists k' e' r1 r2,
    process_connection handler (S recv_fuel) (S (S fuel)) (mkView slot) (k, a)
      = (Ret None, (k', set_engine e' a)) /\
    trace k' = Called (c_close (fd_of c)) r2 ::
               Called (c_epoll_ctl_del (NetworkEngine.epollfd_ (engine a)) (fd_of c)) r1 ::
               CalledRecvmsg (fd_of c) (room cut) :: trace k /\
    engine_ok e' live (q ++ [slot]) /\
    entry e' slot = Some (mkEntry end_point_e.NONE default_handler (wrap64 (generation_ c + 1))) /\
    (forall s, s <> slot -> entry e' s = entry (engine a) s).
Proof.
  intros Hc Ha Hfd Hw Hcut Hr Hok Hq.
  destruct (loop_disconnected handler recv_fuel fuel slot k a c cut control w live q)
    as (e' & Hrun & Hok' & He & Ho); try done.
  eexists _, e', _, _. split; [exact Hrun|]. split; [|done].
  unfold released, closed.
  rewrite (proj2 (Z.eqb_neq _ _) Hfd), !trace_after. reflexivity.
Qed.

(** C18: a transfer, on every branch.  The source leaves epoll and its
    descriptor is sent to the destination in a SOCKET message.  If that
    succeeds, the source is closed and its slot released, once.  If it fails,
    the destination is closed and released; the source is watched again and
    kept, or, when epoll refuses it, closed and released too.  The report says
    which of the two connections are left. *)
Theorem transfer_outcomes {W} `{Platform W} k e src dst cs cd live q :
  src <> dst -> engine_ok e (src :: dst :: live) q -> (length q < 4094)%nat ->
  entry e src = Some cs -> entry e dst = Some cd ->
  let k1 := after (c_epoll_ctl_del (NetworkEngine.epollfd_ e) (fd_of cs)) k in
  let send := sending cd (socket_message (fd_of cs)) in
  let k2 := released e cd (after send k1) in
  let subscribe := c_epoll_ctl_add (NetworkEngine.epollfd_ e) (fd_of cs) src in
  exists report k' e',
    NetworkEngine.transfer (mkView dst) (mkView src) (k, e) = (Ret report, (k', e')) /\
    (answer send k1 <> -1 ->
       report = mkTransfer true true /\ k' = closed (fd_of cs) (after send k1) /\
       engine_ok e' (dst :: live) (q ++ [src]) /\
       entry e' src = Some (reset_entry cs) /\ entry e' dst = Some cd) /\
    (answer send k1 = -1 -> answer subscribe k2 <> -1 ->
       report = mkTransfer false true /\ engine_ok e' (src :: live) (q ++ [dst]) /\
       entry e' src = Some cs /\ entry e' dst = Some (reset_entry cd)) /\
    (answer send k1 = -1 -> answer subscribe k2 = -1 ->
       report = mkTransfer false false /\ engine_ok e' live (q ++ [dst; src]) /\
       entry e' src = Some (reset_entry cs) /\ entry e' dst = Some (reset_entry cd)).
Proof.
  intros Hne Hok Hq Hcs Hcd k1 send k2 subscribe.
  destruct (decide (answer send k1 = -1)) as [Hs|Hs].
  - destruct (transfer_failed k e src dst cs cd live q Hne Hok Hq Hcs Hcd Hs)
      as (k' & e' & Hrun & Hd & Hrest).
    fold k1 send k2 subscribe in Hrun, Hrest.
    eexists _, k', e'. split; [exact Hrun|].
    destruct (Z.eqb_spec (answer subscribe k2) (-1)) as [Hb|Hb]; destruct Hrest.
    + by split_and!.
    + by split_and!.
  - destruct (transfer_sent k e src dst cs cd live q Hne Hok ltac:(lia) Hcs Hcd Hs)
      as (e' & Hrun & Hok' & Hs' & Hd').
    eexists _, _, e'. split; [exact Hrun|]. by split_and!.
Qed.

(** C19: a broadcast reaches exactly the connections in use that the filter
    takes.  The [sendmsg] calls it makes are one to each of them, in the order
    of their slots, with its descriptor and the encoded message; [answers] is
    what they answered.  The report counts those that answered -1 as failed and
    the rest as delivered; exactly the connections whose call answered -1 are
    closed and their slots released, in that order, and the others stay as they
    are. *)
Theorem broadcast_reaches {W} `{Platform W} message filter k e live q :
  engine_ok e live q ->
  (forall s c, entry e s = Some c -> connection_type_ c <> end_point_e.NONE -> s ∈ live) ->
  (length q + Z.to_nat (ObjectPool.counter (NetworkEngine.connection_pool_ e)) <= 4095)%nat ->
  exists k' e' answers live',
    let slots := targets filter e (seqZ 0 (ObjectPool.counter (NetworkEngine.connection_pool_ e))) in
    let failed := lost slots answers in
    length answers = length slots /\
    NetworkEngine.send_message message filter (k, e)
      = (Ret (mkDelivery (Z.of_nat (length slots) - Z.of_nat (length failed))
                         (Z.of_nat (length failed))), (k', e')) /\
    sends (trace k') = rev (zip_with (attempt message) (fds_of e slots) answers) ++ sends (trace k) /\
    closings (trace k') = rev (open_fds (fds_of e failed)) ++ closings (trace k) /\
    live ≡ₚ failed ++ live' /\ engine_ok e' live' (q ++ failed) /\
    (forall slot, slot ∈ failed -> entry e' slot = reset_entry <$> entry e slot) /\
    (forall slot, slot ∉ failed -> entry e' slot = entry e slot).
Proof.
  intros Hok Hlive Hq. set (n := ObjectPool.counter _) in *.
  assert (wp (NetworkEngine.send_from (seqZ 0 n) message filter (mkDelivery 0 0))
            (broadcast_result message filter e (seqZ 0 n) live q (mkDelivery 0 0) k) (k, e)) as Hrun.
  { apply send_from_run; [apply NoDup_seqZ | | | done |].
    - intros s Hs%elem_of_seqZ. destruct Hok as (_ & _ & _ & _ & _ & Ho). apply Ho. unfold n in *. lia.
    - intros s _ Hw. destruct (wants_entry _ _ _ Hw) as (c & Hc & Ht & _).
      apply (Hlive s c Hc). by apply bool_decide_eq_true_1 in Ht.
    - rewrite length_seqZ. lia. }
  destruct Hrun as (answers & live' & Hlen & Hr & Hsf & Hcl & Hperm & Hok' & Hfail & Hkeep).
  unfold NetworkEngine.send_message.
  destruct (NetworkEngine.send_from _ _ _ _ (k, e)) as [r [k' e']] eqn:Es. cbn [fst snd] in *.
  exists k', e', answers, live'. cbn zeta. split; [done|]. split; [|done].
  erewrite bind_run by reflexivity. cbn [fst snd]. fold n. rewrite Es, Hr. done.
Qed.

(** Registering a descriptor never disturbs a connection in use.  On
    success it gets a slot nobody holds, an entry of the asked type that is
    alive, and an epoll registration with this slot; if epoll refuses, the
    descriptor is closed, the slot is released, and the error is returned; the
    call does not return only if 4097 connections are held or the kernel refuses
    memory.  No other entry changes. *)
Theorem register_connection_outcomes {W} `{Platform W} type fd k e live q :
  engine_ok e live q -> (length q < 4095)%nat ->
  wp (NetworkEngine.register_connection type fd) (register_post type fd e live q) (k, e).
Proof. apply register_correct. Qed.

(** *** Witnesses: an engine with a lobby in slot 0 and a client in slot 1 *)
Definition demo_entries : list ConnectionEntry :=
  [entry_of end_point_e.TO_LOBBY 7; entry_of end_point_e.TO_CLIENT 8].

Definition demo_pool_0 : Machine Script * ObjectPool.t ConnectionEntry :=
  match @MemoryManager.MemoryManager.init Script (scripted quiet_calls) 100 200 (script_of []) with
  | (Ret m, k) => (k, ObjectPool.mk 0 m AtomicQueue.empty ∅)
  | (_, k) => (k, ObjectPool.mk 0 (MemoryManager.MemoryManager.mk 0
                    (MemoryManager.AllocatorPool.mk 0 0 0 0 0 0 MemoryManager.RingBuffer.init))
                    AtomicQueue.empty ∅)
  end.
Definition demo_push (c : ConnectionEntry) (s : Machine Script * ObjectPool.t ConnectionEntry) :=
  (ObjectPool.push_to_pool (H := scripted quiet_calls)
     (H0 := @ConnectionEntry_pool_object Script (scripted quiet_calls)) c s).2.
Definition demo_pool_1 := demo_push (entry_of end_point_e.TO_LOBBY 7) demo_pool_0.
Definition demo_pool_2 := demo_push (entry_of end_point_e.TO_CLIENT 8) demo_pool_1.

Definition demo_engine : NetworkEngine.t :=
  NetworkEngine.mk demo_pool_2.2 3 AtomicQueue.empty AtomicQueue.empty.

Lemma demo_pool_runs :
  @pool_run Script ConnectionEntry (scripted quiet_calls)
    (@ConnectionEntry_pool_object Script (scripted quiet_calls)) 100 200 demo_pool_2.1 demo_pool_2.2 [1; 0] [].
Proof.
  apply (run_push 100 200 demo_pool_1.1 demo_pool_1.2 [0] [] (entry_of end_point_e.TO_CLIENT 8));
    [|vm_compute; reflexivity].
  apply (run_push 100 200 demo_pool_0.1 demo_pool_0.2 [] [] (entry_of end_point_e.TO_LOBBY 7));
    [|vm_compute; reflexivity].
  apply (run_init 100 200 _ _ (script_of []));
    [intros w; vm_compute; reflexivity | vm_compute; reflexivity].
Qed.

Lemma demo_engine_ok : engine_ok demo_engine [1; 0] [].
Proof. exact (run_ok 100 200 _ _ _ _ demo_pool_runs). Qed.

(** With no slot released every entry is in use. *)
Lemma engine_ok_live e live s c : engine_ok e live [] -> entry e s = Some c -> s ∈ live.
Proof.
  intros (_ & _ & _ & _ & Hi & Ho) Hc. rewrite app_nil_r in Hi. apply Hi, Ho. by exists c.
Qed.

Lemma demo_lobby : entry demo_engine 0 = Some (entry_of end_point_e.TO_LOBBY 7).
Proof. vm_compute. reflexivity. Qed.
Lemma demo_client : entry demo_engine 1 = Some (entry_of end_point_e.TO_CLIENT 8).
Proof. vm_compute. reflexivity. Qed.

(** An application that keeps a log of the messages it is given. *)
#[local] Program Instance logging_app : HasEngine (NetworkEngine.t * list string) := {
  engine := fst;
  set_engine e a := (e, a.2)
}.
Next Obligation. done. Qed.
Next Obligation. by intros []. Qed.
Next Obligation. done. Qed.

#[local] Instance quiet_script : Platform Script := scripted quiet_calls.

(** A handler that answers every message and keeps what it says. *)
Definition log_and_answer (ctx : ActionContext) : SM Script (NetworkEngine.t * list string) ActionResult :=
  lift (do_call (c_sendmsg 7 [] None)) ;;;
  modify (fun s => (s.1, (s.2.1, s.2.2 ++ [payload (context_message ctx)]))) ;;;
  ret keep.

Lemma log_and_answer_keeps m : keeps_connection log_and_answer 1 (fun _ => True) m.
Proof. intros k a c _ Hc. eexists _, _. split; [reflexivity|]. by split_and!. Qed.

Lemma process_connection_delivers_witness :
  exists k' a' c',
    process_connection log_and_answer 4 5 (mkView 1) (script_of three_answers, (demo_engine, []))
      = (Ret None, (after (c_epoll_ctl_mod 3 8 1) k', a')) /\
    handed log_and_answer 1 4 (delivery three_pieces) (script_of three_answers, (demo_engine, [])) (k', a') /\
    True /\ entry (engine a') 1 = Some c' /\ same_socket (entry_of end_point_e.TO_CLIENT 8) c' /\
    waits (W := Script) (receiver c') [].
Proof.
  apply (@process_connection_delivers Script _ quiet_script logging_app log_and_answer (fun _ => True)
           3 5 1 (script_of three_answers) (demo_engine, []) (entry_of end_point_e.TO_CLIENT 8) [] three_pieces).
  - done.
  - apply Forall_true, log_and_answer_keeps.
  - exact I.
  - exact demo_client.
  - reflexivity.
  - apply new_coroutine_waits.
  - apply HEADER_SIZE_pos.
  - repeat constructor.
  - apply pieces_arrive.
  - intros k. vm_compute. discriminate.
  - simpl. lia.
  - simpl. lia.
Defined.

Definition refuse (ctx : ActionContext) : SM Script (NetworkEngine.t * list string) ActionResult :=
  ret (keep_with_error (new_error "refused")).

Definition hi_twice : list recv_answer :=
  [Received (@stream Script (scripted quiet_calls) [hi; hi] []) None].

Lemma keep_error_stalls_witness :
  @stalled Script (scripted quiet_calls) _ logging_app refuse 1 1 1 (script_of hi_twice)
    (demo_engine, []) end_point_e.TO_CLIENT 8 None hi [hi] [].
Proof.
  apply (@keep_error_stalls Script _ (scripted quiet_calls) logging_app refuse 0 0 1
           (script_of hi_twice) (demo_engine, []) end_point_e.TO_CLIENT 8 hi [hi] [] None
           (world (script_of [])) (new_error "refused")).
  - done.
  - exact demo_client.
  - exact I.
  - reflexivity.
  - apply Nat.leb_le. vm_compute. reflexivity.
Defined.

Lemma disconnect_releases_witness :
  exists k' e' r1 r2,
    @process_connection Script (scripted quiet_calls) _ logging_app refuse 1 2 (mkView 1)
        (script_of [Received [] None], (demo_engine, []))
      = (Ret None, (k', set_engine e' (demo_engine, []))) /\
    trace k' = Called (c_close 8) r2 :: Called (c_epoll_ctl_del 3 8) r1 ::
               CalledRecvmsg 8 (room []) :: [] /\
    engine_ok e' [0] [1] /\
    entry e' 1 = Some (mkEntry end_point_e.NONE default_handler 1) /\
    (forall s, s <> 1 -> entry e' s = entry demo_engine s).
Proof.
  apply (@disconnect_releases Script _ (scripted quiet_calls) logging_app refuse
           0 0 1 (script_of [Received [] None]) (demo_engine, [])
           (entry_of end_point_e.TO_CLIENT 8) [] None (world (script_of [])) [0] []).
  - exact demo_client.
  - reflexivity.
  - discriminate.
  - apply new_coroutine_waits.
  - apply HEADER_SIZE_pos.
  - reflexivity.
  - exact demo_engine_ok.
  - simpl. lia.
Defined.

(** Both [sendmsg] and [epoll_ctl] to add fail. *)
Definition refusing_calls (c : call) : Z * Z :=
  match c with
  | c_sendmsg _ _ _ => (-1, 32)
  | c_epoll_ctl_add _ _ _ => (-1, 12)
  | _ => quiet_calls c
  end.

Lemma transfer_outcomes_witness :
  let k := script_of [] in
  let H := scripted refusing_calls in
  let cs := entry_of end_point_e.TO_CLIENT 8 in
  let cd := entry_of end_point_e.TO_LOBBY 7 in
  let k1 := after (c_epoll_ctl_del 3 8) k in
  let send := sending cd (socket_message 8) in
  let k2 := released demo_engine cd (after send k1) in
  let subscribe := c_epoll_ctl_add 3 8 1 in
  exists report k' e',
    NetworkEngine.transfer (mkView 0) (mkView 1) (k, demo_engine) = (Ret report, (k', e')) /\
    (answer send k1 <> -1 ->
       report = mkTransfer true true /\ k' = closed 8 (after send k1) /\
       engine_ok e' [0] [1] /\ entry e' 1 = Some (reset_entry cs) /\ entry e' 0 = Some cd) /\
    (answer send k1 = -1 -> answer subscribe k2 <> -1 ->
       report = mkTransfer false true /\ engine_ok e' [1] [0] /\
       entry e' 1 = Some cs /\ entry e' 0 = Some (reset_entry cd)) /\
    (answer send k1 = -1 -> answer subscribe k2 = -1 ->
       report = mkTransfer false false /\ engine_ok e' [] [0; 1] /\
       entry e' 1 = Some (reset_entry cs) /\ entry e' 0 = Some (reset_entry cd)).
Proof.
  apply (@transfer_outcomes Script (scripted refusing_calls) (script_of []) demo_engine 1 0
           (entry_of end_point_e.TO_CLIENT 8) (entry_of end_point_e.TO_LOBBY 7) [] []).
  - discriminate.
  - exact demo_engine_ok.
  - simpl. lia.
  - exact demo_client.
  - exact demo_lobby.
Defined.

Definition any_connection (m : ConnectionMeta) : bool := true.

Lemma broadcast_reaches_witness :
  let H := scripted refusing_calls in
  exists k' e' answers live',
    let slots := targets any_connection demo_engine
                   (seqZ 0 (ObjectPool.counter (NetworkEngine.connection_pool_ demo_engine))) in
    let failed := lost slots answers in
    length answers = length slots /\
    NetworkEngine.send_message hi any_connection (script_of [], demo_engine)
      = (Ret (mkDelivery (Z.of_nat (length slots) - Z.of_nat (length failed))
                         (Z.of_nat (length failed))), (k', e')) /\
    sends (trace k') = rev (zip_with (attempt hi) (fds_of demo_engine slots) answers) ++ [] /\
    closings (trace k') = rev (open_fds (fds_of demo_engine failed)) ++ [] /\
    [1; 0] ≡ₚ failed ++ live' /\ engine_ok e' live' ([] ++ failed) /\
    (forall slot, slot ∈ failed -> entry e' slot = reset_entry <$> entry demo_engine slot) /\
    (forall slot, slot ∉ failed -> entry e' slot = entry demo_engine slot).
Proof.
  apply (@broadcast_reaches Script (scripted refusing_calls) hi any_connection (script_of [])
           demo_engine [1; 0] []).
  - exact demo_engine_ok.
  - intros s c Hc _. exact (engine_ok_live _ _ _ _ demo_engine_ok Hc).
  - apply Nat.leb_le. vm_compute. reflexivity.
Defined.

Lemma register_connection_outcomes_witness :
  wp (@NetworkEngine.register_connection Script (scripted refusing_calls) end_point_e.TO_CLIENT 9)
     (register_post end_point_e.TO_CLIENT 9 demo_engine [1; 0] []) (script_of [], demo_engine).
Proof.
  apply (@register_connection_outcomes Script (scripted refusing_calls) end_point_e.TO_CLIENT 9
           (script_of []) demo_engine [1; 0] []).
  - exact demo_engine_ok.
  - simpl. lia.
Defined.
