(* ===== verification/Wire.v ===== *)
(** * What a process sends and what it is delivered

    The trace of a machine says what has gone out on each descriptor
    ([sent_on]); which calls a registration makes, and that receiving makes
    none, keep track of it across the engine's operations.  [carried] ties two
    processes together: the pieces one is delivered hold what the other has
    sent.  [steady], [watches] and [takes] are what the theorems on several
    processes ask of the kernel. *)
From S2P Require Import Prelude.
From S2P Require Import Ring.
From S2P Require Import CString.
From S2P Require Import Platform.
From S2P Require Import MemoryManager.
From S2P Require Import AtomicQueue.
From S2P Require Import ObjectPool.
From S2P Require Import Utility.
From S2P Require Import Protocol.
From S2P Require Import Dispatcher.
From S2P Require Import Socket.
From S2P Require Import Framing.
From S2P Require Import Network.
From S2P Require Import Engine.

#[local] Open Scope Z_scope.
#[local] Open Scope bsm_scope.

(** ** What a process has sent *)
Section Sent.
Context {W : Type} `{Platform W}.
Implicit Types (k : Machine W) (c : ConnectionEntry).

(** A message as [sendmsg] takes it. *)
Definition wire (m : OutgoingMessage) : list Byte.byte * option Z := (encode m, out_socket m).

(** What the outside notices of a process: what it sends and what it prints. *)
Inductive output :=
| Sent (fd : Z) (message : list Byte.byte * option Z)
| Shown (text : string).

Definition output_of (e : event) : option output :=
  match e with
  | Called (c_sendmsg fd data rights) r => if r =? -1 then None else Some (Sent fd (data, rights))
  | Printed text => Some (Shown text)
  | _ => None
  end.

(** All of it, oldest first, and what has gone out on a descriptor. *)
Definition said (k : Machine W) : list output := reverse (omap output_of (trace k)).

Definition sent_to (fd : Z) (o : output) : option (list Byte.byte * option Z) :=
  match o with Sent fd' message => if fd' =? fd then Some message else None | Shown _ => None end.
Definition sent_on (fd : Z) (k : Machine W) : list (list Byte.byte * option Z) := omap (sent_to fd) (said k).

Definition is_sendmsg (x : call) : bool := match x with c_sendmsg _ _ _ => true | _ => false end.

Lemma said_after x k : is_sendmsg x = false -> said (after x k) = said k.
Proof. intros Hx. unfold said. rewrite trace_after. cbn. by destruct x. Qed.

Lemma said_sending c m k :
  answer (sending c m) k <> -1 -> said (after (sending c m) k) = said k ++ [Sent (fd_of c) (wire m)].
Proof.
  intros Ha. unfold said. rewrite trace_after. cbn. rewrite (proj2 (Z.eqb_neq _ _) Ha). apply reverse_cons.
Qed.

Lemma sent_on_said fd k k' l : said k' = said k ++ l -> sent_on fd k' = sent_on fd k ++ omap (sent_to fd) l.
Proof. intros Hl. unfold sent_on. by rewrite Hl, omap_app. Qed.

Lemma sent_on_after fd x k : is_sendmsg x = false -> sent_on fd (after x k) = sent_on fd k.
Proof. intros Hx. unfold sent_on. by rewrite said_after. Qed.

Lemma sent_on_closed fd fd' k : sent_on fd (closed fd' k) = sent_on fd k.
Proof. unfold closed. destruct (fd' =? -1); [done|]. by apply sent_on_after. Qed.

Lemma sent_on_sending fd c m k :
  answer (sending c m) k <> -1 ->
  sent_on fd (after (sending c m) k) = sent_on fd k ++ (if fd_of c =? fd then [wire m] else []).
Proof.
  intros Ha. rewrite (sent_on_said _ _ _ _ (said_sending c m k Ha)). cbn. by destruct (fd_of c =? fd).
Qed.
End Sent.

(** ** The calls of a registration *)
Section Registered.
Context {W : Type} `{Platform W}.
Implicit Types (k : Machine W) (e : NetworkEngine.t) (live q : list Z).

(** [push_to_pool] makes at most one call: it grows the pool, or it closes what
    a slot that had been released still held. *)
Inductive pushed q k : Machine W -> Prop :=
| pushed_nothing : pushed q k k
| pushed_grows address length : pushed q k (after (c_mprotect address length) k)
| pushed_closes fd : q <> [] -> pushed q k (after (c_close fd) k).

Lemma pushed_sent q k k' fd : pushed q k k' -> sent_on fd k' = sent_on fd k.
Proof. by intros []; rewrite ?sent_on_after. Qed.

Lemma grow_calls k a s :
  AllocatorPool.grow (k, a) = (Ret tt, s) -> exists address length, s.1 = after (c_mprotect address length) k.
Proof.
  unfold AllocatorPool.grow, AllocatorPool.allocate_new_node, lift, local_state, zoom, bind, gets, modify, ret.
  cbn. destruct (0 <? _); [|done]. cbn. rewrite call_run. destruct (answer _ k =? -1); [done|].
  cbn. intros [= <-]. by do 2 eexists.
Qed.

Lemma allocate_calls k a r s :
  AllocatorPool.allocate (k, a) = (Ret r, s) -> pushed [] k s.1.
Proof.
  unfold AllocatorPool.allocate, bind, local_state at 1, zoom at 1. cbn [fst snd].
  destruct (AllocatorPool.on_queue RingBuffer.try_pop a) as [[free|h] a1]; [|done]. cbn.
  destruct free as [i|]; [intros [= <- <-]; constructor|].
  destruct (RING_BUFFER_SIZE <? _); [intros [= <- <-]; constructor|].
  destruct (_ <=? _); [|intros [= <- <-]; constructor].
  destruct (AllocatorPool.grow (k, a1)) as [[[]|h] [k1 a2]] eqn:Eg; [|done].
  destruct (grow_calls _ _ _ Eg) as (address & length & Hk). cbn in Hk. subst k1.
  intros [= <- <-]. constructor.
Qed.

Lemma move_entry_calls old other k :
  move_entry other (k, old) =
    (Ret tt, (if fd_of old =? -1 then k else after (c_close (fd_of old)) k, moved_entry old other)).
Proof.
  destruct old as [ot [ofd oh os] og], other as [t [fd h st] g].
  unfold move_entry, on_socket, move_assign, close_socket, destroy_co_handle, destroy, run_with, fd_of,
    lift, local_state, focus, zoom, bind, modify, gets, ret. cbn.
  destruct (ofd =? -1); [done|]. cbn. by rewrite call_run.
Qed.

Lemma push_calls c k p live q slot s :
  ObjectPool.ok p live q -> ObjectPool.push_to_pool c (k, p) = (Ret slot, s) -> pushed q k s.1.
Proof.
  intros Hok. unfold ObjectPool.push_to_pool. destruct q as [|free q].
  - rewrite (bind_run _ _ _ _ _ (pop_ok_empty k p live Hok)). unfold bind at 1, focus, zoom. cbn [fst snd].
    unfold MemoryManager.allocate, focus, zoom. cbn [fst snd].
    destruct (AllocatorPool.allocate _) as [[r|h] [k1 a1]] eqn:Ea; [|done].
    pose proof (allocate_calls _ _ _ _ Ea) as Hk. cbn in Hk |- *.
    destruct r as [r|]; [|done]. cbn. by intros [= <- <-].
  - destruct (pop_ok k p live free q Hok) as (q' & Hp & _).
    rewrite (bind_run _ _ _ _ _ (pop_slot_run k p _ _ Hp)).
    destruct (ObjectPool.objects p !! free) as [old|] eqn:Ho;
      [|by erewrite bind_halts by (apply get_object_missing; exact Ho)].
    erewrite bind_run by (apply get_object_run; exact Ho).
    assert (assign_entry old c k = (Ret (moved_entry old c),
      if fd_of old =? -1 then k else after (c_close (fd_of old)) k)) as Hm
      by (unfold assign_entry, run_with, bind; by rewrite move_entry_calls).
    erewrite bind_run by (apply lift_run; exact Hm). intros [= <- <-]. cbn.
    destruct (fd_of old =? -1); by constructor.
Qed.

(** [e'] is [e] with the descriptor in the slot, the one released longest ago. *)
Definition seated (type : end_point_e.t) (fd : Z) e live q (slot : Z) e' : Prop :=
  slot = default slot (head q) /\ (slot ∉ live) /\ engine_ok e' (slot :: live) (tail q) /\
  NetworkEngine.epollfd_ e' = NetworkEngine.epollfd_ e /\
  (exists c, entry e' slot = Some c /\ connection_type_ c = type /\ fd_of c = fd /\
     is_socket_alive (socket_handler_ c) = true) /\
  (forall s, s <> slot -> entry e' s = entry e s).

(** [epoll_ctl] never refuses the descriptor. *)
Definition watches (epfd fd : Z) : Prop :=
  forall k slot, answer (c_epoll_ctl_add epfd fd slot) k <> -1.

Lemma register_watched type fd k e live q :
  engine_ok e live q -> (length q < 4095)%nat -> watches (NetworkEngine.epollfd_ e) fd ->
  match NetworkEngine.register_connection type fd (k, e) with
  | (Ret r, (k', e')) => exists slot k1, r = inl slot /\ seated type fd e live q slot e' /\
      pushed q k k1 /\ k' = after (c_epoll_ctl_add (NetworkEngine.epollfd_ e) fd slot) k1
  | (Halt h, _) => q = [] /\ (h = Terminated \/ h = Undefined /\ length live = 4097%nat)
  end.
Proof.
  intros Hok Hq Hw. unfold NetworkEngine.register_connection.
  pose proof (on_pool_push type fd k e live q Hok) as Hp. unfold wp in Hp.
  destruct (NetworkEngine.on_pool _ _) as [[r|h] [k1 e1]] eqn:Epush; cbn [fst snd] in Hp.
  - destruct Hp as (p & -> & Hpost). destruct r as [slot|]; [|done].
    assert (pushed q k k1) as Hk1.
    { unfold NetworkEngine.on_pool, focus, zoom in Epush. cbn in Epush.
      destruct (ObjectPool.push_to_pool _ _) as [r [k2 p2]] eqn:Ep. injection Epush as -> -> _.
      exact (push_calls _ _ _ _ _ _ _ Hok Ep). }
    destruct (pushed_entry type fd e live q _ slot Hpost) as (Hni & Hok1 & Hfd1 & (c & Hc & Ht & Hfd & Ha & _) & Ho).
    destruct Hpost as (o & _ & _ & _ & Hslot).
    cbn [fst snd] in *. rewrite (bind_run _ _ _ _ _ Epush).
    destruct (subscribe_run slot k1 (NetworkEngine.set_pool p e) c Hc) as (rs & Hsub & Hiff).
    rewrite Hfd in *. rewrite (bind_run _ _ _ _ _ Hsub).
    rewrite (proj2 Hiff (Hw _ _)). cbn. exists slot, k1. unfold seated. split_and!; try done; [|by exists c].
    by destruct q; [|destruct Hslot].
  - destruct Hp as (p & -> & Hpost). rewrite (bind_halts _ _ _ _ _ Epush).
    destruct h; destruct Hpost as [Hx Hy]; try discriminate Hx;
      [split; [apply Hy | by left] | split; [exact Hx | by right]].
Qed.

Lemma attach_watched type fd k e live q :
  engine_ok e live q -> (length q < 4095)%nat -> watches (NetworkEngine.epollfd_ e) fd ->
  match NetworkEngine.attach_socket fd type (k, e) with
  | (Ret r, (k', e')) => exists slot k1, r = inl (mkView slot) /\ seated type fd e live q slot e' /\
      pushed q k k1 /\ k' = after (c_epoll_ctl_add (NetworkEngine.epollfd_ e) fd slot) k1
  | (Halt h, _) => q = [] /\ (h = Terminated \/ h = Undefined /\ length live = 4097%nat)
  end.
Proof.
  intros Hok Hq Hw. pose proof (register_watched type fd k e live q Hok Hq Hw) as Hr.
  unfold NetworkEngine.attach_socket, bind. destruct (NetworkEngine.register_connection _ _ _) as [[r|h] [k1 e1]]; [|done].
  by destruct Hr as (slot & k0 & -> & Hr); exists slot, k0.
Qed.
End Registered.

(** ** Receiving says nothing *)
Section Silent.
Context {W : Type} `{Platform W}.

Definition silent {T A} (m : SM W T A) : Prop := forall x, preserves (fun s => said s.1 = x) m.

Lemma silent_bind {T A B} (m : SM W T A) (k : A -> SM W T B) :
  silent m -> (forall a, silent (k a)) -> silent (bind m k).
Proof. intros Hm Hk x. apply preserves_bind; [apply Hm | intros a; apply Hk]. Qed.

Lemma silent_ret {T A} (a : A) : silent (ret (S := Machine W * T) a).
Proof. by intros x s. Qed.

Lemma silent_stop {T A} h : silent (stop (S := Machine W * T) (A := A) h).
Proof. by intros x s. Qed.

Lemma silent_local {T A} (m : M T A) : silent (local_state m).
Proof. intros x [k t] Hk. unfold local_state, zoom. cbn in *. by destruct (m t). Qed.

Lemma silent_LOG {T} message : silent (lift (T := T) (LOG message)).
Proof. by intros x [k t] Hk. Qed.

Lemma silent_error {T} message : silent (lift (T := T) (make_error_c message)).
Proof. by intros x [k t] Hk. Qed.

Lemma silent_recvmsg {T} fd' len : silent (lift (T := T) (do_recvmsg fd' len)).
Proof.
  intros x [k t] Hk. unfold lift, zoom, do_recvmsg. cbn. destruct (sys_recvmsg _ _ _) as [r w]. cbn.
  by destruct r.
Qed.
End Silent.
Create HintDb silent.
#[export] Hint Resolve silent_ret silent_stop silent_local silent_LOG silent_error silent_recvmsg : silent.

Ltac silent_step :=
  lazymatch goal with
  | |- silent (bind _ _) => apply silent_bind; [|intros ?]
  | |- silent (match ?x with _ => _ end) => destruct x
  | |- silent (let '(_, _) := ?x in _) => destruct x
  | _ => solve [eauto with silent]
  end.
Ltac silent := intros; cbv zeta; repeat silent_step.

Section Receiving.
Context {W : Type} `{Platform W}.

Lemma end_of_batch_silent (continue : list Byte.byte -> Z -> SM W SocketHandler (signal * Socket.coroutine)) buffer free b :
  (forall buffer free, silent (continue buffer free)) -> silent (end_of_batch continue buffer free b).
Proof. intros Hc. unfold end_of_batch. silent. Qed.

Lemma receive_loop_silent fuel : forall buffer free, silent (receive_loop fuel buffer free).
Proof.
  induction fuel as [|fuel IH]; intros buffer free; cbn [receive_loop]; silent.
  by apply end_of_batch_silent.
Qed.

Lemma get_message_silent fuel : silent (get_message fuel).
Proof.
  unfold get_message, resume, destroy_co_handle. silent; [|by apply end_of_batch_silent, receive_loop_silent].
  apply receive_loop_silent.
Qed.

Lemma get_message_said fuel k h r k' h' : get_message fuel (k, h) = (r, (k', h')) -> said k' = said k.
Proof. intros Hg. pose proof (get_message_silent fuel (said k) (k, h) eq_refl) as Hs. by rewrite Hg in Hs. Qed.
End Receiving.

(** ** What is still to arrive *)
Section Arriving.
Context {W : Type} `{Platform W}.
Implicit Types (k : Machine W).

(** No call takes away what is still to arrive on a descriptor, but for
    [close]. *)
Definition steady (fd : Z) : Prop :=
  forall x pre w pieces, x <> c_close fd -> arrives fd pre w pieces -> arrives fd pre (sys_call x w).2 pieces.

Lemma world_after x k : world (after x k) = (sys_call x (world k)).2.
Proof. unfold after, do_call. by destruct (sys_call x _) as [[n e] w]. Qed.

Lemma expects_after fd n co x k l rest :
  steady fd -> x <> c_close fd -> expects fd n co (world k) l rest -> expects fd n co (world (after x k)) l rest.
Proof.
  intros Hs Hx (control & ms & cut & pieces & ? & ? & Ha & ?). exists control, ms, cut, pieces.
  rewrite world_after. split_and!; try tauto. by apply Hs.
Qed.

Lemma expects_pushed fd n co k k' l rest :
  steady fd -> pushed [] k k' -> expects fd n co (world k) l rest -> expects fd n co (world k') l rest.
Proof. intros Hs [] He; [done | by apply expects_after | done]. Qed.

(** The kernel sends whatever the descriptor is given. *)
Definition takes (fd : Z) : Prop := forall data rights k, answer (c_sendmsg fd data rights) k <> -1.
End Arriving.

(** ** Serving a connection by speaking

    The loop of [process_connection] on a handler that answers a message by
    saying something, and leaves the application as it is. *)
Section Speaking.
Context {W A : Type} `{Platform W} `{HasEngine A}.
Context (handler : ActionContext -> SM W A ActionResult) (slot : Z).
Context (P : A -> Prop) (says : ReceivedMessage -> list output).

Definition speaks (fd : Z) (m : ReceivedMessage) : Prop := forall (k : Machine W) (a : A), P a ->
  exists k', handler (mkContext (mkView slot) m) (k, a) = (Ret keep, (k', a)) /\
    said k' = said k ++ says m /\
    forall n co l rest, expects fd n co (world k) l rest -> expects fd n co (world k') l rest.

Context (P_served : forall x c a, P a -> entry (engine a) slot = Some c ->
  P (with_handler slot (set_handle x (socket_handler_ c)) c a)).

Lemma loop_speaks fd n rest ms : forall (k : Machine W) (a : A) c fuel,
  Forall (speaks fd) ms -> P a -> entry (engine a) slot = Some c -> is_socket_alive (socket_handler_ c) = true ->
  fd_of c = fd -> expects fd n (receiver c) (world k) ms rest ->
  (forall k, answer (c_epoll_ctl_mod (NetworkEngine.epollfd_ (engine a)) fd slot) k <> -1) ->
  (length ms + 2 <= fuel)%nat ->
  exists k' c' r, process_loop handler (S n) fuel slot CONTINUE (k, a)
      = (Ret None, (k', set_engine (set_entry slot c' (engine a)) a)) /\
    same_socket c c' /\ waits (receiver c') rest /\ said k' = said k ++ (ms ≫= says) /\
    head (trace k') = Some (Called (c_epoll_ctl_mod (NetworkEngine.epollfd_ (engine a)) fd slot) r).
Proof using P_served.
  induction ms as [|m ms IH]; intros k a c fuel Hms HP Hc Ha Hfd He Hx Hfuel; subst fd;
    destruct (get_message_next n k (socket_handler_ c) _ _ He) as (k' & co & Hget & Hgo).
  - destruct fuel as [|[|fuel]]; [simpl in Hfuel; lia..|].
    eexists _, _, _. split; [by apply (loop_drained _ _ _ _ _ _ _ (Some co) k' Hc Ha Hget)|].
    split; [done|]. split; [exact Hgo|]. split; [|by rewrite trace_after].
    rewrite said_after, (get_message_said _ _ _ _ _ _ Hget) by done. by rewrite app_nil_r.
  - destruct Hgo as [Hst Hgo]. destruct fuel as [|fuel]; [simpl in Hfuel; lia|]. apply Forall_cons in Hms as [Hm Hms].
    set (h1 := set_handle (Some co) (socket_handler_ c)) in *. set (a1 := with_handler slot h1 c a).
    destruct (Hm (record_event (Logged (payload m)) k') a1) as (k2 & Hrun & Hsaid & Hkeep); [by apply P_served|].
    destruct (IH k2 a1 (set_socket_handler h1 c) fuel) as (k3 & c3 & r & Hrun3 & Hsame & Hw & Hsaid3 & Hhead); try done.
    + by apply P_served.
    + apply entry_with_handler.
    + by apply Hkeep.
    + unfold a1, with_handler. by rewrite engine_set_engine.
    + simpl in Hfuel. lia.
    + assert (engine a1 = set_entry slot (set_socket_handler h1 c) (engine a)) as Ha1 by apply engine_set_engine.
      exists k3, c3, r. split_and!; [|done..| |].
      * rewrite (loop_hands_on _ _ _ _ _ _ _ _ _ _ Hc Ha Hst Hget). fold a1. rewrite Hrun.
        erewrite bind_run by reflexivity. cbn. rewrite Hrun3, Ha1, set_entry_twice.
        unfold a1, with_handler. by rewrite set_engine_twice.
      * rewrite Hsaid3, Hsaid, bind_cons, app_assoc. f_equal. change (said (record_event _ k')) with (said k').
        by rewrite (get_message_said _ _ _ _ _ _ Hget).
      * rewrite Ha1 in Hhead. exact Hhead.
Qed.
End Speaking.

(** ** From one process to another *)
Lemma wire_inj {W W'} `{Platform W} `{Platform W'} m m' :
  message_type_e.valid (out_type m) -> message_type_e.valid (out_type m') ->
  wire (W := W) m = wire (W := W') m' -> m = m'.
Proof.
  intros Hv Hv' Hw. pose proof (f_equal fst Hw) as Hb. pose proof (f_equal snd Hw) as Hs.
  destruct m as [p t s], m' as [p' t' s']. cbn [wire fst snd out_socket out_type] in *. subst s'. f_equal.
  - apply (f_equal (fun b => String.string_of_list_byte (drop HEADER_SIZE b))) in Hb.
    rewrite !encode_split, !drop_app_length' in Hb by (by rewrite length_encode_header).
    unfold body in Hb. by rewrite !String.string_of_list_byte_of_string in Hb.
  - pose proof (decode_encode (W := W) (mkOutgoing p t s) [] Hv) as Ht.
    rewrite Hb in Ht. rewrite (decode_encode (mkOutgoing p' t' s) [] Hv') in Ht. by symmetry.
Qed.

(** The pieces a process is delivered hold what another has sent, and where the
    other has sent a descriptor, it is given one of its own for it. *)
Definition carried {W} `{Platform W} (rename : Z -> Z) (sent : list (list Byte.byte * option Z)) (pieces : list piece) : Prop :=
  let ms := pieces ≫= piece_messages in
  valid_messages ms /\ sent = wire <$> ms /\
  Forall2 (fun m r => match out_socket m with Some fd => socket r = Some (rename fd) | None => True end)
    ms (delivery pieces).

Lemma delivery_messages pieces :
  Forall2 (fun m r => r = mkReceived message_status_e.DATA (out_type m) (out_payload m) (socket r))
    (pieces ≫= piece_messages) (delivery pieces).
Proof.
  induction pieces as [|p pieces IH]; [constructor|]. unfold delivery. rewrite !bind_cons. apply Forall2_app; [|exact IH].
  induction (piece_messages p); constructor; done.
Qed.

Lemma carried_messages {W W'} `{Platform W} `{Platform W'} rename ms pieces :
  valid_messages ms -> carried (W := W') rename (wire (W := W) <$> ms) pieces -> pieces ≫= piece_messages = ms.
Proof.
  intros Hvs (Hv & Hs & _). revert Hs Hv Hvs. generalize (pieces ≫= piece_messages). clear. intros l. revert ms.
  induction l as [|m' l IH]; intros [|m ms]; try done.
  rewrite !fmap_cons. intros Hw [Hm' Hv']%Forall_cons [Hm Hv]%Forall_cons.
  pose proof (f_equal tail Hw) as Hl. apply (f_equal head) in Hw. cbn [head tail] in Hw, Hl.
  f_equal; [|by apply IH]. apply (wire_inj (W := W') (W' := W)); [done..|]. congruence.
Qed.

(** What a process is delivered of the messages another has sent. *)
Lemma carried_delivery {W W'} `{Platform W} `{Platform W'} rename ms pieces :
  valid_messages ms -> carried (W := W') rename (wire (W := W) <$> ms) pieces ->
  Forall2 (fun m r => r = mkReceived message_status_e.DATA (out_type m) (out_payload m) (socket r) /\
      match out_socket m with Some fd => socket r = Some (rename fd) | None => True end) ms (delivery pieces).
Proof.
  intros Hvs Hc. pose proof (carried_messages rename ms pieces Hvs Hc) as Hms.
  destruct Hc as (_ & _ & Hr). pose proof (delivery_messages pieces) as Hd. rewrite Hms in Hr, Hd.
  clear -Hr Hd. induction Hd; inversion Hr; subst; constructor; auto.
Qed.
