(* ===== verification/DeferredActions.v ===== *)
(** * [net/deferred_actions]: work on the engine put off until later

    An action is prepared when it is scheduled and executed by [flush].  The
    virtual functions of [DeferredAction] are the fields of a record.  Nothing
    in the repository makes such an action yet. *)
From S2P Require Import Prelude.
From S2P Require Import Platform.
From S2P Require Import Network.

#[local] Open Scope Z_scope.
#[local] Open Scope bsm_scope.

Record DeferredAction (W : Type) := mkDeferred {
  prepare : SM W NetworkEngine.t unit;
  execute : SM W NetworkEngine.t unit
}.
Arguments mkDeferred {W} _ _.
Arguments prepare {W} _.
Arguments execute {W} _.

(** One call after the other. *)
Fixpoint each {S A} (f : A -> M S unit) (l : list A) : M S unit :=
  match l with
  | [] => ret tt
  | x :: rest => f x ;;; each f rest
  end.

Module DeferredActions.
Section DeferredActions.
Context {W : Type}.

(** [actions_] *)
Abbreviation t := (list (DeferredAction W)).

(** The engine is the argument of every call. *)
Abbreviation DM A := (SM W (NetworkEngine.t * t) A).
Definition on_network {A} (m : SM W NetworkEngine.t A) : DM A := focus fst (fun e s => (e, s.2)) m.
Definition set_actions (actions : t) (s : NetworkEngine.t * t) : NetworkEngine.t * t := (s.1, actions).

Definition schedule (action : DeferredAction W) : DM unit :=
  on_network (prepare action) ;;;
  local_state (modify (fun s => set_actions (s.2 ++ [action]) s)).

Definition flush : DM unit :=
  let* actions := local_state (gets snd) in
  each (fun action => on_network (execute action)) actions ;;;
  local_state (modify (set_actions [])).
End DeferredActions.
End DeferredActions.

(** ** Lemmas *)
Section Deferred.
Context {W : Type}.
Import DeferredActions.
Implicit Types (k : Machine W) (e : NetworkEngine.t) (actions : list (DeferredAction W)).

(** What a run on the engine does to the engine and the vector. *)
Definition with_actions {A} (pending : list (DeferredAction W)) (r : outcome A * (Machine W * NetworkEngine.t))
    : outcome A * (Machine W * (NetworkEngine.t * list (DeferredAction W))) :=
  (r.1, (r.2.1, (r.2.2, pending))).

Lemma on_network_run {A} (m : SM W NetworkEngine.t A) k e pending :
  on_network m (k, (e, pending)) = with_actions pending (m (k, e)).
Proof. unfold on_network, focus, zoom. cbn. by destruct (m (k, e)) as [r [k' e']]. Qed.

Lemma each_on_network {X} (f : X -> SM W NetworkEngine.t unit) l : forall k e pending,
  each (fun x => on_network (f x)) l (k, (e, pending)) = with_actions pending (each f l (k, e)).
Proof.
  induction l as [|x l IH]; intros k e pending; [done|]. cbn [each]. unfold bind at 1 2.
  rewrite on_network_run. destruct (f x (k, e)) as [[[]|h] [k' e']]; [apply IH | done].
Qed.

Lemma schedule_all actions : forall k e pending,
  exists left, each schedule actions (k, (e, pending)) = with_actions left (each prepare actions (k, e)) /\
    ((each prepare actions (k, e)).1 = Ret tt -> left = pending ++ actions).
Proof.
  induction actions as [|x l IH]; intros k e pending; [exists pending; by rewrite app_nil_r|].
  cbn [each]. unfold schedule, bind. rewrite on_network_run.
  destruct (prepare x (k, e)) as [[[]|h] [k' e']]; [|by exists pending]. cbn.
  destruct (IH k' e' (pending ++ [x])) as (left & Hrun & Hleft). exists left.
  unfold schedule, bind in Hrun. rewrite <- app_assoc in Hleft. by split.
Qed.

(** Scheduling actions and then flushing them does to the engine, and answers,
    what preparing all of them in order and then executing all of them in order
    does; nothing stays scheduled. *)
Theorem schedule_then_flush actions k e :
  let direct := (each prepare actions ;;; each execute actions) (k, e) in
  exists left, (each schedule actions ;;; flush) (k, (e, [])) = with_actions left direct /\
    (direct.1 = Ret tt -> left = []).
Proof.
  cbv zeta. unfold bind. destruct (schedule_all actions k e []) as (left & -> & Hleft).
  destruct (each prepare actions (k, e)) as [[[]|h] [k1 e1]]; [|by exists left]. cbn.
  rewrite (Hleft eq_refl). unfold flush, bind. cbn. rewrite (each_on_network execute).
  destruct (each execute actions (k1, e1)) as [[[]|h] [k2 e2]]; [by exists [] | by exists actions].
Qed.
End Deferred.
