(* ===== verification/Safety.v ===== *)
(** * Safety: calls that stay clear of undefined behaviour

    A logic for the calls of [Network.v] and the applications: [safe m Q s] says
    that [m], run from [s], never takes an undefined step, and that if it
    returns, the invariant holds and the result is as [Q] says.  What the
    invariant is for a state is the class [Guard]; here it is given for the
    machine, a socket and a connection, whose operations are shown safe
    whatever the kernel answers.  What [epoll_wait] and [recvmsg] may answer is
    the class [Kernel]; the tactics [safe], [always] and [calm] split a call
    along its structure. *)
From S2P Require Import Prelude.
From S2P Require Import Platform.
From S2P Require Import ObjectPool.
From S2P Require Import Utility.
From S2P Require Import Protocol.
From S2P Require Import Socket.
From S2P Require Import Framing.
From S2P Require Import Network.

#[local] Open Scope Z_scope.
#[local] Open Scope bsm_scope.

(** ** The kernel

    The data given to [epoll_ctl] with a descriptor. *)
Definition epoll_data (c : call) : gset Z :=
  match c with
  | c_epoll_ctl_add _ _ data | c_epoll_ctl_mod _ _ data => {[ data ]}
  | _ => ∅
  end.

(** [watched w] are the data the kernel knows; [epoll_wait] answers with no
    other data and at most as many events as asked for, [recvmsg] with at most
    as many bytes. *)
Class Kernel (W : Type) `{Platform W} := {
  watched : W -> gset Z;
  watched_call c w : watched (sys_call c w).2 ⊆ epoll_data c ∪ watched w;
  watched_recvmsg fd len w : watched (sys_recvmsg fd len w).2 ⊆ watched w;
  watched_socketpair w : watched (sys_socketpair w).2 ⊆ watched w;
  watched_wait fd n w : watched (sys_epoll_wait fd n w).2 ⊆ watched w;
  ready_watched fd n w :
    match (sys_epoll_wait fd n w).1 with
    | Ready slots => (length slots <= Z.to_nat n)%nat /\ forall s, s ∈ slots -> s ∈ watched w
    | WaitFailed _ => True
    end;
  recv_room : recv_within
}.

(** ** Safe calls *)

(** [inv] is the invariant of a state, [le] what later states keep of earlier
    ones, [lost] the states in which an undefined step is owned up to. *)
Class Guard (S : Type) := {
  inv : S -> Prop;
  le : relation S;
  lost : S -> Prop;
  #[global] le_preorder :: PreOrder le
}.

Definition safe {S} `{Guard S} {A} (m : M S A) (Q : A -> S -> Prop) (s : S) : Prop :=
  match m s with
  | (Ret a, s') => inv s' /\ le s s' /\ Q a s'
  | (Halt Undefined, s') => lost s'
  | (Halt _, _) => True
  end.

(** A call that is safe from every good state, whatever it answers. *)
Definition always_safe {S} `{Guard S} {A} (m : M S A) : Prop :=
  forall s, inv s -> safe m (fun _ _ => True) s.

Section SafeRules.
Context {S : Type} `{Guard S}.

Lemma safe_bind {A B} (m : M S A) (k : A -> M S B) Q Q' s :
  safe m Q s ->
  (forall a s', inv s' -> le s s' -> Q a s' -> safe (k a) Q' s') ->
  safe (bind m k) Q' s.
Proof.
  unfold safe, bind. destruct (m s) as [[a|h] s1]; [|done].
  intros (Hi & Hle & Hq) Hk. specialize (Hk a s1 Hi Hle Hq).
  destruct (k a s1) as [[b|[]] s2]; try done. destruct Hk as (? & ? & ?).
  split_and!; [done | by etrans | done].
Qed.

Lemma safe_ret {A} (a : A) (Q : A -> S -> Prop) s : inv s -> Q a s -> safe (ret a) Q s.
Proof. intros. by split_and!. Qed.

Lemma safe_mono {A} (m : M S A) (Q Q' : A -> S -> Prop) s :
  safe m Q s -> (forall a s', inv s' -> le s s' -> Q a s' -> Q' a s') -> safe m Q' s.
Proof.
  unfold safe. destruct (m s) as [[a|[]] s1]; try done. intros (? & ? & ?) HQ. split_and!; eauto.
Qed.

Lemma safe_stop {A} h (Q : A -> S -> Prop) s : h <> Undefined -> safe (stop h) Q s.
Proof. unfold safe, stop. by destruct h. Qed.

Lemma safe_run {A} (m : M S A) a (Q : A -> S -> Prop) s s' :
  m s = (Ret a, s') -> inv s' -> le s s' -> Q a s' -> safe m Q s.
Proof. unfold safe. by intros ->. Qed.

(** A call that only reads. *)
Lemma safe_same {A} (m : M S A) a (Q : A -> S -> Prop) s :
  m s = (Ret a, s) -> inv s -> Q a s -> safe m Q s.
Proof. intros Hm Hi HQ. by eapply safe_run. Qed.

Lemma safe_always {A} (m : M S A) s : always_safe m -> inv s -> safe m (fun _ _ => True) s.
Proof. intros Hm. apply Hm. Qed.

Lemma always_bind {A B} (m : M S A) (k : A -> M S B) :
  always_safe m -> (forall a, always_safe (k a)) -> always_safe (bind m k).
Proof. intros Hm Hk s Hi. eapply safe_bind; [by apply Hm|]. intros. by apply Hk. Qed.

Lemma always_ret {A} (a : A) : always_safe (ret a).
Proof. intros s Hi. by apply safe_ret. Qed.

Lemma always_stop {A} h : h <> Undefined -> always_safe (stop (A := A) h).
Proof. intros Hh s _. by apply safe_stop. Qed.

Lemma always_get : always_safe get.
Proof. intros s Hi. by eapply safe_run. Qed.

Lemma always_gets {A} (f : S -> A) : always_safe (gets f).
Proof. intros s Hi. by eapply safe_run. Qed.
End SafeRules.

(** ** The machine alone: a call that registers nothing *)
Section Machine.
Context {W : Type} `{Platform W} `{!Kernel W}.

#[export] Program Instance machine_guard : Guard (Machine W) := {
  inv _ := True;
  le k k' := watched (world k') ⊆ watched (world k);
  lost _ := False
}.
Next Obligation. split; [by intros k | intros k1 k2 k3 ? ?; by etrans]. Qed.

Lemma do_call_safe c : epoll_data c = ∅ -> always_safe (do_call c).
Proof.
  intros Hc k _. unfold safe, do_call. pose proof (watched_call c (world k)) as Hw.
  rewrite Hc, union_empty_l_L in Hw. by destruct (sys_call c (world k)) as [[n e] w].
Qed.

Lemma do_recvmsg_safe fd len : always_safe (do_recvmsg fd len).
Proof.
  intros k _. unfold safe, do_recvmsg. pose proof (watched_recvmsg fd len (world k)) as Hw.
  by destruct (sys_recvmsg fd len (world k)) as [a w].
Qed.

Lemma do_socketpair_safe : always_safe do_socketpair.
Proof.
  intros k _. unfold safe, do_socketpair. pose proof (watched_socketpair (world k)) as Hw.
  by destruct (sys_socketpair (world k)) as [a w].
Qed.

Lemma LOG_safe message : always_safe (LOG message).
Proof. intros k _. eapply safe_run; [reflexivity | exact I | simpl; reflexivity | exact I]. Qed.

Lemma print_line_safe message : always_safe (print_line message).
Proof. intros k _. eapply safe_run; [reflexivity | exact I | simpl; reflexivity | exact I]. Qed.

Lemma perror_safe message : always_safe (perror message).
Proof. intros k _. eapply safe_run; [reflexivity | exact I | simpl; reflexivity | exact I]. Qed.

Lemma make_error_safe message : always_safe (make_error_c message).
Proof. intros k _. eapply safe_run; [reflexivity | exact I | simpl; reflexivity | exact I]. Qed.
End Machine.

(** A component over the machine whose invariant does not mind calls that
    register nothing. *)
Class MachineGuard (W T : Type) `{Platform W} `{!Kernel W} `{Guard (Machine W * T)} := {
  calm_inv k k' (t : T) : watched (world k') ⊆ watched (world k) -> inv (k, t) ->
    inv (k', t) /\ le (k, t) (k', t)
}.

Section Lift.
Context {W T : Type} `{Platform W} `{!Kernel W} `{Guard (Machine W * T)} `{!MachineGuard W T}.

Lemma safe_lift {A} (m : M (Machine W) A) (Q : A -> Machine W -> Prop) k (t : T) :
  inv (k, t) -> safe m Q k -> safe (lift m) (fun a s => s.2 = t /\ Q a s.1) (k, t).
Proof.
  intros Hi. unfold safe, lift, zoom. cbn [fst snd].
  destruct (m k) as [[a|[]] k']; try done. intros (_ & Hw & HQ).
  by destruct (calm_inv k k' t Hw Hi).
Qed.

Lemma always_lift {A} (m : M (Machine W) A) : always_safe m -> always_safe (lift (T := T) m).
Proof.
  intros Hm [k t] Hi. eapply safe_mono; [apply safe_lift; [done | by apply Hm]|]. done.
Qed.

Lemma always_read {A} (f : T -> A) : always_safe (local_state (W := W) (gets f)).
Proof. intros [k t] Hi. by eapply safe_run. Qed.

Lemma always_read_all : always_safe (local_state (W := W) (get (S := T))).
Proof. intros [k t] Hi. by eapply safe_run. Qed.

Lemma safe_lift_always {A} (m : M (Machine W) A) s :
  always_safe m -> inv s -> safe (lift m) (fun a s' => s'.2 = s.2) s.
Proof.
  destruct s as [k t]. intros Hm Hi. eapply safe_mono; [apply safe_lift; [done | by apply Hm]|].
  by intros a s' _ _ [? _].
Qed.

Lemma safe_read {A} (f : T -> A) k (t : T) :
  inv (k, t) -> safe (local_state (gets f)) (fun a s => a = f t /\ s = (k, t)) (k, t).
Proof. intros Hi. by eapply safe_run. Qed.
End Lift.

(** Split [safe (bind ..)] and the tests of the program; the leaves are left
    to the hints of [safety]. *)
Create HintDb safety.

(** What is known of a state and holds of later ones too. *)
Ltac safe_carry := idtac.

Ltac safe_step :=
  lazymatch goal with
  | |- safe (bind ?m _) _ _ =>
    lazymatch m with
    | bind _ _ => eapply (safe_bind _ _ (fun _ _ => True))
    | match _ with _ => _ end => eapply (safe_bind _ _ (fun _ _ => True))
    | _ => eapply safe_bind
    end; [|intros ? ? ? ? ?; safe_carry]
  | |- safe (ret _) _ _ => apply safe_ret; [solve [eauto 3 with safety] | try done]
  | |- safe (stop _) _ _ => by apply safe_stop
  | |- safe (match ?x with _ => _ end) _ _ => destruct x eqn:?
  | |- safe (let '(_, _) := ?x in _) _ _ => destruct x eqn:?
  | |- _ => solve [eauto 6 with safety]
  end.
Ltac safe := repeat safe_step.

Ltac always_step :=
  lazymatch goal with
  | |- always_safe (bind _ _) => apply always_bind; [|intros ?]
  | |- always_safe (ret _) => apply always_ret
  | |- always_safe (stop _) => by apply always_stop
  | |- always_safe (match ?x with _ => _ end) => destruct x
  | |- always_safe (let '(_, _) := ?x in _) => destruct x
  | |- always_safe (lift _) => apply always_lift
  | |- always_safe (local_state (gets _)) => apply always_read
  | |- always_safe (gets _) => apply always_gets
  | |- _ => solve [eauto with safety]
  end.
Ltac always := intros; repeat always_step.

#[export] Hint Resolve LOG_safe print_line_safe perror_safe do_recvmsg_safe do_socketpair_safe make_error_safe
  : safety.
#[export] Hint Extern 2 (always_safe (do_call _)) => apply do_call_safe; reflexivity : safety.
#[export] Hint Resolve safe_always : safety.
#[export] Hint Extern 1 (safe (lift _) _ _) =>
  (eapply safe_mono; [apply safe_lift_always; [|eassumption]|]) : safety.

(** ** Calls that register nothing, by their structure *)
Section Calm.
Context {W : Type} `{Platform W} `{!Kernel W}.

Definition knows_only (V : gset Z) (k : Machine W) : Prop := watched (world k) ⊆ V.
Definition calm {A} (m : M (Machine W) A) : Prop := forall V, preserves (knows_only V) m.
Definition calm_on {T A} (m : SM W T A) : Prop := forall V, preserves (fun s => knows_only V s.1) m.

Lemma calm_of_safe {A} (m : M (Machine W) A) :
  (forall k, watched (world (m k).2) ⊆ watched (world k)) -> calm m.
Proof. intros Hm V k Hk. unfold knows_only. etrans; [apply Hm | exact Hk]. Qed.

Lemma calm_do_call c : epoll_data c = ∅ -> calm (do_call c).
Proof.
  intros Hc. apply calm_of_safe. intros k. unfold do_call.
  pose proof (watched_call c (world k)) as Hw. rewrite Hc, union_empty_l_L in Hw.
  by destruct (sys_call c (world k)) as [[n e] w].
Qed.

Lemma calm_recvmsg fd len : calm (do_recvmsg fd len).
Proof.
  apply calm_of_safe. intros k. unfold do_recvmsg.
  pose proof (watched_recvmsg fd len (world k)) as Hw. by destruct (sys_recvmsg fd len (world k)).
Qed.

Lemma calm_LOG message : calm (LOG message).
Proof. by intros V k. Qed.

Lemma calm_make_error message : calm (make_error_c message).
Proof. by intros V k. Qed.

Lemma calm_lift {T A} (m : M (Machine W) A) : calm m -> calm_on (T := T) (lift m).
Proof.
  intros Hm V [k t] Hk. unfold lift, zoom. cbn [fst snd] in *. specialize (Hm V k Hk).
  by destruct (m k).
Qed.

Lemma calm_local {T A} (m : M T A) : calm_on (local_state m).
Proof. intros V [k t] Hk. unfold local_state, zoom. cbn [fst snd]. by destruct (m t). Qed.

Lemma calm_focus {T U A} (g : T -> U) p (m : SM W U A) : calm_on m -> calm_on (focus g p m).
Proof.
  intros Hm V [k t] Hk. unfold focus, zoom. cbn [fst snd] in *.
  specialize (Hm V (k, g t) Hk). by destruct (m (k, g t)).
Qed.

Lemma calm_bind {T A B} (m : SM W T A) (k : A -> SM W T B) :
  calm_on m -> (forall a, calm_on (k a)) -> calm_on (bind m k).
Proof. intros Hm Hk V. apply preserves_bind; [apply Hm | intros a; apply Hk]. Qed.

Lemma calm_bind_machine {A B} (m : M (Machine W) A) (k : A -> M (Machine W) B) :
  calm m -> (forall a, calm (k a)) -> calm (bind m k).
Proof. intros Hm Hk V. apply preserves_bind; [apply Hm | intros a; apply Hk]. Qed.

Lemma calm_ret_machine {A} (a : A) : calm (ret a).
Proof. by intros V k. Qed.

Lemma calm_stop_machine {A} h : calm (A := A) (stop h).
Proof. by intros V k. Qed.

Lemma calm_ret {T A} (a : A) : calm_on (T := T) (ret a).
Proof. by intros V s. Qed.

Lemma calm_stop {T A} h : calm_on (T := T) (A := A) (stop h).
Proof. by intros V s. Qed.

Lemma calm_run_with {T A} (t : T) (m : SM W T A) : calm_on m -> calm (run_with t m).
Proof.
  intros Hm V k Hk. unfold run_with. specialize (Hm V (k, t) Hk).
  by destruct (m (k, t)) as [[a|h] [k' t']].
Qed.

(** What a total call leaves, and that it registers nothing, make it safe. *)
Lemma safe_of_wp {T A} `{Guard (Machine W * T)} (m : SM W T A) Q k (t : T) :
  wp m (fun r s => match r with
                   | Ret a => knows_only (watched (world k)) s.1 ->
                       inv s /\ le (k, t) s /\ Q a s
                   | Halt Undefined => lost s
                   | Halt _ => True
                   end) (k, t) ->
  calm_on m -> safe m Q (k, t).
Proof.
  unfold wp, safe. intros Hm Hc. specialize (Hc (watched (world k)) (k, t) (reflexivity (R := (⊆)) _)).
  destruct (m (k, t)) as [[a|[]] [k' t']]; try done. cbn [fst snd] in *.
  by apply Hm.
Qed.
End Calm.

Ltac calm_step :=
  lazymatch goal with
  | |- calm_on (bind _ _) => apply calm_bind; [|intros ?]
  | |- calm_on (match ?x with _ => _ end) => destruct x
  | |- calm_on (let '(_, _) := ?x in _) => destruct x
  | |- calm_on (lift _) => apply calm_lift
  | |- calm_on (local_state _) => apply calm_local
  | |- calm_on (focus _ _ _) => apply calm_focus
  | |- calm_on (ret _) => apply calm_ret
  | |- calm_on (stop _) => apply calm_stop
  | |- calm (bind _ _) => apply calm_bind_machine; [|intros ?]
  | |- calm (match ?x with _ => _ end) => destruct x
  | |- calm (ret _) => apply calm_ret_machine
  | |- calm (stop _) => apply calm_stop_machine
  | |- calm (do_call _) => by apply calm_do_call
  | |- calm (run_with _ _) => apply calm_run_with
  | |- _ => solve [eauto with safety]
  end.
Ltac calm := intros; repeat calm_step.

#[export] Hint Resolve calm_recvmsg calm_LOG calm_make_error : safety.

(** ** Sockets *)
Section Sockets.
Context {W : Type} `{Platform W} `{!Kernel W}.

#[export] Program Instance socket_guard : Guard (Machine W * SocketHandler) := {
  inv s := handler_ok s.2;
  le s s' := watched (world s'.1) ⊆ watched (world s.1);
  lost _ := False
}.
Next Obligation. split; [by intros k | intros k1 k2 k3 ? ?; by etrans]. Qed.

#[export] Instance socket_machine : MachineGuard W SocketHandler.
Proof. by constructor. Qed.

Lemma calm_get_message fuel : calm_on (get_message fuel).
Proof.
  assert (forall buffer free b (continue : list Byte.byte -> Z -> SM W SocketHandler _),
    (forall buffer free, calm_on (continue buffer free)) ->
    calm_on (end_of_batch continue buffer free b)) as Hb.
  { intros buffer free b continue Hc. unfold end_of_batch. calm. }
  assert (forall n buffer free, calm_on (receive_loop n buffer free)) as Hr.
  { induction n as [|n IH]; intros buffer free; [apply calm_stop|].
    cbn [receive_loop]. calm. }
  unfold get_message, resume, destroy_co_handle. calm.
Qed.

Lemma get_message_is_safe fuel : always_safe (get_message fuel).
Proof.
  intros [k h] Hh. apply safe_of_wp; [|apply calm_get_message].
  eapply wp_mono; [|exact (get_message_safe fuel k h recv_room Hh)].
  intros [m|[]] [k' h']; simpl; [|done|by intros [? _]|done..].
  by intros Hok Hk.
Qed.

Lemma modify_socket_safe (f : SocketHandler -> SocketHandler) :
  (forall h, handler_ok h -> handler_ok (f h)) -> always_safe (local_state (W := W) (modify f)).
Proof. intros Hf [k h] Hh. eapply safe_run; [reflexivity | by apply Hf | simpl; reflexivity | done]. Qed.

Lemma set_socket_safe fd : always_safe (local_state (W := W) (modify (set_socket fd))).
Proof. by apply modify_socket_safe. Qed.
Lemma set_status_safe st : always_safe (local_state (W := W) (modify (set_socket_status st))).
Proof. by apply modify_socket_safe. Qed.
Lemma destroy_co_handle_safe : always_safe (destroy_co_handle (W := W)).
Proof. by apply modify_socket_safe. Qed.
#[local] Hint Resolve set_socket_safe set_status_safe destroy_co_handle_safe : safety.

Lemma close_socket_safe : always_safe close_socket.
Proof. unfold close_socket. always. Qed.
#[local] Hint Resolve close_socket_safe : safety.

Lemma reset_to_empty_safe : always_safe reset_to_empty.
Proof. unfold reset_to_empty. always. Qed.

Lemma fail_with_safe message : always_safe (fail_with message).
Proof. unfold fail_with. always. Qed.
#[local] Hint Resolve fail_with_safe : safety.

Lemma send_message_safe msg : always_safe (Socket.send_message msg).
Proof. unfold Socket.send_message. always. Qed.

Lemma setup_listener_safe port : always_safe (setup_listener port).
Proof. unfold setup_listener. always. Qed.

Lemma setup_client_safe : always_safe setup_client.
Proof. unfold setup_client. always. Qed.

Lemma accept_connections_safe fuel : always_safe (accept_connections fuel).
Proof.
  unfold accept_connections. always.
  enough (forall fd, always_safe (accept_loop fuel fd)) as Ha by apply Ha.
  induction fuel as [|fuel IH]; intros fd; cbn [accept_loop]; always.
Qed.
End Sockets.

#[export] Hint Resolve get_message_is_safe reset_to_empty_safe send_message_safe setup_listener_safe
  setup_client_safe accept_connections_safe : safety.

(** ** Connections *)
Section Connections.
Context {W : Type} `{Platform W} `{!Kernel W}.

Definition entry_ok (c : ConnectionEntry) : Prop := handler_ok (socket_handler_ c).

#[export] Program Instance entry_guard : Guard (Machine W * ConnectionEntry) := {
  inv s := entry_ok s.2;
  le s s' := watched (world s'.1) ⊆ watched (world s.1);
  lost _ := False
}.
Next Obligation. split; [by intros k | intros k1 k2 k3 ? ?; by etrans]. Qed.

#[export] Instance entry_machine : MachineGuard W ConnectionEntry.
Proof. by constructor. Qed.

Lemma on_socket_safe {A} (m : SM W SocketHandler A) : always_safe m -> always_safe (on_socket m).
Proof.
  intros Hm [k c] Hc. specialize (Hm (k, socket_handler_ c) Hc).
  unfold safe, on_socket, focus, zoom in *. cbn [fst snd].
  by destruct (m (k, socket_handler_ c)) as [[a|[]] [k' h']].
Qed.

Lemma modify_entry_safe (f : ConnectionEntry -> ConnectionEntry) :
  (forall c, socket_handler_ (f c) = socket_handler_ c) ->
  always_safe (local_state (W := W) (modify f)).
Proof.
  intros Hf [k c] Hc. eapply safe_run; [reflexivity | | simpl; reflexivity | done].
  cbn. unfold entry_ok. by rewrite Hf.
Qed.
#[local] Hint Resolve on_socket_safe : safety.
#[local] Hint Extern 1 (always_safe (local_state (modify _))) => by apply modify_entry_safe : safety.

Lemma reset_safe : always_safe reset.
Proof. unfold reset. always. Qed.

Lemma send_message_impl_safe message : always_safe (send_message_impl message).
Proof. unfold send_message_impl. always. Qed.

Lemma set_type_safe x : always_safe (local_state (W := W) (modify (set_connection_type x))).
Proof. by apply modify_entry_safe. Qed.
End Connections.

#[export] Hint Resolve on_socket_safe reset_safe send_message_impl_safe set_type_safe : safety.
