(* ===== verification/EngineSafety.v ===== *)
(** * The engine stays clear of undefined behaviour

    Every operation of [Network.v] is [safe] (see [Safety.v]) for an invariant
    that says which slots can reach the engine: those the kernel knows, those
    of the raw tasks and those released to the pool hold an entry.  It does not
    say that a slot is released once, so it survives the double releases of
    [Server.v].  [EngineGuard] carries the result to an application, and the
    last section to [process_connection] with any safe handler. *)
From S2P Require Import Prelude.
From S2P Require Import Ring.
From S2P Require Import Platform.
From S2P Require Import MemoryManager.
From S2P Require Import AtomicQueue.
From S2P Require Import ObjectPool.
From S2P Require Import Utility.
From S2P Require Import Protocol.
From S2P Require Import Socket.
From S2P Require Import Framing.
From S2P Require Import Network.
From S2P Require Import Engine.
From S2P Require Import Safety.

#[local] Open Scope Z_scope.
#[local] Open Scope bsm_scope.

(** ** Queues and the pool *)
Section Containers.
Lemma queue_push_cases {T} (a : AtomicQueue.t T) q v : AtomicQueue.holds a q ->
  match AtomicQueue.try_push v a with
  | (Ret true, a') => AtomicQueue.holds a' (q ++ [v])
  | (Ret false, a') => a' = a
  | (Halt h, _) => h = Blocked
  end.
Proof.
  intros Hq. pose proof (queue_length_le a q Hq).
  destruct (normilize_ring_slot (AtomicQueue.tail a) + 1 =? normilize_ring_slot (AtomicQueue.head a)) eqn:E.
  - by rewrite (push_refused a v E).
  - destruct (decide (length q = 4096%nat)) as [Hl|Hl].
    + pose proof (push_blocks a q v Hq Hl) as Hb. destruct (AtomicQueue.try_push v a) as [[[]|h] a'];
        simpl in Hb; by simplify_eq.
    + destruct (push_run a q v Hq) as (a' & -> & Ha'); [lia | done..].
Qed.

Lemma queue_pop_cases {T} (a : AtomicQueue.t T) q : AtomicQueue.holds a q ->
  match AtomicQueue.try_pop a with
  | (Ret (Some v), a') => exists q', q = v :: q' /\ AtomicQueue.holds a' q'
  | (Ret None, a') => q = [] /\ a' = a
  | (Halt h, _) => False
  end.
Proof.
  intros Hq. destruct q as [|v q].
  - by rewrite (pop_empty a Hq).
  - destruct (pop_run a v q Hq) as (a' & -> & Ha'). by exists q.
Qed.

Lemma queue_wait_cases {T} (a : AtomicQueue.t T) q : AtomicQueue.holds a q ->
  match AtomicQueue.wait_for_data a with
  | (Ret _, a') => a' = a
  | (Halt h, _) => h = Blocked
  end.
Proof. intros Hq. rewrite (wait_for_data_run a q Hq). by destruct q. Qed.

Context {W T : Type} `{Platform W} `{PoolObject W T}.
Import ObjectPool.

(** The pool as it is also after slots were released that nobody held: the
    released slots were issued once, and the slots issued hold objects. *)
Definition pool_safe (p : t T) : Prop :=
  unreturned (pool p) /\
  AllocatorPool.last_not_issued_index (pool p) = counter p /\
  (exists q, AtomicQueue.holds (available_slots_ p) q /\ forall i, i ∈ q -> 0 <= i < counter p) /\
  (forall i, 0 <= i < counter p <-> is_Some (objects p !! i)).

Lemma ok_pool_safe p live q : ok p live q -> pool_safe p.
Proof.
  intros (Hu & Hl & Hq & Hnd & Hi & Ho). split_and!; try done. exists q. split; [done|].
  intros i Hin. apply Hi, elem_of_app. by right.
Qed.

(** With no slot waiting it is a pool in which every slot is held. *)
Lemma pool_safe_ok p : pool_safe p -> AtomicQueue.holds (available_slots_ p) [] ->
  ok p (seqZ 0 (counter p)) [].
Proof.
  intros (Hu & Hl & _ & Ho) Hq. unfold ok. rewrite app_nil_r. split_and!; try done.
  - apply NoDup_seqZ.
  - intros i. rewrite elem_of_seqZ. lia.
Qed.

Lemma pool_safe_put p slot o :
  pool_safe p -> is_Some (objects p !! slot) -> pool_safe (set_objects (<[slot := o]> (objects p)) p).
Proof.
  intros (Hu & Hl & Hq & Ho) Hs. split_and!; try done.
  intros i. simpl. rewrite Ho, lookup_insert_is_Some'. split; [auto|]. by intros [<-|].
Qed.

(** Only the count of slots matters when the pool has run out. *)
Lemma push_counter object k p :
  wp (push_to_pool object)
     (fun _ s => counter s.2 = counter p \/ counter s.2 = wrap64 (counter p + 1)) (k, p).
Proof.
  unfold push_to_pool, put_object, get_object, wp, lift, local_state, focus, zoom, bind, modify, stop, ret.
  simpl. destruct (AtomicQueue.try_pop (available_slots_ p)) as [[[slot|]|h] q]; simpl; auto.
  - destruct (objects p !! slot) as [old|]; simpl; auto.
    destruct (move_assign_run old object k) as [k' ->]; simpl; auto.
  - destruct (MemoryManager.allocate _) as [[[r|]|h] [k1 m]]; simpl; auto.
    destruct (move_construct_run object k1) as [k2 ->]; simpl; auto.
Qed.

Definition push_safe_post (object : T) p (r : outcome (Z + Error))
    (s : Machine W * ObjectPool.t T) : Prop :=
  match r with
  | Ret (inl slot) => pool_safe s.2 /\ exists o, objects s.2 = <[slot := o]> (objects p) /\
      (o = constructed object \/ exists old, o = assigned old object)
  | Ret (inr _) => False
  | Halt Undefined => RING_BUFFER_SIZE < counter s.2
  | Halt _ => True
  end.

Lemma push_pool_safe object k p :
  pool_safe p -> wp (push_to_pool object) (push_safe_post object p) (k, p).
Proof.
  intros Hp. pose proof Hp as (Hu & Hl & (q & Hq & Hin) & Ho).
  pose proof (queue_pop_cases _ _ Hq) as Hpop.
  destruct q as [|slot q].
  - pose proof (pool_safe_ok p Hp Hq) as Hok.
    pose proof (push_correct object k p _ _ Hok) as Hpost. pose proof (push_counter object k p) as Hc.
    unfold wp in *. destruct (push_to_pool object (k, p)) as [[[s|e]|[]] [k' p']]; simpl in *; try done.
    + destruct Hpost as (o & _ & Hok' & Hobj & _ & ->). split; [by eapply ok_pool_safe|]. eauto.
    + destruct Hpost as [_ Hlen]. rewrite length_seqZ in Hlen. unfold RING_BUFFER_SIZE in *.
      assert (counter p = 4097) as Hcp by lia. rewrite Hcp in Hc.
      assert (wrap64 (4097 + 1) = 4098) as Hw by reflexivity. lia.
  - destruct (AtomicQueue.try_pop (available_slots_ p)) as [[[v|]|h] a'] eqn:E; [|by destruct Hpop|done].
    destruct Hpop as (q' & [= <- <-] & Ha').
    destruct (proj1 (Ho slot)) as [old Hold]; [by apply Hin; left|].
    destruct (move_assign_run old object k) as [k' Hma].
    unfold wp. rewrite (push_reuse_run object k p slot a' old k' E Hold Hma). simpl. split; [|eauto].
    apply (pool_safe_put (set_available a' p)); [|by eexists]. split_and!; try done.
    exists q. split; [done|]. intros i Hi. apply Hin. by right.
Qed.
End Containers.

(** ** The engine *)

(** The tags that have a coroutine. *)
Class TagPolicy := {
  allowed : task_tag_e.t -> Prop;
  allowed_network : allowed task_tag_e.NETWORK
}.

Definition slot_valid (e : NetworkEngine.t) (slot : Z) : Prop := is_Some (entry e slot).

Section Engine.
Context {W : Type} `{Platform W} `{!Kernel W} `{TagPolicy}.
Import NetworkEngine.
Implicit Types (e : t) (k : Machine W) (slot : Z).

(** Every slot that can reach the engine again, from the kernel, from the raw
    tasks or from the pool, holds an entry, and every entry's receive coroutine
    can be resumed. *)
Record engine_inv (s : Machine W * t) : Prop := mkEngineInv {
  ei_pool : pool_safe (connection_pool_ s.2);
  ei_entries slot c : entry s.2 slot = Some c -> entry_ok c;
  ei_raw : exists q, AtomicQueue.holds (network_raw_tasks_ s.2) q /\
    forall slot, slot ∈ q -> slot_valid s.2 slot;
  ei_tags : exists q, AtomicQueue.holds (available_task_tags_ s.2) q /\
    forall x, x ∈ q -> allowed x;
  ei_watched slot : slot ∈ watched (world s.1) -> slot_valid s.2 slot
}.

#[export] Program Instance engine_guard : Guard (Machine W * t) := {
  inv := engine_inv;
  le s s' := forall slot, slot_valid s.2 slot -> slot_valid s'.2 slot;
  lost s := RING_BUFFER_SIZE < ObjectPool.counter (connection_pool_ s.2)
}.
Next Obligation. split; [by intros s | intros s1 s2 s3 H1 H2 slot Hs; auto]. Qed.

#[export] Instance engine_machine : MachineGuard W t.
Proof.
  constructor. intros k k' e Hw [Hp He Hr Ht Hv]. split; [|by intros slot].
  constructor; try done. intros slot Hs. by apply Hv, Hw.
Qed.

(** A machine that knows more, but only slots with an entry. *)
Lemma engine_inv_machine k k' e :
  engine_inv (k, e) -> (forall slot, slot ∈ watched (world k') -> slot_valid e slot) ->
  engine_inv (k', e).
Proof. by intros [] Hw. Qed.

Lemma slot_valid_set e slot slot' c : slot_valid e slot' -> slot_valid (set_entry slot c e) slot'.
Proof.
  unfold slot_valid, entry, set_entry. simpl. rewrite lookup_insert_is_Some'. auto.
Qed.

Lemma engine_inv_set k e slot c :
  engine_inv (k, e) -> slot_valid e slot -> entry_ok c -> engine_inv (k, set_entry slot c e).
Proof.
  intros [Hp He (q & Hq & Hv) Ht Hw] Hs Hc. simpl in *. constructor; simpl.
  - by apply pool_safe_put.
  - intros s c' Hc'. destruct (decide (slot = s)) as [->|Hne].
    + rewrite entry_set_eq in Hc'. congruence.
    + rewrite entry_set_ne in Hc' by done. by eapply He.
  - exists q. split; [done|]. intros s Hin. by apply slot_valid_set, Hv.
  - done.
  - intros s Hin. by apply slot_valid_set, Hw.
Qed.

Lemma connection_safe slot s :
  inv s -> slot_valid s.2 slot ->
  safe (connection slot) (fun c s' => s' = s /\ entry s.2 slot = Some c) s.
Proof.
  destruct s as [k e]. intros Hi [c Hc]. eapply safe_same; [by apply connection_run | done..].
Qed.

Lemma connection_fd_safe slot s :
  inv s -> slot_valid s.2 slot -> safe (connection_fd slot) (fun _ s' => s' = s) s.
Proof.
  destruct s as [k e]. intros Hi [c Hc]. eapply safe_same; [by apply connection_fd_run | done..].
Qed.

Lemma on_connection_safe {A} slot (m : SM W ConnectionEntry A) s :
  inv s -> slot_valid s.2 slot -> always_safe m ->
  safe (on_connection slot m) (fun _ _ => True) s.
Proof.
  destruct s as [k e]. intros Hi [c Hc] Hm. simpl in Hc.
  pose proof (ei_entries _ Hi slot c Hc) as Hok. specialize (Hm (k, c) Hok). unfold safe in *.
  destruct (m (k, c)) as [[a|h] [k' c']] eqn:E.
  - destruct Hm as (Hok' & Hw & _). rewrite (on_connection_run _ _ _ _ _ _ _ _ Hc E).
    split_and!; [|intros s; apply slot_valid_set | done].
    apply engine_inv_set; [|by eexists|done]. eapply engine_inv_machine; [done|].
    intros s Hs. by apply (ei_watched _ Hi), Hw.
  - unfold on_connection, on_pool.
    rewrite (focus_run _ _ _ _ _ _ _ _ (on_object_halt slot m c k _ h k' c' Hc E)). by destruct h.
Qed.

(** Registering a slot that holds an entry. *)
Lemma register_slot_safe (x : call) msg k e slot :
  inv (k, e) -> slot_valid e slot -> epoll_data x = {[slot]} ->
  safe (lift (let* r := do_call x in EpollHandler.check r msg)) (fun _ s => s.2 = e) (k, e).
Proof.
  intros Hi Hs Hx.
  assert (exists r k', (let* r := do_call x in EpollHandler.check r msg) k = (Ret r, k') /\
    watched (world k') ⊆ {[slot]} ∪ watched (world k)) as (r & k' & Hr & Hw).
  { pose proof (watched_call x (world k)) as Hw. rewrite Hx in Hw. unfold bind, do_call.
    destruct (sys_call x (world k)) as [[n er] w]. unfold EpollHandler.check.
    destruct (n =? -1); by eexists _, _. }
  eapply safe_run; [by apply lift_run | | by intros ? | done].
  eapply engine_inv_machine; [done|]. intros s Hin.
  apply Hw, elem_of_union in Hin as [->%elem_of_singleton|Hin]; [done|].
  by apply (ei_watched _ Hi).
Qed.

Lemma epollfd_safe s : inv s -> safe (local_state (gets epollfd_)) (fun _ s' => s' = s) s.
Proof. destruct s as [k e]. intros Hi. by eapply safe_same. Qed.

Lemma subscribe_safe slot s :
  inv s -> slot_valid s.2 slot -> safe (subscribe_to_events slot) (fun _ _ => True) s.
Proof.
  intros Hi Hs. unfold subscribe_to_events.
  eapply safe_bind; [by apply epollfd_safe|]. intros epfd s1 _ _ ->.
  eapply safe_bind; [by apply connection_fd_safe|]. intros fd s2 _ _ ->. destruct s as [k e].
  eapply safe_bind; [by apply (register_slot_safe _ _ _ _ slot)|]. intros. by apply safe_ret.
Qed.

Lemma rearm_safe slot s :
  inv s -> slot_valid s.2 slot -> safe (rearm slot) (fun _ _ => True) s.
Proof.
  intros Hi Hs. unfold rearm.
  eapply safe_bind; [by apply epollfd_safe|]. intros epfd s1 _ _ ->.
  eapply safe_bind; [by apply connection_fd_safe|]. intros fd s2 _ _ ->. destruct s as [k e].
  by eapply safe_mono; [by apply (register_slot_safe _ _ _ _ slot)|].
Qed.

Lemma unsubscribe_safe slot s :
  inv s -> slot_valid s.2 slot -> safe (unsubscribe_from_events slot) (fun _ _ => True) s.
Proof.
  intros Hi Hs. unfold unsubscribe_from_events.
  eapply safe_bind; [by apply epollfd_safe|]. intros epfd s1 _ _ ->.
  eapply safe_bind; [by apply connection_fd_safe|]. intros fd s2 _ _ ->.
  eapply safe_bind; [|intros; by apply safe_ret].
  apply safe_always; [|done]. unfold EpollHandler.remove_socket, EpollHandler.check. always.
Qed.

Lemma release_slot_safe slot s :
  inv s -> slot_valid s.2 slot -> safe (release_slot slot) (fun _ _ => True) s.
Proof.
  destruct s as [k e]. intros [(Hu & Hl & (q & Hq & Hin) & Ho) He Hr Ht Hw] Hs.
  pose proof (queue_push_cases _ _ slot Hq) as Hp.
  unfold safe, release_slot, on_pool, ObjectPool.release, focus, zoom, local_state, bind, ret in *.
  cbn [fst snd] in *. unfold zoom. cbn [fst snd].
  destruct (AtomicQueue.try_push slot _) as [[[]|h] a']; [..|by rewrite Hp].
  - split; [|split; [by intros ?|done]]. constructor; try done. split_and!; try done.
    exists (q ++ [slot]). split; [done|]. intros i [Hi| ->%list_elem_of_singleton]%elem_of_app.
    + by apply Hin.
    + by apply Ho.
  - subst a'. split; [|split; [by intros ?|done]]. constructor; try done. split_and!; try done. by exists q.
Qed.

Lemma slot_valid_root e slot :
  pool_safe (connection_pool_ e) -> slot_valid e slot -> slot_valid e 0.
Proof.
  intros (_ & _ & _ & Ho) Hs. apply Ho. apply Ho in Hs. lia.
Qed.
End Engine.

#[export] Hint Resolve connection_safe connection_fd_safe on_connection_safe subscribe_safe rearm_safe
  unsubscribe_safe release_slot_safe : safety.

(** A slot that is valid stays valid. *)
Ltac carry_slots :=
  repeat match goal with
  | Hle : le ?s ?s', Hv : slot_valid (snd ?s) ?slot |- _ =>
    lazymatch goal with
    | _ : slot_valid (snd s') slot |- _ => fail
    | _ => assert (slot_valid (snd s') slot) by exact (Hle slot Hv)
    end
  | Hle : le ?s ?s', Hv : Forall (slot_valid (snd ?s)) ?l |- _ =>
    lazymatch goal with
    | _ : Forall (slot_valid (snd s')) l |- _ => fail
    | _ => assert (Forall (slot_valid (snd s')) l) by exact (Forall_impl _ _ _ Hv Hle)
    end
  end.
Ltac safe_carry ::= cbn beta in *; carry_slots.

Section EngineOperations.
Context {W : Type} `{Platform W} `{!Kernel W} `{TagPolicy}.
Import NetworkEngine.
Implicit Types (e : t) (k : Machine W) (slot : Z) (s : Machine W * t).

Lemma log_safe message s : inv s -> safe (lift (LOG message)) (fun _ s' => s'.2 = s.2) s.
Proof. intros Hi. by apply safe_lift_always; [apply LOG_safe|]. Qed.

Lemma release_connection_safe slot s :
  inv s -> slot_valid s.2 slot -> safe (release_connection slot) (fun _ _ => True) s.
Proof. intros Hi Hs. unfold release_connection. safe. Qed.

Lemma send_message_to_safe view outgoing s :
  inv s -> slot_valid s.2 (get_slot view) -> safe (send_message_to view outgoing) (fun _ _ => True) s.
Proof. intros Hi Hs. unfold send_message_to. safe. Qed.

(** The pool's new object. *)
Lemma calm_push (c : ConnectionEntry) : calm_on (ObjectPool.push_to_pool c).
Proof.
  unfold ObjectPool.push_to_pool, ObjectPool.get_object, ObjectPool.put_object,
    MemoryManager.allocate, AllocatorPool.allocate, AllocatorPool.grow, AllocatorPool.allocate_new_node,
    success_or_terminate, plain_terminate.
  assert (forall old, calm_on (move_entry old)) as Hm.
  { intros old. unfold move_entry, on_socket, move_assign, destroy, destroy_co_handle, close_socket. calm. }
  cbn [move_construct move_assign_to ConnectionEntry_pool_object]. unfold construct_entry, assign_entry.
  calm.
Qed.

Lemma push_to_pool_safe (c : ConnectionEntry) s :
  inv s ->
  safe (on_pool (ObjectPool.push_to_pool c))
    (fun r s' => match r with inl slot => slot_valid s'.2 slot | inr _ => False end) s.
Proof.
  destruct s as [k e]. intros Hi. apply safe_of_wp; [|apply calm_focus, calm_push].
  unfold on_pool. apply wp_zoom. cbn [fst snd].
  eapply wp_mono; [|apply (push_pool_safe c k), Hi].
  intros [[slot|?]|[]] [k' p']; simpl; try done. intros (Hp & o & Ho & Heq) Hk.
  assert (slot_valid (set_pool p' e) slot) as Hs.
  { unfold slot_valid, entry. simpl. rewrite Ho, lookup_insert_eq. by eexists. }
  assert (forall x, slot_valid e x -> slot_valid (set_pool p' e) x) as Hle.
  { intros x. unfold slot_valid, entry. simpl. rewrite Ho, lookup_insert_is_Some'. auto. }
  split; [|by split; [intros x; apply Hle|]]. destruct Hi as [_ He (q & Hq & Hin) Ht Hw].
  constructor; simpl; try done.
  - intros x c'. unfold entry. simpl. rewrite Ho.
    destruct (decide (x = slot)) as [->|Hne].
    + rewrite lookup_insert_eq. intros [= <-]. by destruct Heq as [->|[old ->]].
    + rewrite lookup_insert_ne by done. apply He.
  - exists q. split; [done|]. intros x Hx. by apply Hle, Hin.
  - intros x Hx. by apply Hle, Hw, Hk.
Qed.

Lemma register_connection_safe socket_type fd s :
  inv s ->
  safe (register_connection socket_type fd)
    (fun r s' => match r with inl slot => slot_valid s'.2 slot | inr _ => True end) s.
Proof.
  intros Hi. unfold register_connection. eapply safe_bind; [by apply push_to_pool_safe|].
  intros [slot|?] s1 Hi1 Hle1 Hs; [|done]. safe.
Qed.

Lemma attach_socket_safe fd socket_type s :
  inv s ->
  safe (attach_socket fd socket_type)
    (fun r s' => match r with inl v => slot_valid s'.2 (get_slot v) | inr _ => True end) s.
Proof.
  intros Hi. unfold attach_socket. eapply safe_bind; [by apply register_connection_safe|].
  intros [slot|?] s1 Hi1 Hle1 Hs; safe.
Qed.

#[local] Hint Resolve release_connection_safe : safety.

Lemma transfer_safe destination source s :
  inv s -> slot_valid s.2 (get_slot destination) -> slot_valid s.2 (get_slot source) ->
  safe (transfer destination source) (fun _ _ => True) s.
Proof.
  intros Hi Hd Hs. unfold transfer, scope_guard, transfer_body. safe.
Qed.

Lemma release_view_safe view s :
  inv s -> slot_valid s.2 (get_slot view) -> safe (release_connection_by_view view) (fun _ _ => True) s.
Proof. intros Hi Hs. unfold release_connection_by_view. safe. Qed.

Lemma init_connection_type_safe socket_type slot s :
  inv s -> slot_valid s.2 slot -> safe (init_connection_type socket_type slot) (fun _ _ => True) s.
Proof. intros Hi Hs. unfold init_connection_type. safe. Qed.

Lemma reset_base_connection_safe socket_type s :
  inv s -> slot_valid s.2 0 -> safe (reset_base_connection socket_type) (fun _ _ => True) s.
Proof.
  intros Hi Hs. unfold reset_base_connection.
  eapply safe_bind; [by apply init_connection_type_safe|]. intros. by apply safe_ret.
Qed.

Lemma send_from_safe message filter slots : forall report s,
  inv s -> Forall (slot_valid s.2) slots ->
  safe (send_from slots message filter report) (fun _ _ => True) s.
Proof.
  induction slots as [|slot slots IH]; intros report s Hi Hs; cbn [send_from]; [by apply safe_ret|].
  apply Forall_cons in Hs as [Hslot Hs]. safe.
Qed.

Lemma pool_slots_valid s : inv s ->
  Forall (slot_valid s.2) (seqZ 0 (ObjectPool.counter (connection_pool_ s.2))).
Proof.
  intros Hi. apply Forall_forall. intros x Hx%elem_of_seqZ.
  destruct (ei_pool _ Hi) as (_ & _ & _ & Ho). apply Ho. lia.
Qed.

Lemma send_message_all_safe message filter s :
  inv s -> safe (NetworkEngine.send_message message filter) (fun _ _ => True) s.
Proof.
  intros Hi. unfold NetworkEngine.send_message. destruct s as [k e].
  eapply safe_bind; [by eapply (safe_same _ e (fun a s' => a = e /\ s' = (k, e)))|].
  intros a s' Hi' Hle [-> ->]. apply send_from_safe; [done|]. by apply (pool_slots_valid (k, e)).
Qed.

Lemma find_view_safe filter slots : forall s,
  inv s -> Forall (slot_valid s.2) slots ->
  safe (find_view slots filter) (fun _ _ => True) s.
Proof.
  induction slots as [|slot slots IH]; intros s Hi Hs; cbn [find_view]; [by apply safe_ret|].
  apply Forall_cons in Hs as [Hslot Hs]. safe.
Qed.

Lemma register_connections_safe fds : forall report s,
  inv s -> safe (register_connections fds report) (fun _ _ => True) s.
Proof.
  induction fds as [|fd fds IH]; intros report s Hi; cbn [register_connections]; [by apply safe_ret|].
  eapply safe_bind; [by apply register_connection_safe|]. intros r s1 Hi1 Hle1 _. safe.
Qed.
#[local] Hint Resolve register_connections_safe : safety.

Lemma terminate_safe error : always_safe (success_or_terminate (W := W) error).
Proof. unfold success_or_terminate, plain_terminate. always. Qed.
#[local] Hint Resolve terminate_safe : safety.

Lemma process_server_socket_safe fuel slot s :
  inv s -> slot_valid s.2 slot -> safe (process_server_socket fuel slot) (fun _ _ => True) s.
Proof. intros Hi Hs. unfold process_server_socket. safe. Qed.

Lemma push_raw_task_safe slot s :
  inv s -> slot_valid s.2 slot -> safe (push_raw_task slot) (fun _ _ => True) s.
Proof.
  destruct s as [k e]. intros [Hp He (q & Hq & Hin) Ht Hw] Hs.
  pose proof (queue_push_cases _ _ slot Hq) as Hpush.
  unfold safe, push_raw_task, local_state, zoom. cbn [fst snd] in *.
  destruct (AtomicQueue.try_push slot _) as [[[]|h] a']; [..|by rewrite Hpush].
  - split; [|split; [by intros ?|done]]. constructor; try done.
    exists (q ++ [slot]). split; [done|].
    intros i [Hi| ->%list_elem_of_singleton]%elem_of_app; [by apply Hin | done].
  - subst a'. split; [|split; [by intros ?|done]]. constructor; try done. by exists q.
Qed.

Lemma push_tag_safe x s :
  inv s -> allowed x -> safe (push_tag x) (fun _ _ => True) s.
Proof.
  destruct s as [k e]. intros [Hp He Hr (q & Hq & Hin) Hw] Hs.
  pose proof (queue_push_cases _ _ x Hq) as Hpush.
  unfold safe, push_tag, local_state, zoom. cbn [fst snd] in *.
  destruct (AtomicQueue.try_push x _) as [[[]|h] a']; [..|by rewrite Hpush].
  - split; [|split; [by intros ?|done]]. constructor; try done.
    exists (q ++ [x]). split; [done|].
    intros i [Hi| ->%list_elem_of_singleton]%elem_of_app; [by apply Hin | done].
  - subst a'. split; [|split; [by intros ?|done]]. constructor; try done. by exists q.
Qed.
#[local] Hint Resolve process_server_socket_safe push_raw_task_safe push_tag_safe allowed_network : safety.

Lemma process_events_safe fuel slots : forall s,
  inv s -> Forall (slot_valid s.2) slots -> safe (process_events fuel slots) (fun _ _ => True) s.
Proof.
  induction slots as [|slot slots IH]; intros s Hi Hs; cbn [process_events]; [by apply safe_ret|].
  apply Forall_cons in Hs as [Hslot Hs]. safe.
Qed.

Lemma wait_for_events_safe epfd s : inv s ->
  safe (lift (EpollHandler.wait_for_events epfd MAX_EVENTS))
    (fun r s' => match r with inl slots => Forall (slot_valid s'.2) slots | inr _ => True end) s.
Proof.
  destruct s as [k e]. intros Hi.
  pose proof (ready_watched epfd 10 (world k)) as Hr. pose proof (watched_wait epfd 10 (world k)) as Hw.
  assert (forall k', watched (world k') ⊆ watched (world k) -> engine_inv (k', e)) as Hk.
  { intros k' Hk. eapply engine_inv_machine; [done|]. intros x Hx. by apply (ei_watched _ Hi), Hk. }
  unfold safe, lift, zoom, EpollHandler.wait_for_events, bind, do_epoll_wait, MAX_EVENTS. cbn [fst snd].
  destruct (sys_epoll_wait epfd 10 (world k)) as [[slots|er] w]; cbn [fst snd] in *.
  - destruct Hr as [Hl Hin]. rewrite (proj2 (Z.leb_le _ _)) by lia. cbn.
    split; [by apply Hk|]. split; [by intros ?|]. apply Forall_forall. intros x Hx.
    by apply (ei_watched _ Hi), Hin.
  - cbn. split; [by apply Hk|]. by split; [intros ?|].
Qed.

Lemma event_round_safe fuel s : inv s -> safe (event_round fuel) (fun _ _ => True) s.
Proof.
  intros Hi. unfold event_round. eapply safe_bind; [by apply epollfd_safe|].
  intros epfd s1 Hi1 _ ->. eapply safe_bind; [by apply wait_for_events_safe|].
  intros [slots|er] s2 Hi2 Hle Hs; [by apply process_events_safe|]. safe.
Qed.

Lemma init_epoll_safe slot s :
  inv s -> slot_valid s.2 slot -> safe init_epoll (fun _ _ => True) s.
Proof.
  intros Hi Hs. unfold init_epoll.
  eapply safe_bind; [apply safe_lift_always; [|done]|].
  { unfold EpollHandler.init, EpollHandler.check. always. }
  intros [fd r] s1 Hi1 Hle1 He. safe_carry.
  eapply (safe_bind _ _ (fun _ s' => slot_valid s'.2 slot)).
  { destruct s1 as [k1 e1]. eapply safe_run; [reflexivity | | by intros ? | done].
    destruct Hi1. by constructor. }
  intros _ s2 Hi2 Hle2 Hs2. pose proof (slot_valid_root _ slot (ei_pool _ Hi2) Hs2). safe.
Qed.

Lemma init_engine_safe socket_type fd s : inv s ->
  safe (init_engine socket_type fd)
    (fun r s' => match r with inl v => slot_valid s'.2 (get_slot v) | inr _ => True end) s.
Proof.
  intros Hi. unfold init_engine. eapply safe_bind; [by apply push_to_pool_safe|].
  intros [slot|?] s1 Hi1 Hle1 Hs; [|done].
  eapply safe_bind; [by apply init_connection_type_safe|]. intros r s2 Hi2 Hle2 _. safe_carry.
  destruct r; [by apply safe_ret|].
  eapply safe_bind; [by eapply init_epoll_safe|]. intros r s3 Hi3 Hle3 _. safe_carry.
  destruct r; by apply safe_ret.
Qed.
End EngineOperations.

#[export] Hint Resolve send_message_to_safe attach_socket_safe release_connection_safe transfer_safe
  release_view_safe reset_base_connection_safe init_connection_type_safe send_message_all_safe event_round_safe terminate_safe
  init_engine_safe : safety.

(** ** Applications

    The guard of an application contains the engine's, and what it says besides
    survives every change the engine makes. *)
Class EngineGuard (W A : Type) `{Platform W} `{!Kernel W} `{TagPolicy} `{HasEngine A}
    `{Guard (Machine W * A)} := {
  engine_part k (a : A) : inv (k, a) -> inv (k, engine a);
  engine_le s s' : le s s' -> forall slot, slot_valid (engine s.2) slot -> slot_valid (engine s'.2) slot;
  engine_back k k' (a : A) e' : inv (k, a) -> inv (k', e') -> le (k, engine a) (k', e') ->
    inv (k', set_engine e' a) /\ le (k, a) (k', set_engine e' a);
  engine_lost k e' (a : A) : lost (k, e') -> lost (k, set_engine e' a)
}.

Section Processing.
Context {W A : Type} `{Platform W} `{!Kernel W} `{TagPolicy} `{HasEngine A} `{Guard (Machine W * A)}.
Context `{!EngineGuard W A}.

Lemma on_engine_safe {X} (m : SM W NetworkEngine.t X) Q s :
  inv s -> safe m (fun x s' => Q x (s'.1, set_engine s'.2 s.2)) (s.1, engine s.2) ->
  safe (on_engine m) Q s.
Proof.
  destruct s as [k a]. intros Hi Hm. unfold safe, on_engine, focus, zoom in *. cbn [fst snd] in *.
  destruct (m (k, engine a)) as [[x|[]] [k' e']]; try done.
  - destruct Hm as (Hi' & Hle & HQ). by destruct (engine_back k k' a e' Hi Hi' Hle).
  - by apply engine_lost.
Qed.

Lemma on_engine_always {X} (m : SM W NetworkEngine.t X) s :
  inv s -> safe m (fun _ _ => True) (s.1, engine s.2) -> safe (on_engine m) (fun _ _ => True) s.
Proof. intros Hi Hm. apply on_engine_safe; [done|]. by eapply safe_mono. Qed.
End Processing.

Ltac carry_entries :=
  repeat match goal with
  | Hle : le ?s ?s', Hv : slot_valid (engine (snd ?s)) ?slot |- _ =>
    lazymatch goal with
    | _ : slot_valid (engine (snd s')) slot |- _ => fail
    | _ => assert (slot_valid (engine (snd s')) slot) by exact (engine_le s s' Hle slot Hv)
    end
  end.
Ltac safe_carry ::= cbn beta in *; carry_slots; carry_entries.

#[export] Hint Extern 1 (safe (on_engine _) _ _) => apply on_engine_always; [eassumption|] : safety.
#[export] Hint Extern 2 (inv (fst ?s, engine (snd ?s))) => apply engine_part; destruct s; eassumption : safety.
#[export] Hint Extern 1 (slot_valid (snd (_, _)) _) => assumption : safety.

Section Messages.
Context {W A : Type} `{Platform W} `{!Kernel W} `{TagPolicy} `{HasEngine A} `{Guard (Machine W * A)}.
Context `{!EngineGuard W A} `{!MachineGuard W A}.
Context (handler : ActionContext -> SM W A ActionResult).
Context (handler_safe : forall context s,
  inv s -> slot_valid (engine s.2) (get_slot (pending_view context)) ->
  safe (handler context) (fun _ _ => True) s).

Lemma process_message_safe slot m s :
  inv s -> slot_valid (engine s.2) slot -> safe (process_message handler slot m) (fun _ _ => True) s.
Proof.
  intros Hi Hs. unfold process_message. safe.
Qed.
#[local] Hint Resolve process_message_safe : safety.

Lemma finish_message_safe slot r s :
  inv s -> slot_valid (engine s.2) slot -> safe (finish_message slot r) (fun _ _ => True) s.
Proof. intros Hi Hs. unfold finish_message. safe. Qed.
#[local] Hint Resolve finish_message_safe : safety.

Lemma process_loop_safe recv_fuel fuel slot : forall action s,
  inv s -> slot_valid (engine s.2) slot ->
  safe (process_loop handler recv_fuel fuel slot action) (fun _ _ => True) s.
Proof.
  induction fuel as [|fuel IH]; intros action s Hi Hs; cbn [process_loop]; [by apply safe_stop|].
  eapply (safe_bind _ _ (fun _ _ => True)); [|intros c s1 Hi1 Hle1 _; safe_carry; safe].
  apply on_engine_always; [done|].
  eapply safe_mono; [apply connection_safe; [by apply engine_part; destruct s | done]|]. done.
Qed.

Lemma process_connection_safe recv_fuel fuel view s :
  inv s -> slot_valid (engine s.2) (get_slot view) ->
  safe (process_connection handler recv_fuel fuel view) (fun _ _ => True) s.
Proof. apply process_loop_safe. Qed.
End Messages.
