(* ===== verification/Application.v ===== *)
(** * [application/application]: what server, lobby and client share

    An [Application] has a network engine, a scheduler and the two queues
    between them (which the model keeps inside the engine, see [Network.v]).
    [App R] is the state of an application whose own members are [R].  The
    threads of a run are given as the rounds of their loops: the event loop
    ([NetworkEngine.event_round]), the coroutine loop ([coroutine_round]) and
    the workers ([worker_round]). *)
From S2P Require Import Prelude.
From S2P Require Import Platform.
From S2P Require Import ObjectPool.
From S2P Require Import AtomicQueue.
From S2P Require Import Utility.
From S2P Require Import Protocol.
From S2P Require Import Ring.
From S2P Require Import Network.
From S2P Require Import Engine.
From S2P Require Import Scheduler.

#[local] Open Scope Z_scope.
#[local] Open Scope bsm_scope.

(** The closures and coroutines the applications register. *)
Inductive executor := NetworkExecutor | ConsoleExecutor.
Inductive coroutine := NetworkCo | ConsoleCo.

Record App (R : Type) := mkApp {
  network_engine_ : NetworkEngine.t;
  scheduler_ : Scheduler.t executor coroutine;
  members : R
}.
Arguments mkApp {R} _ _ _.
Arguments network_engine_ {R} _.
Arguments scheduler_ {R} _.
Arguments members {R} _.

Section App.
Context {R : Type}.

Definition set_network_engine (e : NetworkEngine.t) (a : App R) : App R :=
  mkApp e (scheduler_ a) (members a).
Definition set_scheduler (s : Scheduler.t executor coroutine) (a : App R) : App R :=
  mkApp (network_engine_ a) s (members a).
Definition set_members (r : R) (a : App R) : App R :=
  mkApp (network_engine_ a) (scheduler_ a) r.

#[export] Program Instance App_engine : HasEngine (App R) := {
  engine := network_engine_;
  set_engine := set_network_engine
}.
Next Obligation. done. Qed.
Next Obligation. by intros []. Qed.
Next Obligation. done. Qed.
End App.

Definition app_context {W} `{Platform W} : Z -> string -> Error -> Error :=
  add_context "application.cpp".

Section Application.
Context {W : Type} `{Platform W} {R : Type}.
Abbreviation AM A := (SM W (App R) A).

Definition on_scheduler {A} (m : M (Scheduler.t executor coroutine) A) : AM A :=
  local_state (zoom scheduler_ set_scheduler m).
Definition on_members {A} (m : SM W R A) : AM A := focus members set_members m.

Definition init_network (socket_type : end_point_e.t) (fd : Z) : AM (ConnectionView + Error) :=
  let* init_result := on_engine (NetworkEngine.init_engine socket_type fd) in
  match init_result with
  | inr e => ret (inr (app_context 52 "Unalbe to init network: failed to init engine" e))
  | inl v => ret (inl v)
  end.

Definition register_network_task : AM (option Error) :=
  let* add_error := on_scheduler (Scheduler.add_task_executor task_tag_e.NETWORK NetworkExecutor) in
  match add_error with
  | Some e =>
    ret (Some (app_context 64
      "Unalbe to register network task: failed to add executor for task NETWORK" e))
  | None =>
    let* add_error := on_scheduler (Scheduler.add_co_handle NetworkCo task_tag_e.NETWORK) in
    match add_error with
    | Some e =>
      ret (Some (app_context 71
        "Unalbe to register network task: failed to add coroutine for task NETWORK" e))
    | None => ret None
    end
  end.

(** An error of the registration is given a context and dropped. *)
Definition init_app (socket_type : end_point_e.t) (fd : Z) : AM (ConnectionView + Error) :=
  let* init_result := init_network socket_type fd in
  match init_result with
  | inr e => ret (inr (app_context 30 "Unable to init Application: failed to init network" e))
  | inl v =>
    let* registration_error := register_network_task in
    ret (inl v)
  end.

(** One round of the coroutine [network_co], from a resumption to the next
    suspension. *)
Definition network_co : AM unit :=
  let* pending_slot := on_engine (local_state
    (zoom NetworkEngine.network_raw_tasks_ NetworkEngine.set_raw_tasks AtomicQueue.try_pop)) in
  match pending_slot with
  | Some slot => on_scheduler (Scheduler.push_task task_tag_e.NETWORK (SlotContext slot))
  | None => ret tt
  end.

(** The application's handler and, for the client, its console coroutine. *)
Context (handle_action : ActionContext -> AM ActionResult) (console_co : AM unit).

(** [handle.resume()]. *)
Definition resume_coroutine (c : coroutine) : AM unit :=
  match c with NetworkCo => network_co | ConsoleCo => console_co end.

(** One round of [Scheduler::coroutine_loop]. *)
Definition coroutine_round : AM unit :=
  let on_tags {A} (m : M (AtomicQueue.t task_tag_e.t) A) : AM A := on_engine (local_state
    (zoom NetworkEngine.available_task_tags_ NetworkEngine.set_task_tags m)) in
  on_tags AtomicQueue.wait_for_data ;;;
  let* task_tag := on_tags AtomicQueue.try_pop in
  match task_tag with
  | Some x =>
    let* handle := on_scheduler (Scheduler.get_co_handle_by_tag x) in
    resume_coroutine handle
  | None => ret tt
  end.

(** The part of the round before [handle.resume()]: the coroutine to resume, if
    a tag was popped. *)
Definition next_coroutine : AM (option coroutine) :=
  let on_tags {A} (m : M (AtomicQueue.t task_tag_e.t) A) : AM A := on_engine (local_state
    (zoom NetworkEngine.available_task_tags_ NetworkEngine.set_task_tags m)) in
  on_tags AtomicQueue.wait_for_data ;;;
  let* task_tag := on_tags AtomicQueue.try_pop in
  match task_tag with
  | Some x =>
    let* handle := on_scheduler (Scheduler.get_co_handle_by_tag x) in
    ret (Some handle)
  | None => ret None
  end.

(** The two closures; [std::get_if] of the wrong alternative is null. *)
Definition execute (recv_fuel fuel : nat) (f : executor) (context : ContextVariant) : AM unit :=
  match f, context with
  | NetworkExecutor, SlotContext slot =>
    let* ignored := process_connection handle_action recv_fuel fuel (mkView slot) in ret tt
  | ConsoleExecutor, TextContext input =>
    let* ignored := handle_action (mkContext default_view
      (mkReceived message_status_e.EMPTY message_type_e.DEFAULT input None)) in ret tt
  | _, _ => stop Undefined
  end.

(** One round of [Scheduler::worker_loop]. *)
Definition worker_round (recv_fuel fuel : nat) : AM unit :=
  let* next := on_scheduler Scheduler.next_execution in
  match next with
  | Some (f, context) => execute recv_fuel fuel f context
  | None => ret tt
  end.
End Application.

(** ** Lemmas *)
Section ApplicationLemmas.
Context {W : Type} `{Platform W} {R : Type}.
Implicit Types (k : Machine W) (a : App R).

Lemma on_members_run {A} (m : SM W R A) k a r k' u :
  m (k, members a) = (r, (k', u)) -> on_members m (k, a) = (r, (k', set_members u a)).
Proof. apply focus_run. Qed.

Lemma on_scheduler_run {A} (m : M (Scheduler.t executor coroutine) A) k a r s :
  m (scheduler_ a) = (r, s) -> on_scheduler m (k, a) = (r, (k, set_scheduler s a)).
Proof. intros Hm. apply local_state_run. by rewrite (zoom_run _ _ _ _ _ _ Hm). Qed.

Lemma get_co_handle_run (s : Scheduler.t executor coroutine) x c :
  find_tag x (Scheduler.co_handles_map_ s) = Some c -> Scheduler.get_co_handle_by_tag x s = (Ret c, s).
Proof. intros Hc. unfold Scheduler.get_co_handle_by_tag, bind, get. by rewrite Hc. Qed.

Lemma get_executor_run (s : Scheduler.t executor coroutine) x e :
  find_tag x (Scheduler.task_executors_ s) = Some e -> Scheduler.get_executor_by_tag x s = (Ret e, s).
Proof. intros Hc. unfold Scheduler.get_executor_by_tag, bind, get. by rewrite Hc. Qed.

Lemma coroutine_round_next (console_co : SM W (App R) unit) s :
  coroutine_round console_co s =
  (let* next := next_coroutine in
   match next with Some c => resume_coroutine console_co c | None => ret tt end) s.
Proof.
  unfold coroutine_round, next_coroutine, bind. destruct (on_engine _ s) as [[u|h] s1]; [|done].
  destruct (on_engine _ s1) as [[[x|]|h] s2]; [|done..]. by destruct (on_scheduler _ s2) as [[c|h] s3].
Qed.

(** The application's tasks and the two queues that lead to them. *)
Definition raw_tasks a := NetworkEngine.network_raw_tasks_ (network_engine_ a).
Definition tags a := NetworkEngine.available_task_tags_ (network_engine_ a).

Definition network_task (slot : Z) : Task := mkTask task_tag_e.NETWORK (SlotContext slot).

(** The network task has its executor and its coroutine. *)
Definition network_registered a : Prop :=
  find_tag task_tag_e.NETWORK (Scheduler.task_executors_ (scheduler_ a)) = Some NetworkExecutor /\
  find_tag task_tag_e.NETWORK (Scheduler.co_handles_map_ (scheduler_ a)) = Some NetworkCo.

(** Two applications that differ in what waits in their queues only. *)
Definition same_but_queues a a' : Prop :=
  NetworkEngine.connection_pool_ (network_engine_ a') = NetworkEngine.connection_pool_ (network_engine_ a) /\
  NetworkEngine.epollfd_ (network_engine_ a') = NetworkEngine.epollfd_ (network_engine_ a) /\
  members a' = members a /\
  Scheduler.task_executors_ (scheduler_ a') = Scheduler.task_executors_ (scheduler_ a) /\
  Scheduler.co_handles_map_ (scheduler_ a') = Scheduler.co_handles_map_ (scheduler_ a).

#[export] Instance same_but_queues_preorder : PreOrder same_but_queues.
Proof.
  split; [by intros a|]. intros a b c (?&?&?&?&?) (?&?&?&?&?). unfold same_but_queues. by split_and!; etrans.
Qed.

Definition waiting a (raw : list Z) (ts : list task_tag_e.t) (tasks : list Task) : Prop :=
  AtomicQueue.holds (raw_tasks a) raw /\ AtomicQueue.holds (tags a) ts /\
  Scheduler.holds (scheduler_ a) tasks.

Lemma set_tags_tags a :
  set_engine (NetworkEngine.set_task_tags (tags a) (engine a)) a = a.
Proof. by destruct a as [[] ? ?]. Qed.

Lemma push_event_run k (e : NetworkEngine.t) slot raw ts :
  AtomicQueue.holds (NetworkEngine.network_raw_tasks_ e) raw ->
  AtomicQueue.holds (NetworkEngine.available_task_tags_ e) ts ->
  (length raw < 4095)%nat -> (length ts < 4095)%nat ->
  exists q1 q2,
    (NetworkEngine.push_raw_task slot ;;; NetworkEngine.push_tag task_tag_e.NETWORK ;;; ret tt) (k, e)
      = (Ret tt, (k : Machine W, NetworkEngine.set_task_tags q2 (NetworkEngine.set_raw_tasks q1 e))) /\
    AtomicQueue.holds q1 (raw ++ [slot]) /\ AtomicQueue.holds q2 (ts ++ [task_tag_e.NETWORK]).
Proof.
  intros Hr Ht Hlr Hlt.
  destruct (fifo_push_spec (FifoQueue := AtomicQueue_fifo) _ raw slot Hr I Hlr) as (q1 & H1 & Hq1).
  destruct (fifo_push_spec (FifoQueue := AtomicQueue_fifo) _ ts task_tag_e.NETWORK Ht I Hlt)
    as (q2 & H2 & Hq2).
  exists q1, q2. split; [|done].
  erewrite bind_run by (apply local_state_run, zoom_run; exact H1).
  by erewrite bind_run by (apply local_state_run, zoom_run; exact H2).
Qed.

(** Readiness of connections other than the listener. *)
Lemma process_events_run fuel slots : forall k (e : NetworkEngine.t) raw ts,
  AtomicQueue.holds (NetworkEngine.network_raw_tasks_ e) raw ->
  AtomicQueue.holds (NetworkEngine.available_task_tags_ e) ts ->
  (length raw + length slots <= 4095)%nat -> (length ts + length slots <= 4095)%nat ->
  (forall s, s ∈ slots -> exists c, entry e s = Some c /\ connection_type_ c <> end_point_e.LISTENER) ->
  exists q1 q2,
    NetworkEngine.process_events fuel slots (k, e)
      = (Ret tt, (k : Machine W, NetworkEngine.set_task_tags q2 (NetworkEngine.set_raw_tasks q1 e))) /\
    AtomicQueue.holds q1 (raw ++ slots) /\
    AtomicQueue.holds q2 (ts ++ replicate (length slots) task_tag_e.NETWORK).
Proof.
  induction slots as [|slot slots IH]; intros k e raw ts Hr Ht Hlr Hlt Hs.
  { exists (NetworkEngine.network_raw_tasks_ e), (NetworkEngine.available_task_tags_ e).
    simpl. rewrite !app_nil_r. split; [by destruct e | done]. }
  destruct (Hs slot) as (c & Hc & Hne); [left|].
  cbn [NetworkEngine.process_events]. rewrite (bind_run _ _ _ _ _ (connection_run _ _ _ _ Hc)).
  rewrite bool_decide_false by done. simpl in Hlr, Hlt.
  destruct (push_event_run k e slot raw ts) as (q1 & q2 & Hp & Hq1 & Hq2); [done|done|lia|lia|].
  rewrite (bind_run _ _ _ _ _ Hp).
  destruct (IH k (NetworkEngine.set_task_tags q2 (NetworkEngine.set_raw_tasks q1 e))
              (raw ++ [slot]) (ts ++ [task_tag_e.NETWORK])) as (q3 & q4 & Hrun & Hq3 & Hq4);
    [done | done | rewrite length_app; simpl; lia | rewrite length_app; simpl; lia | |].
  { intros s Hin. apply Hs. by right. }
  exists q3, q4. rewrite <- app_assoc in Hq3, Hq4. by split.
Qed.

(** The coroutine thread turns the oldest event into a task. *)
Lemma coroutine_round_run k a slot raw ts tasks console_co :
  network_registered a -> waiting a (slot :: raw) (task_tag_e.NETWORK :: ts) tasks ->
  (length tasks < 4095)%nat ->
  exists a', coroutine_round console_co (k : Machine W, a) = (Ret tt, (k, a')) /\
    same_but_queues a a' /\ waiting a' raw ts (tasks ++ [network_task slot]).
Proof.
  intros [Hex Hco] (Hr & Ht & Htasks) Hl. unfold coroutine_round.
  destruct (fifo_pop_spec (FifoQueue := AtomicQueue_fifo) _ _ _ Hr) as (q1 & Hp1 & Hq1).
  destruct (fifo_pop_spec (FifoQueue := AtomicQueue_fifo) _ _ _ Ht) as (q2 & Hp2 & Hq2).
  pose proof (wait_for_data_run _ _ Ht) as Hw.
  erewrite bind_run.
  2: { apply on_engine_run, local_state_run, zoom_run. exact Hw. }
  rewrite set_tags_tags.
  erewrite bind_run by (apply on_engine_run, local_state_run, zoom_run; exact Hp2).
  cbv beta iota. erewrite bind_run.
  2: { apply on_scheduler_run, get_co_handle_run. exact Hco. }
  cbn [resume_coroutine]. unfold network_co.
  erewrite bind_run by (apply on_engine_run, local_state_run, zoom_run; exact Hp1).
  cbv beta iota. destruct (push_task_run (scheduler_ a) tasks task_tag_e.NETWORK (SlotContext slot) Htasks Hl)
    as (s' & Hpush & Hs' & Hex' & Hco').
  eexists. split; [apply on_scheduler_run; exact Hpush|]. split; [done|]. by split_and!.
Qed.

Lemma coroutine_rounds_run slots : forall k a raw ts tasks console_co,
  network_registered a ->
  waiting a (slots ++ raw) (replicate (length slots) task_tag_e.NETWORK ++ ts) tasks ->
  (length tasks + length slots <= 4095)%nat ->
  exists a', rounds (length slots) (coroutine_round console_co) (k : Machine W, a) = (Ret tt, (k, a')) /\
    same_but_queues a a' /\ waiting a' raw ts (tasks ++ (network_task <$> slots)).
Proof.
  induction slots as [|slot slots IH]; intros k a raw ts tasks console_co Hreg Hw Hl.
  { exists a. simpl. by rewrite app_nil_r. }
  simpl in Hl. destruct (coroutine_round_run k a slot _ _ tasks console_co Hreg Hw)
    as (a1 & Hrun & Hsame & Hw1); [lia|].
  destruct (IH k a1 raw ts (tasks ++ [network_task slot]) console_co) as (a2 & Hrun2 & Hsame2 & Hw2).
  { destruct Hsame as (_ & _ & _ & He & Hc). unfold network_registered in *. by rewrite He, Hc. }
  { done. }
  { rewrite length_app. simpl. lia. }
  exists a2. cbn [length rounds]. rewrite (bind_run _ _ _ _ _ Hrun). split; [exact Hrun2|].
  split; [by etrans|]. by rewrite <- app_assoc in Hw2.
Qed.

(** A worker runs the oldest task. *)
Lemma worker_round_run k a slot raw ts tasks handler recv_fuel fuel :
  network_registered a -> waiting a raw ts (network_task slot :: tasks) ->
  exists a', same_but_queues a a' /\ waiting a' raw ts tasks /\
    worker_round handler recv_fuel fuel (k : Machine W, a)
    = (let* ignored := process_connection handler recv_fuel fuel (mkView slot) in ret tt) (k, a').
Proof.
  intros [Hex Hco] (Hr & Ht & Htasks).
  destruct (try_get_task_run (scheduler_ a) _ _ Htasks) as (s' & Hg & Hs' & Hex' & Hco').
  exists (set_scheduler s' a). split; [done|]. split; [done|].
  unfold worker_round. erewrite bind_run.
  2: { apply on_scheduler_run. unfold Scheduler.next_execution.
       rewrite (bind_run _ _ _ _ _ Hg). unfold Scheduler.get_executor_by_tag. erewrite bind_run by (apply get_executor_run; rewrite Hex'; exact Hex). reflexivity. }
  reflexivity.
Qed.
End ApplicationLemmas.

(** ** Properties *)

(** Every readiness event becomes one run of [process_connection], in the
    order of the events.  From empty queues, the event loop's round for up to
    4095 ready connections (none the listener) and as many rounds of the
    coroutine thread leave exactly one network task per event, oldest first,
    and nothing else changes; a worker's round then runs [process_connection]
    on the slot of the oldest task. *)
Theorem events_become_tasks {W} `{Platform W} {R} (handler : ActionContext -> SM W (App R) ActionResult)
    (console_co : SM W (App R) unit) recv_fuel fuel slot slots k (a : App R) :
  network_registered a -> waiting a [] [] [] -> (length (slot :: slots) <= 4095)%nat ->
  (forall s, s ∈ slot :: slots -> exists c,
     entry (network_engine_ a) s = Some c /\ connection_type_ c <> end_point_e.LISTENER) ->
  exists a' a'',
    (on_engine (NetworkEngine.process_events fuel (slot :: slots)) ;;;
     rounds (length (slot :: slots)) (coroutine_round console_co)) (k, a) = (Ret tt, (k, a')) /\
    same_but_queues a a' /\ waiting a' [] [] (network_task <$> slot :: slots) /\
    same_but_queues a a'' /\ waiting a'' [] [] (network_task <$> slots) /\
    worker_round handler recv_fuel fuel (k, a')
      = (let* ignored := process_connection handler recv_fuel fuel (mkView slot) in ret tt) (k, a'').
Proof.
  intros Hreg (Hr & Ht & Htasks) Hl Hs.
  destruct (process_events_run fuel (slot :: slots) k (network_engine_ a) [] [] Hr Ht Hl Hl Hs)
    as (q1 & q2 & Hev & Hq1 & Hq2).
  set (e1 := NetworkEngine.set_task_tags q2 (NetworkEngine.set_raw_tasks q1 (network_engine_ a))) in *.
  destruct (coroutine_rounds_run (slot :: slots) k (set_network_engine e1 a) [] [] [] console_co)
    as (a1 & Hrun & Hsame & Hw); [done | by rewrite !app_nil_r | exact Hl |].
  destruct (worker_round_run k a1 slot [] [] (network_task <$> slots) handler recv_fuel fuel)
    as (a2 & Hsame2 & Hw2 & Hwork).
  { destruct Hsame as (_ & _ & _ & He & Hc). unfold network_registered. by rewrite He, Hc. }
  { exact Hw. }
  assert (same_but_queues a (set_network_engine e1 a)) as H0 by done.
  assert (same_but_queues a a1) as H1 by exact (transitivity H0 Hsame).
  exists a1, a2. split.
  - erewrite bind_run by (apply on_engine_run; exact Hev). exact Hrun.
  - split_and!; [exact H1 | exact Hw | exact (transitivity H1 Hsame2) | exact Hw2 | exact Hwork].
Qed.

(** *** Witness: the engine of [Engine.v] under an application without members *)
Definition demo_app : App unit :=
  (register_network_task (H := scripted quiet_calls)
     (script_of [], mkApp demo_engine Scheduler.initial tt)).2.2.

Definition ignore_message (context : ActionContext) : SM Script (App unit) ActionResult :=
  ret default_result.

Lemma events_become_tasks_witness :
  exists a' a'',
    (on_engine (NetworkEngine.process_events (H := scripted quiet_calls) 4 [1; 0]) ;;;
     rounds 2 (coroutine_round (ret tt))) (script_of [], demo_app) = (Ret tt, (script_of [], a')) /\
    same_but_queues demo_app a' /\ waiting a' [] [] [network_task 1; network_task 0] /\
    same_but_queues demo_app a'' /\ waiting a'' [] [] [network_task 0] /\
    worker_round (H := scripted quiet_calls) ignore_message 4 4 (script_of [], a')
      = (let* ignored := process_connection (H := scripted quiet_calls) ignore_message 4 4 (mkView 1) in
         ret tt) (script_of [], a'').
Proof.
  apply (@events_become_tasks Script (scripted quiet_calls) unit
           ignore_message (ret tt) 4 4 1 [0] (script_of []) demo_app).
  - by vm_compute.
  - split; [exact empty_holds | split; [exact empty_holds | split; [exact empty_holds | done]]].
  - simpl. lia.
  - intros s. rewrite !elem_of_cons. intros [-> | [-> | []%elem_of_nil]].
    + eexists. split; [exact demo_client | discriminate].
    + eexists. split; [exact demo_lobby | discriminate].
Defined.
