(* ===== verification/Threads.v ===== *)
(** * The threads of a process

    [run] of server, lobby and client starts a thread for the event loop (the
    client another one for the console), the workers' thread, and goes on as
    the coroutine loop.  Each of them is a loop; [round] is one round of it, and
    [step] any thread's next round that returns, so a run of the process is a
    sequence of rounds in any order.  [AppInv] is the invariant of these runs:
    every slot that waits anywhere holds an entry, every tag that waits has its
    coroutine, every task its executor. *)
From S2P Require Import Prelude.
From S2P Require Import Ring.
From S2P Require Import Platform.
From S2P Require Import AtomicQueue.
From S2P Require Import ObjectPool.
From S2P Require Import Utility.
From S2P Require Import Protocol.
From S2P Require Import Socket.
From S2P Require Import Network.
From S2P Require Import Engine.
From S2P Require Import Safety.
From S2P Require Import EngineSafety.
From S2P Require Import Scheduler.
From S2P Require Import Application.

#[local] Open Scope Z_scope.
#[local] Open Scope bsm_scope.

Inductive thread :=
| EventLoop
| CoroutineLoop
| WorkerLoop
| ConsoleLoop (user_cmd : string).   (* the round that reads this line *)

(** What an application adds to [Application]: its handler, its console
    coroutine and its console thread. *)
Record Program (W R : Type) := mkProgram {
  program_handler : ActionContext -> SM W (App R) ActionResult;
  program_console_co : SM W (App R) unit;
  program_console : option (string -> SM W (App R) unit)
}.
Arguments mkProgram {W R} _ _ _.
Arguments program_handler {W R} _ _.
Arguments program_console_co {W R} _.
Arguments program_console {W R} _.

Section Threads.
Context {W : Type} `{Platform W} {R : Type}.

(** [accepts], [receives] and [messages] bound the loops inside a round. *)
Record fuel := mkFuel { accepts : nat; receives : nat; messages : nat }.

(** The threads that [run] starts; a program without a console thread has no
    round of it. *)
Definition round (p : Program W R) (f : fuel) (t : thread) : SM W (App R) unit :=
  match t with
  | EventLoop => on_engine (NetworkEngine.event_round (accepts f))
  | CoroutineLoop => coroutine_round (program_console_co p)
  | WorkerLoop => worker_round (program_handler p) (receives f) (messages f)
  | ConsoleLoop user_cmd =>
    match program_console p with
    | Some read => read user_cmd
    | None => stop Blocked
    end
  end.

Definition step (p : Program W R) (s s' : Machine W * App R) : Prop :=
  exists f t, round p f t s = (Ret tt, s').
End Threads.

(** ** What stays true between rounds *)
Definition co_of (x : task_tag_e.t) : option coroutine :=
  match x with
  | task_tag_e.SCHEDULER => None
  | task_tag_e.NETWORK => Some NetworkCo
  | task_tag_e.CONSOLE => Some ConsoleCo
  end.
Definition executor_of (x : task_tag_e.t) : option executor :=
  match x with
  | task_tag_e.SCHEDULER => None
  | task_tag_e.NETWORK => Some NetworkExecutor
  | task_tag_e.CONSOLE => Some ConsoleExecutor
  end.

(** The views an application keeps in its members name entries. *)
Class Members (R : Type) := {
  members_ok : NetworkEngine.t -> R -> Prop;
  members_grow e e' r :
    (forall slot, slot_valid e slot -> slot_valid e' slot) -> members_ok e r -> members_ok e' r
}.

Section Invariant.
Context {W : Type} `{Platform W} `{!Kernel W} `{TagPolicy} {R : Type} `{Members R}.
Implicit Types (a : App R) (k : Machine W).

Definition task_ok (e : NetworkEngine.t) (t : Task) : Prop :=
  match tag t, context t with
  | task_tag_e.NETWORK, SlotContext slot => slot_valid e slot
  | task_tag_e.CONSOLE, TextContext _ => allowed task_tag_e.CONSOLE
  | _, _ => False
  end.

Definition all_registered (s : Scheduler.t executor coroutine) : Prop :=
  forall x, allowed x -> exists c f,
    co_of x = Some c /\ find_tag x (Scheduler.co_handles_map_ s) = Some c /\
    executor_of x = Some f /\ find_tag x (Scheduler.task_executors_ s) = Some f.

Record AppInv (s : Machine W * App R) : Prop := mkAppInv {
  ai_engine : inv (s.1, network_engine_ s.2);
  ai_registered : all_registered (scheduler_ s.2);
  ai_tasks : exists q, Scheduler.holds (scheduler_ s.2) q /\
    Forall (task_ok (network_engine_ s.2)) q;
  ai_members : members_ok (network_engine_ s.2) (members s.2)
}.

#[export] Program Instance app_guard : Guard (Machine W * App R) := {
  inv := AppInv;
  le s s' := forall slot, slot_valid (network_engine_ s.2) slot -> slot_valid (network_engine_ s'.2) slot;
  lost s := RING_BUFFER_SIZE < ObjectPool.counter (NetworkEngine.connection_pool_ (network_engine_ s.2))
}.
Next Obligation. split; [by intros s | intros s1 s2 s3 H12 H23 slot Hs; auto]. Qed.

Lemma task_ok_grow e e' t :
  (forall slot, slot_valid e slot -> slot_valid e' slot) -> task_ok e t -> task_ok e' t.
Proof. unfold task_ok. intros He. destruct (tag t), (context t); auto. Qed.

#[export] Instance app_engine : EngineGuard W (App R).
Proof.
  constructor; simpl; try done.
  - by intros k a [].
  - intros k k' a e' [Hi Hr (q & Hq & Ht) Hm] Hi' Hle. split; [|exact Hle].
    constructor; simpl in *; try done.
    + exists q. split; [done|]. eapply Forall_impl; [exact Ht|]. intros t. by apply task_ok_grow.
    + by eapply members_grow.
Qed.

#[export] Instance app_machine : MachineGuard W (App R).
Proof.
  constructor. intros k k' a Hw [Hi Hr Ht Hm]. split; [|by intros ?]. constructor; try done.
  by apply (calm_inv k k' (network_engine_ a) Hw Hi).
Qed.
End Invariant.

(** ** Every round is safe *)
Section Rounds.
Context {W : Type} `{Platform W} `{!Kernel W} `{TagPolicy} {R : Type} `{Members R}.
Implicit Types (k : Machine W) (s : Machine W * App R) (se : Machine W * NetworkEngine.t).

Lemma pop_tag_safe se : inv se ->
  safe (local_state (zoom NetworkEngine.available_task_tags_ NetworkEngine.set_task_tags AtomicQueue.try_pop))
    (fun r _ => if r is Some x then allowed x else True) se.
Proof.
  destruct se as [k e]. intros [Hp He Hr (q & Hq & Hin) Hw].
  pose proof (queue_pop_cases _ _ Hq) as Hpop.
  unfold safe, local_state, zoom. cbn [fst snd] in *.
  destruct (AtomicQueue.try_pop _) as [[[x|]|h] a']; [| |done].
  - destruct Hpop as (q' & -> & Ha'). split; [|split; [by intros ?|apply Hin; left]].
    constructor; try done. exists q'. split; [done|]. intros y Hy. apply Hin. by right.
  - destruct Hpop as [-> ->]. split; [|by split; [intros ?|]]. constructor; try done. by exists [].
Qed.

Lemma wait_tag_safe se : inv se ->
  safe (local_state (zoom NetworkEngine.available_task_tags_ NetworkEngine.set_task_tags
    AtomicQueue.wait_for_data)) (fun _ _ => True) se.
Proof.
  destruct se as [k e]. intros [Hp He Hr (q & Hq & Hin) Hw].
  pose proof (queue_wait_cases _ _ Hq) as Hwait.
  unfold safe, local_state, zoom. cbn [fst snd] in *.
  destruct (AtomicQueue.wait_for_data _) as [[[]|h] a']; [|by rewrite Hwait].
  subst a'. split; [|by split; [intros ?|]]. constructor; try done. by exists q.
Qed.

Lemma pop_raw_safe se : inv se ->
  safe (local_state (zoom NetworkEngine.network_raw_tasks_ NetworkEngine.set_raw_tasks AtomicQueue.try_pop))
    (fun r se' => if r is Some slot then slot_valid se'.2 slot else True) se.
Proof.
  destruct se as [k e]. intros [Hp He (q & Hq & Hin) Ht Hw].
  pose proof (queue_pop_cases _ _ Hq) as Hpop.
  unfold safe, local_state, zoom. cbn [fst snd] in *.
  destruct (AtomicQueue.try_pop _) as [[[x|]|h] a']; [| |done].
  - destruct Hpop as (q' & -> & Ha'). split; [|split; [by intros ?|apply Hin; left]].
    constructor; try done. exists q'. split; [done|]. intros y Hy. apply Hin. by right.
  - destruct Hpop as [-> ->]. split; [|by split; [intros ?|]]. constructor; try done. by exists [].
Qed.

(** A call on the scheduler, given what it leaves. *)
Lemma on_scheduler_safe {A} (m : M (Scheduler.t executor coroutine) A) Q k (a : App R) :
  inv (k, a) ->
  match m (scheduler_ a) with
  | (Ret x, s') => all_registered s' /\
      (exists q, Scheduler.holds s' q /\ Forall (task_ok (network_engine_ a)) q) /\
      Q x (k, set_scheduler s' a)
  | (Halt h, _) => h <> Undefined
  end ->
  safe (on_scheduler m) Q (k, a).
Proof.
  intros [Hi Hr Ht Hm] Hrun. unfold safe, on_scheduler, local_state, zoom. cbn [fst snd] in *.
  destruct (m (scheduler_ a)) as [[x|h] s'].
  - destruct Hrun as (Hr' & Ht' & HQ). split; [by constructor|]. by split; [intros ?|].
  - by destruct h.
Qed.

Lemma push_task_safe x args s :
  inv s -> task_ok (network_engine_ s.2) (mkTask x args) ->
  safe (on_scheduler (Scheduler.push_task x args)) (fun _ _ => True) s.
Proof.
  destruct s as [k a]. intros Hi Hok. apply on_scheduler_safe; [done|].
  destruct Hi as [_ Hr (q & Hq & Ht) _]. cbn [fst snd] in *.
  destruct (decide (length q < 4095)%nat) as [Hl|Hl].
  - destruct (push_task_run _ q x args Hq Hl) as (s' & -> & Hq' & Hex & Hco).
    unfold all_registered. rewrite Hex, Hco. split; [done|]. split; [|done].
    eexists. split; [exact Hq'|]. apply Forall_app. by split; [|constructor].
  - destruct Hq as (_ & _ & Hp). unfold Scheduler.push_task, Scheduler.acquire, bind, gets.
    rewrite Hp, (proj2 (Z.ltb_ge _ _)) by (unfold PUSH_MAX; lia). done.
Qed.

Definition execution_ok s (r : option (executor * ContextVariant)) : Prop :=
  match r with
  | None => True
  | Some (NetworkExecutor, SlotContext slot) => slot_valid (engine s.2) slot
  | Some (ConsoleExecutor, TextContext _) => allowed task_tag_e.CONSOLE
  | Some _ => False
  end.

Lemma next_execution_safe s :
  inv s -> safe (on_scheduler Scheduler.next_execution) (fun r s' => execution_ok s' r) s.
Proof.
  destruct s as [k a]. intros Hi. apply on_scheduler_safe; [done|].
  destruct Hi as [_ Hr (q & Hq & Ht) _]. cbn [fst snd] in *.
  unfold Scheduler.next_execution. destruct q as [|t q].
  - destruct Hq as (_ & Hp & _). unfold Scheduler.try_get_task, Scheduler.acquire, bind, gets.
    by rewrite Hp.
  - destruct (try_get_task_run _ t q Hq) as (s' & Hrun & Hq' & Hex & Hco).
    rewrite (bind_run _ _ _ _ _ Hrun). apply Forall_cons in Ht as [Htask Ht].
    assert (allowed (tag t)) as Hallowed.
    { unfold task_ok in Htask. destruct (tag t), (context t); try done. apply allowed_network. }
    destruct (Hr _ Hallowed) as (c & f & Hc & Hfc & Hf & Hff).
    unfold Scheduler.get_executor_by_tag.
    erewrite bind_run by (apply get_executor_run; rewrite Hex; exact Hff).
    split; [unfold all_registered; by rewrite Hex, Hco|]. split; [by exists q|].
    unfold execution_ok, task_ok in *. destruct (tag t), (context t); try done; simpl in Hf; by simplify_eq.
Qed.

(** The coroutine that is resumed is that of a tag that may wait. *)
Lemma next_coroutine_safe s :
  inv s -> safe next_coroutine (fun r _ => if r is Some c then exists x, allowed x /\ co_of x = Some c else True) s.
Proof.
  intros Hi. unfold next_coroutine.
  eapply safe_bind; [apply on_engine_always; [done|]; apply wait_tag_safe, engine_part; by destruct s|].
  intros _ s1 Hi1 Hle1 _.
  eapply (safe_bind _ _ (fun r _ => if r is Some x then allowed x else True)).
  { apply on_engine_safe; [done|]. eapply safe_mono; [apply pop_tag_safe, engine_part; by destruct s1|]. done. }
  intros [x|] s2 Hi2 Hle2 Hx; [|by apply safe_ret].
  eapply (safe_bind _ _ (fun c _ => co_of x = Some c)).
  { destruct s2 as [k a]. apply on_scheduler_safe; [done|]. destruct Hi2 as [_ Hr Ht _].
    destruct (Hr x Hx) as (c & f & Hc & Hfc & _). cbn [fst snd] in *.
    by rewrite (get_co_handle_run _ _ _ Hfc). }
  intros c s3 Hi3 Hle3 Hc. apply safe_ret; [done|]. by exists x.
Qed.

(** What an application has to show. *)
Class SafeProgram (p : Program W R) := {
  handler_safe context s : inv s ->
    allowed task_tag_e.CONSOLE \/ slot_valid (engine s.2) (get_slot (pending_view context)) ->
    safe (program_handler p context) (fun _ _ => True) s;
  console_co_safe s : inv s -> allowed task_tag_e.CONSOLE -> safe (program_console_co p) (fun _ _ => True) s;
  console_safe read user_cmd s : program_console p = Some read -> inv s ->
    safe (read user_cmd) (fun _ _ => True) s
}.

Context (p : Program W R) `{!SafeProgram p}.

Lemma coroutine_round_safe s :
  inv s -> safe (coroutine_round (program_console_co p)) (fun _ _ => True) s.
Proof.
  intros Hi. unfold safe. rewrite coroutine_round_next. fold (safe (bind next_coroutine (fun next =>
    match next with Some c => resume_coroutine (program_console_co p) c | None => ret tt end)) (fun _ _ => True) s).
  eapply safe_bind; [by apply next_coroutine_safe|].
  intros [c|] s3 Hi3 Hle3 Hc; [|by apply safe_ret]. destruct Hc as (x & Hx & Hc). destruct c; cbn [resume_coroutine].
  - unfold network_co.
    eapply (safe_bind _ _ (fun r s' => if r is Some slot then slot_valid (engine s'.2) slot else True)).
    { apply on_engine_safe; [done|].
      eapply safe_mono; [apply pop_raw_safe, engine_part; by destruct s3|].
      done. }
    intros [slot|] s4 Hi4 Hle4 Hs; [by apply push_task_safe | by apply safe_ret].
  - apply console_co_safe; [done|]. by destruct x.
Qed.

Lemma worker_round_safe receives messages s :
  inv s -> safe (worker_round (program_handler p) receives messages) (fun _ _ => True) s.
Proof.
  intros Hi. unfold worker_round. eapply safe_bind; [by apply next_execution_safe|].
  intros [[f c]|] s1 Hi1 Hle1 Hx; [|by apply safe_ret].
  destruct f, c as [slot|text]; try done; cbn [execute].
  - eapply safe_bind; [|intros; by apply safe_ret].
    apply process_connection_safe; [|done..]. intros context s' Hi' Hs. apply handler_safe; auto.
  - eapply safe_bind; [|intros; by apply safe_ret]. apply handler_safe; auto.
Qed.

Lemma round_safe f t s : inv s -> safe (round p f t) (fun _ _ => True) s.
Proof.
  intros Hi. destruct t as [| | |user_cmd]; cbn [round].
  - apply on_engine_always; [done|]. apply event_round_safe, engine_part. by destruct s.
  - by apply coroutine_round_safe.
  - by apply worker_round_safe.
  - destruct (program_console p) as [read|] eqn:E; [by eapply console_safe | by apply safe_stop].
Qed.

Lemma steps_inv s s' : inv s -> rtc (step p) s s' -> inv s' /\ le s s'.
Proof.
  intros Hi Hr. induction Hr as [s|s1 s2 s3 (f & t & Hst) _ IH]; [done|].
  pose proof (round_safe f t s1 Hi) as Hs. unfold safe in Hs. rewrite Hst in Hs.
  destruct Hs as (Hi2 & Hle & _). destruct (IH Hi2) as [Hi3 Hle']. split; [done|]. by etrans.
Qed.
End Rounds.
