(* ===== verification/Server.v ===== *)
(** * [application/server]: the server's reactions to messages *)
From S2P Require Import Prelude.
From S2P Require Import CString.
From S2P Require Import Platform.
From S2P Require Import AtomicQueue.
From S2P Require Import ObjectPool.
From S2P Require Import Utility.
From S2P Require Import Protocol.
From S2P Require Import Dispatcher.
From S2P Require Import Socket.
From S2P Require Import Framing.
From S2P Require Import Network.
From S2P Require Import Engine.
From S2P Require Import LobbyManager.
From S2P Require Import Scheduler.
From S2P Require Import Application.

#[local] Open Scope Z_scope.
#[local] Open Scope bsm_scope.

Module Server.
(** [std::variant<CreateLobby, JoinLobby, ChatMessage, GeneralAction>]. *)
Inductive ServerAction := OnCreateLobby | OnJoinLobby | OnChatMessage | OnGeneralAction.

Definition server_alternative (v : ActionVariant) : option ServerAction :=
  match v with
  | CreateLobby => Some OnCreateLobby
  | JoinLobby => Some OnJoinLobby
  | ChatMessage => Some OnChatMessage
  | GeneralAction => Some OnGeneralAction
  | _ => None
  end.

Definition t : Type := App LobbyManager.t.

Definition is_client (m : ConnectionMeta) : bool :=
  bool_decide (meta_type m = end_point_e.TO_CLIENT).

Section WithPlatform.
Context {W : Type} `{Platform W}.
Abbreviation SV A := (SM W t A).

Definition ctx : Z -> string -> Error -> Error := add_context "server.cpp".

Definition init (socket_type : end_point_e.t) (fd : Z) : SV (option Error) :=
  let* init_result := init_app socket_type fd in
  match init_result with
  | inr e => ret (Some (ctx 19 "Unable to init Server:: failed to init Application" e))
  | inl _ => ret None
  end.

(** [WIFEXITED] and [WEXITSTATUS] of the C library. *)
Definition WIFEXITED (status : Z) : bool := Z.land status 127 =? 0.
Definition WEXITSTATUS (status : Z) : Z := Z.shiftr (Z.land status 65280) 8.

(** Nothing calls it.  [fuel] bounds the calls of [waitpid]. *)
Fixpoint handle_zombie_pocesses (fuel : nat) : SV unit :=
  match fuel with
  | O => stop NoFuel
  | S fuel' =>
    let* p := lift do_waitpid in
    let '(pid, status) := p in
    if 0 <? pid then
      (if WIFEXITED status
       then lift (LOG ("Child process exited: pid=" +:+ to_string pid +:+ ", status=" +:+
                       to_string (WEXITSTATUS status)))
       else ret tt) ;;;
      handle_zombie_pocesses fuel'
    else ret tt
  end.

Definition create_lobby : SV (LobbyView + Error) :=
  let* spawn_result := lift LobbyManager.spawn_lobby in
  match spawn_result with
  | inr e => ret (inr (ctx 89 "Unable to create lobby: failed to spawn lobby" e))
  | inl process =>
    let* attach_result := on_engine (NetworkEngine.attach_socket
      (control_socket process) end_point_e.TO_LOBBY) in
    match attach_result with
    | inr e =>
      ret (inr (ctx 96 "Unable to create lobby: failed to attach lobby to NetworkEngine" e))
    | inl view =>
      let* lobby_view := on_members (LobbyManager.attach (process_pid process) view) in
      match lobby_view with
      | inr e =>
        ret (inr (ctx 103 "Unable to create lobby: failed to attach lobby to LobbyManager" e))
      | inl l => ret (inl l)
      end
    end
  end.

Definition init_lobby (lobby_view : LobbyView) : SV (option Error) :=
  let* send_error := on_engine (NetworkEngine.send_message_to
    (view_control_connection lobby_view)
    (typed_message (to_string (view_lobby_id lobby_view)) message_type_e.LOBBY_ID)) in
  ret (ctx 117 "Unable to init lobby: failed to send lobby id" <$> send_error).

Definition perform_transfer (recipient : LobbyView) (context : ActionContext)
    : SV ActionResult :=
  let* transfer_result := on_engine (NetworkEngine.transfer
    (view_control_connection recipient) (pending_view context)) in
  (if negb (destination_conn_preserved transfer_result)
   then on_members (LobbyManager.kill_lobby (view_lobby_id recipient)) else ret tt) ;;;
  if source_conn_preserved transfer_result then ret keep else ret release_result.

Definition execute_create_lobby (context : ActionContext) : SV ActionResult :=
  let* lobby_view := create_lobby in
  match lobby_view with
  | inr e =>
    ret (keep_with_user_error
      (ctx 64 "Unable to create lobby: failed to request lobby" e) CANT_CREATE_LOBBY)
  | inl l =>
    let* send_error := init_lobby l in
    match send_error with
    | Some e =>
      ret (keep_with_user_error
        (ctx 73 "Unable to create lobby:L failed to init lobby" e) CANT_CREATE_LOBBY)
    | None => perform_transfer l context
    end
  end.

Definition execute_join_lobby (context : ActionContext) : SV ActionResult :=
  match JoinLobbyCode.parse (payload (context_message context)) with
  | inr e =>
    ret (keep_with_user_error
      (ctx 142 "Unable to join lobby: failed to parse connection code" e) CANT_JOIN_LOBBY)
  | inl code =>
    let* lobby_view := on_members (local_state
      (gets (LobbyManager.find (JoinLobbyCode.int_code code)))) in
    match lobby_view with
    | inr e =>
      ret (keep_with_user_error
        (ctx 152 "Unable to join lobby: failed to find lobby" e) CANT_JOIN_LOBBY)
    | inl l => perform_transfer l context
    end
  end.

Definition execute_chat_message (context : ActionContext) : SV ActionResult :=
  match parse (payload (context_message context)) with
  | inr e =>
    ret (keep_with_error
      (ctx 167 "Unable to process chat message: failed to parse incoming message" e))
  | inl text =>
    on_engine (NetworkEngine.send_message
      (typed_message text message_type_e.PRINTABLE) is_client) ;;;
    ret keep
  end.

Definition execute_general_action (context : ActionContext) : SV ActionResult :=
  let* send_error := on_engine (NetworkEngine.send_message_to (pending_view context)
    (typed_message (user_message UNKNOWN_COMMAND) message_type_e.PRINTABLE)) in
  match send_error with
  | Some e =>
    ret (mkActionResult CONTINUE RELEASE
      (Some (ctx 191 "Unable to process general action: failed to send answer" e)) None)
  | None => ret keep
  end.

Definition handle_action (context : ActionContext) : SV ActionResult :=
  let action_info := dispatch (context_message context) in
  match filter_variant server_alternative (variant action_info) with
  | inr e => ret (keep_with_error (ctx 50 "Action in not allowed in this context" e))
  | inl OnCreateLobby => execute_create_lobby context
  | inl OnJoinLobby => execute_join_lobby context
  | inl OnChatMessage => execute_chat_message context
  | inl OnGeneralAction => execute_general_action context
  end.
End WithPlatform.
End Server.

(** ** Lemmas *)
Section ServerLemmas.
Context {W : Type} `{Platform W}.
Implicit Types (k : Machine W) (a : Server.t).
Import Server.

(** The connection code a lobby prints is the one [\join] reads. *)
Definition join_request (code : Z) : string := "\join " +:+ to_string code.

Lemma dispatch_join text sock st :
  variant (dispatch (mkReceived st message_type_e.DEFAULT ("\join " +:+ text) sock)) = JoinLobby.
Proof. reflexivity. Qed.

Lemma handle_join k a view st sock code l :
  int64_min <= code <= int64_max -> LobbyManager.find code (members a) = inl l ->
  let ctx := mkContext view (mkReceived st message_type_e.DEFAULT (join_request code) sock) in
  handle_action ctx (k, a) = perform_transfer l ctx (k, a).
Proof.
  intros Hr Hf ctx.
  assert (variant (dispatch (context_message ctx)) = JoinLobby) as Hd by apply dispatch_join.
  assert (JoinLobbyCode.parse (payload (context_message ctx))
          = inl (JoinLobbyCode.mk (to_string code) code)) as Hp
    by exact (parse_join_command "join" code Hr).
  unfold handle_action. rewrite Hd. cbn [filter_variant server_alternative].
  unfold execute_join_lobby. rewrite Hp. cbn [JoinLobbyCode.int_code].
  erewrite bind_run.
  2: { apply on_members_run. apply local_state_run. unfold gets. reflexivity. }
  rewrite Hf. by destruct a.
Qed.

Lemma transfer_engine_run dst src k a r k' e' :
  NetworkEngine.transfer dst src (k, network_engine_ a) = (Ret r, (k', e')) ->
  on_engine (NetworkEngine.transfer dst src) (k, a) = (Ret r, (k', set_network_engine e' a)).
Proof. intros Hr. exact (on_engine_run _ _ _ _ _ _ Hr). Qed.

Lemma kill_lobby_run k a id :
  exists m, on_members (LobbyManager.kill_lobby id) (k, a)
    = (Ret tt, (after (c_kill (default 0 (pid <$> LobbyManager.lobbies_ (members a) !! id)) SIGKILL) k,
                set_members m a)).
Proof.
  exists (LobbyManager.mk (<[id := default default_lobby (LobbyManager.lobbies_ (members a) !! id)]>
                    (LobbyManager.lobbies_ (members a)))).
  apply on_members_run. unfold LobbyManager.kill_lobby.
  erewrite bind_run by reflexivity. cbn [fst snd]. erewrite bind_run by reflexivity.
  erewrite bind_run by (apply lift_run, call_run).
  destruct (LobbyManager.lobbies_ (members a) !! id) eqn:E; simpl; rewrite ?E; reflexivity.
Qed.

Lemma attach_run k a child view now code :
  (forall w, (sys_call c_time w).1.1 = now) -> code_of_time now = Some code ->
  exists k1, on_members (LobbyManager.attach child view) (k, a) =
    match LobbyManager.lobbies_ (members a) !! code with
    | Some _ => (Ret (inr (new_error "Unable to emplace lobby into map")),
                 (after (c_kill child SIGKILL) k1, a))
    | None => (Ret (inl (mkLobbyView code view)),
               (k1, set_members (LobbyManager.mk (<[code := mkLobbyEntry child view]>
                                   (LobbyManager.lobbies_ (members a)))) a))
    end.
Proof.
  intros Hclock Hcode. assert (clock_reads k now (sys_call c_time (world k)).2) as Hclk.
  { unfold clock_reads. specialize (Hclock (world k)).
    destruct (sys_call c_time (world k)) as [[n e] w]. simpl in *. subst n. by exists e. }
  destruct (conn_code_run k now _ code Hclk Hcode) as (k1 & Hgen & _ & _). exists k1.
  destruct (LobbyManager.lobbies_ (members a) !! code) as [old|] eqn:El.
  - transitivity (@Ret (LobbyView + Error) (inr (new_error "Unable to emplace lobby into map")),
      (after (c_kill child SIGKILL) k1, set_members (members a) a)); [|by destruct a].
    apply on_members_run. unfold LobbyManager.attach.
    erewrite bind_run by (apply lift_run; exact Hgen). erewrite bind_run by reflexivity.
    cbn [fst snd]. rewrite El. by erewrite bind_run by (apply lift_run, call_run).
  - apply on_members_run. unfold LobbyManager.attach.
    erewrite bind_run by (apply lift_run; exact Hgen). erewrite bind_run by reflexivity.
    cbn [fst snd]. rewrite El. reflexivity.
Qed.

(** Releasing a slot that is not held: the pool does not notice. *)
Lemma release_again k e live q slot c :
  engine_ok e live q -> (length q < 4095)%nat -> entry e slot = Some c ->
  fd_of c = -1 -> 0 <= slot < ObjectPool.counter (NetworkEngine.connection_pool_ e) ->
  exists e', NetworkEngine.release_connection slot (k, e)
      = (Ret tt, (after (c_epoll_ctl_del (NetworkEngine.epollfd_ e) (-1)) k, e')) /\
    AtomicQueue.holds (ObjectPool.available_slots_ (NetworkEngine.connection_pool_ e')) (q ++ [slot]).
Proof.
  intros Hok Hq Hc Hfd Hs. unfold NetworkEngine.release_connection.
  rewrite (bind_run _ _ _ _ _ (unsubscribe_run _ _ _ _ Hc)), Hfd.
  erewrite bind_run by reflexivity.
  rewrite (bind_run _ _ _ _ _ (on_connection_run _ _ _ _ _ _ _ _ Hc (reset_run _ c))), Hfd.
  unfold closed. simpl Z.eqb. cbv iota.
  assert (engine_ok (set_entry slot (reset_entry c) e) live q) as Hok' by (by apply put_object_ok).
  destruct (release_run (after (c_epoll_ctl_del (NetworkEngine.epollfd_ e) (-1)) k)
              _ live q slot Hok' Hq) as (p' & Hr & _ & _ & _ & Hq').
  exists (NetworkEngine.set_pool p' (set_entry slot (reset_entry c) e)). split; [|exact Hq'].
  unfold NetworkEngine.release_slot, NetworkEngine.on_pool.
  by rewrite (focus_run _ _ _ _ _ _ _ _ Hr).
Qed.
End ServerLemmas.

(** ** Properties *)
Section ServerProperties.
Context {W : Type} `{Platform W}.
Implicit Types (k : Machine W) (a : Server.t).
Import Server.

(** A client that sends the server a command it does not serve (its own
    [\quit] or [\close], a SOCKET, LOBBY_ID or PRINTABLE message) is cut off
    without being told: the server reports an error, answers nothing, keeps
    the connection open, and never reads from it again, because its one-shot
    epoll registration is not re-armed. *)
Theorem refused_command_stalls_client recv_fuel fuel slot k a type fd m ms cut control w :
  server_alternative (variant (dispatch (received_of control m))) = None ->
  entry (network_engine_ a) slot = Some (entry_of type fd) ->
  message_type_e.valid (out_type m) ->
  sys_recvmsg fd (Z.of_nat BUFFER_SIZE) (world k) = (Received (stream (m :: ms) cut) control, w) ->
  (length (stream (m :: ms) cut) <= BUFFER_SIZE)%nat ->
  stalled handle_action (S recv_fuel) (S fuel) slot k a type fd control m ms cut.
Proof.
  intros Hv Hc Hm Hr Hlen. eapply loop_keep_error; try done.
  intros k1 a1. unfold handle_action, filter_variant. cbn [context_message].
  rewrite Hv. reflexivity.
Qed.

(** The code a lobby shows its guests lets others in.  When [code] is the
    code of a lobby, the text [\join <code>] makes the server send the
    client's descriptor to that lobby's control connection, close its own
    copy, release the client's slot once and report success; the lobby's
    connection stays. *)
Theorem join_reaches_lobby k a st sock code src dst cs cd live q :
  int64_min <= code <= int64_max ->
  LobbyManager.find code (members a) = inl (mkLobbyView code (mkView dst)) ->
  src <> dst -> engine_ok (network_engine_ a) (src :: dst :: live) q -> (length q < 4095)%nat ->
  entry (network_engine_ a) src = Some cs -> entry (network_engine_ a) dst = Some cd ->
  let k1 := after (c_epoll_ctl_del (NetworkEngine.epollfd_ (network_engine_ a)) (fd_of cs)) k in
  let send := sending cd (socket_message (fd_of cs)) in
  answer send k1 <> -1 ->
  exists e',
    handle_action (mkContext (mkView src)
        (mkReceived st message_type_e.DEFAULT (join_request code) sock)) (k, a)
      = (Ret keep, (closed (fd_of cs) (after send k1), set_network_engine e' a)) /\
    engine_ok e' (dst :: live) (q ++ [src]) /\
    entry e' src = Some (reset_entry cs) /\ entry e' dst = Some cd.
Proof.
  intros Hcode Hf Hne Hok Hq Hcs Hcd k1 send Hsend.
  destruct (transfer_sent k _ src dst cs cd live q Hne Hok Hq Hcs Hcd Hsend)
    as (e' & Hrun & Hrest). exists e'. split; [|exact Hrest].
  rewrite (handle_join _ _ _ _ _ _ _ Hcode Hf). unfold perform_transfer.
  rewrite (bind_run _ _ _ _ _ (transfer_engine_run _ _ _ _ _ _ _ Hrun)). reflexivity.
Qed.

(** When neither the lobby nor epoll takes the client back, its slot is
    released twice: once by the transfer and once more by the loop that called
    the handler, so that it waits twice in the queue of free slots (and two
    later connections will share it). *)
Theorem failed_transfer_releases_twice k a l src dst cs cd live q msg :
  view_control_connection l = mkView dst ->
  src <> dst -> engine_ok (network_engine_ a) (src :: dst :: live) q -> (length q < 4093)%nat ->
  entry (network_engine_ a) src = Some cs -> entry (network_engine_ a) dst = Some cd ->
  let e := network_engine_ a in
  let k1 := after (c_epoll_ctl_del (NetworkEngine.epollfd_ e) (fd_of cs)) k in
  let send := sending cd (socket_message (fd_of cs)) in
  let k2 := released e cd (after send k1) in
  answer send k1 = -1 ->
  answer (c_epoll_ctl_add (NetworkEngine.epollfd_ e) (fd_of cs) src) k2 = -1 ->
  exists k' a',
    (let* r := perform_transfer l (mkContext (mkView src) msg) in finish_message src r) (k, a)
      = (Ret None, (k', a')) /\
    AtomicQueue.holds
      (ObjectPool.available_slots_ (NetworkEngine.connection_pool_ (network_engine_ a')))
      (q ++ [dst; src; src]).
Proof.
  intros Hl Hne Hok Hq Hcs Hcd e k1 send k2 Hsend Hadd.
  destruct (transfer_failed k e src dst cs cd live q Hne Hok ltac:(lia) Hcs Hcd Hsend)
    as (k' & e' & Hrun & Hd & Hrest).
  fold k1 send k2 in Hrun, Hrest. rewrite Hadd in Hrun, Hrest. destruct Hrest as [Hok' Hs'].
  unfold perform_transfer. rewrite Hl. cbn [pending_view]. rewrite !bind_bind.
  rewrite (bind_run _ _ _ _ _ (transfer_engine_run _ _ _ _ _ _ _ Hrun)).
  cbn [destination_conn_preserved source_conn_preserved negb Z.eqb].
  destruct (kill_lobby_run k' (set_network_engine e' a) (view_lobby_id l)) as [m Hk].
  rewrite ?bind_bind, (bind_run _ _ _ _ _ Hk). change (negb (1 =? 1)%positive) with false. cbv iota.
  rewrite bind_ret.
  set (k3 := after _ k'). set (a3 := set_members _ _).
  destruct (release_again k3 e' live (q ++ [dst; src]) src (reset_entry cs))
    as (e'' & Hr & Hq''); [done | rewrite length_app; simpl; lia | done | done | |].
  { destruct Hok' as (_ & _ & _ & _ & _ & Ho). apply Ho. by eexists. }
  unfold finish_message. cbn [user_code conn_status release_result Utility.error].
  rewrite bind_ret. rewrite (bind_run _ _ _ _ _ (on_engine_run _ _ a3 _ _ _ Hr)).
  eexists _, _. split; [reflexivity|]. by rewrite <- app_assoc in Hq''.
Qed.

(** What [create_lobby] leaves, [child] and [control] being the process and the
    socket that [spawn_lobby] gave and [code] the code of the present time. *)
Definition create_post (child control code : Z) a (live q : list Z)
    (r : outcome (LobbyView + Error)) (s : Machine W * Server.t) : Prop :=
  let e := network_engine_ s.2 in
  let lobbies := LobbyManager.lobbies_ (members s.2) in
  let old := LobbyManager.lobbies_ (members a) in
  let attached slot :=
    (slot ∉ live) /\ engine_ok e (slot :: live) (tail q) /\
    exists c, entry e slot = Some c /\ connection_type_ c = end_point_e.TO_LOBBY /\
      fd_of c = control in
  match r with
  | Ret (inl l) => exists slot,
      l = mkLobbyView code (mkView slot) /\ attached slot /\ old !! code = None /\
      lobbies = <[code := mkLobbyEntry child (mkView slot)]> old
  | Ret (inr _) => lobbies = old /\
      ((exists slot result, attached slot /\ is_Some (old !! code) /\
          head (trace s.1) = Some (Called (c_kill child SIGKILL) result)) \/
       (exists slot, (slot ∉ live) /\ engine_ok e live (tail q ++ [slot]) /\
          (control <> -1 -> exists result, head (trace s.1) = Some (Called (c_close control) result))))
  | Halt h => q = [] /\ (h = Terminated \/ h = Undefined /\ length live = 4097%nat)
  end.

(** C22: [create_lobby] after a successful spawn.  On success the control
    socket is a connection of its own and the lobby is in the table under the
    code of the present time, which was free; if epoll refuses the control
    socket, it is closed, and the child is left running, in no table; if the
    code is taken, the child is killed, and its control connection stays
    registered although no lobby is behind it.  The table changes only on
    success. *)
Theorem create_lobby_outcomes k k1 a live q child control now code :
  LobbyManager.spawn_lobby k = (Ret (inl (mkProcess child control)), k1) ->
  (forall w, (sys_call c_time w).1.1 = now) -> code_of_time now = Some code ->
  engine_ok (network_engine_ a) live q -> (length q < 4095)%nat ->
  wp create_lobby (create_post child control code a live q) (k, a).
Proof.
  intros Hspawn Hclock Hcode Hok Hq. unfold create_lobby.
  apply wp_bind. unfold wp at 1.
  erewrite lift_run by exact Hspawn. cbn [fst snd control_socket process_pid].
  apply wp_bind, wp_on_engine.
  eapply wp_mono; [|by apply (attach_socket_correct _ _ _ _ live q)].
  intros [[[slot]|err]|h] [k2 e2] Hreg; cbn [fst snd register_post get_slot] in Hreg |- *.
  - destruct Hreg as (Hni & Hok2 & _ & (c & Hc & Ht & Hfd & _) & _ & _).
    change (set_engine e2 a) with (set_network_engine e2 a).
    destruct (attach_run k2 (set_network_engine e2 a) child (mkView slot) now code Hclock Hcode)
      as (k3 & Hrun). cbn [members set_network_engine] in Hrun.
    assert ((slot ∉ live) /\ engine_ok e2 (slot :: live) (tail q) /\
      exists c, entry e2 slot = Some c /\ connection_type_ c = end_point_e.TO_LOBBY /\
        fd_of c = control) as Hat by (split_and!; [done..|by exists c]).
    destruct (LobbyManager.lobbies_ (members a) !! code) as [old|] eqn:El;
      unfold wp; rewrite (bind_run _ _ _ _ _ Hrun).
    + split; [done|]. left. exists slot. eexists. split; [exact Hat|].
      rewrite El. split; [by eexists|]. unfold ret. cbn [fst snd]. by rewrite trace_after.
    + exists slot. split; [done|]. split; [exact Hat|]. by split.
  - destruct Hreg as (slot & Hni & Hok2 & _ & _ & _ & Hcl).
    split; [done|]. right. by exists slot.
  - destruct h; destruct Hreg as [Hx Hy]; try discriminate Hx; (split; [done|]); by auto.
Qed.
End ServerProperties.

(** *** Witnesses: the engine of [Engine.v] with one lobby, code 12345 *)
Definition demo_server : Server.t :=
  mkApp demo_engine Scheduler.Scheduler.initial
    (LobbyManager.LobbyManager.mk {[ 12345 := mkLobbyEntry 77 (mkView 0) ]}).

Definition quit_text : OutgoingMessage := plain_message "\quit".

Definition quit_then_hi : list recv_answer :=
  [Received (@stream Script (scripted quiet_calls) [quit_text; hi] []) None].

Lemma refused_command_stalls_client_witness :
  @stalled Script (scripted quiet_calls) _ _ (@Server.handle_action Script (scripted quiet_calls)) 1 1 1
    (script_of quit_then_hi) demo_server end_point_e.TO_CLIENT 8 None quit_text [hi] [].
Proof.
  apply (@refused_command_stalls_client Script (scripted quiet_calls) 0 0 1 (script_of quit_then_hi)
           demo_server end_point_e.TO_CLIENT 8 quit_text [hi] [] None (world (script_of []))).
  - reflexivity.
  - exact demo_client.
  - exact I.
  - reflexivity.
  - apply Nat.leb_le. vm_compute. reflexivity.
Defined.

Lemma join_reaches_lobby_witness :
  let H := scripted quiet_calls in
  let cs := entry_of end_point_e.TO_CLIENT 8 in
  let cd := entry_of end_point_e.TO_LOBBY 7 in
  let k1 := after (c_epoll_ctl_del 3 8) (script_of []) in
  exists e',
    Server.handle_action (mkContext (mkView 1)
        (mkReceived message_status_e.DATA message_type_e.DEFAULT (join_request 12345) None))
        (script_of [], demo_server)
      = (Ret keep, (closed 8 (after (sending cd (socket_message 8)) k1),
                    set_network_engine e' demo_server)) /\
    engine_ok e' [0] [1] /\ entry e' 1 = Some (reset_entry cs) /\ entry e' 0 = Some cd.
Proof.
  apply (@join_reaches_lobby Script (scripted quiet_calls) (script_of []) demo_server
           message_status_e.DATA None 12345 1 0 (entry_of end_point_e.TO_CLIENT 8)
           (entry_of end_point_e.TO_LOBBY 7) [] []).
  - unfold int64_min, int64_max. lia.
  - vm_compute. reflexivity.
  - discriminate.
  - exact demo_engine_ok.
  - simpl. lia.
  - exact demo_client.
  - exact demo_lobby.
  - vm_compute. discriminate.
Defined.

Lemma failed_transfer_releases_twice_witness :
  let H := scripted refusing_calls in
  exists k' a',
    (let* r := Server.perform_transfer (mkLobbyView 12345 (mkView 0))
                 (mkContext (mkView 1) default_received) in finish_message 1 r)
      (script_of [], demo_server) = (Ret None, (k', a')) /\
    AtomicQueue.AtomicQueue.holds
      (ObjectPool.available_slots_ (NetworkEngine.connection_pool_ (network_engine_ a'))) [0; 1; 1].
Proof.
  apply (@failed_transfer_releases_twice Script (scripted refusing_calls) (script_of []) demo_server
           (mkLobbyView 12345 (mkView 0)) 1 0 (entry_of end_point_e.TO_CLIENT 8)
           (entry_of end_point_e.TO_LOBBY 7) [] [] default_received).
  - reflexivity.
  - discriminate.
  - exact demo_engine_ok.
  - simpl. lia.
  - exact demo_client.
  - exact demo_lobby.
  - vm_compute. reflexivity.
  - vm_compute. reflexivity.
Defined.

(** A platform whose [fork] answers 99 and [socketpair] gives 10 and 11. *)
Definition forking_calls (c : call) : Z * Z :=
  match c with c_fork => (99, 0) | _ => quiet_calls c end.
Definition forking_machine : Machine Script := mkMachine (mkScript [] [] (SocketPair 10 11)) 0 [].

Lemma create_lobby_outcomes_witness :
  let H := scripted forking_calls in
  wp Server.create_lobby (create_post 99 11 12345 demo_server [1; 0] []) (forking_machine, demo_server).
Proof.
  eapply (@create_lobby_outcomes Script (scripted forking_calls) forking_machine _ demo_server
           [1; 0] [] 99 11 1700012345 12345).
  - vm_compute. reflexivity.
  - intros w. reflexivity.
  - vm_compute. reflexivity.
  - exact demo_engine_ok.
  - simpl. lia.
Defined.
