(* ===== verification/Lobby.v ===== *)
(** * [application/lobby]: the lobby's reactions to messages *)
From S2P Require Import Prelude.
From S2P Require Import CString.
From S2P Require Import Platform.
From S2P Require Import Utility.
From S2P Require Import Protocol.
From S2P Require Import Dispatcher.
From S2P Require Import Socket.
From S2P Require Import Framing.
From S2P Require Import Network.
From S2P Require Import Engine.
From S2P Require Import Scheduler.
From S2P Require Import Application.

#[local] Open Scope Z_scope.
#[local] Open Scope bsm_scope.

Record LobbyState := mkLobbyState { lobby_id_ : Z; parent_view_ : ConnectionView }.
Definition initial_lobby : LobbyState := mkLobbyState 0 default_view.

Module Lobby.
(** [std::variant<AcceptSocket, SetLobbyId, ChatMessage>]. *)
Inductive LobbyAction := OnAcceptSocket | OnSetLobbyId | OnChatMessage.

Definition lobby_alternative (v : ActionVariant) : option LobbyAction :=
  match v with
  | AcceptSocket => Some OnAcceptSocket
  | SetLobbyId => Some OnSetLobbyId
  | ChatMessage => Some OnChatMessage
  | _ => None
  end.

Definition t : Type := App LobbyState.

Definition is_client (m : ConnectionMeta) : bool :=
  bool_decide (meta_type m = end_point_e.TO_CLIENT).

Definition greeting (lobby_id : Z) : string :=
  "Connected to lobby" +:+ newline +:+ "Connection code is:" +:+ newline +:+ tab +:+
  to_string lobby_id.

Section WithPlatform.
Context {W : Type} `{Platform W}.
Abbreviation LB A := (SM W t A).

Definition ctx : Z -> string -> Error -> Error := add_context "lobby.cpp".

Definition init (socket_type : end_point_e.t) (fd : Z) : LB (option Error) :=
  let* init_result := init_app socket_type fd in
  match init_result with
  | inr e => ret (Some (ctx 24 "Unable to init Lobby:: failed to init Application" e))
  | inl view =>
    local_state (modify (fun a => set_members (mkLobbyState (lobby_id_ (members a)) view) a)) ;;;
    ret None
  end.

Definition send_join_lobby_message (recipient_view : ConnectionView) : LB (option Error) :=
  let* a := local_state get in
  let* send_error := on_engine (NetworkEngine.send_message_to recipient_view
    (typed_message (greeting (lobby_id_ (members a))) message_type_e.PRINTABLE)) in
  ret (ctx 101 "Unable to send join lobby message: failed to send message" <$> send_error).

Definition execute_accept_socket (context : ActionContext) : LB ActionResult :=
  match socket (context_message context) with
  | None =>
    let* a := local_state get in
    on_engine (NetworkEngine.send_message_to (parent_view_ (members a))
      (typed_message "No socket found in message" message_type_e.ERROR)) ;;;
    ret keep
  | Some fd =>
    let* client_view := on_engine (NetworkEngine.attach_socket fd end_point_e.TO_CLIENT) in
    match client_view with
    | inr e => ret (keep_with_error (ctx 69 "Unable to accept client socket from parent" e))
    | inl view =>
      let* greeting_error := send_join_lobby_message view in
      match greeting_error with
      | Some e =>
        let e' := ctx 77 "Unable to accept socket: failed to send greeting message" e in
        on_engine (NetworkEngine.release_connection_by_view view) ;;;
        ret (keep_with_error e')
      | None => ret keep
      end
    end
  end.

Definition execute_set_lobby_id (context : ActionContext) : LB ActionResult :=
  local_state (modify (fun a => set_members
    (mkLobbyState (strtol (payload (context_message context))) (parent_view_ (members a))) a)) ;;;
  ret keep.

Definition execute_chat_message (context : ActionContext) : LB ActionResult :=
  match parse (payload (context_message context)) with
  | inr e =>
    ret (keep_with_error
      (ctx 118 "Unable to process chat message: failed to parse incoming message" e))
  | inl text =>
    on_engine (NetworkEngine.send_message
      (typed_message text message_type_e.PRINTABLE) is_client) ;;;
    ret keep
  end.

Definition handle_action (context : ActionContext) : LB ActionResult :=
  let action_info := dispatch (context_message context) in
  match filter_variant lobby_alternative (variant action_info) with
  | inr e => ret (keep_with_error (ctx 45 "Action is not allowed in this context" e))
  | inl OnAcceptSocket => execute_accept_socket context
  | inl OnSetLobbyId => execute_set_lobby_id context
  | inl OnChatMessage => execute_chat_message context
  end.
End WithPlatform.
End Lobby.

(** ** Lemmas *)
Section LobbyLemmas.
Context {W : Type} `{Platform W}.
Implicit Types (k : Machine W) (a : Lobby.t).
Import Lobby.

(** What the server sends to hand a client over. *)
Definition hand_over (fd : option Z) : ReceivedMessage :=
  mkReceived message_status_e.DATA message_type_e.SOCKET "\socket" fd.

Lemma handle_hand_over k a view fd :
  handle_action (mkContext view (hand_over fd)) (k, a)
    = execute_accept_socket (mkContext view (hand_over fd)) (k, a).
Proof. reflexivity. Qed.

Lemma dispatch_lobby_id st n sock :
  variant (dispatch (mkReceived st message_type_e.LOBBY_ID (to_string n) sock)) = SetLobbyId.
Proof.
  unfold dispatch. simpl. unfold match_action. simpl. rewrite !to_string_no_command. reflexivity.
Qed.

Lemma release_view_run k e slot c live q :
  engine_ok e (slot :: live) q -> (length q < 4095)%nat -> entry e slot = Some c ->
  is_socket_alive (socket_handler_ c) = true ->
  exists e', NetworkEngine.release_connection_by_view (mkView slot) (k, e)
      = (Ret tt, (released e c k, e')) /\
    engine_ok e' live (q ++ [slot]) /\ entry e' slot = Some (reset_entry c).
Proof.
  intros Hok Hq Hc Ha. unfold NetworkEngine.release_connection_by_view. simpl get_slot.
  rewrite (bind_run _ _ _ _ _ (connection_run _ _ _ _ Hc)), Ha.
  destruct (release_connection_run slot k e c live q Hok Hq Hc) as (e' & Hr & Hok' & He & _).
  by exists e'.
Qed.

(** What accepting a descriptor leaves. *)
Definition accept_post (fd : Z) a (live q : list Z) (r : outcome ActionResult)
    (s : Machine W * Lobby.t) : Prop :=
  let e := network_engine_ s.2 in
  members s.2 = members a /\
  match r with
  | Ret res => conn_status res = KEEP /\ user_code res = None /\
    exists slot, (slot ∉ live) /\
      match error res with
      | None => engine_ok e (slot :: live) (tail q) /\
        (exists c, entry e slot = Some c /\ connection_type_ c = end_point_e.TO_CLIENT /\
           fd_of c = fd /\ is_socket_alive (socket_handler_ c) = true) /\
        exists result, result <> -1 /\ head (trace s.1) = Some (Called (c_sendmsg fd
          (encode (typed_message (greeting (lobby_id_ (members a))) message_type_e.PRINTABLE))
          None) result)
      | Some _ => engine_ok e live (tail q ++ [slot]) /\
        exists c, entry e slot = Some (reset_entry c)
      end
  | Halt h => q = [] /\ (h = Terminated \/ h = Undefined /\ length live = 4097%nat)
  end.

Lemma accept_run fd k a view live q :
  engine_ok (network_engine_ a) live q -> (length q < 4095)%nat ->
  wp (execute_accept_socket (mkContext view (hand_over (Some fd))))
     (accept_post fd a live q) (k, a).
Proof.
  intros Hok Hq. unfold execute_accept_socket. cbn [context_message hand_over socket].
  apply wp_bind, wp_on_engine.
  eapply wp_mono; [|by apply (attach_socket_correct _ _ _ _ live q)].
  intros [[[slot]|err]|h] [k1 e1] Hreg; cbn [fst snd register_post get_slot] in Hreg |- *.
  - destruct Hreg as (Hni & Hok1 & _ & (c & Hc & Ht & Hfd & Hal & _) & _ & _).
    set (greet := typed_message (greeting (lobby_id_ (members a))) message_type_e.PRINTABLE).
    destruct (send_on_run slot greet k1 e1 c Hc) as (rs & Hs & Hiff).
    assert (on_engine (NetworkEngine.send_message_to (mkView slot) greet) (k1, set_network_engine e1 a)
      = (Ret rs, (after (sending c greet) k1, set_network_engine e1 a))) as Hsend
      by (apply on_engine_read; exact Hs).
    unfold wp, send_join_lobby_message. rewrite !bind_bind.
    erewrite bind_run by reflexivity. cbn [fst snd members set_engine App_engine set_network_engine].
    fold greet. rewrite bind_bind, (bind_run _ _ _ _ _ Hsend), bind_ret.
    destruct rs as [es|]; cbn [fmap option_fmap option_map].
    + destruct (release_view_run (after (sending c greet) k1) e1 slot c live (tail q) Hok1
                  ltac:(destruct q; simpl in *; lia) Hc Hal) as (e2 & Hrel & Hok2 & Hs2).
      rewrite (bind_run _ _ _ _ _ (on_engine_run _ _ (set_network_engine e1 a) _ _ _ Hrel)).
      split; [done|]. split; [done|]. split; [done|]. exists slot. split; [done|].
      split; [exact Hok2 | by exists c].
    + split; [done|]. split; [done|]. split; [done|]. exists slot. split; [done|].
      split; [exact Hok1|]. split; [by exists c|]. eexists. split; [by apply Hiff|].
      unfold ret. cbn [fst snd]. rewrite trace_after. unfold sending. by rewrite Hfd.
  - destruct Hreg as (slot & Hni & Hok1 & _ & Hc & _).
    split; [done|]. split; [done|]. split; [done|]. exists slot. by split_and!.
  - split; [done|]. destruct h; destruct Hreg as [Hx Hy]; try discriminate Hx; (split; [done|]); by auto.
Qed.
End LobbyLemmas.

(** ** Properties *)
Section LobbyProperties.
Context {W : Type} `{Platform W}.
Implicit Types (k : Machine W) (a : Lobby.t).
Import Lobby.

(** A lobby that is handed a client greets it or gives it up.  On the
    server's SOCKET message with a descriptor, either the descriptor becomes a
    client connection in a slot nobody held and the last call sends it the
    greeting with the lobby's code, or an error is reported and the slot is
    free again; in both cases the connection to the server is kept and the
    lobby's code does not change.  The lobby goes on unless 4097 connections
    are held or the kernel refuses memory. *)
Theorem hand_over_accepted fd k a view live q :
  engine_ok (network_engine_ a) live q -> (length q < 4095)%nat ->
  wp (handle_action (mkContext view (hand_over (Some fd)))) (accept_post fd a live q) (k, a).
Proof. intros Hok Hq. unfold wp. rewrite handle_hand_over. by apply accept_run. Qed.

(** The lobby learns the code the server chose: the LOBBY_ID message with
    [std::to_string] of a 64-bit code sets [lobby_id_] to the code.  But any
    connection may set it: a plain text that starts with [\lobby_id], whatever
    follows, sets it to 0, and the lobby then greets its guests with code 0. *)
Theorem lobby_id_set k a view st sock n rest :
  int64_min <= n <= int64_max ->
  handle_action (mkContext view (mkReceived st message_type_e.LOBBY_ID (to_string n) sock)) (k, a)
    = (Ret keep, (k, set_members (mkLobbyState n (parent_view_ (members a))) a)) /\
  handle_action (mkContext view (mkReceived st message_type_e.DEFAULT ("\lobby_id" +:+ rest) sock))
      (k, a)
    = (Ret keep, (k, set_members (mkLobbyState 0 (parent_view_ (members a))) a)).
Proof.
  intros Hn. split; [|reflexivity].
  unfold handle_action. cbn [context_message]. rewrite dispatch_lobby_id.
  cbn [filter_variant lobby_alternative]. unfold execute_set_lobby_id. cbn [context_message payload].
  by rewrite strtol_to_string.
Qed.
End LobbyProperties.

(** *** Witnesses *)
Definition demo_lobby_app : Lobby.t :=
  mkApp demo_engine Scheduler.Scheduler.initial (mkLobbyState 12345 (mkView 0)).

Lemma hand_over_accepted_witness :
  wp (@Lobby.handle_action Script (scripted quiet_calls) (mkContext (mkView 0) (hand_over (Some 9))))
     (@accept_post Script (scripted quiet_calls) 9 demo_lobby_app [1; 0] []) (script_of [], demo_lobby_app).
Proof.
  apply (@hand_over_accepted Script (scripted quiet_calls) 9 (script_of []) demo_lobby_app (mkView 0)
           [1; 0] []).
  - exact demo_engine_ok.
  - simpl. lia.
Defined.

Lemma lobby_id_set_witness :
  @Lobby.handle_action Script (scripted quiet_calls)
      (mkContext (mkView 0) (mkReceived message_status_e.DATA message_type_e.LOBBY_ID (to_string 777) None))
      (script_of [], demo_lobby_app)
    = (Ret keep, (script_of [], set_members (mkLobbyState 777 (mkView 0)) demo_lobby_app)) /\
  @Lobby.handle_action Script (scripted quiet_calls)
      (mkContext (mkView 0)
         (mkReceived message_status_e.DATA message_type_e.DEFAULT ("\lobby_id" +:+ " 5") None))
      (script_of [], demo_lobby_app)
    = (Ret keep, (script_of [], set_members (mkLobbyState 0 (mkView 0)) demo_lobby_app)).
Proof.
  apply (@lobby_id_set Script (scripted quiet_calls) (script_of []) demo_lobby_app (mkView 0)
           message_status_e.DATA None 777 " 5").
  unfold int64_min, int64_max. lia.
Defined.
