(* ===== verification/Client.v ===== *)
(** * [application/client] and [io/console_routine]: the client *)
From S2P Require Import Prelude.
From S2P Require Import CString.
From S2P Require Import Platform.
From S2P Require Import AtomicQueue.
From S2P Require Import Utility.
From S2P Require Import Protocol.
From S2P Require Import Dispatcher.
From S2P Require Import Socket.
From S2P Require Import Network.
From S2P Require Import Engine.
From S2P Require Import Scheduler.
From S2P Require Import Application.

#[local] Open Scope Z_scope.
#[local] Open Scope bsm_scope.

Record ClientState := mkClientState {
  server_view_ : ConnectionView;
  console_raw_tasks_ : AtomicQueue.t string
}.
Definition initial_client : ClientState := mkClientState default_view AtomicQueue.empty.

Definition set_console (q : AtomicQueue.t string) (c : ClientState) : ClientState :=
  mkClientState (server_view_ c) q.

Module Client.
(** [std::variant<PrintMessage, Quit>]. *)
Inductive ClientAction := OnPrintMessage | OnQuit.

Definition client_alternative (v : ActionVariant) : option ClientAction :=
  match v with
  | PrintMessage => Some OnPrintMessage
  | Quit => Some OnQuit
  | _ => None
  end.

Definition t : Type := App ClientState.

Section WithPlatform.
Context {W : Type} `{Platform W}.
Abbreviation CL A := (SM W t A).

Definition ctx : Z -> string -> Error -> Error := add_context "client.cpp".

Definition register_console_task : CL (option Error) :=
  let* add_error := on_scheduler (Scheduler.add_task_executor task_tag_e.CONSOLE ConsoleExecutor) in
  match add_error with
  | Some e =>
    ret (Some (ctx 55
      "Unalbe to register console task: failed to add executor for task CONSOLE" e))
  | None =>
    let* add_error := on_scheduler (Scheduler.add_co_handle ConsoleCo task_tag_e.CONSOLE) in
    match add_error with
    | Some e =>
      ret (Some (ctx 62
        "Unalbe to register console task: failed to add coroutine for task CONSOLE" e))
    | None => ret None
    end
  end.

(** An error of the registration is given a context and dropped. *)
Definition init (socket_type : end_point_e.t) (fd : Z) : CL (option Error) :=
  let* init_result := init_app socket_type fd in
  match init_result with
  | inr e => ret (Some (ctx 27 "Unable to init Client:: failed to init Application" e))
  | inl view =>
    local_state (modify (fun a => set_members
      (mkClientState view (console_raw_tasks_ (members a))) a)) ;;;
    let* registration_error := register_console_task in
    ret None
  end.

(** One round of the coroutine [console_co]. *)
Definition console_co : CL unit :=
  let* user_input := on_members (local_state
    (zoom console_raw_tasks_ set_console AtomicQueue.try_pop)) in
  match user_input with
  | Some text => on_scheduler (Scheduler.push_task task_tag_e.CONSOLE (TextContext text))
  | None => ret tt
  end.

Definition send_input_to_server (message_to_send : ReceivedMessage) : CL (option Error) :=
  let* a := local_state get in
  let* send_error := on_engine (NetworkEngine.send_message_to (server_view_ (members a))
    (plain_message (payload message_to_send))) in
  ret (ctx 129 "Unable to send input to server : failed to send message" <$> send_error).

Definition handle_broadcast_action (context : ActionContext) : CL ActionResult :=
  let* send_error := send_input_to_server (context_message context) in
  match send_error with
  | Some e =>
    let e1 := ctx 109
      "Unable to handle broadcast action: failed to send input to Server. Trying to reconnect to Server..."
      e in
    lift (LOG (full_report e1)) ;;;
    let* reset_error := on_engine (NetworkEngine.reset_base_connection end_point_e.TO_SERVER) in
    lift (success_or_terminate reset_error) ;;;
    ret (keep_with_error (ctx 117 "Succesfully reconnected to Server" e1))
  | None => ret keep
  end.

Definition execute_print_message (context : ActionContext) : CL ActionResult :=
  lift (print_line (payload (context_message context))) ;;; ret keep.

Definition execute_quit (context : ActionContext) : CL ActionResult :=
  lift (print_line "->_<-") ;;; ret keep.

Definition handle_action (context : ActionContext) : CL ActionResult :=
  let action_info := dispatch (context_message context) in
  match scope action_info with
  | action_scope_e.BROADCAST => handle_broadcast_action context
  | action_scope_e.NONE | action_scope_e.LOCAL | action_scope_e.NETWORK =>
    match filter_variant client_alternative (variant action_info) with
    | inr e => ret (keep_with_error (ctx 96 "Action is not allowed in this context" e))
    | inl OnPrintMessage => execute_print_message context
    | inl OnQuit => execute_quit context
    end
  end.

(** [ConsoleHandler::run] on the lines that [std::getline] reads, up to the
    end of the input; what the pushes answer is ignored. *)
Fixpoint console_run (user_cmds : list string) : CL unit :=
  match user_cmds with
  | [] => ret tt
  | user_cmd :: rest =>
    on_members (local_state
      (zoom console_raw_tasks_ set_console (AtomicQueue.try_push user_cmd))) ;;;
    on_engine (NetworkEngine.push_tag task_tag_e.CONSOLE) ;;;
    console_run rest
  end.
End WithPlatform.
End Client.

(** ** Lemmas *)
Section ClientLemmas.
Context {W : Type} `{Platform W}.
Implicit Types (k : Machine W) (a : Client.t).
Import Client.

Lemma send_input_run k a message slot c :
  server_view_ (members a) = mkView slot -> entry (network_engine_ a) slot = Some c ->
  let send := sending c (plain_message (payload message)) in
  exists r, send_input_to_server message (k, a) = (Ret r, (after send k, a)) /\
    (r = None <-> answer send k <> -1).
Proof.
  intros Hv Hc send. destruct (send_on_run slot (plain_message (payload message)) k _ c Hc)
    as (r & Hs & Hiff).
  unfold send_input_to_server. erewrite bind_run by reflexivity. cbn [fst snd]. rewrite Hv.
  erewrite bind_run by (apply on_engine_read; exact Hs).
  eexists. split; [reflexivity|]. unfold send. rewrite <- Hiff. by destruct r.
Qed.

Lemma handle_broadcast k a context :
  scope (dispatch (context_message context)) = action_scope_e.BROADCAST ->
  handle_action context (k, a) = handle_broadcast_action context (k, a).
Proof. intros Hs. unfold handle_action. by rewrite Hs. Qed.

(** A new connection to the server, when every call succeeds. *)
Definition reconnect_calls (fd flags : Z) : list (call * Z) :=
  [(c_socket false, fd); (c_connect fd 8000, 0); (c_getfl fd, flags);
   (c_setfl fd (Z.lor flags O_NONBLOCK), 0)].

Lemma setup_client_run k h fd flags :
  (forall w, (sys_call (c_socket false) w).1.1 = fd) -> 0 <= fd ->
  (forall w, (sys_call (c_connect fd 8000) w).1.1 = 0) ->
  (forall w, (sys_call (c_getfl fd) w).1.1 = flags) ->
  exists k' r, setup_client (k, h)
      = (Ret None, (k', mkSocket fd (receive_handle_ h) socket_status_e.ALIVE)) /\
    trace k' = [Called (c_setfl fd (Z.lor flags O_NONBLOCK)) r; Called (c_getfl fd) flags;
                Called (c_connect fd 8000) 0; Called (c_socket false) fd] ++ trace k.
Proof.
  intros Hs Hfd Hc Hf. unfold setup_client.
  erewrite bind_run by (apply lift_run, call_run).
  assert (answer (c_socket false) k = fd) as -> by apply Hs.
  erewrite bind_run by reflexivity. cbn [fst snd].
  rewrite (proj2 (Z.ltb_ge _ _) Hfd).
  erewrite bind_run by (apply lift_run, call_run).
  assert (answer (c_connect fd 8000) (after (c_socket false) k) = 0) as -> by apply Hc.
  cbn [Z.ltb Z.compare].
  erewrite bind_run by (apply lift_run, call_run).
  assert (answer (c_getfl fd) (after (c_connect fd 8000) (after (c_socket false) k)) = flags) as ->
    by apply Hf.
  erewrite bind_run by (apply lift_run, call_run). erewrite bind_run by reflexivity.
  exists (after (c_setfl fd (Z.lor flags O_NONBLOCK))
           (after (c_getfl fd) (after (c_connect fd 8000) (after (c_socket false) k)))).
  eexists. split; [reflexivity|]. rewrite !trace_after. unfold answer. by rewrite Hs, Hc, Hf.
Qed.
End ClientLemmas.

(** ** Properties *)
Section ClientProperties.
Context {W : Type} `{Platform W}.
Implicit Types (k : Machine W) (a : Client.t).
Import Client.

(** What the client sends to the server: a message whose action has the
    scope BROADCAST is forwarded as it is, in one plain message, and nothing
    else happens.  This includes a line of chat that another user sent and the
    server relayed as PRINTABLE: a text that begins with [\create] is not
    printed, but makes this client ask the server for a lobby. *)
Theorem broadcast_is_forwarded k a context slot c rest :
  server_view_ (members a) = mkView slot -> entry (network_engine_ a) slot = Some c ->
  scope (dispatch (context_message context)) = action_scope_e.BROADCAST ->
  answer (sending c (plain_message (payload (context_message context)))) k <> -1 ->
  handle_action context (k, a)
    = (Ret keep, (after (sending c (plain_message (payload (context_message context)))) k, a)) /\
  scope (dispatch (mkReceived message_status_e.DATA message_type_e.PRINTABLE ("\create" +:+ rest) None))
    = action_scope_e.BROADCAST.
Proof.
  intros Hv Hc Hs Ha. split; [|reflexivity]. rewrite handle_broadcast by done.
  destruct (send_input_run k a (context_message context) slot c Hv Hc) as (r & Hr & Hiff).
  unfold handle_broadcast_action. rewrite (bind_run _ _ _ _ _ Hr).
  by rewrite (proj2 Hiff Ha).
Qed.

(** C40: after a failed send the client connects anew and then hears nothing.
    When the send fails and the four calls that set up the new socket succeed,
    the client reports a successful reconnection with its error; its server
    entry holds the new descriptor, but the old one was not closed, the calls
    made are exactly the send and those four, so the new socket was not added
    to epoll, and the message was not sent again. *)
Theorem reconnect_unwatched k a context c fd flags :
  server_view_ (members a) = mkView 0 -> entry (network_engine_ a) 0 = Some c ->
  scope (dispatch (context_message context)) = action_scope_e.BROADCAST ->
  let send := sending c (plain_message (payload (context_message context))) in
  answer send k = -1 ->
  (forall w, (sys_call (c_socket false) w).1.1 = fd) -> 0 <= fd ->
  (forall w, (sys_call (c_connect fd 8000) w).1.1 = 0) ->
  (forall w, (sys_call (c_getfl fd) w).1.1 = flags) ->
  exists e r k' report,
    handle_action context (k, a)
      = (Ret (keep_with_error e),
         (k', set_network_engine (set_entry 0 (mkEntry end_point_e.TO_SERVER
                (mkSocket fd (receive_handle_ (socket_handler_ c)) socket_status_e.ALIVE)
                (generation_ c)) (network_engine_ a)) a)) /\
    trace k' = [Called (c_setfl fd (Z.lor flags O_NONBLOCK)) r; Called (c_getfl fd) flags;
                Called (c_connect fd 8000) 0; Called (c_socket false) fd;
                Logged report; Called send (-1)] ++ trace k /\
    last (backtrace e) = Some (format_context (here "client.cpp" 117) "Succesfully reconnected to Server").
Proof.
  intros Hv Hc Hs send Ha Hsock Hfd Hconn Hfl. rewrite handle_broadcast by done.
  destruct (send_input_run k a (context_message context) 0 c Hv Hc) as (r & Hr & Hiff).
  destruct r as [err|]; [|by destruct (proj1 Hiff eq_refl)].
  unfold handle_broadcast_action. rewrite (bind_run _ _ _ _ _ Hr). fold send.
  erewrite bind_run by (apply lift_run; reflexivity).
  set (report := full_report _). set (k1 := record_event (Logged report) (after send k)).
  destruct (setup_client_run k1 (socket_handler_ c) fd flags Hsock Hfd Hconn Hfl)
    as (k' & r & Hset & Htr).
  assert (NetworkEngine.reset_base_connection end_point_e.TO_SERVER (k1, network_engine_ a)
    = (Ret None, (k', set_entry 0 (mkEntry end_point_e.TO_SERVER
         (mkSocket fd (receive_handle_ (socket_handler_ c)) socket_status_e.ALIVE)
         (generation_ c)) (network_engine_ a)))) as Hreset.
  { unfold NetworkEngine.reset_base_connection, NetworkEngine.init_connection_type.
    rewrite bind_bind. erewrite bind_run.
    2: { apply (on_connection_run _ _ _ _ c); [exact Hc|]. unfold on_socket.
         by rewrite (focus_run _ _ _ _ _ _ _ _ Hset). }
    cbv iota. rewrite bind_bind. erewrite bind_run.
    2: { eapply on_connection_run; [apply entry_set_eq | reflexivity]. }
    by rewrite set_entry_twice. }
  erewrite bind_run by (apply on_engine_run; exact Hreset).
  erewrite bind_run by (apply lift_run; reflexivity).
  eexists _, r, k', report. split; [reflexivity|]. split.
  - rewrite Htr. unfold k1. cbn [record_event trace]. by rewrite trace_after, Ha.
  - unfold keep_with_error, ctx, add_context. cbn [backtrace]. by rewrite last_snoc.
Qed.
End ClientProperties.

(** *** Witnesses: a client whose server connection has descriptor 7 *)
Definition demo_client_app : Client.t :=
  mkApp demo_engine Scheduler.Scheduler.initial (mkClientState (mkView 0) AtomicQueue.AtomicQueue.empty).

Definition relayed_chat : ReceivedMessage :=
  mkReceived message_status_e.DATA message_type_e.PRINTABLE ("\create" +:+ " now") None.

Lemma broadcast_is_forwarded_witness :
  let H := scripted quiet_calls in
  Client.handle_action (mkContext (mkView 0) relayed_chat) (script_of [], demo_client_app)
    = (Ret keep, (after (sending (entry_of end_point_e.TO_LOBBY 7) (plain_message "\create now"))
                    (script_of []), demo_client_app)) /\
  scope (dispatch relayed_chat) = action_scope_e.BROADCAST.
Proof.
  apply (@broadcast_is_forwarded Script (scripted quiet_calls) (script_of []) demo_client_app
           (mkContext (mkView 0) relayed_chat) 0 (entry_of end_point_e.TO_LOBBY 7) " now").
  - reflexivity.
  - exact demo_lobby.
  - reflexivity.
  - vm_compute. discriminate.
Defined.

Lemma reconnect_unwatched_witness :
  let H := scripted refusing_calls in
  exists e r k' report,
    Client.handle_action (mkContext (mkView 0) relayed_chat) (script_of [], demo_client_app)
      = (Ret (keep_with_error e),
         (k', set_network_engine (set_entry 0 (mkEntry end_point_e.TO_SERVER
                (mkSocket 0 None socket_status_e.ALIVE) 0) demo_engine) demo_client_app)) /\
    trace k' = [Called (c_setfl 0 (Z.lor 0 O_NONBLOCK)) r; Called (c_getfl 0) 0;
                Called (c_connect 0 8000) 0; Called (c_socket false) 0; Logged report;
                Called (sending (entry_of end_point_e.TO_LOBBY 7) (plain_message "\create now")) (-1)]
               ++ [] /\
    last (backtrace e) = Some (format_context (here "client.cpp" 117) "Succesfully reconnected to Server").
Proof.
  apply (@reconnect_unwatched Script (scripted refusing_calls) (script_of []) demo_client_app
           (mkContext (mkView 0) relayed_chat) (entry_of end_point_e.TO_LOBBY 7) 0 0).
  - reflexivity.
  - exact demo_lobby.
  - reflexivity.
  - reflexivity.
  - intros w. reflexivity.
  - lia.
  - intros w. reflexivity.
  - intros w. reflexivity.
Defined.
