(* ===== verification/Programs.v ===== *)
(** * The three programs stay clear of undefined behaviour

    Server, lobby and client as [Program]s (see [Threads.v]), and for each the
    proof that its handler is safe. *)
From S2P Require Import Prelude.
From S2P Require Import Ring.
From S2P Require Import CString.
From S2P Require Import Platform.
From S2P Require Import AtomicQueue.
From S2P Require Import ObjectPool.
From S2P Require Import Utility.
From S2P Require Import Protocol.
From S2P Require Import Dispatcher.
From S2P Require Import Socket.
From S2P Require Import Network.
From S2P Require Import Engine.
From S2P Require Import Safety.
From S2P Require Import EngineSafety.
From S2P Require Import LobbyManager.
From S2P Require Import Scheduler.
From S2P Require Import Application.
From S2P Require Import Threads.
From S2P Require Import Server.
From S2P Require Import Lobby.
From S2P Require Import Client.

#[local] Open Scope Z_scope.
#[local] Open Scope bsm_scope.

(** Server and lobby know the network task only; a console coroutine is not
    there to be resumed. *)
Definition server_program {W} `{Platform W} : Program W LobbyManager.t :=
  mkProgram Server.handle_action (stop Undefined) None.
Definition lobby_program {W} `{Platform W} : Program W LobbyState :=
  mkProgram Lobby.handle_action (stop Undefined) None.
Definition client_program {W} `{Platform W} : Program W ClientState :=
  mkProgram Client.handle_action Client.console_co (Some (fun user_cmd => Client.console_run [user_cmd])).

Definition network_only : TagPolicy :=
  {| allowed x := x = task_tag_e.NETWORK; allowed_network := eq_refl |}.
Definition network_and_console : TagPolicy :=
  {| allowed x := x <> task_tag_e.SCHEDULER; allowed_network := ltac:(discriminate) |}.

(** A change of the members that keeps the engine and the scheduler. *)
Section MembersChange.
Context {W : Type} `{Platform W} `{!Kernel W} `{TagPolicy} {R : Type} `{Members R}.

Lemma on_members_safe {A} (m : SM W R A) (Q : A -> Machine W * App R -> Prop) k (a : App R) :
  inv (k, a) ->
  match m (k, members a) with
  | (Ret x, (k', r)) => watched (world k') ⊆ watched (world k) /\
      members_ok (network_engine_ a) r /\ Q x (k', set_members r a)
  | (Halt h, _) => h <> Undefined
  end ->
  safe (on_members m) Q (k, a).
Proof.
  intros Hi Hrun. unfold safe, on_members, focus, zoom. cbn [fst snd].
  destruct (m (k, members a)) as [[x|h] [k' r]]; [|by destruct h].
  destruct Hrun as (Hw & Hm & HQ).
  destruct (calm_inv k k' a Hw Hi) as [[He Hr Ht _] _]. split; [by constructor|]. by split; [intros ?|].
Qed.

Lemma read_app_safe (s : Machine W * App R) :
  inv s -> safe (local_state get) (fun a s' => a = s.2 /\ s' = s) s.
Proof. destruct s as [k a]. intros Hi. by eapply safe_same. Qed.

Lemma set_members_safe (f : App R -> R) (s : Machine W * App R) :
  inv s -> (forall e, members_ok e (members s.2) -> members_ok e (f s.2)) ->
  safe (local_state (modify (fun a => set_members (f a) a))) (fun _ _ => True) s.
Proof.
  destruct s as [k a]. intros [He Hr Ht Hm] Hf. eapply safe_run; [reflexivity | | by intros ? | done].
  constructor; try done. by apply Hf.
Qed.
End MembersChange.

(** ** The server *)
Section Server.
Context {W : Type} `{Platform W} `{!Kernel W}.
#[local] Existing Instance network_only.
Import Server.

(** The control connections of the table are entries. *)
#[export] Program Instance lobbies_members : Members LobbyManager.t := {
  members_ok e m := forall id l, LobbyManager.lobbies_ m !! id = Some l ->
    slot_valid e (get_slot (control_connection l))
}.
Next Obligation. intros e e' m Hg Hm id l Hl. by apply Hg, (Hm id). Qed.

(** What the server may assume of a lobby it was given. *)
Definition lobby_known (s : Machine W * t) (l : LobbyView) : Prop :=
  slot_valid (engine s.2) (get_slot (view_control_connection l)) /\
  is_Some (LobbyManager.lobbies_ (members s.2) !! view_lobby_id l).

Lemma spawn_lobby_safe : always_safe LobbyManager.spawn_lobby.
Proof. unfold LobbyManager.spawn_lobby, LobbyManager.become_lobby. always. Qed.

Lemma generate_conn_code_safe : always_safe generate_conn_code.
Proof. unfold generate_conn_code. always. Qed.

Lemma attach_safe pid view (s : Machine W * t) :
  inv s -> slot_valid (engine s.2) (get_slot view) ->
  safe (on_members (LobbyManager.attach pid view))
    (fun r s' => match r with inl l => lobby_known s' l | inr _ => True end) s.
Proof.
  destruct s as [k a]. intros Hi Hv. apply on_members_safe; [done|].
  pose proof (generate_conn_code_safe k I) as Hc. unfold safe in Hc.
  unfold LobbyManager.attach, lift, zoom, bind. cbn [fst snd].
  destruct (generate_conn_code k) as [[code|h] k1]; [|by destruct h].
  destruct Hc as (_ & Hw & _). cbn.
  destruct (LobbyManager.lobbies_ (members a) !! code) as [l|] eqn:E.
  - cbn. pose proof (do_call_safe (c_kill pid SIGKILL) eq_refl k1 I) as Hk. unfold safe in Hk.
    destruct (do_call _ k1) as [[n|h] k2]; [|by destruct h]. destruct Hk as (_ & Hw2 & _). cbn.
    split; [etrans; [exact Hw2 | exact Hw]|]. split; [|done]. apply (ai_members _ Hi).
  - cbn. split; [done|]. split.
    + intros id l [[<- <-]|[_ Hl]]%lookup_insert_Some; [done|]. by apply (ai_members _ Hi id).
    + split; [done|]. cbn. rewrite lookup_insert_eq. by eexists.
Qed.

Lemma kill_lobby_safe l (s : Machine W * t) :
  inv s -> lobby_known s l ->
  safe (on_members (LobbyManager.kill_lobby (view_lobby_id l))) (fun _ _ => True) s.
Proof.
  destruct s as [k a]. intros Hi [_ [e He]]. apply on_members_safe; [done|].
  unfold LobbyManager.kill_lobby, lift, local_state, zoom, bind, get, modify. cbn [fst snd] in *.
  rewrite He. cbn. pose proof (do_call_safe (c_kill (pid e) SIGKILL) eq_refl k I) as Hk. unfold safe in Hk.
  destruct (do_call _ k) as [[n|h] k2]; [|by destruct h]. destruct Hk as (_ & Hw2 & _). cbn.
  split; [done|]. split; [|done]. rewrite insert_id by done. apply (ai_members _ Hi).
Qed.

Lemma lobby_known_after (s s' : Machine W * t) l :
  le s s' -> members s'.2 = members s.2 -> lobby_known s l -> lobby_known s' l.
Proof. intros Hle Hm [Hv Hl]. split; [by apply Hle | by rewrite Hm]. Qed.

(** A call on the engine leaves the members alone. *)
Lemma on_engine_members {X} (m : SM W NetworkEngine.t X) (s : Machine W * t) :
  inv s -> safe m (fun _ _ => True) (s.1, engine s.2) ->
  safe (on_engine m) (fun _ s' => members s'.2 = members s.2) s.
Proof. intros Hi Hm. apply on_engine_safe; [done|]. by eapply safe_mono. Qed.

Lemma perform_transfer_safe l context (s : Machine W * t) :
  inv s -> lobby_known s l -> slot_valid (engine s.2) (get_slot (pending_view context)) ->
  safe (perform_transfer l context) (fun _ _ => True) s.
Proof.
  intros Hi Hl Hp. unfold perform_transfer. eapply safe_bind.
  { apply on_engine_members; [done|].
    apply transfer_safe; [apply engine_part; by destruct s | apply Hl | exact Hp]. }
  intros r s1 Hi1 Hle1 Hm. pose proof (lobby_known_after _ _ _ Hle1 Hm Hl).
  eapply (safe_bind _ _ (fun _ _ => True)).
  - destruct (negb _); [by apply kill_lobby_safe | by apply safe_ret].
  - intros. destruct (source_conn_preserved r); by apply safe_ret.
Qed.

Lemma create_lobby_safe (s : Machine W * t) :
  inv s -> safe create_lobby (fun r s' => match r with inl l => lobby_known s' l | inr _ => True end) s.
Proof.
  intros Hi. unfold create_lobby.
  eapply safe_bind; [apply safe_lift_always; [apply spawn_lobby_safe | done]|].
  intros [process|e] s1 Hi1 _ _; [|by apply safe_ret].
  eapply (safe_bind _ _ (fun r s' => match r with inl v => slot_valid (engine s'.2) (get_slot v) | inr _ => True end)).
  { apply on_engine_safe; [done|]. apply attach_socket_safe, engine_part. by destruct s1. }
  intros [view|e] s2 Hi2 _ Hv; [|by apply safe_ret].
  eapply safe_bind; [by apply attach_safe|]. intros [l|e] s3 Hi3 _ Hl; by apply safe_ret.
Qed.

Lemma init_lobby_safe l (s : Machine W * t) :
  inv s -> lobby_known s l -> safe (init_lobby l) (fun _ s' => members s'.2 = members s.2) s.
Proof.
  intros Hi Hl. unfold init_lobby. eapply safe_bind.
  { apply on_engine_members; [done|].
    apply send_message_to_safe; [apply engine_part; by destruct s | apply Hl]. }
  intros r s1 Hi1 _ Hm. by apply safe_ret.
Qed.

Lemma find_safe code (s : Machine W * t) : inv s ->
  safe (on_members (local_state (gets (LobbyManager.find code))))
    (fun r s' => match r with inl l => lobby_known s' l | inr _ => True end) s.
Proof.
  destruct s as [k a]. intros Hi. apply on_members_safe; [done|]. cbn. split; [done|].
  split; [apply (ai_members _ Hi)|]. unfold LobbyManager.find.
  destruct (LobbyManager.lobbies_ (members a) !! code) as [l|] eqn:E; [|done]. split; cbn.
  - by apply (ai_members _ Hi code).
  - by exists l.
Qed.

Lemma server_handler_safe context (s : Machine W * t) :
  inv s -> slot_valid (engine s.2) (get_slot (pending_view context)) ->
  safe (handle_action context) (fun _ _ => True) s.
Proof.
  intros Hi Hp. unfold handle_action. destruct (filter_variant _ _) as [[| | |]|e]; [..|by apply safe_ret].
  - unfold execute_create_lobby. eapply safe_bind; [by apply create_lobby_safe|].
    intros [l|e] s1 Hi1 Hle1 Hl; [|by apply safe_ret]. safe_carry.
    eapply safe_bind; [by apply init_lobby_safe|]. intros [e|] s2 Hi2 Hle2 Hm; [by apply safe_ret|].
    safe_carry. apply perform_transfer_safe; [done| |done]. by eapply lobby_known_after.
  - unfold execute_join_lobby. destruct (JoinLobbyCode.parse _) as [code|e]; [|by apply safe_ret].
    eapply safe_bind; [by apply find_safe|]. intros [l|e] s1 Hi1 Hle1 Hl; [|by apply safe_ret].
    safe_carry. by apply perform_transfer_safe.
  - unfold execute_chat_message. destruct (parse _) as [text|e]; [safe | by apply safe_ret].
  - unfold execute_general_action. safe.
Qed.

#[export] Program Instance server_safe : SafeProgram server_program.
Next Obligation. intros context s Hi [[=]|Hs]. by apply server_handler_safe. Qed.
Next Obligation. intros s Hi [=]. Qed.
Next Obligation. done. Qed.
End Server.

(** ** The lobby *)
Section Lobby.
Context {W : Type} `{Platform W} `{!Kernel W}.
#[local] Existing Instance network_only.
Import Lobby.

#[export] Program Instance lobby_members : Members LobbyState := {
  members_ok e m := slot_valid e (get_slot (parent_view_ m))
}.
Next Obligation. intros e e' m Hg. apply Hg. Qed.

Lemma lobby_handler_safe context (s : Machine W * t) :
  inv s -> slot_valid (engine s.2) (get_slot (pending_view context)) ->
  safe (handle_action context) (fun _ _ => True) s.
Proof.
  intros Hi Hp. unfold handle_action. destruct (filter_variant _ _) as [[| |]|e]; [..|by apply safe_ret].
  - unfold execute_accept_socket. destruct (socket _) as [fd|].
    + eapply (safe_bind _ _ (fun r s' => match r with inl v => slot_valid (engine s'.2) (get_slot v) | inr _ => True end)).
      { apply on_engine_safe; [done|]. apply attach_socket_safe, engine_part. by destruct s. }
      intros [view|e] s1 Hi1 Hle1 Hv; [|by apply safe_ret].
      eapply (safe_bind _ _ (fun _ _ => True)).
      { unfold send_join_lobby_message.
        eapply safe_bind; [by apply read_app_safe|]. intros a s2 Hi2 Hle2 [-> ->]. safe. }
      intros r s2 Hi2 Hle2 _. safe_carry. safe.
    + eapply safe_bind; [by apply read_app_safe|]. intros a s2 Hi2 Hle2 [-> ->].
      pose proof (ai_members _ Hi : slot_valid (engine s.2) _). safe.
  - unfold execute_set_lobby_id. eapply safe_bind; [by apply set_members_safe|]. intros. by apply safe_ret.
  - unfold execute_chat_message. destruct (parse _) as [text|e]; [safe | by apply safe_ret].
Qed.

#[export] Program Instance lobby_safe : SafeProgram lobby_program.
Next Obligation. intros context s Hi [[=]|Hs]. by apply lobby_handler_safe. Qed.
Next Obligation. intros s Hi [=]. Qed.
Next Obligation. done. Qed.
End Lobby.

(** ** The client *)
Section Client.
Context {W : Type} `{Platform W} `{!Kernel W}.
#[local] Existing Instance network_and_console.
Import Client.

(** Its console queue is a queue. *)
#[export] Program Instance client_members : Members ClientState := {
  members_ok e m := slot_valid e (get_slot (server_view_ m)) /\
    exists q, AtomicQueue.holds (console_raw_tasks_ m) q
}.
Next Obligation. intros e e' m Hg [Hs Hq]. by split; [apply Hg|]. Qed.

Lemma client_handler_safe context (s : Machine W * t) :
  inv s -> safe (handle_action context) (fun _ _ => True) s.
Proof.
  intros Hi. pose proof (proj1 (ai_members _ Hi) : slot_valid (engine s.2) _) as Hs.
  unfold handle_action.
  assert (safe (handle_broadcast_action context) (fun _ _ => True) s) as Hb.
  { unfold handle_broadcast_action. eapply (safe_bind _ _ (fun _ _ => True)).
    { unfold send_input_to_server. eapply safe_bind; [by apply read_app_safe|].
      intros a s2 Hi2 Hle2 [-> ->]. safe. }
    intros [e|] s1 Hi1 Hle1 _; [|by apply safe_ret]. safe_carry.
    pose proof (slot_valid_root _ _ (ei_pool _ (ai_engine _ Hi1)) (proj1 (ai_members _ Hi1))
      : slot_valid (engine s1.2) 0) as Hroot. safe. }
  assert (safe (match filter_variant client_alternative (variant (dispatch (context_message context))) with
    | inr e => ret (keep_with_error (ctx 96 "Action is not allowed in this context" e))
    | inl OnPrintMessage => execute_print_message context
    | inl OnQuit => execute_quit context
    end) (fun _ _ => True) s) as Hl.
  { destruct (filter_variant _ _) as [[]|e]; [..|by apply safe_ret].
    - unfold execute_print_message. safe.
    - unfold execute_quit. safe. }
  by destruct (scope _).
Qed.

Lemma console_co_is_safe (s : Machine W * t) : inv s -> safe console_co (fun _ _ => True) s.
Proof.
  intros Hi. unfold console_co. eapply (safe_bind _ _ (fun _ _ => True)).
  - destruct s as [k a]. apply on_members_safe; [done|].
    destruct (ai_members _ Hi) as [Hs [q Hq]]. pose proof (queue_pop_cases _ _ Hq) as Hpop.
    unfold local_state, zoom. cbn [fst snd] in *.
    destruct (AtomicQueue.try_pop _) as [[[x|]|h] a']; [| |done].
    + destruct Hpop as (q' & _ & Hq'). split; [done|]. split; [|done]. split; [done|]. by exists q'.
    + destruct Hpop as [_ ->]. split; [done|]. split; [|done]. split; [done|]. by exists q.
  - intros [text|] s1 Hi1 _ _; [|by apply safe_ret]. by apply push_task_safe.
Qed.

Lemma console_run_safe user_cmds : forall (s : Machine W * t),
  inv s -> safe (console_run user_cmds) (fun _ _ => True) s.
Proof.
  induction user_cmds as [|user_cmd rest IH]; intros s Hi; cbn [console_run]; [by apply safe_ret|].
  eapply (safe_bind _ _ (fun _ _ => True)).
  - destruct s as [k a]. apply on_members_safe; [done|].
    destruct (ai_members _ Hi) as [Hs [q Hq]]. pose proof (queue_push_cases _ _ user_cmd Hq) as Hpush.
    unfold local_state, zoom. cbn [fst snd] in *.
    destruct (AtomicQueue.try_push _ _) as [[[]|h] a']; [..|by rewrite Hpush].
    + split; [done|]. split; [|done]. split; [done|]. by eexists.
    + subst a'. split; [done|]. split; [|done]. split; [done|]. by exists q.
  - intros _ s1 Hi1 _ _. eapply (safe_bind _ _ (fun _ _ => True)).
    + apply on_engine_always; [done|]. apply push_tag_safe; [apply engine_part; by destruct s1 | discriminate].
    + intros _ s2 Hi2 _ _. by apply IH.
Qed.

#[export] Program Instance client_safe : SafeProgram client_program.
Next Obligation. intros context s Hi _. by apply client_handler_safe. Qed.
Next Obligation. intros s Hi _. by apply console_co_is_safe. Qed.
Next Obligation. intros read user_cmd s [= <-] Hi. exact (console_run_safe [user_cmd] s Hi). Qed.
End Client.

