(* ===== verification/Growing.v ===== *)
(** * What has happened stays happened

    No call takes an event out of the trace: [grows m] says that whatever [m]
    does, it leaves the trace of the machine longer or as it was.  It is shown
    along the structure of the calls, with the hints of [growing], for the
    engine, for [process_connection] with any handler that has it, and for the
    rounds of the threads. *)
From S2P Require Import Prelude.
From S2P Require Import Platform.
From S2P Require Import MemoryManager.
From S2P Require Import AtomicQueue.
From S2P Require Import ObjectPool.
From S2P Require Import Utility.
From S2P Require Import Protocol.
From S2P Require Import Socket.
From S2P Require Import Network.
From S2P Require Import Scheduler.
From S2P Require Import Application.
From S2P Require Import Threads.

#[local] Open Scope Z_scope.
#[local] Open Scope bsm_scope.

(** ** On the machine alone, and on the machine with a state *)
Section Growing.
Context {W : Type} `{Platform W}.

Definition extends (past : list event) (k : Machine W) : Prop := past `suffix_of` trace k.
Definition grows_alone {A} (m : M (Machine W) A) : Prop := forall past, preserves (extends past) m.
Definition grows {T A} (m : SM W T A) : Prop := forall past, preserves (fun s => extends past s.1) m.

Lemma grows_alone_step {A} (m : M (Machine W) A) :
  (forall k, exists new, trace (m k).2 = new ++ trace k) -> grows_alone m.
Proof. intros Hm past k Hk. destruct (Hm k) as [new E]. unfold extends. rewrite E. by apply suffix_app_r. Qed.

Lemma grows_run {T A} (m : SM W T A) s r s' : grows m -> m s = (r, s') -> trace s.1 `suffix_of` trace s'.1.
Proof. intros Hm Hrun. pose proof (Hm (trace s.1) s (reflexivity _)) as Hk. by rewrite Hrun in Hk. Qed.

Lemma grows_call x : grows_alone (do_call x).
Proof. apply grows_alone_step. intros k. exists [Called x (answer x k)]. rewrite call_run. apply trace_after. Qed.

Lemma grows_recvmsg fd len : grows_alone (do_recvmsg fd len).
Proof. apply grows_alone_step. intros k. unfold do_recvmsg. destruct (sys_recvmsg _ _ _). by eexists [_]. Qed.

Lemma grows_epoll_wait epfd n : grows_alone (do_epoll_wait epfd n).
Proof. apply grows_alone_step. intros k. unfold do_epoll_wait. destruct (sys_epoll_wait _ _ _). by eexists [_]. Qed.

Lemma grows_event e : grows_alone (modify (record_event e)).
Proof. apply grows_alone_step. intros k. by exists [e]. Qed.

Lemma grows_gets {A} (f : Machine W -> A) : grows_alone (gets f).
Proof. apply grows_alone_step. intros k. by exists []. Qed.

Lemma grows_alone_ret {A} (a : A) : grows_alone (ret a).
Proof. apply grows_alone_step. intros k. by exists []. Qed.

Lemma grows_alone_stop {A} h : grows_alone (A := A) (stop h).
Proof. apply grows_alone_step. intros k. by exists []. Qed.

Lemma grows_alone_bind {A B} (m : M (Machine W) A) (n : A -> M (Machine W) B) :
  grows_alone m -> (forall a, grows_alone (n a)) -> grows_alone (bind m n).
Proof. intros Hm Hn past. apply preserves_bind; [apply Hm | intros a; apply Hn]. Qed.

Lemma grows_run_with {T A} (t : T) (m : SM W T A) : grows m -> grows_alone (run_with t m).
Proof.
  intros Hm past k Hk. specialize (Hm past (k, t) Hk). unfold run_with.
  by destruct (m (k, t)) as [[a|h] [k' t']].
Qed.

Lemma grows_ret {T A} (a : A) : grows (T := T) (ret a).
Proof. by intros past s. Qed.

Lemma grows_stop {T A} h : grows (T := T) (A := A) (stop h).
Proof. by intros past s. Qed.

Lemma grows_bind {T A B} (m : SM W T A) (n : A -> SM W T B) :
  grows m -> (forall a, grows (n a)) -> grows (bind m n).
Proof. intros Hm Hn past. apply preserves_bind; [apply Hm | intros a; apply Hn]. Qed.

Lemma grows_lift {T A} (m : M (Machine W) A) : grows_alone m -> grows (T := T) (lift m).
Proof. intros Hm past [k t] Hk. specialize (Hm past k Hk). unfold lift, zoom. cbn [fst snd]. by destruct (m k). Qed.

Lemma grows_local {T A} (m : M T A) : grows (local_state m).
Proof. intros past [k t] Hk. unfold local_state, zoom. cbn [fst snd]. by destruct (m t). Qed.

Lemma grows_focus {T U A} (g : T -> U) p (m : SM W U A) : grows m -> grows (focus g p m).
Proof.
  intros Hm past [k t] Hk. specialize (Hm past (k, g t) Hk). unfold focus, zoom. cbn [fst snd] in *.
  by destruct (m (k, g t)).
Qed.
End Growing.

Create HintDb growing.
#[export] Hint Resolve grows_call grows_recvmsg grows_epoll_wait grows_event grows_gets grows_alone_ret
  grows_alone_stop grows_ret grows_stop grows_local : growing.

Ltac growing_step :=
  lazymatch goal with
  | |- grows (bind _ _) => apply grows_bind; [|intros ?]
  | |- grows_alone (bind _ _) => apply grows_alone_bind; [|intros ?]
  | |- grows (lift _) => apply grows_lift
  | |- grows (focus _ _ _) => apply grows_focus
  | |- grows_alone (run_with _ _) => apply grows_run_with
  | |- grows (match ?x with _ => _ end) => destruct x
  | |- grows_alone (match ?x with _ => _ end) => destruct x
  | |- grows (let '(_, _) := ?x in _) => destruct x
  | |- grows_alone (let '(_, _) := ?x in _) => destruct x
  | _ => solve [eauto with growing]
  end.
Ltac growing := intros; cbv zeta; repeat growing_step.

(** ** The parts of the engine *)
Section Sockets.
Context {W : Type} `{Platform W}.

Lemma grows_LOG message : grows_alone (W := W) (LOG message).
Proof. apply grows_event. Qed.
Lemma grows_print_line message : grows_alone (W := W) (print_line message).
Proof. apply grows_event. Qed.
Lemma grows_make_error message : grows_alone (W := W) (make_error_c message).
Proof. unfold make_error_c, c_error_string. growing. Qed.
#[local] Hint Resolve grows_LOG grows_make_error : growing.

Lemma grows_terminate error : grows_alone (W := W) (success_or_terminate error).
Proof. unfold success_or_terminate, plain_terminate. growing. Qed.

Lemma grows_fail message : grows (W := W) (fail_with message).
Proof. unfold fail_with. growing. Qed.
Lemma grows_close : grows (W := W) close_socket.
Proof. unfold close_socket. growing. Qed.
#[local] Hint Resolve grows_fail grows_close : growing.

Lemma grows_reset_to_empty : grows (W := W) reset_to_empty.
Proof. unfold reset_to_empty, destroy_co_handle. growing. Qed.
Lemma grows_move_assign other : grows (W := W) (move_assign other).
Proof. unfold move_assign, destroy_co_handle. growing. Qed.
Lemma grows_destroy : grows (W := W) Socket.destroy.
Proof. unfold Socket.destroy, destroy_co_handle. growing. Qed.
Lemma grows_setup_listener port : grows (W := W) (setup_listener port).
Proof. unfold setup_listener. growing. Qed.
Lemma grows_setup_client : grows (W := W) setup_client.
Proof. unfold setup_client. growing. Qed.
Lemma grows_send message : grows (W := W) (Socket.send_message message).
Proof. unfold Socket.send_message. growing. Qed.

Lemma grows_accept fuel : grows (W := W) (accept_connections fuel).
Proof.
  unfold accept_connections. growing. match goal with |- grows_alone (accept_loop _ ?fd) => generalize fd end.
  induction fuel as [|fuel IH]; intros fd; cbn [accept_loop]; growing.
Qed.

Lemma grows_receive_loop fuel : forall buffer free, grows (W := W) (receive_loop fuel buffer free).
Proof.
  induction fuel as [|fuel IH]; intros buffer free; cbn [receive_loop]; [apply grows_stop|].
  assert (forall buffer free b, grows (W := W) (end_of_batch (receive_loop fuel) buffer free b)) as Hb
    by (unfold end_of_batch; growing).
  growing.
Qed.

Lemma grows_get_message fuel : grows (W := W) (get_message fuel).
Proof.
  pose proof grows_receive_loop as Hr. unfold get_message, resume, destroy_co_handle, end_of_batch. growing.
Qed.

Lemma grows_check r message : grows_alone (W := W) (EpollHandler.check r message).
Proof. unfold EpollHandler.check. growing. Qed.
#[local] Hint Resolve grows_check : growing.

Lemma grows_add_socket epfd fd slot : grows_alone (W := W) (EpollHandler.add_socket epfd fd slot).
Proof. unfold EpollHandler.add_socket. growing. Qed.
Lemma grows_rearm_socket epfd fd slot : grows_alone (W := W) (EpollHandler.rearm_socket epfd fd slot).
Proof. unfold EpollHandler.rearm_socket. growing. Qed.
Lemma grows_remove_socket epfd fd : grows_alone (W := W) (EpollHandler.remove_socket epfd fd).
Proof. unfold EpollHandler.remove_socket. growing. Qed.
Lemma grows_wait epfd n : grows_alone (W := W) (EpollHandler.wait_for_events epfd n).
Proof. unfold EpollHandler.wait_for_events. growing. Qed.
End Sockets.
#[export] Hint Resolve grows_LOG grows_print_line grows_make_error grows_terminate grows_reset_to_empty
  grows_move_assign grows_destroy grows_setup_listener grows_setup_client grows_send grows_accept
  grows_get_message grows_add_socket grows_rearm_socket grows_remove_socket grows_wait : growing.

Section Entries.
Context {W : Type} `{Platform W}.

Lemma grows_on_socket {A} (m : SM W SocketHandler A) : grows m -> grows (on_socket m).
Proof. apply grows_focus. Qed.
#[local] Hint Resolve grows_on_socket : growing.

Lemma grows_reset : grows (W := W) reset.
Proof. unfold reset. growing. Qed.
Lemma grows_move_entry other : grows (W := W) (move_entry other).
Proof. unfold move_entry. growing. Qed.
#[local] Hint Resolve grows_move_entry : growing.
Lemma grows_construct_entry other : grows_alone (W := W) (construct_entry other).
Proof. unfold construct_entry. growing. Qed.
Lemma grows_assign_entry old other : grows_alone (W := W) (assign_entry old other).
Proof. unfold assign_entry. growing. Qed.
Lemma grows_send_impl message : grows (W := W) (send_message_impl message).
Proof. unfold send_message_impl. growing. Qed.

Lemma grows_get_object {T} slot : grows (W := W) (ObjectPool.get_object (T := T) slot).
Proof. apply grows_local. Qed.
Lemma grows_put_object {T} slot (o : T) : grows (W := W) (ObjectPool.put_object slot o).
Proof. apply grows_local. Qed.
#[local] Hint Resolve grows_get_object grows_put_object grows_construct_entry grows_assign_entry : growing.

Lemma grows_on_object {T A} slot (m : SM W T A) : grows m -> grows (ObjectPool.on_object slot m).
Proof. intros Hm. unfold ObjectPool.on_object. growing. Qed.

Lemma grows_allocate : grows (W := W) MemoryManager.allocate.
Proof.
  unfold MemoryManager.allocate, AllocatorPool.allocate, AllocatorPool.grow, AllocatorPool.allocate_new_node.
  growing.
Qed.
#[local] Hint Resolve grows_allocate : growing.

Lemma grows_push_to_pool (c : ConnectionEntry) : grows (W := W) (ObjectPool.push_to_pool c).
Proof.
  unfold ObjectPool.push_to_pool. change (move_construct (W := W) c) with (construct_entry (W := W) c).
  growing.
Qed.

Lemma grows_release {T} slot : grows (W := W) (ObjectPool.release (T := T) slot).
Proof. unfold ObjectPool.release. growing. Qed.
End Entries.
#[export] Hint Resolve grows_on_socket grows_reset grows_send_impl grows_get_object grows_on_object
  grows_push_to_pool grows_release : growing.

Section Engine.
Context {W : Type} `{Platform W}.
Import NetworkEngine.

Lemma grows_on_pool {A} (m : SM W (ObjectPool.t ConnectionEntry) A) : grows m -> grows (on_pool m).
Proof. apply grows_focus. Qed.
#[local] Hint Resolve grows_on_pool : growing.

Lemma grows_connection slot : grows (W := W) (connection slot).
Proof. unfold connection. growing. Qed.
Lemma grows_on_connection {A} slot (m : SM W ConnectionEntry A) : grows m -> grows (on_connection slot m).
Proof. intros Hm. unfold on_connection. growing. Qed.
#[local] Hint Resolve grows_connection grows_on_connection : growing.

Lemma grows_connection_fd slot : grows (W := W) (connection_fd slot).
Proof. unfold connection_fd. growing. Qed.
#[local] Hint Resolve grows_connection_fd : growing.

Lemma grows_init_connection_type x slot : grows (W := W) (init_connection_type x slot).
Proof. unfold init_connection_type. growing. Qed.
Lemma grows_subscribe slot : grows (W := W) (subscribe_to_events slot).
Proof. unfold subscribe_to_events. growing. Qed.
Lemma grows_rearm slot : grows (W := W) (rearm slot).
Proof. unfold rearm. growing. Qed.
Lemma grows_unsubscribe slot : grows (W := W) (unsubscribe_from_events slot).
Proof. unfold unsubscribe_from_events. growing. Qed.
Lemma grows_release_slot slot : grows (W := W) (release_slot slot).
Proof. unfold release_slot. growing. Qed.
#[local] Hint Resolve grows_init_connection_type grows_subscribe grows_unsubscribe grows_release_slot grows_rearm : growing.

Lemma grows_release_connection slot : grows (W := W) (release_connection slot).
Proof. unfold release_connection. growing. Qed.
Lemma grows_send_message_to view message : grows (W := W) (send_message_to view message).
Proof. unfold send_message_to. growing. Qed.
Lemma grows_reset_base x : grows (W := W) (reset_base_connection x).
Proof. unfold reset_base_connection. growing. Qed.
Lemma grows_register x fd : grows (W := W) (register_connection x fd).
Proof. unfold register_connection. growing. Qed.
#[local] Hint Resolve grows_register : growing.

Lemma grows_register_all fds : forall report, grows (W := W) (register_connections fds report).
Proof. induction fds as [|fd fds IH]; intros report; cbn [register_connections]; growing. Qed.
#[local] Hint Resolve grows_register_all : growing.

Lemma grows_server_socket fuel slot : grows (W := W) (process_server_socket fuel slot).
Proof. unfold process_server_socket. growing. Qed.
#[local] Hint Resolve grows_server_socket : growing.

Lemma grows_process_events fuel slots : grows (W := W) (process_events fuel slots).
Proof.
  unfold push_raw_task, push_tag.
  induction slots as [|slot slots IH]; cbn [process_events]; [growing|]. unfold push_raw_task, push_tag. growing.
Qed.
#[local] Hint Resolve grows_process_events : growing.

Lemma grows_event_round fuel : grows (W := W) (event_round fuel).
Proof. unfold event_round. growing. Qed.
End Engine.
#[export] Hint Resolve grows_connection grows_on_connection grows_rearm grows_release_connection
  grows_send_message_to grows_reset_base grows_event_round : growing.

(** ** The applications *)
Section Applications.
Context {W : Type} `{Platform W} {R : Type}.

Lemma grows_on_engine {A} (m : SM W NetworkEngine.t A) : grows m -> grows (T := App R) (on_engine m).
Proof. apply grows_focus. Qed.
Lemma grows_on_scheduler {A} (m : M (Scheduler.t executor coroutine) A) : grows (W := W) (T := App R) (on_scheduler m).
Proof. apply grows_local. Qed.
Lemma grows_on_members {A} (m : SM W R A) : grows m -> grows (T := App R) (on_members m).
Proof. apply grows_focus. Qed.
End Applications.
#[export] Hint Resolve grows_on_scheduler : growing.
#[export] Hint Extern 1 (grows (on_engine _)) => apply grows_on_engine; growing : growing.
#[export] Hint Extern 1 (grows (on_members _)) => apply grows_on_members; growing : growing.

Section Rounds.
Context {W : Type} `{Platform W} {R : Type} (p : Program W R).
Context (Hhandler : forall context, grows (program_handler p context)).
Context (Hconsole_co : grows (program_console_co p)).
Context (Hconsole : forall read line, program_console p = Some read -> grows (read line)).

Lemma grows_process_connection recv_fuel fuel view : grows (process_connection (program_handler p) recv_fuel fuel view).
Proof using Hhandler.
  unfold process_connection, process_connection_impl. generalize CONTINUE.
  induction fuel as [|fuel IH]; intros action; cbn [process_loop]; [apply grows_stop|].
  unfold process_message, finish_message. growing.
Qed.

Lemma grows_round f t : grows (round p f t).
Proof using Hhandler Hconsole_co Hconsole.
  pose proof grows_process_connection. destruct t as [| | |line]; cbn [round].
  - growing.
  - unfold coroutine_round, resume_coroutine, network_co. growing.
  - unfold worker_round, execute. growing.
  - destruct (program_console p) as [read|] eqn:E; [by eapply Hconsole | apply grows_stop].
Qed.
End Rounds.
