(* ===== verification/Quiet.v ===== *)
(** * What the handlers leave alone

    Only the event loop and the console thread put anything into the queues,
    and only [init] makes a listener: every other call of the engine leaves the
    two queues as they are and turns no connection into a listener.  [quiet e0]
    is that property of an engine that was [e0] before; [quiet_app a0] adds the
    scheduler.  The calls are gone through with [preserve] and the hints of
    [bsm]. *)
From S2P Require Import Prelude.
From S2P Require Import Platform.
From S2P Require Import MemoryManager.
From S2P Require Import AtomicQueue.
From S2P Require Import ObjectPool.
From S2P Require Import Utility.
From S2P Require Import Protocol.
From S2P Require Import Socket.
From S2P Require Import Network.
From S2P Require Import Engine.
From S2P Require Import Scheduler.
From S2P Require Import Application.

#[local] Open Scope Z_scope.
#[local] Open Scope bsm_scope.

Definition listens (c : ConnectionEntry) : Prop := connection_type_ c = end_point_e.LISTENER.

(** An entry that was [c0]. *)
Definition entry_quiet (c0 c : ConnectionEntry) : Prop := listens c -> listens c0.

Section Entries.
Context {W : Type} `{Platform W}.

Lemma keeps_bind {T A B} I (m : SM W T A) (k : A -> SM W T B) :
  keeps I m -> (forall a, keeps I (k a)) -> keeps I (bind m k).
Proof. apply preserves_bind. Qed.

Lemma keeps_ret {T A} I (a : A) : keeps (W := W) (T := T) I (ret a).
Proof. apply preserves_ret. Qed.

Lemma keeps_stop {T A} I h : keeps (W := W) (T := T) (A := A) I (stop h).
Proof. apply preserves_stop. Qed.

Lemma keeps_read {T A} I (f : T -> A) : keeps (W := W) I (local_state (gets f)).
Proof. by intros [k t] Ht. Qed.

Lemma keeps_read_all {T} I : keeps (W := W) I (local_state (get (S := T))).
Proof. by intros [k t] Ht. Qed.

Lemma keeps_modify {T} (I : T -> Prop) (f : T -> T) :
  (forall t, I t -> I (f t)) -> keeps (W := W) I (local_state (modify f)).
Proof. intros Hf [k t] Ht. apply Hf, Ht. Qed.

Lemma on_socket_quiet {A} c0 (m : SM W SocketHandler A) : keeps (entry_quiet c0) (on_socket m).
Proof. apply (keeps_focus _ (fun _ => True)); [by intros s _ | done | by intros c u Hc _]. Qed.

Lemma set_type_quiet c0 x : x <> end_point_e.LISTENER ->
  keeps (W := W) (entry_quiet c0) (local_state (modify (set_connection_type x))).
Proof. intros Hx. apply keeps_modify. by intros c _ Hl. Qed.

Lemma generation_quiet c0 f :
  keeps (W := W) (entry_quiet c0) (local_state (modify (fun c => set_generation (f c) c))).
Proof. apply keeps_modify. by intros c. Qed.
End Entries.

(** Calls split along their structure; [quiet] leaves the loops and the calls
    without a hint. *)
Create HintDb quiet.
#[export] Hint Resolve keeps_ret keeps_stop keeps_read keeps_read_all keeps_lift on_socket_quiet generation_quiet : quiet.
#[export] Hint Extern 1 (keeps _ (local_state (modify (set_connection_type _)))) =>
  apply set_type_quiet; congruence : quiet.

Ltac quiet_step :=
  lazymatch goal with
  | |- keeps _ (bind _ _) => apply keeps_bind; [|intros ?]
  | |- keeps _ (match ?x with _ => _ end) => destruct x
  | |- keeps _ (let '(_, _) := ?x in _) => destruct x
  | _ => solve [eauto with quiet]
  end.
Ltac quiet := intros; cbv zeta; repeat quiet_step.

Section EntryCalls.
Context {W : Type} `{Platform W}.

Lemma reset_quiet c0 : keeps (entry_quiet c0) reset.
Proof. unfold reset. quiet. Qed.

Lemma send_message_impl_quiet c0 message : keeps (entry_quiet c0) (send_message_impl message).
Proof. unfold send_message_impl. quiet. Qed.
End EntryCalls.
#[export] Hint Resolve reset_quiet send_message_impl_quiet : quiet.

(** ** The pool of connections *)
Definition pool_quiet (p0 p : ObjectPool.t ConnectionEntry) : Prop :=
  forall slot c, ObjectPool.objects p !! slot = Some c -> listens c ->
    exists c0, ObjectPool.objects p0 !! slot = Some c0 /\ listens c0.

Section Pool.
Context {W : Type} `{Platform W}.
Implicit Types (p : ObjectPool.t ConnectionEntry).

Lemma get_object_quiet p0 slot : keeps (W := W) (pool_quiet p0) (ObjectPool.get_object slot).
Proof. intros [k p] Hp. unfold ObjectPool.get_object, local_state, zoom. cbn in *. by destruct (_ !! _). Qed.

Lemma put_quiet p0 p slot c :
  pool_quiet p0 p ->
  (listens c -> exists c0, ObjectPool.objects p0 !! slot = Some c0 /\ listens c0) ->
  pool_quiet p0 (ObjectPool.set_objects (<[slot := c]> (ObjectPool.objects p)) p).
Proof.
  intros Hp Hc slot' c'. cbn. intros [[<- <-]|[_ Hl]]%lookup_insert_Some; [exact Hc|]. by apply Hp.
Qed.

Lemma put_object_quiet p0 slot c : ~ listens c -> keeps (W := W) (pool_quiet p0) (ObjectPool.put_object slot c).
Proof. intros Hc. apply keeps_modify. intros p Hp. by apply put_quiet. Qed.

Lemma on_object_quiet {A} p0 slot (m : SM W ConnectionEntry A) :
  (forall c0, keeps (entry_quiet c0) m) -> keeps (pool_quiet p0) (ObjectPool.on_object slot m).
Proof.
  intros Hm [k p] Hp. cbn in *.
  destruct (ObjectPool.objects p !! slot) as [c|] eqn:E.
  - pose proof (Hm c (k, c) (fun Hl => Hl)) as Hq.
    destruct (m (k, c)) as [[a|h] [k' c']] eqn:Er; cbn in Hq.
    + rewrite (on_object_run _ _ _ _ _ _ _ _ E Er). apply put_quiet; [done|]. intros Hl. eauto.
    + by rewrite (on_object_halt _ _ _ _ _ _ _ _ E Er).
  - unfold ObjectPool.on_object. by rewrite (bind_halts _ _ _ _ _ (get_object_missing slot k p E)).
Qed.

Lemma release_slot_quiet p0 slot : keeps (W := W) (pool_quiet p0) (ObjectPool.release slot).
Proof.
  unfold ObjectPool.release. apply keeps_bind; [|intros; apply keeps_ret].
  apply keeps_local. intros p Hp. unfold zoom. by destruct (AtomicQueue.try_push _ _).
Qed.

(** A new connection is of the type asked for. *)
Lemma assigned_type old c : connection_type_ (moved_entry old c) = connection_type_ c.
Proof. done. Qed.

Lemma push_to_pool_quiet p0 (c : ConnectionEntry) : ~ listens c -> keeps (W := W) (pool_quiet p0) (ObjectPool.push_to_pool c).
Proof.
  intros Hc [k p] Hp. unfold ObjectPool.push_to_pool.
  unfold local_state at 1, zoom at 1 2, bind at 1. cbn [fst snd].
  destruct (AtomicQueue.try_pop (ObjectPool.available_slots_ p)) as [[[slot|]|h] q'].
  - unfold bind at 1. pose proof (get_object_quiet p0 slot (k, ObjectPool.set_available q' p) Hp) as Hg.
    destruct (ObjectPool.get_object slot _) as [[old|h] [k1 p1]]; [|exact Hg].
    destruct (move_assign_run old c k1) as (k2 & Hmove). erewrite bind_run by (apply lift_run; exact Hmove).
    apply keeps_bind; [by apply put_object_quiet | intros; apply keeps_ret | exact Hg].
  - assert (keeps (W := W) (pool_quiet p0) (focus ObjectPool.mmanager_ ObjectPool.set_manager MemoryManager.allocate)) as Ha
      by (apply (keeps_focus _ (fun _ => True)); [by intros s _ | done | by intros]).
    unfold bind at 1. specialize (Ha (k, ObjectPool.set_available q' p) Hp).
    destruct (focus _ _ _ _) as [[[r|]|h] [k1 p1]]; [| |exact Ha].
    + destruct (move_construct_run c k1) as (k2 & Hmove). rewrite bind_bind.
      erewrite bind_run by (apply lift_run; exact Hmove).
      apply keeps_bind; [by apply put_object_quiet| |exact Ha]. intros []. apply keeps_bind; [|intros; apply keeps_ret].
      by apply keeps_modify.
    + exact Ha.
  - exact Hp.
Qed.
End Pool.

(** ** The engine *)
Definition quiet (e0 e : NetworkEngine.t) : Prop :=
  NetworkEngine.network_raw_tasks_ e = NetworkEngine.network_raw_tasks_ e0 /\
  NetworkEngine.available_task_tags_ e = NetworkEngine.available_task_tags_ e0 /\
  pool_quiet (NetworkEngine.connection_pool_ e0) (NetworkEngine.connection_pool_ e).

#[export] Instance quiet_preorder : PreOrder quiet.
Proof.
  split; [intros e; split_and!; [done..|by intros slot c; exists c]|].
  intros e1 e2 e3 (Hr12 & Ht12 & Hp12) (Hr23 & Ht23 & Hp23). split_and!; [congruence..|].
  intros slot c Hc Hl. destruct (Hp23 slot c Hc Hl) as (c2 & Hc2 & Hl2). by apply (Hp12 slot c2).
Qed.

(** A slot that was no listener is none. *)
Lemma quiet_entry e0 e slot c c0 :
  quiet e0 e -> entry e slot = Some c -> entry e0 slot = Some c0 -> ~ listens c0 -> ~ listens c.
Proof. intros (_ & _ & Hp) Hc Hc0 Hl0 Hl. destruct (Hp slot c Hc Hl) as (c1 & Hc1 & Hl1). unfold entry in *. congruence. Qed.

Section Engine.
Context {W : Type} `{Platform W}.
Import NetworkEngine.

Lemma on_pool_quiet {A} e0 (m : SM W (ObjectPool.t ConnectionEntry) A) :
  (forall p0, keeps (pool_quiet p0) m) -> keeps (W := W) (quiet e0) (on_pool m).
Proof.
  intros Hm. apply (keeps_focus _ (pool_quiet (connection_pool_ e0))); [apply Hm | |].
  - by intros e (_ & _ & Hp).
  - intros e p (Hr & Ht & _) Hp. by split_and!.
Qed.

Lemma connection_quiet e0 slot : keeps (W := W) (quiet e0) (connection slot).
Proof. apply on_pool_quiet. intros. apply get_object_quiet. Qed.

Lemma on_connection_quiet {A} e0 slot (m : SM W ConnectionEntry A) :
  (forall c0, keeps (entry_quiet c0) m) -> keeps (W := W) (quiet e0) (on_connection slot m).
Proof. intros Hm. apply on_pool_quiet. intros. by apply on_object_quiet. Qed.

Lemma release_quiet e0 slot : keeps (W := W) (quiet e0) (release_slot slot).
Proof. apply on_pool_quiet. intros. apply release_slot_quiet. Qed.

Lemma push_quiet e0 x fd : x <> end_point_e.LISTENER ->
  keeps (W := W) (quiet e0) (on_pool (ObjectPool.push_to_pool (entry_of x fd))).
Proof. intros Hx. apply on_pool_quiet. intros. by apply push_to_pool_quiet. Qed.
End Engine.

#[export] Hint Resolve connection_quiet release_quiet : quiet.
#[export] Hint Extern 1 (keeps _ (NetworkEngine.on_connection _ _)) =>
  apply on_connection_quiet; intros; quiet : quiet.
#[export] Hint Extern 1 (keeps _ (NetworkEngine.on_pool (ObjectPool.push_to_pool _))) =>
  apply push_quiet; congruence : quiet.

Section Calls.
Context {W : Type} `{Platform W}.
Import NetworkEngine.

Lemma connection_fd_quiet e0 slot : keeps (W := W) (quiet e0) (connection_fd slot).
Proof. unfold connection_fd. quiet. Qed.
#[local] Hint Resolve connection_fd_quiet : quiet.

Lemma subscribe_quiet e0 slot : keeps (W := W) (quiet e0) (subscribe_to_events slot).
Proof. unfold subscribe_to_events. quiet. Qed.

Lemma rearm_quiet e0 slot : keeps (W := W) (quiet e0) (rearm slot).
Proof. unfold rearm. quiet. Qed.

Lemma unsubscribe_quiet e0 slot : keeps (W := W) (quiet e0) (unsubscribe_from_events slot).
Proof. unfold unsubscribe_from_events. quiet. Qed.
#[local] Hint Resolve subscribe_quiet rearm_quiet unsubscribe_quiet : quiet.

Lemma release_connection_quiet e0 slot : keeps (W := W) (quiet e0) (release_connection slot).
Proof. unfold release_connection. quiet. Qed.
#[local] Hint Resolve release_connection_quiet : quiet.

Lemma send_message_to_quiet e0 view message : keeps (W := W) (quiet e0) (send_message_to view message).
Proof. unfold send_message_to. quiet. Qed.

Lemma init_connection_type_quiet e0 x slot : x <> end_point_e.LISTENER ->
  keeps (W := W) (quiet e0) (init_connection_type x slot).
Proof. intros Hx. unfold init_connection_type. destruct x; [..|done|]; quiet. Qed.

Lemma register_connection_quiet e0 x fd : x <> end_point_e.LISTENER ->
  keeps (W := W) (quiet e0) (register_connection x fd).
Proof. unfold register_connection. quiet. Qed.

Lemma attach_socket_quiet e0 x fd : x <> end_point_e.LISTENER -> keeps (W := W) (quiet e0) (attach_socket fd x).
Proof. intros Hx. pose proof register_connection_quiet. unfold attach_socket. quiet. Qed.

Lemma transfer_quiet e0 destination source : keeps (W := W) (quiet e0) (transfer destination source).
Proof. unfold transfer, scope_guard, transfer_body. quiet. Qed.

Lemma reset_base_connection_quiet e0 x : x <> end_point_e.LISTENER ->
  keeps (W := W) (quiet e0) (reset_base_connection x).
Proof. intros Hx. pose proof init_connection_type_quiet. unfold reset_base_connection. quiet. Qed.

Lemma release_by_view_quiet e0 view : keeps (W := W) (quiet e0) (release_connection_by_view view).
Proof. unfold release_connection_by_view. quiet. Qed.

Lemma send_from_quiet e0 message filter slots : forall report,
  keeps (W := W) (quiet e0) (send_from slots message filter report).
Proof. induction slots as [|slot slots IH]; intros report; cbn [send_from]; quiet. Qed.

Lemma send_message_quiet e0 message filter : keeps (W := W) (quiet e0) (send_message message filter).
Proof. pose proof send_from_quiet. unfold send_message. quiet. Qed.

Lemma register_connections_quiet e0 fds : forall report, keeps (W := W) (quiet e0) (register_connections fds report).
Proof.
  pose proof register_connection_quiet.
  induction fds as [|fd fds IH]; intros report; cbn [register_connections]; quiet.
Qed.

Lemma process_server_socket_quiet e0 fuel slot : keeps (W := W) (quiet e0) (process_server_socket fuel slot).
Proof. pose proof register_connections_quiet. unfold process_server_socket. quiet. Qed.
End Calls.

#[export] Hint Resolve rearm_quiet release_connection_quiet send_message_to_quiet attach_socket_quiet transfer_quiet
  reset_base_connection_quiet release_by_view_quiet send_message_quiet process_server_socket_quiet : quiet.

(** ** The applications *)
Definition quiet_app {R} (a0 a : App R) : Prop :=
  quiet (network_engine_ a0) (network_engine_ a) /\ scheduler_ a = scheduler_ a0.

Section Applications.
Context {W : Type} `{Platform W} {R : Type}.
Implicit Types (a : App R).

Lemma on_engine_quiet {A} a0 (m : SM W NetworkEngine.t A) :
  (forall e0, keeps (quiet e0) m) -> keeps (quiet_app a0) (on_engine m).
Proof.
  intros Hm. apply (keeps_focus _ (quiet (network_engine_ a0))); [apply Hm | by intros a [Hq _] |].
  by intros a e [_ Hs] Hq.
Qed.

Lemma on_members_quiet {A} a0 (m : SM W R A) : keeps (quiet_app a0) (on_members m).
Proof. apply (keeps_focus _ (fun _ => True)); [by intros s _ | done | by intros a r [Hq Hs] _]. Qed.

Lemma set_members_quiet a0 (f : App R -> R) :
  keeps (W := W) (quiet_app a0) (local_state (modify (fun a => set_members (f a) a))).
Proof. apply keeps_modify. by intros a [Hq Hs]. Qed.
End Applications.

#[export] Hint Resolve on_members_quiet set_members_quiet : quiet.
#[export] Hint Extern 1 (keeps _ (on_engine _)) => apply on_engine_quiet; intros; quiet : quiet.
#[export] Hint Extern 2 (_ <> end_point_e.LISTENER) => discriminate : quiet.

(** The members are left alone by every call of the engine. *)
Lemma engine_keeps_members {W R A} `{Platform W} (r : R) (m : SM W NetworkEngine.t A) :
  keeps (fun a : App R => members a = r) (on_engine m).
Proof. apply (keeps_focus _ (fun _ => True)); [by intros s _ | done | by intros a e Ha _]. Qed.

(** [process_connection] keeps what the handler it calls keeps, if quiet calls
    of the engine do. *)
Section Processing.
Context {W : Type} `{Platform W} {R : Type}.
Context (handler : ActionContext -> SM W (App R) ActionResult) (I : App R -> Prop).
Context (Hengine : forall A (m : SM W NetworkEngine.t A), (forall e0, keeps (quiet e0) m) -> keeps I (on_engine m)).
Context (Hhandler : forall context, keeps I (handler context)).
#[local] Hint Extern 1 (keeps I (on_engine _)) => apply Hengine; intros; quiet : quiet.

Lemma process_message_keeps slot message : keeps I (process_message handler slot message).
Proof using Hengine Hhandler. unfold process_message. quiet. Qed.

Lemma finish_message_keeps slot r : keeps I (finish_message slot r).
Proof using Hengine. unfold finish_message. quiet. Qed.

Lemma process_connection_keeps recv_fuel fuel view : keeps I (process_connection handler recv_fuel fuel view).
Proof using Hengine Hhandler.
  pose proof process_message_keeps. pose proof finish_message_keeps.
  unfold process_connection, process_connection_impl. generalize CONTINUE.
  induction fuel as [|fuel IH]; intros action; cbn [process_loop]; quiet.
Qed.
End Processing.

Lemma process_connection_quiet {W R} `{Platform W} (handler : ActionContext -> SM W (App R) ActionResult) a0 recv_fuel fuel view :
  (forall context, keeps (quiet_app a0) (handler context)) ->
  keeps (quiet_app a0) (process_connection handler recv_fuel fuel view).
Proof. intros Hh. apply process_connection_keeps; [intros A m; apply on_engine_quiet | exact Hh]. Qed.

Lemma process_connection_members {W R} `{Platform W} (handler : ActionContext -> SM W (App R) ActionResult) r recv_fuel fuel view :
  (forall context, keeps (fun a => members a = r) (handler context)) ->
  keeps (fun a => members a = r) (process_connection handler recv_fuel fuel view).
Proof. intros Hh. apply process_connection_keeps; [intros A m _; apply engine_keeps_members | exact Hh]. Qed.

(** ** Calls that return

    [leaves I m]: [m] keeps [I] when it returns. *)
Definition leaves {W T A} (I : T -> Prop) (m : SM W T A) : Prop :=
  forall s r s', I s.2 -> m s = (Ret r, s') -> I s'.2.

Section Leaves.
Context {W T : Type} (I : T -> Prop).

Lemma leaves_keeps {A} (m : SM W T A) : keeps I m -> leaves I m.
Proof. intros Hm s r s' Hs Hrun. pose proof (Hm s Hs) as Hk. by rewrite Hrun in Hk. Qed.

Lemma leaves_bind {A B} (m : SM W T A) (n : A -> SM W T B) :
  leaves I m -> (forall x, leaves I (n x)) -> leaves I (bind m n).
Proof.
  intros Hm Hn s r s' Hs. unfold bind. destruct (m s) as [[x|h] s1] eqn:E; [|done].
  apply (Hn x). by apply (Hm s x).
Qed.

Lemma leaves_ret {A} (r : A) : leaves (W := W) I (ret r).
Proof. intros s r' s' Hs [= <- <-]. exact Hs. Qed.
End Leaves.

(** ** Starting the engine

    [init_engine] may make a listener, but puts nothing into the queues. *)
Definition same_queues (e0 e : NetworkEngine.t) : Prop :=
  NetworkEngine.network_raw_tasks_ e = NetworkEngine.network_raw_tasks_ e0 /\
  NetworkEngine.available_task_tags_ e = NetworkEngine.available_task_tags_ e0.

Section Start.
Context {W : Type} `{Platform W}.
Import NetworkEngine.

Lemma on_pool_queues {A} e0 (m : SM W (ObjectPool.t ConnectionEntry) A) : keeps (same_queues e0) (on_pool m).
Proof. apply (keeps_focus _ (fun _ => True)); [by intros s _ | done | by intros e p He _]. Qed.
#[local] Hint Resolve on_pool_queues : quiet.
#[local] Hint Extern 1 (keeps _ (connection _)) => apply on_pool_queues : quiet.
#[local] Hint Extern 1 (keeps _ (on_connection _ _)) => apply on_pool_queues : quiet.

Lemma set_epollfd_queues e0 fd : keeps (W := W) (same_queues e0) (local_state (modify (set_epollfd fd))).
Proof. by apply keeps_modify. Qed.
#[local] Hint Resolve set_epollfd_queues : quiet.

Lemma init_engine_queues e0 x fd : keeps (W := W) (same_queues e0) (init_engine x fd).
Proof.
  unfold init_engine, init_connection_type, init_epoll, subscribe_to_events, connection_fd. quiet.
Qed.
End Start.
