(* ===== verification/Pipeline.v ===== *)
(** * From an event to its service

    A ready connection's slot waits in [network_raw_tasks_], then as a task in
    the scheduler's queue, until a worker runs [process_connection] on it.
    [pipeline a q] says that [q] are the slots on their way, oldest first;
    [history] is a run of the threads of [Threads.v] in any order, with what
    the kernel reported and what was served.  The way is a queue: whatever the
    interleaving of the rounds, slots are served in the order reported, and
    none is lost or served twice. *)
From S2P Require Import Prelude.
From S2P Require Import Ring.
From S2P Require Import Platform.
From S2P Require Import AtomicQueue.
From S2P Require Import ObjectPool.
From S2P Require Import Utility.
From S2P Require Import Protocol.
From S2P Require Import Socket.
From S2P Require Import Network.
From S2P Require Import Engine.
From S2P Require Import Safety.
From S2P Require Import EngineSafety.
From S2P Require Import LobbyManager.
From S2P Require Import Scheduler.
From S2P Require Import Application.
From S2P Require Import Threads.
From S2P Require Import Server.
From S2P Require Import Lobby.
From S2P Require Import Client.
From S2P Require Import Programs.
From S2P Require Import Quiet.

#[local] Open Scope Z_scope.
#[local] Open Scope bsm_scope.

(** The slot a task is for. *)
Definition slot_of (t : Task) : option Z :=
  match context t with SlotContext slot => Some slot | TextContext _ => None end.

(** The network tags that wait. *)
Definition network_tags (ts : list task_tag_e.t) : nat := length (filter (fun x => x = task_tag_e.NETWORK) ts).

(** How many items a queue holds. *)
Definition queue_size {T} (a : AtomicQueue.t T) : Z := wrap64 (AtomicQueue.tail a - AtomicQueue.head a).

Lemma holds_size {T} (a : AtomicQueue.t T) q : AtomicQueue.holds a q -> queue_size a = Z.of_nat (length q).
Proof.
  intros Hq. pose proof (queue_length_le a q Hq). destruct Hq as (_ & Ht & _). unfold queue_size.
  rewrite Ht. unfold Z.sub. rewrite wrap64_add_l. rewrite wrap64_small; lia.
Qed.

Section Pipeline.
Context {W : Type} `{Platform W} `{TagPolicy} {R : Type}.
Implicit Types (k : Machine W) (a : App R) (e : NetworkEngine.t) (q raw : list Z).

Definition well_tagged (t : Task) : Prop :=
  match tag t, context t with
  | task_tag_e.NETWORK, SlotContext _ => True
  | task_tag_e.CONSOLE, TextContext _ => allowed task_tag_e.CONSOLE
  | _, _ => False
  end.

(** [q] is on its way; no slot waits without a tag that wakes the coroutine. *)
Definition pipeline a q : Prop :=
  exists raw ts tasks, waiting a raw ts tasks /\
    q = omap slot_of tasks ++ raw /\ Forall well_tagged tasks /\
    Forall allowed ts /\ (length raw <= network_tags ts)%nat /\ all_registered (scheduler_ a).

(** What quiet calls leave. *)
Lemma pipeline_quiet a a' q : quiet_app a a' -> pipeline a q -> pipeline a' q.
Proof.
  intros [(Hr & Ht & _) Hs] (raw & ts & tasks & (Hraw & Hts & Htasks) & Hq).
  exists raw, ts, tasks. unfold waiting, raw_tasks, tags in *. by rewrite Hr, Ht, Hs.
Qed.

Lemma keeps_pipeline {A} (m : SM W (App R) A) q :
  (forall a0, keeps (quiet_app a0) m) -> keeps (fun a => pipeline a q) m.
Proof.
  intros Hm [k a] Hp. refine (pipeline_quiet a _ q _ Hp). apply (Hm a (k, a)). by split.
Qed.

(** A call that leaves what is on its way as it is, when it returns. *)
Definition orderly {A} (m : SM W (App R) A) : Prop := forall q, leaves (fun a => pipeline a q) m.

Lemma orderly_quiet {A} (m : SM W (App R) A) : (forall a0, keeps (quiet_app a0) m) -> orderly m.
Proof. intros Hm q. by apply leaves_keeps, keeps_pipeline. Qed.

Lemma orderly_bind {A B} (m : SM W (App R) A) (n : A -> SM W (App R) B) :
  orderly m -> (forall x, orderly (n x)) -> orderly (bind m n).
Proof. intros Hm Hn q. apply leaves_bind; [apply Hm | intros x; apply Hn]. Qed.

Lemma orderly_ret {A} (r : A) : orderly (ret r).
Proof. intros q. apply leaves_ret. Qed.

(** What an application must show to be served in order. *)
Class OrderlyProgram (p : Program W R) := {
  handler_quiet a0 context : keeps (quiet_app a0) (program_handler p context);
  console_co_orderly : orderly (program_console_co p);
  console_orderly read user_cmd : program_console p = Some read -> orderly (read user_cmd)
}.

(** ** The event loop *)

(** A slot whose events are not for the application. *)
Definition is_listener e (slot : Z) : Prop :=
  match entry e slot with Some c => listens c | None => False end.
#[export] Instance is_listener_dec e slot : Decision (is_listener e slot).
Proof. unfold is_listener. destruct (entry e slot); apply _. Defined.

(** What a round puts on its way of what the kernel answered: in order, every
    slot that was not the listener's, and no other but perhaps that. *)
Definition taken_from e (answer new : list Z) : Prop :=
  new `sublist_of` answer /\ filter (fun slot => ~ is_listener e slot) answer `sublist_of` new.

Lemma quiet_pool_listener e0 e slot c :
  pool_quiet (NetworkEngine.connection_pool_ e0) (NetworkEngine.connection_pool_ e) ->
  entry e slot = Some c -> listens c -> is_listener e0 slot.
Proof. intros Hp Hc Hl. destruct (Hp slot c Hc Hl) as (c0 & Hc0 & Hl0). unfold is_listener, entry. by rewrite Hc0. Qed.

(** The queues after a batch of events, with room for all of them. *)
Lemma process_events_flow fuel e0 slots : forall k e k' e' raw ts,
  pool_quiet (NetworkEngine.connection_pool_ e0) (NetworkEngine.connection_pool_ e) ->
  AtomicQueue.holds (NetworkEngine.network_raw_tasks_ e) raw ->
  AtomicQueue.holds (NetworkEngine.available_task_tags_ e) ts ->
  (length raw + length slots <= 4095)%nat -> (length ts + length slots <= 4095)%nat ->
  NetworkEngine.process_events fuel slots (k, e) = (Ret tt, (k', e')) ->
  exists new, taken_from e0 slots new /\
    AtomicQueue.holds (NetworkEngine.network_raw_tasks_ e') (raw ++ new) /\
    AtomicQueue.holds (NetworkEngine.available_task_tags_ e') (ts ++ replicate (length new) task_tag_e.NETWORK).
Proof.
  induction slots as [|slot slots IH]; intros k e k' e' raw ts Hp Hr Ht Hlr Hlt Hrun; cbn [NetworkEngine.process_events] in Hrun.
  { injection Hrun as <- <-. exists []. cbn. by rewrite !app_nil_r. }
  cbn [length] in Hlr, Hlt.
  destruct (entry e slot) as [c|] eqn:Hc.
  2: { unfold NetworkEngine.connection, NetworkEngine.on_pool in Hrun.
       by rewrite (bind_halts _ _ _ _ _ (focus_run _ _ _ _ _ _ _ _ (get_object_missing slot k _ Hc))) in Hrun. }
  rewrite (bind_run _ _ _ _ _ (connection_run _ _ _ _ Hc)) in Hrun.
  case_bool_decide as Hlisten.
  - unfold bind at 1 in Hrun.
    pose proof (process_server_socket_quiet e fuel slot (k, e) (reflexivity e)) as Hq.
    destruct (NetworkEngine.process_server_socket fuel slot (k, e)) as [[[]|h] [k1 e1]]; [|done].
    destruct Hq as (Hr1 & Ht1 & Hp1). cbn in Hr1, Ht1, Hp1.
    destruct (IH k1 e1 k' e' raw ts) as (new & (Hsub & Hall) & Hr' & Ht'); [| by rewrite ?Hr1, ?Ht1 .. | lia | lia | done |].
    { intros s c1 Hs Hl. destruct (Hp1 s c1 Hs Hl) as (c2 & Hc2 & Hl2). by apply (Hp s c2). }
    exists new. split; [|done]. split; [by apply sublist_cons|].
    rewrite filter_cons_False; [done|]. intros Hn. apply Hn. by eapply quiet_pool_listener.
  - destruct (push_event_run k e slot raw ts) as (q1 & q2 & Hpush & Hq1 & Hq2); [done..|lia|lia|].
    rewrite (bind_run _ _ _ _ _ Hpush) in Hrun.
    destruct (IH k (NetworkEngine.set_task_tags q2 (NetworkEngine.set_raw_tasks q1 e)) k' e' (raw ++ [slot])
                (ts ++ [task_tag_e.NETWORK])) as (new & (Hsub & Hall) & Hr' & Ht');
      [done | done | done | rewrite length_app; cbn; lia | rewrite length_app; cbn; lia | done |].
    exists (slot :: new). rewrite <- app_assoc in Hr', Ht'. split; [|done]. split; [by constructor|].
    rewrite filter_cons. case_decide; [by constructor | by apply sublist_cons].
Qed.

Lemma network_tags_app ts ts' : network_tags (ts ++ ts') = (network_tags ts + network_tags ts')%nat.
Proof. unfold network_tags. by rewrite filter_app, length_app. Qed.

Lemma network_tags_replicate n : network_tags (replicate n task_tag_e.NETWORK) = n.
Proof. unfold network_tags. induction n as [|n IH]; [done|]. cbn [replicate].
  rewrite filter_cons_True by done. cbn [length]. by rewrite IH. Qed.

Lemma on_engine_inv {A} (m : SM W NetworkEngine.t A) k a r k' a' :
  on_engine m (k, a) = (r, (k', a')) ->
  exists e', m (k, network_engine_ a) = (r, (k', e')) /\ a' = set_network_engine e' a.
Proof.
  unfold on_engine, focus, zoom. cbn. destruct (m (k, network_engine_ a)) as [r1 [k1 e1]].
  intros [= <- <- <-]. by exists e1.
Qed.

(** The answer of the next [epoll_wait], with the engine it comes to. *)
Definition reports (s : Machine W * App R) : list (NetworkEngine.t * list Z) :=
  match (sys_epoll_wait (NetworkEngine.epollfd_ (network_engine_ s.2)) 10 (world s.1)).1 with
  | Ready answer => [(network_engine_ s.2, answer)]
  | WaitFailed _ => []
  end.

(** Room in the queues for the ten events of a round. *)
Definition room a : Prop := queue_size (raw_tasks a) + 10 <= 4095 /\ queue_size (tags a) + 10 <= 4095.

Lemma wait_for_events_inv epfd k r k' :
  EpollHandler.wait_for_events epfd NetworkEngine.MAX_EVENTS k = (Ret r, k') ->
  match r with
  | inl answer => (sys_epoll_wait epfd 10 (world k)).1 = Ready answer /\ (length answer <= 10)%nat
  | inr _ => exists n, (sys_epoll_wait epfd 10 (world k)).1 = WaitFailed n
  end.
Proof.
  unfold EpollHandler.wait_for_events, do_epoll_wait, bind at 1.
  destruct (sys_epoll_wait epfd 10 (world k)) as [[answer|n] w]; cbn.
  - destruct (Z.leb_spec (Z.of_nat (length answer)) NetworkEngine.MAX_EVENTS) as [Hl|]; [|done].
    intros [= <- <-]. split; [done|]. unfold NetworkEngine.MAX_EVENTS in Hl. lia.
  - intros [= <- <-]. by exists n.
Qed.

Lemma event_round_flow fuel k a k' a' q :
  pipeline a q -> room a -> on_engine (NetworkEngine.event_round fuel) (k, a) = (Ret tt, (k', a')) ->
  exists arrived, Forall2 (fun r new => taken_from r.1 r.2 new) (reports (k, a)) arrived /\
    pipeline a' (q ++ concat arrived).
Proof.
  intros (raw & ts & tasks & Hw & Hq & Htasks & Hallowed & Hcount & Hreg) Hroom (e' & Hrun & ->)%on_engine_inv.
  destruct Hroom as [Hlr Hlt]. destruct Hw as (Hr & Ht & Hs).
  rewrite (holds_size _ _ Hr) in Hlr. rewrite (holds_size _ _ Ht) in Hlt.
  unfold NetworkEngine.event_round in Hrun. erewrite bind_run in Hrun by reflexivity. cbn [fst snd] in Hrun.
  unfold bind at 1, lift at 1, zoom at 1 in Hrun. cbn [fst snd] in Hrun.
  destruct (EpollHandler.wait_for_events _ _ k) as [[r|h] k1] eqn:Hwait; [|done].
  apply wait_for_events_inv in Hwait. destruct r as [answer|er].
  - destruct Hwait as [Hans Hlen]. unfold reports. cbn [fst snd]. rewrite Hans.
    destruct (process_events_flow fuel (network_engine_ a) answer k1 (network_engine_ a) k' e' raw ts)
      as (new & Htaken & Hr' & Ht'); [by intros s c; exists c | done | done | lia | lia | done |].
    exists [new]. split; [constructor; [exact Htaken | constructor]|].
    exists (raw ++ new), (ts ++ replicate (length new) task_tag_e.NETWORK), tasks.
    split_and!; [done | cbn; by rewrite app_nil_r, Hq, app_assoc | done | | | done].
    + apply Forall_app. split; [done|]. apply Forall_replicate, allowed_network.
    + rewrite network_tags_app, network_tags_replicate, length_app. lia.
  - destruct Hwait as [n Hans]. unfold reports. cbn [fst snd]. rewrite Hans. exists []. split; [constructor|].
    injection Hrun as _ <-. cbn. rewrite app_nil_r. by exists raw, ts, tasks.
Qed.

(** ** The coroutine thread *)
Lemma on_tags_run {A} (m : M (AtomicQueue.t task_tag_e.t) A) k a r ts' :
  m (tags a) = (r, ts') ->
  on_engine (local_state (zoom NetworkEngine.available_task_tags_ NetworkEngine.set_task_tags m)) (k, a)
    = (r, (k, set_network_engine (NetworkEngine.set_task_tags ts' (network_engine_ a)) a)).
Proof.
  intros Hm. change (@set_network_engine R) with (@set_engine (App R) App_engine).
  by apply on_engine_run, local_state_run, zoom_run.
Qed.

Lemma on_raw_run {A} (m : M (AtomicQueue.t Z) A) k a r rq :
  m (raw_tasks a) = (r, rq) ->
  on_engine (local_state (zoom NetworkEngine.network_raw_tasks_ NetworkEngine.set_raw_tasks m)) (k, a)
    = (r, (k, set_network_engine (NetworkEngine.set_raw_tasks rq (network_engine_ a)) a)).
Proof.
  intros Hm. change (@set_network_engine R) with (@set_engine (App R) App_engine).
  by apply on_engine_run, local_state_run, zoom_run.
Qed.

(** A push that returns adds the task. *)
Lemma push_task_cases (s : Scheduler.t executor coroutine) tasks x args :
  Scheduler.holds s tasks ->
  match Scheduler.push_task x args s with
  | (Ret _, s') => Scheduler.holds s' (tasks ++ [mkTask x args]) /\
      Scheduler.task_executors_ s' = Scheduler.task_executors_ s /\
      Scheduler.co_handles_map_ s' = Scheduler.co_handles_map_ s
  | (Halt _, s') => s' = s
  end.
Proof.
  intros Hs. destruct (decide (length tasks < 4095)%nat) as [Hl|Hl].
  - by destruct (push_task_run s tasks x args Hs Hl) as (s' & -> & Hs').
  - destruct Hs as (_ & _ & Hp). unfold Scheduler.push_task, Scheduler.acquire, bind, gets.
    by rewrite Hp, (proj2 (Z.ltb_ge _ _)) by (unfold PUSH_MAX; lia).
Qed.

Lemma all_registered_same (s s' : Scheduler.t executor coroutine) :
  Scheduler.task_executors_ s' = Scheduler.task_executors_ s ->
  Scheduler.co_handles_map_ s' = Scheduler.co_handles_map_ s -> all_registered s -> all_registered s'.
Proof. unfold all_registered. by intros -> ->. Qed.

Lemma network_co_flow k a k' a' raw ts tasks :
  waiting a raw ts tasks -> Forall well_tagged tasks -> Forall allowed ts ->
  (length raw <= S (network_tags ts))%nat -> all_registered (scheduler_ a) ->
  network_co (k, a) = (Ret tt, (k', a')) -> pipeline a' (omap slot_of tasks ++ raw).
Proof.
  intros (Hr & Ht & Hs) Htasks Hallowed Hcount Hreg Hrun. unfold network_co in Hrun.
  pose proof (queue_pop_cases _ _ Hr) as Hpop.
  destruct (AtomicQueue.try_pop (raw_tasks a)) as [[[slot|]|h] raw'] eqn:Er; [| |done].
  all: rewrite (bind_run _ _ _ _ _ (on_raw_run _ k a _ _ Er)) in Hrun.
  - destruct Hpop as (raw1 & -> & Hr'). pose proof (push_task_cases _ _ task_tag_e.NETWORK (SlotContext slot) Hs) as Hpush.
    unfold on_scheduler, local_state, zoom in Hrun. cbn [fst snd scheduler_ set_network_engine] in Hrun.
    destruct (Scheduler.push_task _ _ _) as [[[]|h] s']; [|done]. destruct Hpush as (Hs' & Hex & Hco).
    injection Hrun as <- <-. exists raw1, ts, (tasks ++ [network_task slot]). split_and!; try done.
    + rewrite omap_app. cbn. by rewrite <- app_assoc.
    + apply Forall_app. by split; [|constructor].
    + cbn in Hcount. lia.
    + by eapply all_registered_same.
  - destruct Hpop as [-> ->]. injection Hrun as <- <-. exists [], ts, tasks. split_and!; try done. cbn. lia.
Qed.

Lemma coroutine_flow (p : Program W R) `{!OrderlyProgram p} k a k' a' q :
  pipeline a q -> coroutine_round (program_console_co p) (k, a) = (Ret tt, (k', a')) -> pipeline a' q.
Proof.
  intros (raw & ts & tasks & (Hr & Ht & Hs) & -> & Htasks & Hallowed & Hcount & Hreg) Hrun.
  unfold coroutine_round in Hrun. pose proof (queue_wait_cases _ _ Ht) as Hwait.
  destruct (AtomicQueue.wait_for_data (tags a)) as [[[]|h] ts1] eqn:Ew.
  2: by rewrite (bind_halts _ _ _ _ _ (on_tags_run _ k a _ _ Ew)) in Hrun.
  rewrite (bind_run _ _ _ _ _ (on_tags_run _ k a _ _ Ew)) in Hrun. subst ts1.
  replace (set_network_engine _ a) with a in Hrun by by destruct a as [[] ? ?].
  pose proof (queue_pop_cases _ _ Ht) as Hpop.
  destruct (AtomicQueue.try_pop (tags a)) as [[[x|]|h] ts1] eqn:Ep; [| |done].
  all: rewrite (bind_run _ _ _ _ _ (on_tags_run _ k a _ _ Ep)) in Hrun.
  - destruct Hpop as (ts2 & -> & Ht'). apply Forall_cons in Hallowed as [Hx Hallowed].
    destruct (Hreg x Hx) as (c & f & Hc & Hfc & _).
    erewrite bind_run in Hrun by (apply on_scheduler_run, get_co_handle_run; exact Hfc).
    set (a1 := set_network_engine _ a) in Hrun. replace (set_scheduler _ a1) with a1 in Hrun by by destruct a.
    assert (waiting a1 raw ts2 tasks) as Hw by by split_and!.
    destruct x; [done| |]; injection Hc as <-; cbn [resume_coroutine] in Hrun.
    + refine (network_co_flow _ a1 _ _ _ _ _ Hw Htasks Hallowed _ Hreg Hrun).
      unfold network_tags in *. by rewrite filter_cons_True in Hcount.
    + refine (console_co_orderly (p := p) _ (k, a1) tt (k', a') _ Hrun). exists raw, ts2, tasks. by split_and!.
  - destruct Hpop as [-> ->]. injection Hrun as <- <-. exists raw, [], tasks. by split_and!.
Qed.

(** ** The workers *)

(** The slot the next round of a worker serves, if any. *)
Definition served (s : Machine W * App R) : list Z :=
  match (Scheduler.next_execution (scheduler_ s.2)).1 with
  | Ret (Some (NetworkExecutor, SlotContext slot)) => [slot]
  | _ => []
  end.

Lemma next_execution_cases (s : Scheduler.t executor coroutine) tasks :
  Scheduler.holds s tasks -> Forall well_tagged tasks -> all_registered s ->
  match tasks with
  | [] => exists h s', Scheduler.next_execution s = (Halt h, s')
  | t :: rest => exists f s', Scheduler.next_execution s = (Ret (Some (f, context t)), s') /\
      executor_of (tag t) = Some f /\ Scheduler.holds s' rest /\ all_registered s'
  end.
Proof.
  intros Hs Htasks Hreg. destruct tasks as [|t rest].
  - destruct Hs as (_ & Hp & _). unfold Scheduler.next_execution, Scheduler.try_get_task, Scheduler.acquire, bind, gets.
    rewrite Hp. by do 2 eexists.
  - destruct (try_get_task_run s t rest Hs) as (s' & Hrun & Hs' & Hex & Hco).
    apply Forall_cons in Htasks as [Ht _]. destruct (Hreg (tag t)) as (c & f & _ & _ & Hf & Hff).
    { unfold well_tagged in Ht. destruct (tag t), (context t); try done. apply allowed_network. }
    exists f, s'. unfold Scheduler.next_execution. rewrite (bind_run _ _ _ _ _ Hrun).
    unfold Scheduler.get_executor_by_tag.
    erewrite bind_run by (apply get_executor_run; rewrite Hex; exact Hff).
    split_and!; [done..|]. by eapply all_registered_same.
Qed.

Lemma worker_flow (p : Program W R) `{!OrderlyProgram p} recv_fuel fuel k a k' a' q :
  pipeline a q -> worker_round (program_handler p) recv_fuel fuel (k, a) = (Ret tt, (k', a')) ->
  exists q', q = served (k, a) ++ q' /\ pipeline a' q'.
Proof.
  intros (raw & ts & tasks & (Hr & Ht & Hs) & -> & Htasks & Hallowed & Hcount & Hreg) Hrun.
  pose proof (next_execution_cases _ _ Hs Htasks Hreg) as Hnext. unfold worker_round in Hrun.
  destruct tasks as [|t rest].
  { destruct Hnext as (h & s' & Hnext). by rewrite (bind_halts _ _ _ _ _ (on_scheduler_run _ k a _ _ Hnext)) in Hrun. }
  destruct Hnext as (f & s' & Hnext & Hf & Hs' & Hreg').
  rewrite (bind_run _ _ _ _ _ (on_scheduler_run _ k a _ _ Hnext)) in Hrun.
  apply Forall_cons in Htasks as [Htask Htasks].
  assert (pipeline (set_scheduler s' a) (omap slot_of rest ++ raw)) as Hp by (exists raw, ts, rest; by split_and!).
  unfold served. cbn [fst snd]. rewrite Hnext. cbn [fst omap list_omap].
  unfold well_tagged in Htask. unfold slot_of at 1.
  destruct (tag t), (context t) as [slot|text]; try done; injection Hf as <-; cbn [execute] in Hrun.
  - exists (omap slot_of rest ++ raw). split; [done|]. unfold bind in Hrun.
    pose proof (keeps_pipeline (process_connection (program_handler p) recv_fuel fuel (mkView slot)) (omap slot_of rest ++ raw)) as Hkeep.
    specialize (Hkeep (fun a0 => process_connection_quiet _ a0 _ _ _ (handler_quiet a0)) (k, set_scheduler s' a) Hp).
    destruct (process_connection _ _ _ _ _) as [[r|h] [k1 a1]]; [|done]. by injection Hrun as <- <-.
  - exists (omap slot_of rest ++ raw). split; [done|]. unfold bind in Hrun.
    set (context := mkContext _ _) in Hrun.
    pose proof (keeps_pipeline (program_handler p context) (omap slot_of rest ++ raw)
      (fun a0 => handler_quiet (p := p) a0 context) (k, set_scheduler s' a) Hp) as Hkeep.
    destruct (program_handler p context _) as [[r|h] [k1 a1]]; [|done]. by injection Hrun as <- <-.
Qed.

(** The oldest slot on its way is the next to be served, perhaps after one round
    of the coroutine thread, when no tag but the network's is used. *)
Lemma oldest_next console_co k a slot q :
  (forall x, allowed x -> x = task_tag_e.NETWORK) -> pipeline a (slot :: q) ->
  exists a1, (a1 = a \/ coroutine_round console_co (k, a) = (Ret tt, (k, a1))) /\ served (k, a1) = [slot].
Proof.
  intros Honly (raw & ts & tasks & Hw & Hq & Htasks & Hallowed & Hcount & Hreg).
  assert (forall b tasks1, Scheduler.holds (scheduler_ b) (network_task slot :: tasks1) ->
    Forall well_tagged tasks1 -> all_registered (scheduler_ b) -> served (k, b) = [slot]) as Hserved.
  { intros b tasks1 Hs1 Ht1 Hr1. unfold served. cbn [snd].
    destruct (next_execution_cases _ _ Hs1 (Forall_cons_2 well_tagged (network_task slot) tasks1 I Ht1) Hr1) as (f & s' & -> & Hf & _).
    cbn in Hf. by injection Hf as <-. }
  destruct tasks as [|t rest].
  - cbn in Hq. subst raw. destruct ts as [|x ts]; [cbn in Hcount; lia|].
    apply Forall_cons in Hallowed as [->%Honly Hallowed].
    destruct (Hreg task_tag_e.NETWORK allowed_network) as (c & f & [= <-] & Hc & [= <-] & Hf).
    destruct (coroutine_round_run k a slot q ts [] console_co (conj Hf Hc) Hw) as (a1 & Hrun & Hsame & (_ & _ & Hs1));
      [cbn; lia|].
    exists a1. split; [by right|]. apply (Hserved _ [] Hs1); [constructor|].
    destruct Hsame as (_ & _ & _ & Hex & Hco). by eapply all_registered_same.
  - exists a. split; [by left|]. destruct Hw as (_ & _ & Hs). apply Forall_cons in Htasks as [Ht Htasks].
    destruct t as [x args]. unfold well_tagged in Ht. cbn in Ht.
    destruct x, args as [slot1|text]; try done; [|by apply Honly in Ht].
    cbn in Hq. injection Hq as -> _. by apply (Hserved _ rest Hs).
Qed.

(** ** A run of the threads *)

(** The rounds of a run with what the kernel reported to the event loop, and
    the slots the workers served. *)
Inductive history (p : Program W R) :
    Machine W * App R -> list (NetworkEngine.t * list Z) -> list Z -> Machine W * App R -> Prop :=
| history_start s : history p s [] [] s
| history_round f t s s1 events done s2 :
    round p f t s = (Ret tt, s1) -> (t = EventLoop -> room s.2) ->
    history p s1 events done s2 ->
    history p s ((if t is EventLoop then reports s else []) ++ events)
      ((if t is WorkerLoop then served s else []) ++ done) s2.

Lemma history_rtc p s events done s' : history p s events done s' -> rtc (step p) s s'.
Proof. induction 1; [done|]. eapply rtc_l; [by do 2 eexists | done]. Qed.

Section Program.
Context (p : Program W R) `{!OrderlyProgram p}.

Lemma round_flow f t s s' q :
  pipeline s.2 q -> round p f t s = (Ret tt, s') -> (t = EventLoop -> room s.2) ->
  exists arrived q', Forall2 (fun r new => taken_from r.1 r.2 new) (if t is EventLoop then reports s else []) arrived /\
    q ++ concat arrived = (if t is WorkerLoop then served s else []) ++ q' /\ pipeline s'.2 q'.
Proof using OrderlyProgram0.
  destruct s as [k a], s' as [k' a']. intros Hp Hrun Hroom. destruct t as [| | |user_cmd]; cbn [round] in Hrun.
  - destruct (event_round_flow _ _ _ _ _ _ Hp (Hroom eq_refl) Hrun) as (arrived & Ha & Hp'). by exists arrived, (q ++ concat arrived).
  - exists [], q. cbn. rewrite app_nil_r. split_and!; [constructor | done | by eapply coroutine_flow].
  - destruct (worker_flow p _ _ _ _ _ _ _ Hp Hrun) as (q' & -> & Hp'). exists [], q'. cbn [concat].
    rewrite app_nil_r. by split_and!; [constructor|..].
  - exists [], q. cbn. rewrite app_nil_r. split_and!; [constructor | done |].
    destruct (program_console p) as [read|] eqn:E; [|done].
    exact (console_orderly (p := p) read user_cmd E q (k, a) tt (k', a') Hp Hrun).
Qed.

(** What was on its way and what arrived is what was served and what is still
    on its way. *)
Lemma history_flow s events done s' : history p s events done s' -> forall q, pipeline s.2 q ->
  exists arrived q', Forall2 (fun r new => taken_from r.1 r.2 new) events arrived /\
    q ++ concat arrived = done ++ q' /\ pipeline s'.2 q'.
Proof using OrderlyProgram0.
  induction 1 as [s|f t s s1 events done s2 Hrun Hroom _ IH]; intros q Hp.
  { exists [], q. cbn. rewrite app_nil_r. by split; [constructor|]. }
  destruct (round_flow _ _ _ _ _ Hp Hrun Hroom) as (arr1 & q1 & Ha1 & Hq1 & Hp1).
  destruct (IH q1 Hp1) as (arr2 & q2 & Ha2 & Hq2 & Hp2).
  exists (arr1 ++ arr2), q2. split_and!; [by apply Forall2_app | | done].
  by rewrite concat_app, app_assoc, Hq1, <- !app_assoc, Hq2.
Qed.
End Program.
End Pipeline.

(** ** The three programs *)
Section Programs.
Context {W : Type} `{Platform W}.

Lemma push_task_orderly `{TagPolicy} {R} x args : slot_of (mkTask x args) = None -> well_tagged (mkTask x args) ->
  orderly (W := W) (R := R) (on_scheduler (Scheduler.push_task x args)).
Proof.
  intros Hn Hw q [k a] r [k' a'] (raw & ts & tasks & (Hr & Ht & Hs) & Hq & Htasks & Hallowed & Hcount & Hreg) Hrun. cbn in *.
  pose proof (push_task_cases (scheduler_ a) tasks x args Hs) as Hpush.
  unfold on_scheduler, local_state, zoom in Hrun. cbn [fst snd] in Hrun.
  destruct (Scheduler.push_task _ _ _) as [[[]|h] s']; [|done]. injection Hrun as <- <- <-.
  destruct Hpush as (Hs' & Hex & Hco). exists raw, ts, (tasks ++ [mkTask x args]). split_and!; try done.
  - rewrite omap_app. cbn in *. rewrite Hn. cbn. by rewrite app_nil_r.
  - apply Forall_app. by split; [|constructor].
  - by eapply all_registered_same.
Qed.

Lemma push_console_tag_orderly `{TagPolicy} {R} : allowed task_tag_e.CONSOLE ->
  orderly (W := W) (R := R) (on_engine (NetworkEngine.push_tag task_tag_e.CONSOLE)).
Proof.
  intros Hc q [k a] r [k' a'] (raw & ts & tasks & (Hr & Ht & Hs) & Hq & Htasks & Hallowed & Hcount & Hreg) Hrun. cbn in *.
  pose proof (queue_push_cases _ _ task_tag_e.CONSOLE Ht) as Hpush. unfold NetworkEngine.push_tag in Hrun.
  destruct (AtomicQueue.try_push _ (tags a)) as [[pushed|h] ts'] eqn:Ep; rewrite (on_tags_run _ k a _ _ Ep) in Hrun; [|done].
  injection Hrun as <- <- <-. destruct pushed.
  - exists raw, (ts ++ [task_tag_e.CONSOLE]), tasks. split_and!; try done.
    + apply Forall_app. by split; [|constructor].
    + rewrite network_tags_app. lia.
  - subst ts'. exists raw, ts, tasks. by split_and!.
Qed.

#[export] Program Instance server_orderly : OrderlyProgram (H0 := network_only) (server_program (W := W)).
Next Obligation.
  intros a0 context. cbn. unfold Server.handle_action, Server.execute_create_lobby, Server.create_lobby, Server.init_lobby,
    Server.execute_join_lobby, Server.execute_chat_message, Server.execute_general_action, Server.perform_transfer. quiet.
Qed.
Next Obligation. intros q s r s' _ [=]. Qed.
Next Obligation. intros read user_cmd [=]. Qed.

#[export] Program Instance lobby_orderly : OrderlyProgram (H0 := network_only) (lobby_program (W := W)).
Next Obligation.
  intros a0 context. cbn. unfold Lobby.handle_action, Lobby.execute_accept_socket, Lobby.send_join_lobby_message,
    Lobby.execute_set_lobby_id, Lobby.execute_chat_message. quiet.
Qed.
Next Obligation. intros q s r s' _ [=]. Qed.
Next Obligation. intros read user_cmd [=]. Qed.

#[export] Program Instance client_orderly : OrderlyProgram (H0 := network_and_console) (client_program (W := W)).
Next Obligation.
  intros a0 context. cbn. unfold Client.handle_action, Client.handle_broadcast_action, Client.send_input_to_server,
    Client.execute_print_message, Client.execute_quit. quiet.
Qed.
Next Obligation.
  apply orderly_bind; [apply orderly_quiet; intros; apply on_members_quiet|]. intros [text|]; [|apply orderly_ret].
  apply push_task_orderly; [done|]. discriminate.
Qed.
Next Obligation.
  intros read user_cmd [= <-]. cbn [Client.console_run].
  apply orderly_bind; [apply orderly_quiet; intros; apply on_members_quiet|]. intros _.
  apply orderly_bind; [apply push_console_tag_orderly; discriminate|]. intros _. apply orderly_ret.
Qed.
End Programs.
