(* ===== verification/Main.v ===== *)
(** * [main/]: the programs from [main] on

    [main.cpp] is the server and, with a descriptor as its argument, the lobby
    that the server forks; [client.cpp] is the client.  [main] ends with an exit
    code or in [run], whose threads are those of [Threads.v] from then on.  The
    destructors that run when [main] returns are left out, and so is what
    [client.cpp] has after its call of [exit]. *)
From S2P Require Import Prelude.
From S2P Require Import Ring.
From S2P Require Import CString.
From S2P Require Import Platform.
From S2P Require Import Logger.
From S2P Require Import MemoryManager.
From S2P Require Import AtomicQueue.
From S2P Require Import ObjectPool.
From S2P Require Import Utility.
From S2P Require Import Protocol.
From S2P Require Import Dispatcher.
From S2P Require Import Socket.
From S2P Require Import Network.
From S2P Require Import Engine.
From S2P Require Import Safety.
From S2P Require Import EngineSafety.
From S2P Require Import LobbyManager.
From S2P Require Import Scheduler.
From S2P Require Import Application.
From S2P Require Import Threads.
From S2P Require Import Server.
From S2P Require Import Lobby.
From S2P Require Import Client.
From S2P Require Import Programs.
From S2P Require Import Quiet.
From S2P Require Import Pipeline.
From Stdlib Require Import Ascii.

#[local] Open Scope Z_scope.
#[local] Open Scope bsm_scope.

Definition EXIT_FAILURE : Z := 1.

Inductive process :=
| Exited (code : Z)
| RunsServer (a : Server.t)
| RunsLobby (a : Lobby.t)
| RunsClient (a : Client.t).

(** [strrchr(argv[0], '/')] and one further; without a slash a null pointer
    is moved and read. *)
Definition program_name (argv0 : string) : option string :=
  match find_last_of "/" argv0 with
  | Some pos => Some (string_from argv0 (S pos))
  | None => None
  end.

Section Main.
Context {W : Type} `{Platform W}.
(** [sizeof] of the memory manager's metadata, the build's [DEBUG_LOGS], the
    lines of [bs.conf]. *)
Context (sizeof_manager sizeof_pool : Z) (debug_logs : bool) (config_file : option (list string)).

(** [Application::Application]: the members in the order of the class. *)
Definition construct_app {R} (r : R) : M (Machine W) (App R) :=
  let* pool := ObjectPool.construct sizeof_manager sizeof_pool in
  AtomicQueue.construct sizeof_manager sizeof_pool ;;;
  AtomicQueue.construct sizeof_manager sizeof_pool ;;;
  AtomicQueue.construct sizeof_manager sizeof_pool ;;;
  ret (mkApp (NetworkEngine.mk pool 0 AtomicQueue.empty AtomicQueue.empty) Scheduler.initial r).

(** [Client::Client] has a queue more. *)
Definition construct_client : M (Machine W) Client.t :=
  let* app := construct_app initial_client in
  AtomicQueue.construct sizeof_manager sizeof_pool ;;;
  ret app.

(** What both [main]s begin with; [rest] follows when the log is open. *)
Definition with_log (argv : list string) (rest : M (Machine W) process) : M (Machine W) process :=
  match program_name (default "" (head argv)) with
  | None => stop Undefined
  | Some name =>
    let* result := run_with Logger.initial (Logger.init name) in
    match result.1 with
    | None => rest
    | Some _ => print_line "Unable to init Logger" ;;; ret (Exited EXIT_FAILURE)
    end
  end.

(** [Application::~Application]: the one member whose destructor makes a call
    is the engine's [EpollHandler]. *)
Definition destroy_app {R} (a : App R) : M (Machine W) unit :=
  EpollHandler.destroy (NetworkEngine.epollfd_ (network_engine_ a)).

(** The end of [main.cpp]: an application that is not run is destroyed when
    [main] returns. *)
Definition start_app {R} (init_result : option Error) (app : App R) (p : process) : M (Machine W) process :=
  match init_result with
  | Some e => LOG (full_report e) ;;; destroy_app app ;;; ret (Exited EXIT_FAILURE)
  | None => ret p
  end.

(** [main.cpp] *)
Definition main (argv : list string) : M (Machine W) process :=
  with_log argv (
    Config.construct config_file ;;;
    (if debug_logs then LOG "DEBUG Enabled!" else ret tt) ;;;
    match tail argv with
    | fd :: _ =>
      LOG "Starting Lobby!" ;;;
      let* lobby := construct_app initial_lobby in
      match stoi fd with
      | None => stop Terminated
      | Some n =>
        let* r := run_with lobby (Lobby.init end_point_e.TO_PARENT n) in
        start_app r.1 r.2 (RunsLobby r.2)
      end
    | [] =>
      LOG "Starting Server!" ;;;
      let* server := construct_app LobbyManager.initial in
      let* r := run_with server (Server.init end_point_e.LISTENER 0) in
      start_app r.1 r.2 (RunsServer r.2)
    end).

(** [client.cpp]: what [init] returns is ignored. *)
Definition client_main (argv : list string) : M (Machine W) process :=
  with_log argv (
    let* client := construct_client in
    let* r := run_with client (Client.init end_point_e.TO_SERVER 0) in
    ret (RunsClient r.2)).
End Main.

(** ** What [main] starts from *)
Section Startup.
Context {W : Type} `{Platform W} `{!Kernel W}.
Context (sizeof_manager sizeof_pool : Z).

Lemma calm_manager_init : calm (MemoryManager.init sizeof_manager sizeof_pool).
Proof.
  unfold MemoryManager.init, MemoryManager.init_meta_storage, AllocatorPool.init, AllocatorPool.init_meta_storage.
  calm.
Qed.
#[local] Hint Resolve calm_manager_init : safety.

Lemma calm_allocate : calm_on MemoryManager.allocate.
Proof.
  unfold MemoryManager.allocate, AllocatorPool.allocate, AllocatorPool.grow, AllocatorPool.allocate_new_node,
    success_or_terminate, plain_terminate. calm.
Qed.

Lemma calm_queue : calm (AtomicQueue.construct sizeof_manager sizeof_pool).
Proof.
  assert (forall n, calm_on (AtomicQueue.construct_slots n)) as Hs.
  { induction n as [|n IH]; cbn [AtomicQueue.construct_slots]; calm. apply calm_allocate. }
  unfold AtomicQueue.construct. apply calm_bind_machine; [apply calm_manager_init|].
  intros m V k Hk. specialize (Hs (Z.to_nat RING_BUFFER_SIZE) V (k, m) Hk).
  by destruct (AtomicQueue.construct_slots _ (k, m)) as [[r|h] [k' m']].
Qed.
#[local] Hint Resolve calm_queue : safety.

Lemma calm_construct {R} (r : R) : calm (construct_app sizeof_manager sizeof_pool r).
Proof. unfold construct_app, ObjectPool.construct. calm. Qed.

Context (Hpage : forall w, 2 < (sys_call c_sysconf_page_size w).1.1).

(** A fresh application: empty queues and an empty pool. *)
Lemma construct_app_fresh {R} (r : R) k0 k (a : App R) :
  construct_app sizeof_manager sizeof_pool r k0 = (Ret a, k) ->
  exists pool, a = mkApp (NetworkEngine.mk pool 0 AtomicQueue.empty AtomicQueue.empty) Scheduler.initial r /\
    ObjectPool.objects pool = ∅ /\ ObjectPool.counter pool = 0 /\ ObjectPool.ok pool [] [].
Proof using Hpage.
  intros Hc. unfold construct_app, ObjectPool.construct, bind in Hc.
  destruct (AtomicQueue.construct _ _ k0) as [[?|] k1]; [|done].
  destruct (MemoryManager.init _ _ k1) as [[m|] k2] eqn:Em; [|done]. cbn in Hc.
  destruct (AtomicQueue.construct _ _ k2) as [[?|] k3]; [|done].
  destruct (AtomicQueue.construct _ _ k3) as [[?|] k4]; [|done].
  destruct (AtomicQueue.construct _ _ k4) as [[?|] k5]; [|done].
  injection Hc as <- <-. eexists. split_and!; [done..|].
  by eapply (fresh_pool_ok (T := ConnectionEntry)).
Qed.

(** Nothing is registered with the kernel. *)
Lemma construct_app_inv `{TagPolicy} {R} (r : R) k0 k (a : App R) :
  watched (world k0) = ∅ -> construct_app sizeof_manager sizeof_pool r k0 = (Ret a, k) ->
  inv (k, network_engine_ a) /\
  exists pool, a = mkApp (NetworkEngine.mk pool 0 AtomicQueue.empty AtomicQueue.empty) Scheduler.initial r.
Proof.
  intros Hw Hc. pose proof (calm_construct r ∅ k0) as Hcalm. rewrite Hc in Hcalm. cbn in Hcalm.
  destruct (construct_app_fresh r k0 k a Hc) as (pool & -> & Ho & _ & Hok). split; [|by eexists]. constructor; cbn.
  - by eapply ok_pool_safe.
  - intros slot c. unfold entry. cbn. by rewrite Ho, lookup_empty.
  - exists []. split; [apply empty_holds|]. intros s []%elem_of_nil.
  - exists []. split; [apply empty_holds|]. intros s []%elem_of_nil.
  - intros s Hs. exfalso. apply (not_elem_of_empty (C := gset Z) s). apply Hcalm; [|done].
    unfold knows_only. by rewrite Hw.
Qed.

Definition registered : Scheduler.t executor coroutine :=
  Scheduler.mk [(task_tag_e.NETWORK, NetworkCo)] AtomicQueue.empty 0 PUSH_MAX
    [(task_tag_e.NETWORK, NetworkExecutor)].

Lemma init_app_inv `{TagPolicy} {R} typ fd k (a : App R) v k' a' :
  inv (k, network_engine_ a) -> scheduler_ a = Scheduler.initial ->
  init_app typ fd (k, a) = (Ret (inl v), (k', a')) ->
  exists e, a' = mkApp e registered (members a) /\ inv (k', e) /\ slot_valid e (get_slot v) /\
    same_queues (network_engine_ a) e.
Proof.
  destruct a as [e0 s0 r0]. cbn. intros Hi ->.
  pose proof (init_engine_queues e0 typ fd (k, e0) (conj eq_refl eq_refl)) as Hq. pose proof (init_engine_safe typ fd _ Hi) as Hsafe. unfold safe in Hsafe.
  unfold init_app, init_network.
  destruct (NetworkEngine.init_engine typ fd (k, e0)) as [[r|h] [k1 e]] eqn:Er.
  - rewrite bind_bind. erewrite bind_run by (apply on_engine_run; exact Er).
    destruct r as [v1|er]; [|done]. cbn. destruct Hsafe as (Hi1 & _ & Hv).
    intros [= <- <- <-]. exists e. by split_and!.
  - rewrite bind_bind. by erewrite bind_halts by (apply on_engine_run; exact Er).
Qed.

(** Nothing is on its way. *)
Definition idle {R} (a : App R) : Prop := waiting a [] [] [].

Lemma idle_queues {R} (e : NetworkEngine.t) (s : Scheduler.t executor coroutine) (r : R) pool :
  same_queues (NetworkEngine.mk pool 0 AtomicQueue.empty AtomicQueue.empty) e -> Scheduler.holds s [] ->
  idle (mkApp e s r).
Proof.
  intros [Hr Ht] Hs. unfold idle, waiting, raw_tasks, tags. cbn. rewrite Hr, Ht. cbn.
  split_and!; [apply empty_holds | apply empty_holds | done].
Qed.

Lemma registered_holds : Scheduler.holds registered [].
Proof. split; [apply empty_holds | done]. Qed.

(** Before [init] nothing is registered with the kernel. *)
Lemma calm_then {A B} (m : M (Machine W) A) (n : A -> M (Machine W) B) k b k' :
  calm m -> watched (world k) = ∅ -> bind m n k = (Ret b, k') ->
  exists a k1, m k = (Ret a, k1) /\ watched (world k1) = ∅ /\ n a k1 = (Ret b, k').
Proof.
  intros Hm Hk. specialize (Hm ∅ k). unfold knows_only, bind in *.
  destruct (m k) as [[a|h] k1]; [|done]. intros Hn. exists a, k1. split_and!; [done| |done].
  apply equiv_empty_L, Hm. by rewrite Hk.
Qed.

Lemma calm_config file : calm (Config.construct (W := W) file).
Proof. by destruct file; intros V k. Qed.

Lemma calm_logger name : calm (run_with Logger.initial (Logger.init (W := W) name)).
Proof. apply calm_run_with. unfold Logger.init, Logger.open, Logger.on_log_file. calm. Qed.

Lemma with_log_runs argv rest k p k' :
  watched (world k) = ∅ -> with_log argv rest k = (Ret p, k') -> (forall code, p <> Exited code) ->
  exists k1, watched (world k1) = ∅ /\ rest k1 = (Ret p, k').
Proof.
  intros Hk Hr Hp. unfold with_log in Hr. destruct (program_name _) as [name|]; [|done].
  apply calm_then in Hr as (result & k1 & _ & Hk1 & Hr); [|apply calm_logger|done].
  destruct result.1; [|by exists k1]. cbn in Hr. injection Hr as <- _. by destruct (Hp EXIT_FAILURE).
Qed.

Lemma start_app_fails {R} e (a : App R) p (k : Machine W) :
  start_app (Some e) a p k = (Ret (Exited EXIT_FAILURE),
    after (c_close (NetworkEngine.epollfd_ (network_engine_ a))) (record_event (Logged (full_report e)) k)).
Proof.
  unfold start_app, destroy_app, EpollHandler.destroy. erewrite bind_run by reflexivity. rewrite bind_bind.
  by rewrite (bind_run _ _ _ _ _ (call_run _ _)).
Qed.

Lemma start_app_runs {R} e (a : App R) p (k : Machine W) p' k' :
  start_app e a p k = (Ret p', k') -> (forall code, p' <> Exited code) -> e = None /\ p' = p /\ k' = k.
Proof.
  intros Hs Hp. destruct e as [e|]; [|by injection Hs as <- <-].
  rewrite start_app_fails in Hs. injection Hs as <- _. by destruct (Hp EXIT_FAILURE).
Qed.

Context (debug_logs : bool) (config_file : option (list string)).

#[local] Existing Instance network_only.

Lemma registered_network : all_registered registered.
Proof. intros x ->. by exists NetworkCo, NetworkExecutor. Qed.

(** [main] up to the constructor of the application. *)
Lemma main_constructs argv k0 p k :
  watched (world k0) = ∅ -> (forall code, p <> Exited code) ->
  main sizeof_manager sizeof_pool debug_logs config_file argv k0 = (Ret p, k) ->
  exists k1, watched (world k1) = ∅ /\
    match tail argv with
    | fd :: _ =>
      let* lobby := construct_app sizeof_manager sizeof_pool initial_lobby in
      match stoi fd with
      | None => stop Terminated
      | Some n =>
        let* r := run_with lobby (Lobby.init end_point_e.TO_PARENT n) in start_app r.1 r.2 (RunsLobby r.2)
      end
    | [] =>
      let* server := construct_app sizeof_manager sizeof_pool LobbyManager.initial in
      let* r := run_with server (Server.init end_point_e.LISTENER 0) in start_app r.1 r.2 (RunsServer r.2)
    end k1 = (Ret p, k).
Proof using Type.
  intros Hk Hp Hm. apply with_log_runs in Hm as (k1 & Hk1 & Hm); [|done..].
  apply calm_then in Hm as (c & k2 & _ & Hk2 & Hm); [|apply calm_config|done].
  apply calm_then in Hm as (u & k3 & _ & Hk3 & Hm); [|by destruct debug_logs; intros V ?|done].
  destruct (tail argv) as [|fd rest];
    (apply calm_then in Hm as (u1 & k4 & _ & Hk4 & Hm); [|by intros V ?|done]); by exists k4.
Qed.

Lemma server_starts argv k0 k a :
  watched (world k0) = ∅ ->
  main sizeof_manager sizeof_pool debug_logs config_file argv k0 = (Ret (RunsServer a), k) ->
  inv (k, a) /\ idle a.
Proof.
  intros Hk Hm. apply main_constructs in Hm as (k1 & Hk1 & Hm); [|done..].
  destruct (tail argv) as [|fd rest].
  - apply calm_then in Hm as (app & k2 & Hc & _ & Hm); [|apply calm_construct|done].
    destruct (construct_app_inv LobbyManager.initial k1 k2 app Hk1 Hc) as (Hi & pool & Happ).
    unfold bind, run_with in Hm.
    destruct (Server.init _ _ (k2, app)) as [[r|h] [k3 a']] eqn:Ei; [|done]. cbn [fst snd] in Hm.
    apply start_app_runs in Hm as (-> & [= <-] & <-); [|done].
    unfold Server.init, bind in Ei.
    destruct (init_app _ _ (k2, app)) as [[[v|e]|h] [k4 a'']] eqn:Ea; [|done..]. injection Ei as <- <-.
    destruct (init_app_inv _ _ _ _ _ _ _ Hi ltac:(by rewrite Happ) Ea) as (e & -> & Hi' & _ & Hq).
    rewrite Happ in Hq. split; [|by eapply idle_queues; [|apply registered_holds]].
    constructor; cbn; [done | apply registered_network | | by rewrite Happ].
    exists []. split; [apply registered_holds | constructor].
  - exfalso. unfold bind in Hm. destruct (construct_app _ _ _ _) as [[app|h] k4]; [|done].
    destruct (stoi fd); [|done]. destruct (run_with _ _ _) as [[r|h] k5]; [|done].
    by apply start_app_runs in Hm as (_ & [=] & _).
Qed.

Lemma lobby_starts argv k0 k a :
  watched (world k0) = ∅ ->
  main sizeof_manager sizeof_pool debug_logs config_file argv k0 = (Ret (RunsLobby a), k) ->
  inv (k, a) /\ idle a.
Proof.
  intros Hk Hm. apply main_constructs in Hm as (k1 & Hk1 & Hm); [|done..].
  destruct (tail argv) as [|fd rest].
  - exfalso. unfold bind in Hm. destruct (construct_app _ _ _ _) as [[app|h] k4]; [|done].
    destruct (run_with _ _ _) as [[r|h] k5]; [|done].
    by apply start_app_runs in Hm as (_ & [=] & _).
  - apply calm_then in Hm as (app & k2 & Hc & _ & Hm); [|apply calm_construct|done].
    destruct (construct_app_inv initial_lobby k1 k2 app Hk1 Hc) as (Hi & pool & Happ).
    destruct (stoi fd) as [n|]; [|done]. unfold bind, run_with in Hm.
    destruct (Lobby.init _ _ (k2, app)) as [[r|h] [k3 a']] eqn:Ei; [|done]. cbn [fst snd] in Hm.
    apply start_app_runs in Hm as (-> & [= <-] & <-); [|done].
    unfold Lobby.init, bind in Ei.
    destruct (init_app _ _ (k2, app)) as [[[v|e]|h] [k4 a'']] eqn:Ea; [|done..]. injection Ei as <- <-.
    destruct (init_app_inv _ _ _ _ _ _ _ Hi ltac:(by rewrite Happ) Ea) as (e & -> & Hi' & Hv & Hq).
    rewrite Happ in Hq. split; [|by eapply idle_queues; [|apply registered_holds]].
    constructor; cbn; [done | apply registered_network | | done].
    exists []. split; [apply registered_holds | constructor].
Qed.
End Startup.

(** ** An engine that cannot start *)
Section Refused.
Context {W : Type} `{Platform W} `{!Kernel W} `{TagPolicy}.

Lemma setup_client_fails k h :
  (forall fd w, (sys_call (c_connect fd 8000) w).1.1 < 0) ->
  exists e k' h', setup_client (k, h) = (Ret (Some e), (k', h')).
Proof.
  intros Hc. unfold setup_client. erewrite bind_run by (apply lift_run, call_run).
  erewrite bind_run by reflexivity. destruct (_ <? 0); [by repeat eexists|].
  erewrite bind_run by (apply lift_run, call_run). cbn [fst snd].
  rewrite (proj2 (Z.ltb_lt _ _)) by apply Hc. by repeat eexists.
Qed.

Lemma setup_listener_fails k h :
  (forall fd w, (sys_call (c_bind fd 8000) w).1.1 = -1) ->
  exists e k' h', setup_listener 8000 (k, h) = (Ret (Some e), (k', h')).
Proof.
  intros Hb. unfold setup_listener. erewrite bind_run by reflexivity. cbn [fst snd].
  destruct (negb _); [by repeat eexists|].
  erewrite bind_run by (apply lift_run, call_run). erewrite bind_run by reflexivity.
  destruct (_ =? -1); [by repeat eexists|].
  erewrite bind_run by (apply lift_run, call_run). destruct (_ <? 0); [by repeat eexists|].
  erewrite bind_run by (apply lift_run, call_run). cbn [fst snd].
  unfold answer at 1. change (wrap16 8000) with 8000. rewrite Hb. cbn [Z.eqb Pos.eqb].
  erewrite bind_run by (apply lift_run, call_run). by repeat eexists.
Qed.

(** What the root connection is set up with. *)
Definition setup_of (typ : end_point_e.t) : SM W SocketHandler (option Error) :=
  match typ with
  | end_point_e.TO_SERVER => setup_client
  | end_point_e.LISTENER => setup_listener 8000
  | _ => ret None
  end.

(** When that fails the engine is left without epoll and nothing is
    registered; the queues stay empty. *)
Lemma init_engine_refused typ pool k :
  inv (k, NetworkEngine.mk pool 0 AtomicQueue.empty AtomicQueue.empty) ->
  (forall k h, exists e k' h', setup_of typ (k, h) = (Ret (Some e), (k', h'))) ->
  match NetworkEngine.init_engine typ 0 (k, NetworkEngine.mk pool 0 AtomicQueue.empty AtomicQueue.empty) with
  | (Ret r, (_, e)) => (exists er, r = inr er) /\
      exists pool', e = NetworkEngine.mk pool' 0 AtomicQueue.empty AtomicQueue.empty
  | (Halt _, _) => True
  end.
Proof.
  intros Hi Hc. set (e0 := NetworkEngine.mk _ _ _ _) in *. unfold NetworkEngine.init_engine. unfold bind at 1.
  pose proof (push_to_pool_safe default_entry (k, e0) Hi) as Hs. unfold safe in Hs. cbn [Z.eqb negb].
  destruct (NetworkEngine.on_pool _ (k, e0)) as [[r|h] [k1 e1]] eqn:Er; [|done].
  destruct Hs as (_ & _ & Hr). destruct r as [slot|]; [|done].
  assert (exists pool1, e1 = NetworkEngine.mk pool1 0 AtomicQueue.empty AtomicQueue.empty) as [pool1 ->].
  { unfold NetworkEngine.on_pool, focus, zoom in Er. cbn [fst snd] in Er.
    destruct (ObjectPool.push_to_pool _ _) as [r' [k2 p2]]. injection Er as _ _ <-. by exists p2. }
  destruct Hr as [c Hslot]. cbn [snd] in Hslot.
  destruct (Hc k1 (socket_handler_ c)) as (e & k2 & h' & Hset).
  unfold NetworkEngine.init_connection_type. destruct typ; try discriminate Hset; rewrite bind_bind; erewrite bind_run.
  2, 4: eapply on_connection_run; [exact Hslot|]; unfold on_socket; by rewrite (focus_run _ _ _ _ _ _ _ _ Hset).
  all: cbn; (split; [by eexists|]); by eexists.
Qed.
Lemma server_init_refused k (a : Server.t) k' e er :
  NetworkEngine.init_engine end_point_e.LISTENER 0 (k, network_engine_ a) = (Ret (inr er), (k', e)) ->
  exists er', Server.init end_point_e.LISTENER 0 (k, a) = (Ret (Some er'), (k', set_network_engine e a)).
Proof using Type.
  intros He. unfold Server.init, init_app, init_network. rewrite !bind_bind.
  erewrite bind_run by (apply on_engine_run; exact He). by eexists.
Qed.

Lemma server_init_halts k (a : Server.t) k' e h :
  NetworkEngine.init_engine end_point_e.LISTENER 0 (k, network_engine_ a) = (Halt h, (k', e)) ->
  run_with a (Server.init end_point_e.LISTENER 0) k = (Halt h, k').
Proof using Type.
  intros He. unfold run_with, Server.init, init_app, init_network. rewrite !bind_bind.
  by erewrite bind_halts by (apply on_engine_run; exact He).
Qed.
End Refused.

Section ClientStartup.
Context {W : Type} `{Platform W} `{!Kernel W}.
Context (sizeof_manager sizeof_pool : Z).
Context (Hpage : forall w, 2 < (sys_call c_sysconf_page_size w).1.1).
#[local] Existing Instance network_and_console.

Definition registered_client : Scheduler.t executor coroutine :=
  Scheduler.mk [(task_tag_e.CONSOLE, ConsoleCo); (task_tag_e.NETWORK, NetworkCo)] AtomicQueue.empty 0 PUSH_MAX
    [(task_tag_e.CONSOLE, ConsoleExecutor); (task_tag_e.NETWORK, NetworkExecutor)].

Lemma registered_both : all_registered registered_client.
Proof.
  intros [] Hx; [done | by exists NetworkCo, NetworkExecutor | by exists ConsoleCo, ConsoleExecutor].
Qed.

Lemma construct_client_inv k0 k a :
  watched (world k0) = ∅ -> construct_client sizeof_manager sizeof_pool k0 = (Ret a, k) ->
  inv (k, network_engine_ a) /\
  exists pool, a = mkApp (NetworkEngine.mk pool 0 AtomicQueue.empty AtomicQueue.empty)
                     Scheduler.initial initial_client.
Proof.
  intros Hk Hc. unfold construct_client in Hc.
  apply calm_then in Hc as (app & k1 & Hc & Hk1 & Hq); [|apply calm_construct|done].
  destruct (construct_app_inv _ _ Hpage initial_client k0 k1 app Hk Hc) as (Hi & Happ).
  apply calm_then in Hq as (u & k2 & _ & Hk2 & [= <- <-]); [|apply calm_queue|done].
  split; [|done]. eapply engine_inv_machine; [exact Hi|]. intros slot Hs. rewrite Hk2 in Hs.
  by apply not_elem_of_empty in Hs.
Qed.

Lemma client_starts typ fd k0 k1 app k a :
  watched (world k0) = ∅ -> construct_client sizeof_manager sizeof_pool k0 = (Ret app, k1) ->
  Client.init typ fd (k1, app) = (Ret None, (k, a)) ->
  inv (k, a) /\ idle a /\ console_raw_tasks_ (members a) = AtomicQueue.empty.
Proof.
  intros Hk Hc Hm. destruct (construct_client_inv _ _ _ Hk Hc) as (Hi & pool & Happ).
  unfold Client.init in Hm. unfold bind at 1 in Hm.
  destruct (init_app _ _ (k1, app)) as [[[v|e]|h] [k2 a2]] eqn:Ea; [|done..].
  destruct (init_app_inv _ _ _ _ _ _ _ Hi ltac:(by rewrite Happ) Ea) as (e & -> & Hi' & Hv & Hq).
  cbn in Hm. injection Hm as <- <-. rewrite Happ in Hq.
  split; [|split; [by eapply idle_queues; [|split; [apply empty_holds|]] | by rewrite Happ]].
  constructor; cbn; [done | apply registered_both | |].
  - exists []. split; [|constructor]. split; [apply empty_holds | done].
  - split; [done|]. rewrite Happ. exists []. apply empty_holds.
Qed.

Lemma client_init_refused k (a : Client.t) k' e er :
  NetworkEngine.init_engine end_point_e.TO_SERVER 0 (k, network_engine_ a) = (Ret (inr er), (k', e)) ->
  exists er', Client.init end_point_e.TO_SERVER 0 (k, a) = (Ret (Some er'), (k', set_network_engine e a)).
Proof.
  intros He. unfold Client.init, init_app, init_network. rewrite !bind_bind.
  erewrite bind_run by (apply on_engine_run; exact He). by eexists.
Qed.

Lemma client_init_halts k (a : Client.t) k' e h :
  NetworkEngine.init_engine end_point_e.TO_SERVER 0 (k, network_engine_ a) = (Halt h, (k', e)) ->
  run_with a (Client.init end_point_e.TO_SERVER 0) k = (Halt h, k').
Proof.
  intros He. unfold run_with, Client.init, init_app, init_network. rewrite !bind_bind.
  by erewrite bind_halts by (apply on_engine_run; exact He).
Qed.

(** A line of input when no coroutine is registered. *)
Lemma console_unregistered user_cmd f k pool :
  let a := mkApp (NetworkEngine.mk pool 0 AtomicQueue.empty AtomicQueue.empty)
             Scheduler.initial initial_client in
  exists s1, round client_program f (ConsoleLoop user_cmd) (k, a) = (Ret tt, s1) /\
    (round client_program f CoroutineLoop s1).1 = Halt Undefined.
Proof.
  destruct (push_run AtomicQueue.empty [] user_cmd (empty_holds)) as (q1 & Hp1 & _); [simpl; lia | done|].
  destruct (push_run AtomicQueue.empty [] task_tag_e.CONSOLE (empty_holds)) as (q2 & Hp2 & Hq2);
    [simpl; lia | done|].
  set (a2 := mkApp (NetworkEngine.mk pool 0 AtomicQueue.empty q2) Scheduler.initial (mkClientState default_view q1)).
  exists (k, a2). split.
  - cbn [round program_console client_program Client.console_run].
    erewrite bind_run by (apply on_members_run, local_state_run, zoom_run; exact Hp1).
    erewrite bind_run by (apply on_engine_run, local_state_run, zoom_run; exact Hp2). reflexivity.
  - cbn [round]. unfold coroutine_round.
    destruct (pop_run q2 _ _ Hq2) as (q3 & Hp3 & _). pose proof (wait_for_data_run _ _ Hq2) as Hw.
    erewrite bind_run by (apply on_engine_run, local_state_run, zoom_run; exact Hw).
    erewrite bind_run by (apply on_engine_run, local_state_run, zoom_run; exact Hp3). reflexivity.
Qed.
End ClientStartup.

(** ** Properties *)

(** No round of any thread that can follow [s] is undefined, but for the one
    that asks the pool for a 4098th slot. *)
Definition never_undefined {W R} `{Platform W} (p : Program W R) (s : Machine W * App R) : Prop :=
  forall s' f t, rtc (step p) s s' ->
    match round p f t s' with
    | (Halt Undefined, s2) =>
      RING_BUFFER_SIZE <
        ObjectPool.counter (NetworkEngine.connection_pool_ (network_engine_ s2.2))
    | _ => True
    end.

Section MainProperties.
Context {W : Type} `{Platform W} `{!Kernel W}.
Context (sizeof_manager sizeof_pool : Z) (debug_logs : bool) (config_file : option (list string)).
Context (Hpage : forall w, 2 < (sys_call c_sysconf_page_size w).1.1).

Lemma inv_never_undefined `{TagPolicy} {R} `{Members R} (p : Program W R) `{!SafeProgram p} s :
  inv s -> never_undefined p s.
Proof.
  intros Hi s' f t Hr. destruct (steps_inv p s s' Hi Hr) as [Hi' _].
  pose proof (round_safe p f t s' Hi') as Hs. unfold safe in Hs.
  by destruct (round p f t s') as [[[]|[]] s2].
Qed.

(** C2: the server and the lobby never do what C++ leaves undefined.  Whatever
    the kernel delivers (any bytes on any socket, any event for a slot that was
    registered, any failure), from the moment [main] has started the server or
    the lobby, in every order of the rounds of its threads no message, event or
    task makes it touch a slot without an entry, leave the receive buffer,
    resume a coroutine or call an executor that was not registered, or
    dereference an empty optional, as long as no more than 4097 slots of the
    connection pool were ever needed at once. *)
Theorem server_and_lobby_never_undefined argv k0 k p :
  watched (world k0) = ∅ ->
  main sizeof_manager sizeof_pool debug_logs config_file argv k0 = (Ret p, k) ->
  match p with
  | RunsServer a => never_undefined server_program (k, a)
  | RunsLobby a => never_undefined lobby_program (k, a)
  | RunsClient _ | Exited _ => True
  end.
Proof.
  intros Hk Hm. destruct p as [code|a|a|a]; [done| | |done].
  - apply (@inv_never_undefined network_only _ _ server_program _). by apply server_starts in Hm as [? _].
  - apply (@inv_never_undefined network_only _ _ lobby_program _). by apply lobby_starts in Hm as [? _].
Qed.

(** Nor does the client, once its [init] has succeeded. *)
Theorem client_never_undefined k0 k1 app k a :
  watched (world k0) = ∅ ->
  construct_client sizeof_manager sizeof_pool k0 = (Ret app, k1) ->
  Client.init end_point_e.TO_SERVER 0 (k1, app) = (Ret None, (k, a)) ->
  never_undefined client_program (k, a).
Proof.
  intros Hk Hc Hm. apply (@inv_never_undefined network_and_console _ _ client_program _).
  by eapply client_starts.
Qed.

(** A server that cannot have its port does not start: [main] returns
    [EXIT_FAILURE].  The last call of the process, in the destructor of its
    [EpollHandler], closes descriptor 0, the standard input, because no epoll
    descriptor has replaced the initial 0. *)
Theorem server_without_port argv k0 :
  watched (world k0) = ∅ -> tail argv = [] -> (forall fd w, (sys_call (c_bind fd 8000) w).1.1 = -1) ->
  match main sizeof_manager sizeof_pool debug_logs config_file argv k0 with
  | (Ret p, k) => p = Exited EXIT_FAILURE /\
      ((exists r, head (trace k) = Some (Called (c_close 0) r)) \/ head (trace k) = Some (Printed "Unable to init Logger"))
  | (Halt _, _) => True
  end.
Proof.
  intros Hk Hargs Hbind. destruct (main _ _ _ _ _ k0) as [[p|h] k] eqn:Hm; [|done].
  unfold main, with_log in Hm. destruct (program_name _) as [name|]; [|done].
  apply calm_then in Hm as (result & k1 & _ & Hk1 & Hm); [|apply calm_logger|done].
  destruct result.1; [by injection Hm as <- <-; split; [|right]|].
  apply calm_then in Hm as (c & k2 & _ & Hk2 & Hm); [|apply calm_config|done].
  apply calm_then in Hm as (u & k3 & _ & Hk3 & Hm); [|by destruct debug_logs; intros V ?|done].
  rewrite Hargs in Hm. apply calm_then in Hm as (u1 & k4 & _ & Hk4 & Hm); [|by intros V ?|done].
  apply calm_then in Hm as (app & k5 & Hc & _ & Hm); [|apply calm_construct|done].
  destruct (@construct_app_inv _ _ _ _ _ Hpage network_only _ LobbyManager.initial k4 k5 app Hk4 Hc) as (Hi & pool & ->).
  pose proof (@init_engine_refused _ _ _ network_only end_point_e.LISTENER pool k5 Hi (fun k h => setup_listener_fails k h Hbind)) as Href.
  set (app := mkApp _ _ _) in *.
  destruct (NetworkEngine.init_engine _ _ _) as [[r|h] [k6 e]] eqn:Ee.
  - destruct Href as ((er & ->) & pool' & ->).
    destruct (server_init_refused k5 app k6 _ er Ee) as (er' & Hinit).
    unfold Server.t in Hinit. unfold bind, run_with in Hm. rewrite Hinit in Hm. cbn [fst snd] in Hm. rewrite start_app_fails in Hm. injection Hm as <- <-.
    split; [done|]. left. eexists. by rewrite trace_after.
  - by rewrite (bind_halts _ _ _ _ _ (server_init_halts k5 app k6 e h Ee)) in Hm.
Qed.

(** C25: [client.cpp] does not look at what [init] returns.  When the server
    cannot be reached, the client starts its threads all the same, and the first
    line the user types is fatal: the console thread pushes its tag, and the
    coroutine loop resumes the coroutine handle that [operator[]] of the map
    has just made up, because [init] ended before the console was registered. *)
Theorem client_without_server argv user_cmd f k0 k a :
  watched (world k0) = ∅ -> (forall fd w, (sys_call (c_connect fd 8000) w).1.1 < 0) ->
  client_main sizeof_manager sizeof_pool argv k0 = (Ret (RunsClient a), k) ->
  exists s1, round client_program f (ConsoleLoop user_cmd) (k, a) = (Ret tt, s1) /\
    (round client_program f CoroutineLoop s1).1 = Halt Undefined.
Proof.
  intros Hk Hconn Hm. apply with_log_runs in Hm as (k1 & Hk1 & Hm); [|done..].
  destruct (construct_client sizeof_manager sizeof_pool k1) as [[app|h] k2] eqn:Hc; [|by rewrite (bind_halts _ _ _ _ _ Hc) in Hm].
  rewrite (bind_run _ _ _ _ _ Hc) in Hm.
  destruct (construct_client_inv _ _ Hpage k1 k2 app Hk1 Hc) as (Hi & pool & ->). cbn in Hi.
  pose proof (init_engine_refused end_point_e.TO_SERVER pool k2 Hi (fun k h => setup_client_fails k h Hconn)) as Href.
  set (app := mkApp _ _ _) in *.
  destruct (NetworkEngine.init_engine _ _ _) as [[r|h] [k3 e]] eqn:Ee.
  - destruct Href as ((er & ->) & pool' & ->).
    destruct (client_init_refused k2 app k3 _ er Ee) as (er' & Hinit).
    unfold bind, run_with in Hm. rewrite Hinit in Hm. cbn in Hm. injection Hm as <- <-.
    apply console_unregistered.
  - by rewrite (bind_halts _ _ _ _ _ (client_init_halts k2 app k3 e h Ee)) in Hm.
Qed.

(** C24: the child that [spawn_lobby] forks becomes the lobby of its socket.
    All it does is to close the other end and to call [execl], with [./lobby]
    and the descriptor it keeps as the arguments; and [main], called with these
    arguments, names the log after the lobby and starts a lobby on this very
    descriptor. *)
Theorem forked_child_is_lobby sv0 sv1 k :
  int_min <= sv0 <= int_max ->
  let argv := ["./lobby"; to_string sv0] in
  (exists r c rest k', LobbyManager.become_lobby sv0 sv1 k = (Halt Terminated, k') /\
     trace k' = rest ++ [Called (c_execl LobbyManager.server_path "./lobby" (to_string sv0)) r;
                         Called (c_close sv1) c] ++ trace k /\
     forall e, e ∈ rest -> exists message, e = PrintedError message) /\
  program_name "./lobby" = Some "lobby" /\
  forall k1, main sizeof_manager sizeof_pool debug_logs config_file argv k1 =
    with_log argv (
      Config.construct config_file ;;;
      (if debug_logs then LOG "DEBUG Enabled!" else ret tt) ;;;
      LOG "Starting Lobby!" ;;;
      let* lobby := construct_app sizeof_manager sizeof_pool initial_lobby in
      let* r := run_with lobby (Lobby.init end_point_e.TO_PARENT sv0) in
      start_app r.1 r.2 (RunsLobby r.2)) k1.
Proof.
  intros Hn argv. split_and!; [|reflexivity|].
  - unfold LobbyManager.become_lobby. rewrite (bind_run _ _ _ _ _ (call_run _ _)).
    rewrite (bind_run _ _ _ _ _ (call_run _ _)).
    set (k2 := after (c_execl _ _ _) _). exists (answer (c_execl LobbyManager.server_path "./lobby" (to_string sv0)) (after (c_close sv1) k)),
      (answer (c_close sv1) k).
    assert (trace k2 = [Called (c_execl LobbyManager.server_path "./lobby" (to_string sv0)) (answer (c_execl LobbyManager.server_path "./lobby" (to_string sv0)) (after (c_close sv1) k));
                         Called (c_close sv1) (answer (c_close sv1) k)] ++ trace k) as Ht
      by (unfold k2; by rewrite !trace_after).
    destruct (_ =? -1).
    + eexists [PrintedError _], _. split; [reflexivity|]. split; [exact (f_equal (cons _) Ht)|].
      intros e ->%list_elem_of_singleton. by eexists.
    + exists [], k2. split; [reflexivity|]. split; [exact Ht|]. intros e []%elem_of_nil.
  - intros k1. unfold main, argv. cbn [tl]. by rewrite (stoi_to_string sv0 Hn).
Qed.
End MainProperties.

(** *** Witnesses: a kernel that reports every slot it was told about *)
Definition echo : Platform (gset Z) := {|
  sys_call c w := (quiet_calls c, epoll_data c ∪ w);
  sys_recvmsg _ _ w := (RecvFailed EAGAIN, w);
  sys_epoll_wait _ n w := (Ready (take (Z.to_nat n) (elements w)), w);
  sys_socketpair w := (PairFailed 24, w);
  sys_waitpid w := ((0, 0), w);
  strerror _ := "error";
  here file n := {| file_name := file; line := n; function_name := "f" |};
  header_padding _ := Byte.x00
|}.

#[export] Program Instance echo_kernel : @Kernel (gset Z) echo := {| watched w := w |}.
Next Obligation. done. Qed.
Next Obligation. done. Qed.
Next Obligation. done. Qed.
Next Obligation. done. Qed.
Next Obligation.
  intros fd n w. cbn. split; [rewrite length_take; lia|].
  intros s Hs. apply elem_of_elements, (subseteq_take (Z.to_nat n)), Hs.
Qed.
Next Obligation. done. Qed.

Definition echo_start : Machine (gset Z) := mkMachine ∅ 0 [].

Definition echo_main (argv : list string) : outcome process * Machine (gset Z) :=
  main (H := echo) 100 200 true None argv echo_start.

(** The server's first state, with its listener in slot 0. *)
Definition server_state (r : outcome process * Machine (gset Z)) : Machine (gset Z) * Server.t :=
  match r with
  | (Ret (RunsServer a), k) => (k, a)
  | (_, k) => (k, mkApp demo_engine Scheduler.initial LobbyManager.initial)
  end.
Definition echo_server := server_state (echo_main ["bin/server"]).

Lemma echo_server_starts :
  main (H := echo) 100 200 true None ["bin/server"] echo_start = (Ret (RunsServer echo_server.2), echo_server.1).
Proof. vm_compute. reflexivity. Qed.

Lemma echo_page w : 2 < (sys_call (Platform := echo) c_sysconf_page_size w).1.1.
Proof. done. Qed.

Lemma server_and_lobby_never_undefined_witness : @never_undefined _ _ echo (server_program (H := echo)) echo_server.
Proof.
  rewrite (surjective_pairing echo_server).
  exact (@server_and_lobby_never_undefined _ echo echo_kernel 100 200 true None echo_page ["bin/server"]
           echo_start echo_server.1 (RunsServer echo_server.2) eq_refl echo_server_starts).
Defined.

Definition echo_client_app := construct_client (H := echo) 100 200 echo_start.
Definition client_app (r : outcome Client.t) : Client.t :=
  match r with
  | Ret a => a
  | Halt _ => mkApp demo_engine Scheduler.initial initial_client
  end.
Definition fresh_client : Client.t := client_app echo_client_app.1.
Definition echo_client :=
  Client.init (H := echo) end_point_e.TO_SERVER 0 (echo_client_app.2, fresh_client).

Lemma client_never_undefined_witness :
  @never_undefined _ _ echo (client_program (H := echo)) (echo_client.2.1, echo_client.2.2).
Proof.
  apply (@client_never_undefined _ echo echo_kernel 100 200 echo_page echo_start echo_client_app.2
           fresh_client).
  - reflexivity.
  - vm_compute. reflexivity.
  - vm_compute. reflexivity.
Defined.

(** The same kernel with no server to connect to and the port taken. *)
Definition lonely_calls (c : call) : Z * Z :=
  match c with c_connect _ _ => (-1, 111) | c_bind _ _ => (-1, 98) | _ => quiet_calls c end.
Definition lonely : Platform (gset Z) := {|
  sys_call c w := (lonely_calls c, epoll_data c ∪ w);
  sys_recvmsg _ _ w := (RecvFailed EAGAIN, w);
  sys_epoll_wait _ n w := (Ready (take (Z.to_nat n) (elements w)), w);
  sys_socketpair w := (PairFailed 24, w);
  sys_waitpid w := ((0, 0), w);
  strerror _ := "error";
  here file n := {| file_name := file; line := n; function_name := "f" |};
  header_padding _ := Byte.x00
|}.
#[export] Program Instance lonely_kernel : @Kernel (gset Z) lonely := {| watched w := w |}.
Next Obligation. done. Qed.
Next Obligation. done. Qed.
Next Obligation. done. Qed.
Next Obligation. done. Qed.
Next Obligation.
  intros fd n w. cbn. split; [rewrite length_take; lia|].
  intros s Hs. apply elem_of_elements, (subseteq_take (Z.to_nat n)), Hs.
Qed.
Next Obligation. done. Qed.

Definition client_state (r : outcome process * Machine (gset Z)) : Machine (gset Z) * Client.t :=
  match r with
  | (Ret (RunsClient a), k) => (k, a)
  | (_, k) => (k, mkApp demo_engine Scheduler.initial initial_client)
  end.
Definition lonely_client := client_state (client_main (H := lonely) 100 200 ["bin/client"] echo_start).

Example lonely_server_stops :
  let r := main (H := lonely) 100 200 false None ["bin/server"] echo_start in
  (r.1, head (trace r.2)) = (Ret (Exited EXIT_FAILURE), Some (Called (c_close 0) 0)).
Proof. vm_compute. reflexivity. Qed.

Lemma client_without_server_witness :
  exists s1, round (H := lonely) (client_program (H := lonely)) (mkFuel 1 1 1) (ConsoleLoop "\create")
      (lonely_client.1, lonely_client.2) = (Ret tt, s1) /\
    (round (H := lonely) (client_program (H := lonely)) (mkFuel 1 1 1) CoroutineLoop s1).1 = Halt Undefined.
Proof.
  apply (@client_without_server _ lonely lonely_kernel 100 200 (fun _ => eq_refl) ["bin/client"]
           "\create" (mkFuel 1 1 1) echo_start lonely_client.1 lonely_client.2).
  - reflexivity.
  - intros fd w. reflexivity.
  - vm_compute. reflexivity.
Defined.

Lemma forked_child_is_lobby_witness :
  program_name "./lobby" = Some "lobby" /\
  exists r c rest k', LobbyManager.become_lobby (H := echo) 5 6 echo_start = (Halt Terminated, k') /\
    trace k' = rest ++ [Called (c_execl LobbyManager.server_path "./lobby" "5") r; Called (c_close 6) c] ++ [] /\
    forall e, e ∈ rest -> exists message, e = PrintedError message.
Proof.
  destruct (@forked_child_is_lobby _ echo 100 200 true None 5 6 echo_start) as (H1 & H2 & _).
  - split; vm_compute; discriminate.
  - exact (conj H2 H1).
Defined.
