(* ===== verification/Service.v ===== *)
(** * What server and lobby do with events, from [main] on

    [Main.v] and [Pipeline.v] together: from the moment [main] has started the
    server or the lobby, in every interleaving of the rounds of its threads, a
    ready connection is served, once, in its turn; and every reference the
    program keeps names a connection. *)
From S2P Require Import Prelude.
From S2P Require Import Ring.
From S2P Require Import Platform.
From S2P Require Import AtomicQueue.
From S2P Require Import ObjectPool.
From S2P Require Import Utility.
From S2P Require Import Protocol.
From S2P Require Import Socket.
From S2P Require Import Network.
From S2P Require Import Engine.
From S2P Require Import Safety.
From S2P Require Import EngineSafety.
From S2P Require Import LobbyManager.
From S2P Require Import Scheduler.
From S2P Require Import Application.
From S2P Require Import Threads.
From S2P Require Import Server.
From S2P Require Import Lobby.
From S2P Require Import Client.
From S2P Require Import Programs.
From S2P Require Import Quiet.
From S2P Require Import Pipeline.
From S2P Require Import Main.

#[local] Open Scope Z_scope.
#[local] Open Scope bsm_scope.

(** ** In every run of the threads *)

(** What is served is what was reported, in order; the rest still waits. *)
Definition serves_in_order {W R} `{Platform W} (p : Program W R) (s : Machine W * App R) : Prop :=
  forall events done s', history p s events done s' ->
  exists arrived waiting_slots,
    Forall2 (fun r new => taken_from r.1 r.2 new) events arrived /\
    concat arrived = done ++ waiting_slots.

(** All that was reported has been served, or the oldest slot that was not is
    served by the next worker's round, perhaps after one of the coroutine. *)
Definition never_stalls {W R} `{Platform W} (p : Program W R) (s : Machine W * App R) : Prop :=
  forall events done s', history p s events done s' ->
  exists arrived waiting_slots,
    Forall2 (fun r new => taken_from r.1 r.2 new) events arrived /\
    concat arrived = done ++ waiting_slots /\
    forall slot rest, waiting_slots = slot :: rest ->
      exists s1, (s1 = s' \/ forall f, round p f CoroutineLoop s' = (Ret tt, s1)) /\ served s1 = [slot].

Section Runs.
Context {W : Type} `{Platform W} `{!Kernel W} `{TagPolicy} {R : Type} `{Members R}.

Lemma idle_pipeline (s : Machine W * App R) : inv s -> idle s.2 -> pipeline s.2 [].
Proof. intros Hi Hidle. exists [], [], []. split_and!; try done. apply (ai_registered _ Hi). Qed.

Lemma orderly_serves (p : Program W R) `{!OrderlyProgram p} s : pipeline s.2 [] -> serves_in_order p s.
Proof.
  intros Hp events done s' Hh. destruct (history_flow p _ _ _ _ Hh [] Hp) as (arrived & q & Ha & Hq & _).
  by exists arrived, q.
Qed.

Lemma orderly_never_stalls (p : Program W R) `{!OrderlyProgram p} s :
  (forall x, allowed x -> x = task_tag_e.NETWORK) -> pipeline s.2 [] -> never_stalls p s.
Proof.
  intros Honly Hp events done s' Hh. destruct (history_flow p _ _ _ _ Hh [] Hp) as (arrived & q & Ha & Hq & Hp').
  exists arrived, q. split_and!; [done..|]. intros slot rest ->. destruct s' as [k a].
  destruct (oldest_next (program_console_co p) k a slot rest Honly Hp') as (a1 & Ha1 & Hserved).
  exists (k, a1). split; [|done]. destruct Ha1 as [->|Hrun]; [by left | by right].
Qed.
End Runs.

(** ** References *)

(** Every slot the application keeps or that waits names a connection whose
    receive coroutine is within its buffer, every task is a network task. *)
Definition references_ok {R} (kept : R -> list ConnectionView) (a : App R) : Prop :=
  let names slot := is_Some (entry (network_engine_ a) slot) in
  (forall view, view ∈ kept (members a) -> names (get_slot view)) /\
  (exists raw, AtomicQueue.holds (raw_tasks a) raw /\ forall slot, slot ∈ raw -> names slot) /\
  (exists tasks, Scheduler.holds (scheduler_ a) tasks /\
     forall t, t ∈ tasks -> exists slot, t = network_task slot /\ names slot) /\
  (forall slot c, entry (network_engine_ a) slot = Some c -> entry_ok c).

Definition server_views (m : LobbyManager.t) : list ConnectionView :=
  (fun p => control_connection p.2) <$> map_to_list (LobbyManager.lobbies_ m).
Definition lobby_views (m : LobbyState) : list ConnectionView := [parent_view_ m].

(** So it is in every state the threads can reach. *)
Definition keeps_references {W R} `{Platform W} (p : Program W R) (kept : R -> list ConnectionView)
    (s : Machine W * App R) : Prop :=
  forall s', rtc (step p) s s' -> references_ok kept s'.2.

Section References.
Context {W : Type} `{Platform W} `{!Kernel W} {R : Type} `{Members R}.
#[local] Existing Instance network_only.

Lemma inv_references kept (s : Machine W * App R) :
  (forall e r view, members_ok e r -> view ∈ kept r -> slot_valid e (get_slot view)) ->
  inv s -> references_ok kept s.2.
Proof.
  intros Hkept [He Hr (tasks & Hs & Ht) Hm]. split_and!.
  - intros view Hv. by eapply Hkept.
  - exact (ei_raw _ He).
  - exists tasks. split; [done|]. intros [x args] Hin.
    pose proof (proj1 (Forall_forall _ _) Ht _ Hin) as Hok. unfold task_ok in Hok. cbn in Hok.
    destruct x, args as [slot|text]; try done. by exists slot.
  - exact (ei_entries _ He).
Qed.
End References.

(** ** Properties *)
Section Service.
Context {W : Type} `{Platform W} `{!Kernel W}.
Context (sizeof_manager sizeof_pool : Z) (debug_logs : bool) (config_file : option (list string)).
Context (Hpage : forall w, 2 < (sys_call c_sysconf_page_size w).1.1).
#[local] Existing Instance network_only.

(** C1: events are served in order.  In every run of the threads of a server or
    lobby that [main] has started, as long as the two queues of the event loop
    have room, what the workers have served are the connections the kernel
    reported, in the order of the reports (all but the listener, which the
    event loop serves itself), each as often as it was reported; those not yet
    served follow in the same order. *)
Theorem events_served_in_order argv k0 k p :
  watched (world k0) = ∅ ->
  main sizeof_manager sizeof_pool debug_logs config_file argv k0 = (Ret p, k) ->
  match p with
  | RunsServer a => serves_in_order server_program (k, a)
  | RunsLobby a => serves_in_order lobby_program (k, a)
  | RunsClient _ | Exited _ => True
  end.
Proof.
  intros Hk Hm. destruct p as [code|a|a|a]; [done| | |done].
  - apply server_starts in Hm as [Hi Hidle]; [|done..].
    exact (orderly_serves server_program (k, a) (idle_pipeline _ Hi Hidle)).
  - apply lobby_starts in Hm as [Hi Hidle]; [|done..].
    exact (orderly_serves lobby_program (k, a) (idle_pipeline _ Hi Hidle)).
Qed.

(** C17: no event stalls.  As in [events_served_in_order], the two queues of the
    event loop have room for the ten events of a round whenever it reports any;
    a push they refused would be ignored and its one-shot event lost.  Then,
    whenever a reported connection has not been served, the oldest of them is the
    one the next worker takes, or it is after one more round of the coroutine
    thread, which does not block. *)
Theorem events_never_stall argv k0 k p :
  watched (world k0) = ∅ ->
  main sizeof_manager sizeof_pool debug_logs config_file argv k0 = (Ret p, k) ->
  match p with
  | RunsServer a => never_stalls server_program (k, a)
  | RunsLobby a => never_stalls lobby_program (k, a)
  | RunsClient _ | Exited _ => True
  end.
Proof.
  intros Hk Hm. destruct p as [code|a|a|a]; [done| | |done].
  - apply server_starts in Hm as [Hi Hidle]; [|done..].
    exact (orderly_never_stalls server_program (k, a) (fun _ Hx => Hx) (idle_pipeline _ Hi Hidle)).
  - apply lobby_starts in Hm as [Hi Hidle]; [|done..].
    exact (orderly_never_stalls lobby_program (k, a) (fun _ Hx => Hx) (idle_pipeline _ Hi Hidle)).
Qed.

(** The client serves the server's messages in order too, with its console's
    lines between them. *)
Theorem client_serves_in_order k0 k1 app k a :
  watched (world k0) = ∅ ->
  construct_client sizeof_manager sizeof_pool k0 = (Ret app, k1) ->
  Client.init end_point_e.TO_SERVER 0 (k1, app) = (Ret None, (k, a)) ->
  serves_in_order client_program (k, a).
Proof.
  intros Hk Hc Hm. destruct (client_starts _ _ Hpage _ _ _ _ _ _ _ Hk Hc Hm) as (Hi & Hidle & _).
  exact (orderly_serves (H0 := network_and_console) client_program (k, a) (idle_pipeline (H0 := network_and_console) _ Hi Hidle)).
Qed.

(** C16: every reference stays valid.  In every state the threads of a server or
    lobby can reach, the control connections in the server's table and the
    lobby's view of its parent, the slots that wait in the raw queue and those
    of the tasks all name connections of the pool, every task is a network
    task, and the receive coroutine of every connection is inside its buffer. *)
Theorem references_stay_valid argv k0 k p :
  watched (world k0) = ∅ ->
  main sizeof_manager sizeof_pool debug_logs config_file argv k0 = (Ret p, k) ->
  match p with
  | RunsServer a => keeps_references server_program server_views (k, a)
  | RunsLobby a => keeps_references lobby_program lobby_views (k, a)
  | RunsClient _ | Exited _ => True
  end.
Proof.
  intros Hk Hm. destruct p as [code|a|a|a]; [done| | |done]; intros s Hr.
  - apply server_starts in Hm as [Hi _]; [|done..]. apply (inv_references (W := W)).
    + intros e r view Hok [[code l] [-> Hin]]%list_elem_of_fmap. apply elem_of_map_to_list in Hin. by apply (Hok code).
    + by eapply (steps_inv server_program).
  - apply lobby_starts in Hm as [Hi _]; [|done..]. apply (inv_references (W := W)).
    + intros e r view Hok ->%list_elem_of_singleton. exact Hok.
    + by eapply (steps_inv lobby_program).
Qed.
End Service.

(** *** Witnesses *)
Lemma events_served_in_order_witness :
  serves_in_order (H := echo) (server_program (H := echo)) (echo_server.1, echo_server.2).
Proof.
  exact (@events_served_in_order _ echo echo_kernel 100 200 true None echo_page ["bin/server"]
           echo_start echo_server.1 (RunsServer echo_server.2) eq_refl echo_server_starts).
Defined.

Lemma events_never_stall_witness :
  never_stalls (H := echo) (server_program (H := echo)) (echo_server.1, echo_server.2).
Proof.
  exact (@events_never_stall _ echo echo_kernel 100 200 true None echo_page ["bin/server"]
           echo_start echo_server.1 (RunsServer echo_server.2) eq_refl echo_server_starts).
Defined.

Lemma references_stay_valid_witness :
  keeps_references (H := echo) (server_program (H := echo)) server_views (echo_server.1, echo_server.2).
Proof.
  exact (@references_stay_valid _ echo echo_kernel 100 200 true None echo_page ["bin/server"]
           echo_start echo_server.1 (RunsServer echo_server.2) eq_refl echo_server_starts).
Defined.

(** A kernel with one client that connects, on descriptor 7: a round of the
    event loop accepts it, the next one reports it, the coroutine makes its
    task, and the worker's round serves its slot. *)
Definition doorbell : Platform (gset Z * bool) := {|
  sys_call c w :=
    match c, w.2 with
    | c_accept4 _, true => ((7, 0), (w.1, false))
    | c_accept4 _, false => ((-1, EAGAIN), w)
    | _, _ => (quiet_calls c, (epoll_data c ∪ w.1, w.2))
    end;
  sys_recvmsg _ _ w := (RecvFailed EAGAIN, w);
  sys_epoll_wait _ n w := (Ready (take (Z.to_nat n) (elements w.1)), w);
  sys_socketpair w := (PairFailed 24, w);
  sys_waitpid w := ((0, 0), w);
  strerror _ := "error";
  here file n := {| file_name := file; line := n; function_name := "f" |};
  header_padding _ := Byte.x00
|}.

Fixpoint after_rounds {W R} `{Platform W} (p : Program W R) (f : fuel) (ts : list thread)
    (s : Machine W * App R) : outcome unit * (Machine W * App R) :=
  match ts with
  | [] => (Ret tt, s)
  | t :: rest =>
    match round p f t s with
    | (Ret _, s') => after_rounds p f rest s'
    | (Halt h, s') => (Halt h, s')
    end
  end.

Definition served_after (ts : list thread) (r : outcome process * Machine (gset Z * bool)) : outcome (list Z) :=
  match r with
  | (Ret (RunsServer a), k) =>
    match after_rounds (H := doorbell) (server_program (H := doorbell)) (mkFuel 2 2 2) ts (k, a) with
    | (Ret _, s) => Ret (served s)
    | (Halt h, _) => Halt h
    end
  | (_, _) => Halt Blocked
  end.
Definition doorbell_run (ts : list thread) : outcome (list Z) :=
  served_after ts (main (H := doorbell) 100 200 false None ["bin/server"] (mkMachine (∅, true) 0 [])).

Example doorbell_is_served :
  doorbell_run [EventLoop; EventLoop; CoroutineLoop] = Ret [1].
Proof. vm_compute. reflexivity. Qed.

Example doorbell_waits_again :
  doorbell_run [EventLoop; EventLoop; CoroutineLoop; WorkerLoop; EventLoop; CoroutineLoop] = Ret [1].
Proof. vm_compute. reflexivity. Qed.
