(* ===== verification/Console.v ===== *)
(** * From the keyboard to the handler

    A line the user types waits in [console_raw_tasks_], then as a task of the
    scheduler, until a worker hands it to the client's handler.  [typing_but 0
    lines a] says that [lines] are on their way, oldest first.  As with the events
    of [Pipeline.v] the way is a queue: whatever the interleaving of the
    client's threads, the lines are handled in the order typed. *)
From S2P Require Import Prelude.
From S2P Require Import Ring.
From S2P Require Import Platform.
From S2P Require Import AtomicQueue.
From S2P Require Import ObjectPool.
From S2P Require Import Utility.
From S2P Require Import Protocol.
From S2P Require Import Socket.
From S2P Require Import Network.
From S2P Require Import Engine.
From S2P Require Import Safety.
From S2P Require Import EngineSafety.
From S2P Require Import Scheduler.
From S2P Require Import Application.
From S2P Require Import Threads.
From S2P Require Import Client.
From S2P Require Import Programs.
From S2P Require Import Quiet.
From S2P Require Import Pipeline.
From S2P Require Import Main.

#[local] Open Scope Z_scope.
#[local] Open Scope bsm_scope.

(** The line a task is for. *)
Definition text_of (t : Task) : option string :=
  match context t with TextContext text => Some text | SlotContext _ => None end.

(** The console tags that wait. *)
Definition console_tags (ts : list task_tag_e.t) : nat := length (filter (fun x => x = task_tag_e.CONSOLE) ts).

Lemma console_tags_app ts ts' : console_tags (ts ++ ts') = (console_tags ts + console_tags ts')%nat.
Proof. unfold console_tags. by rewrite filter_app, length_app. Qed.

Lemma console_tags_network n : console_tags (replicate n task_tag_e.NETWORK) = 0%nat.
Proof. unfold console_tags. induction n as [|n IH]; [done|]. cbn [replicate]. by rewrite filter_cons_False. Qed.

Section Console.
Context {W : Type} `{Platform W}.
#[local] Existing Instance network_and_console.
Implicit Types (k : Machine W) (a : Client.t) (lines : list string).

(** [lines] are on their way; all but [missing] of those that are no task yet
    have a tag that wakes the coroutine. *)
Definition typing_but (missing : nat) lines a : Prop :=
  exists texts ts tasks, AtomicQueue.holds (console_raw_tasks_ (members a)) texts /\
    AtomicQueue.holds (tags a) ts /\ Scheduler.holds (scheduler_ a) tasks /\
    lines = omap text_of tasks ++ texts /\ Forall well_tagged tasks /\ Forall allowed ts /\
    (length texts <= missing + console_tags ts)%nat /\ all_registered (scheduler_ a).

(** Quiet calls that leave the members alone. *)
Definition quiet_members a0 a : Prop := quiet_app a0 a /\ members a = members a0.

Lemma typing_same missing lines a a' : quiet_members a a' -> typing_but missing lines a -> typing_but missing lines a'.
Proof.
  intros [[(_ & Ht & _) Hs] Hm] (texts & ts & tasks & Hw). exists texts, ts, tasks.
  unfold tags in *. by rewrite Ht, Hs, Hm.
Qed.

Lemma typing_leaves {A} missing lines (m : SM W Client.t A) :
  (forall a0, keeps (quiet_app a0) m) -> (forall r, keeps (fun a => members a = r) m) ->
  leaves (typing_but missing lines) m.
Proof.
  intros Hq Hm [k a] r s' Hs Hrun. refine (typing_same _ _ a _ _ Hs).
  pose proof (Hq a (k, a)) as Hq'. pose proof (Hm (members a) (k, a) eq_refl) as Hm'.
  rewrite Hrun in Hq', Hm'. split; [by apply Hq'; split | done].
Qed.

Lemma handler_keeps_members r context : keeps (fun a => members a = r) (Client.handle_action (W := W) context).
Proof.
  pose proof (@engine_keeps_members W ClientState).
  unfold Client.handle_action, Client.handle_broadcast_action, Client.send_input_to_server,
    Client.execute_print_message, Client.execute_quit. quiet; apply engine_keeps_members.
Qed.

(** ** The event loop *)
Definition tags_grow ts (e : NetworkEngine.t) : Prop :=
  exists n, AtomicQueue.holds (NetworkEngine.available_task_tags_ e) (ts ++ replicate n task_tag_e.NETWORK).

Lemma tags_grow_quiet {A} ts (m : SM W NetworkEngine.t A) : (forall e0, keeps (quiet e0) m) -> leaves (tags_grow ts) m.
Proof.
  intros Hm [k e] r s' [n Hn] Hrun. pose proof (Hm e (k, e) (reflexivity e)) as Hq. rewrite Hrun in Hq.
  destruct Hq as (_ & Ht & _). cbn in Ht. exists n. by rewrite Ht.
Qed.

Lemma push_tag_grows ts : leaves (W := W) (tags_grow ts) (NetworkEngine.push_tag task_tag_e.NETWORK).
Proof.
  intros [k e] r [k' e'] [n Hn] Hrun. pose proof (queue_push_cases _ _ task_tag_e.NETWORK Hn) as Hpush.
  unfold NetworkEngine.push_tag, local_state, zoom in Hrun. cbn [fst snd] in *.
  destruct (AtomicQueue.try_push _ _) as [[pushed|h] q]; [|done]. injection Hrun as <- <- <-. cbn. destruct pushed.
  - exists (S n). by rewrite <- app_assoc, <- replicate_cons_app in Hpush.
  - subst q. by exists n.
Qed.

Lemma process_events_grows ts fuel slots : leaves (W := W) (tags_grow ts) (NetworkEngine.process_events fuel slots).
Proof.
  induction slots as [|slot slots IH]; cbn [NetworkEngine.process_events]; [apply leaves_ret|].
  apply leaves_bind; [apply tags_grow_quiet; intros; quiet|]. intros pending.
  apply leaves_bind; [|intros; apply IH]. case_bool_decide.
  - apply tags_grow_quiet. intros. quiet.
  - apply leaves_bind; [apply leaves_keeps|intros; apply leaves_bind; [apply push_tag_grows | intros; apply leaves_ret]].
    apply keeps_local. intros e He. unfold zoom. by destruct (AtomicQueue.try_push _ _).
Qed.

Lemma event_round_grows ts fuel : leaves (W := W) (tags_grow ts) (NetworkEngine.event_round fuel).
Proof.
  unfold NetworkEngine.event_round.
  apply leaves_bind; [apply leaves_keeps, keeps_read|]. intros epfd.
  apply leaves_bind; [apply leaves_keeps, keeps_lift|]. intros [slots|er]; [apply process_events_grows|].
  apply leaves_bind; [apply leaves_keeps, keeps_lift | intros; apply leaves_keeps, keeps_lift].
Qed.

Lemma event_round_typing missing lines fuel :
  leaves (typing_but missing lines) (on_engine (A := Client.t) (NetworkEngine.event_round (W := W) fuel)).
Proof.
  intros [k a] r [k' a'] (texts & ts & tasks & Hc & Ht & Hs & Hl & Htasks & Hts & Hcount & Hreg)
    (e' & Hrun & ->)%on_engine_inv.
  destruct (event_round_grows ts fuel (k, network_engine_ a) r (k', e')) as [n Hn]; [|done|].
  { exists 0%nat. by rewrite app_nil_r. }
  exists texts, (ts ++ replicate n task_tag_e.NETWORK), tasks. split_and!; try done.
  - apply Forall_app. split; [done|]. apply Forall_replicate, allowed_network.
  - rewrite console_tags_app, console_tags_network. lia.
Qed.

(** ** The coroutine thread *)
Lemma push_task_typing missing lines x args : text_of (mkTask x args) = None -> well_tagged (mkTask x args) ->
  leaves (typing_but missing lines) (on_scheduler (W := W) (Scheduler.push_task x args)).
Proof.
  intros Hn Hw [k a] r s' (texts & ts & tasks & Hc & Ht & Hs & Hl & Htasks & Hts & Hcount & Hreg) Hrun.
  pose proof (push_task_cases (scheduler_ a) tasks x args Hs) as Hpush.
  unfold on_scheduler, local_state, zoom in Hrun. cbn [fst snd] in Hrun.
  destruct (Scheduler.push_task _ _ _) as [[[]|h] s1]; [|done]. injection Hrun as <- <-.
  destruct Hpush as (Hs1 & Hex & Hco). exists texts, ts, (tasks ++ [mkTask x args]). split_and!; try done.
  - rewrite omap_app. cbn in Hn |- *. by rewrite Hn, app_nil_r.
  - apply Forall_app. by split; [|constructor].
  - by eapply all_registered_same.
Qed.

Lemma network_co_typing missing lines : leaves (typing_but missing lines) (network_co (W := W)).
Proof.
  unfold network_co. apply leaves_bind; [|intros [slot|]; [by apply push_task_typing | apply leaves_ret]].
  intros [k a] r s' Hs Hrun. destruct (AtomicQueue.try_pop (raw_tasks a)) as [r1 q] eqn:Ep.
  pose proof (eq_trans (eq_sym (on_raw_run _ k a _ _ Ep)) Hrun) as Hx. injection Hx as _ <-. exact Hs.
Qed.

(** The oldest line becomes a task. *)
Lemma console_co_typing lines s s' :
  typing_but 1 lines s.2 -> Client.console_co (W := W) s = (Ret tt, s') -> typing_but 0 lines s'.2.
Proof.
  destruct s as [k a]. intros (texts & ts & tasks & Hc & Ht & Hs & -> & Htasks & Hts & Hcount & Hreg) Hrun.
  cbn [fst snd] in *. unfold Client.console_co in Hrun. pose proof (queue_pop_cases _ _ Hc) as Hpop.
  destruct (AtomicQueue.try_pop (console_raw_tasks_ (members a))) as [r q] eqn:Ep.
  assert (on_members (W := W) (local_state (zoom console_raw_tasks_ set_console AtomicQueue.try_pop)) (k, a)
    = (r, (k, set_members (set_console q (members a)) a))) as Hon
    by (apply on_members_run, local_state_run, zoom_run; exact Ep).
  destruct r as [[text|]|h]; [rewrite (bind_run _ _ _ _ _ Hon) in Hrun..|done].
  - destruct Hpop as (texts' & -> & Hc'). pose proof (push_task_cases _ _ task_tag_e.CONSOLE (TextContext text) Hs) as Hpush.
    unfold on_scheduler, local_state, zoom in Hrun. cbn [fst snd scheduler_ set_members] in Hrun.
    destruct (Scheduler.push_task _ _ _) as [[[]|h] s1]; [|done]. destruct Hpush as (Hs1 & Hex & Hco).
    injection Hrun as <-. exists texts', ts, (tasks ++ [mkTask task_tag_e.CONSOLE (TextContext text)]). split_and!; try done.
    + rewrite omap_app, <- app_assoc. done.
    + apply Forall_app. split; [done|]. constructor; [discriminate | constructor].
    + cbn in Hcount. lia.
    + by eapply all_registered_same.
  - destruct Hpop as [-> ->]. injection Hrun as <-. exists [], ts, tasks. split_and!; try done. cbn. lia.
Qed.

Lemma coroutine_typing lines s s' :
  typing_but 0 lines s.2 -> coroutine_round (Client.console_co (W := W)) s = (Ret tt, s') -> typing_but 0 lines s'.2.
Proof.
  destruct s as [k a]. intros (texts & ts & tasks & Hc & Ht & Hs & Hl & Htasks & Hts & Hcount & Hreg) Hrun.
  cbn [fst snd] in *. unfold coroutine_round in Hrun. pose proof (queue_wait_cases _ _ Ht) as Hwait.
  destruct (AtomicQueue.wait_for_data (tags a)) as [[[]|h] ts1] eqn:Ew.
  2: by rewrite (bind_halts _ _ _ _ _ (on_tags_run _ k a _ _ Ew)) in Hrun.
  rewrite (bind_run _ _ _ _ _ (on_tags_run _ k a _ _ Ew)) in Hrun. subst ts1.
  replace (set_network_engine _ a) with a in Hrun by by destruct a as [[] ? ?].
  pose proof (queue_pop_cases _ _ Ht) as Hpop.
  destruct (AtomicQueue.try_pop (tags a)) as [[[x|]|h] ts1] eqn:Ep; [| |done].
  all: rewrite (bind_run _ _ _ _ _ (on_tags_run _ k a _ _ Ep)) in Hrun.
  - destruct Hpop as (ts2 & -> & Ht'). apply Forall_cons in Hts as [Hx Hts].
    destruct (Hreg x Hx) as (c & f & Hcx & Hfc & _).
    erewrite bind_run in Hrun by (apply on_scheduler_run, get_co_handle_run; exact Hfc).
    set (a1 := set_network_engine _ a) in Hrun. replace (set_scheduler _ a1) with a1 in Hrun by by destruct a.
    destruct x; [done| |]; injection Hcx as <-; cbn [resume_coroutine] in Hrun.
    + refine (network_co_typing 0 lines (k, a1) tt s' _ Hrun). exists texts, ts2, tasks.
      unfold console_tags in *. rewrite filter_cons_False in Hcount by done. by split_and!.
    + refine (console_co_typing lines (k, a1) s' _ Hrun). exists texts, ts2, tasks.
      unfold console_tags in *. rewrite filter_cons_True in Hcount by done. by split_and!.
  - destruct Hpop as [-> ->]. injection Hrun as <-. exists texts, [], tasks. by split_and!.
Qed.

(** ** The console thread *)

(** Room for a line and its tag. *)
Definition console_room a : Prop := queue_size (console_raw_tasks_ (members a)) < 4095 /\ queue_size (tags a) < 4095.

Lemma console_typing lines user_cmd s s' :
  typing_but 0 lines s.2 -> console_room s.2 -> Client.console_run (W := W) [user_cmd] s = (Ret tt, s') ->
  typing_but 0 (lines ++ [user_cmd]) s'.2.
Proof.
  destruct s as [k a]. intros (texts & ts & tasks & Hc & Ht & Hs & -> & Htasks & Hts & Hcount & Hreg) [Hrc Hrt] Hrun.
  cbn [fst snd] in *. rewrite (holds_size _ _ Hc) in Hrc. rewrite (holds_size _ _ Ht) in Hrt.
  destruct (fifo_push_spec (FifoQueue := AtomicQueue_fifo) _ texts user_cmd Hc I ltac:(simpl; lia)) as (q1 & H1 & Hq1).
  destruct (fifo_push_spec (FifoQueue := AtomicQueue_fifo) _ ts task_tag_e.CONSOLE Ht I ltac:(simpl; lia)) as (q2 & H2 & Hq2).
  cbn [Client.console_run] in Hrun.
  erewrite bind_run in Hrun by (apply on_members_run, local_state_run, zoom_run; exact H1).
  erewrite bind_run in Hrun by (apply on_tags_run; exact H2). injection Hrun as <-.
  exists (texts ++ [user_cmd]), (ts ++ [task_tag_e.CONSOLE]), tasks. split_and!; try done.
  - by rewrite app_assoc.
  - apply Forall_app. split; [done|]. constructor; [discriminate | constructor].
  - rewrite console_tags_app, length_app. change (console_tags [task_tag_e.CONSOLE]) with 1%nat. simpl. lia.
Qed.

(** ** The workers *)

(** The line the next round of a worker hands to the handler, if any. *)
Definition handled (s : Machine W * Client.t) : list string :=
  match (Scheduler.next_execution (scheduler_ s.2)).1 with
  | Ret (Some (ConsoleExecutor, TextContext text)) => [text]
  | _ => []
  end.

Lemma worker_typing recv_fuel fuel lines s s' :
  typing_but 0 lines s.2 -> worker_round (Client.handle_action (W := W)) recv_fuel fuel s = (Ret tt, s') ->
  exists rest, lines = handled s ++ rest /\ typing_but 0 rest s'.2.
Proof.
  destruct s as [k a]. intros (texts & ts & tasks & Hc & Ht & Hs & -> & Htasks & Hts & Hcount & Hreg) Hrun.
  cbn [fst snd] in *. pose proof (next_execution_cases _ _ Hs Htasks Hreg) as Hnext. unfold worker_round in Hrun.
  destruct tasks as [|t rest].
  { destruct Hnext as (h & s1 & Hnext). by rewrite (bind_halts _ _ _ _ _ (on_scheduler_run _ k a _ _ Hnext)) in Hrun. }
  destruct Hnext as (f & s1 & Hnext & Hf & Hs1 & Hreg1).
  rewrite (bind_run _ _ _ _ _ (on_scheduler_run _ k a _ _ Hnext)) in Hrun.
  apply Forall_cons in Htasks as [Htask Htasks]. exists (omap text_of rest ++ texts).
  assert (typing_but 0 (omap text_of rest ++ texts) (set_scheduler s1 a)) as Hty by (exists texts, ts, rest; by split_and!).
  unfold handled. cbn [fst snd]. rewrite Hnext. cbn [fst omap list_omap].
  pose proof (handler_quiet (p := client_program (W := W))) as Hquiet. pose proof handler_keeps_members as Hmem.
  unfold well_tagged in Htask. unfold text_of at 1.
  destruct (tag t), (context t) as [slot|text]; try done; injection Hf as <-; cbn [execute] in Hrun; (split; [done|]).
  - refine (leaves_bind _ _ _ _ _ (k, set_scheduler s1 a) tt s' Hty Hrun); [|intros; apply leaves_ret].
    apply typing_leaves; intros; [apply process_connection_quiet, Hquiet | apply process_connection_members, Hmem].
  - refine (leaves_bind _ _ _ _ _ (k, set_scheduler s1 a) tt s' Hty Hrun); [|intros; apply leaves_ret].
    apply typing_leaves; intros; [apply Hquiet | apply Hmem].
Qed.
End Console.

(** ** A run of the client's threads *)
Section History.
Context {W : Type} `{Platform W}.
#[local] Existing Instance network_and_console.

(** The rounds of a run, in any order, with the lines typed and the lines
    handed to the handler. *)
Inductive typing_history : Machine W * Client.t -> list string -> list string -> Machine W * Client.t -> Prop :=
| typing_start s : typing_history s [] [] s
| typing_round f t s s1 typed done s2 :
    round client_program f t s = (Ret tt, s1) ->
    (if t is ConsoleLoop _ then console_room s.2 else True) ->
    typing_history s1 typed done s2 ->
    typing_history s ((if t is ConsoleLoop user_cmd then [user_cmd] else []) ++ typed)
      ((if t is WorkerLoop then handled s else []) ++ done) s2.

Lemma typing_history_rtc s typed done s' : typing_history s typed done s' -> rtc (step client_program) s s'.
Proof. induction 1; [done|]. eapply rtc_l; [by do 2 eexists | done]. Qed.

Lemma typing_round_flow f t s s1 lines :
  typing_but 0 lines s.2 -> round client_program f t s = (Ret tt, s1) ->
  (if t is ConsoleLoop _ then console_room s.2 else True) ->
  exists rest, lines ++ (if t is ConsoleLoop user_cmd then [user_cmd] else []) = (if t is WorkerLoop then handled s else []) ++ rest /\
    typing_but 0 rest s1.2.
Proof.
  intros Hl Hrun Hroom. destruct t as [| | |user_cmd]; cbn [round client_program program_handler program_console_co program_console] in Hrun.
  - exists lines. rewrite app_nil_r. split; [done|]. exact (event_round_typing 0 lines (accepts f) s tt s1 Hl Hrun).
  - exists lines. rewrite app_nil_r. split; [done|]. by eapply coroutine_typing.
  - rewrite app_nil_r. by eapply worker_typing.
  - exists (lines ++ [user_cmd]). split; [done|]. by eapply console_typing.
Qed.

Lemma typing_flow s typed done s' : typing_history s typed done s' -> forall lines, typing_but 0 lines s.2 ->
  exists rest, lines ++ typed = done ++ rest /\ typing_but 0 rest s'.2.
Proof.
  induction 1 as [s|f t s s1 typed done s2 Hrun Hroom _ IH]; intros lines Hl.
  { exists lines. by rewrite app_nil_r. }
  destruct (typing_round_flow _ _ _ _ _ Hl Hrun Hroom) as (rest1 & Heq1 & Hl1).
  destruct (IH rest1 Hl1) as (rest & Heq & Hl2). exists rest. split; [|done].
  by rewrite app_assoc, Heq1, <- !app_assoc, Heq.
Qed.

(** A line that waits is a task, or a tag wakes the coroutine that makes it one. *)
Definition on_its_way (a : Client.t) : Prop :=
  (exists tasks, Scheduler.holds (scheduler_ a) tasks /\ omap text_of tasks <> []) \/
  (exists ts, AtomicQueue.holds (tags a) ts /\ task_tag_e.CONSOLE ∈ ts).

Lemma typing_on_its_way line rest a : typing_but 0 (line :: rest) a -> on_its_way a.
Proof.
  intros (texts & ts & tasks & _ & Ht & Hs & Hl & _ & _ & Hcount & _).
  destruct (omap text_of tasks) as [|text l] eqn:E; [right|left].
  - exists ts. split; [done|]. cbn in Hl. rewrite <- Hl in Hcount. cbn in Hcount. unfold console_tags in Hcount.
    destruct (filter (fun x => x = task_tag_e.CONSOLE) ts) as [|x l] eqn:Ef; [cbn in Hcount; lia|].
    assert (x ∈ filter (fun x => x = task_tag_e.CONSOLE) ts) as Hin by (rewrite Ef; left).
    by apply list_elem_of_filter in Hin as [-> Hin].
  - exists tasks. by rewrite E.
Qed.
End History.

(** ** Properties *)

(** C8: typed lines are handled in order.  In every run of the threads of a
    client that has started, in any order of their rounds, as long as the
    console's queue and the tags have room when a line is read, the lines the
    workers have handed to the handler are the lines typed, in the order typed
    and each once, up to those still on their way; and while there is one, a
    worker has a line to handle or the coroutine is woken to make it a task. *)
Theorem lines_handled_in_order {W} `{Platform W} `{!Kernel W} sizeof_manager sizeof_pool k0 k1 app k a :
  (forall w, 2 < (sys_call c_sysconf_page_size w).1.1) -> watched (world k0) = ∅ ->
  construct_client sizeof_manager sizeof_pool k0 = (Ret app, k1) ->
  Client.init end_point_e.TO_SERVER 0 (k1, app) = (Ret None, (k, a)) ->
  forall typed done s', typing_history (k, a) typed done s' ->
  exists rest, typed = done ++ rest /\ (rest <> [] -> on_its_way s'.2).
Proof.
  intros Hpage Hk Hc Hm typed done s' Hh.
  destruct (client_starts _ _ Hpage _ _ _ _ _ _ _ Hk Hc Hm) as (Hi & (_ & Ht & Hs) & Hq).
  destruct (typing_flow _ _ _ _ Hh []) as (rest & Hl & Hw).
  { exists [], [], []. cbn [snd]. rewrite Hq. split_and!; try done; [apply empty_holds | apply (ai_registered _ Hi)]. }
  exists rest. split; [done|]. destruct rest; [done|]. intros _. by eapply typing_on_its_way.
Qed.

(** *** Witness: two lines, between them an event; one line has been handled *)
Section Replay.
Context {W : Type} `{Platform W}.

Fixpoint replay (f : fuel) (ts : list thread) (s : Machine W * Client.t)
    : option (list string * list string * (Machine W * Client.t)) :=
  match ts with
  | [] => Some ([], [], s)
  | t :: rest =>
    match round client_program f t s with
    | (Ret _, s1) =>
      '(typed, done, s2) ← replay f rest s1;
      Some ((if t is ConsoleLoop user_cmd then [user_cmd] else []) ++ typed,
            (if t is WorkerLoop then handled s else []) ++ done, s2)
    | (Halt _, _) => None
    end
  end.

(** There is room wherever a line is read. *)
Fixpoint roomy (f : fuel) (ts : list thread) (s : Machine W * Client.t) : bool :=
  match ts with
  | [] => true
  | t :: rest =>
    (if t is ConsoleLoop _
     then (queue_size (console_raw_tasks_ (members s.2)) <? 4095) && (queue_size (tags s.2) <? 4095) else true) &&
    roomy f rest (round client_program f t s).2
  end.

Lemma replay_history f ts : forall s typed done s',
  roomy f ts s = true -> replay f ts s = Some (typed, done, s') -> typing_history s typed done s'.
Proof.
  induction ts as [|t ts IH]; intros s typed done s'; cbn [roomy replay]; [intros _ [= <- <- <-]; constructor|].
  intros [Hroom Hrest]%andb_true_iff. destruct (round client_program f t s) as [[[]|h] s1] eqn:Er; [|done].
  destruct (replay f ts s1) as [[[typed1 done1] s2]|] eqn:E; [|done]. intros [= <- <- <-].
  apply (typing_round f t s s1); [done | | by apply IH].
  destruct t; [done..|]. by apply andb_true_iff in Hroom as [?%Z.ltb_lt ?%Z.ltb_lt].
Qed.
End Replay.

Definition built (r : outcome Client.t * Machine (gset Z)) : Machine (gset Z) * Client.t :=
  match r with (Ret app, k) => (k, app) | (Halt _, k) => (k, demo_client_app) end.
Definition echo_client := built (construct_client (H := echo) 100 200 echo_start).
Definition started_client := (Client.init (H := echo) end_point_e.TO_SERVER 0 echo_client).2.
Definition mixed_rounds : list thread :=
  [ConsoleLoop "\create"; EventLoop; ConsoleLoop "\msg hello"; CoroutineLoop; CoroutineLoop; CoroutineLoop;
   WorkerLoop; WorkerLoop].
Definition last_state (s : Machine (gset Z) * Client.t) (r : option (list string * list string * (Machine (gset Z) * Client.t))) :=
  match r with Some (_, _, s') => s' | None => s end.
Definition after_mixed := last_state started_client (replay (H := echo) (mkFuel 2 2 2) mixed_rounds started_client).

Lemma lines_handled_in_order_witness :
  typing_history (H := echo) (started_client.1, started_client.2) ["\create"; "\msg hello"] ["\create"] after_mixed /\
  exists rest, ["\create"; "\msg hello"] = ["\create"] ++ rest /\ (rest <> [] -> on_its_way after_mixed.2).
Proof.
  assert (typing_history (H := echo) (started_client.1, started_client.2) ["\create"; "\msg hello"] ["\create"] after_mixed) as Hh.
  { apply (replay_history (H := echo) (mkFuel 2 2 2) mixed_rounds); vm_compute; reflexivity. }
  split; [exact Hh|].
  apply (@lines_handled_in_order _ echo echo_kernel 100 200 echo_start echo_client.1 echo_client.2
           started_client.1 started_client.2) with (typed := ["\create"; "\msg hello"]) (done := ["\create"]).
  - intros w. reflexivity.
  - reflexivity.
  - vm_compute. reflexivity.
  - vm_compute. reflexivity.
  - exact Hh.
Defined.
