(* ===== verification/Outbox.v ===== *)
(** * From the keyboard to the server

    [Console.v] follows a line to the client's handler; here it goes on: a line
    that begins with a command for the server is handed to [sendmsg] on the
    connection to it, as it was typed, and so are all of them in the order they
    were typed, whatever else the client's threads do between them. *)
From S2P Require Import Prelude.
From S2P Require Import Ring.
From S2P Require Import Platform.
From S2P Require Import AtomicQueue.
From S2P Require Import ObjectPool.
From S2P Require Import Utility.
From S2P Require Import Protocol.
From S2P Require Import Dispatcher.
From S2P Require Import Socket.
From S2P Require Import Network.
From S2P Require Import Engine.
From S2P Require Import Safety.
From S2P Require Import EngineSafety.
From S2P Require Import Scheduler.
From S2P Require Import Application.
From S2P Require Import Threads.
From S2P Require Import Client.
From S2P Require Import Programs.
From S2P Require Import Growing.
From S2P Require Import Quiet.
From S2P Require Import Pipeline.
From S2P Require Import Main.
From S2P Require Import Console.

#[local] Open Scope Z_scope.
#[local] Open Scope bsm_scope.

(** The message the console's executor makes of a line. *)
Definition console_message (line : string) : ReceivedMessage :=
  mkReceived message_status_e.EMPTY message_type_e.DEFAULT line None.

(** A line for the server. *)
Definition for_server (line : string) : bool :=
  match scope (dispatch (console_message line)) with
  | action_scope_e.BROADCAST => true
  | _ => false
  end.

(** The calls of [sendmsg] that pass no descriptor, oldest first, whatever they
    answered: the descriptor they were made on, and the bytes. *)
Definition given_of (e : event) : option (Z * list Byte.byte) :=
  match e with Called (c_sendmsg fd data None) _ => Some (fd, data) | _ => None end.
Definition given {W} (k : Machine W) : list (Z * list Byte.byte) := reverse (omap given_of (trace k)).

Section Outbox.
Context {W : Type} `{Platform W}.
Implicit Types (k : Machine W) (a : Client.t).

(** The descriptor of the connection to the server. *)
Definition server_fd a : Z :=
  match entry (network_engine_ a) (get_slot (server_view_ (members a))) with
  | Some c => fd_of c
  | None => -1
  end.

(** What a worker's next round has to send for the line it handles. *)
Definition outgoing (s : Machine W * Client.t) : list (Z * list Byte.byte) :=
  (fun line => (server_fd s.2, encode (plain_message line))) <$> filter (fun line => for_server line = true) (handled s).

(** A run as in [Console.v], with what is to be sent for the lines handled. *)
Inductive outbox_history : Machine W * Client.t -> list string -> list string -> list (Z * list Byte.byte) ->
    Machine W * Client.t -> Prop :=
| outbox_start s : outbox_history s [] [] [] s
| outbox_round f t s s1 typed done out s2 :
    round client_program f t s = (Ret tt, s1) ->
    (if t is ConsoleLoop _ then console_room s.2 else True) ->
    outbox_history s1 typed done out s2 ->
    outbox_history s ((if t is ConsoleLoop user_cmd then [user_cmd] else []) ++ typed)
      ((if t is WorkerLoop then handled s else []) ++ done)
      ((if t is WorkerLoop then outgoing s else []) ++ out) s2.

Lemma outbox_typing s typed done out s' : outbox_history s typed done out s' -> typing_history s typed done s'.
Proof. induction 1; [constructor | by eapply typing_round]. Qed.

Lemma outbox_lines s typed done out s' : outbox_history s typed done out s' ->
  out.*2 = (fun line => encode (plain_message line)) <$> filter (fun line => for_server line = true) done.
Proof.
  induction 1 as [s|f t s s1 typed done out s2 _ _ _ IH]; [done|].
  rewrite fmap_app, filter_app, fmap_app, IH. f_equal. destruct t; [done..| |done].
  unfold outgoing. by rewrite <- list_fmap_compose.
Qed.

Lemma given_grows k k' : trace k `suffix_of` trace k' -> exists new, given k' = given k ++ new.
Proof.
  intros [new E]. exists (reverse (omap given_of new)). unfold given. rewrite E, omap_app. apply reverse_app.
Qed.

Lemma given_sending c m k : out_socket m = None -> given (after (sending c m) k) = given k ++ [(fd_of c, encode m)].
Proof. intros Hm. unfold given. rewrite trace_after. unfold sending. rewrite Hm. apply reverse_cons. Qed.

(** The client's calls keep the trace. *)
Lemma client_handler_grows context : grows (Client.handle_action (W := W) context).
Proof.
  unfold Client.handle_action, Client.handle_broadcast_action, Client.send_input_to_server,
    Client.execute_print_message, Client.execute_quit. growing.
Qed.

Lemma client_round_grows f t : grows (round (client_program (W := W)) f t).
Proof.
  apply grows_round; cbn [program_handler program_console_co program_console client_program].
  - apply client_handler_grows.
  - unfold Client.console_co. growing.
  - intros read line [= <-]. cbn [Client.console_run]. unfold NetworkEngine.push_tag. growing.
Qed.

(** Calls that make no such call of [sendmsg]. *)
Definition mute {T A} (m : SM W T A) : Prop := forall x, preserves (fun s => given s.1 = x) m.

Lemma mute_bind {T A B} (m : SM W T A) (n : A -> SM W T B) : mute m -> (forall x, mute (n x)) -> mute (bind m n).
Proof. intros Hm Hn x. apply preserves_bind; [apply Hm | intros y; apply Hn]. Qed.

Lemma mute_ret {T A} (x : A) : mute (T := T) (ret x).
Proof. by intros y s. Qed.

Lemma mute_local {T A} (m : M T A) : mute (local_state m).
Proof. intros x [k t] Hx. unfold local_state, zoom. cbn in *. by destruct (m t). Qed.

Lemma mute_focus {T U A} (g : T -> U) p (m : SM W U A) : mute m -> mute (focus g p m).
Proof.
  intros Hm x [k t] Hx. specialize (Hm x (k, g t) Hx). unfold focus, zoom. cbn [fst snd] in *. by destruct (m (k, g t)).
Qed.

Lemma mute_lift {T A} (m : M (Machine W) A) : (forall x, preserves (fun k => given k = x) m) -> mute (T := T) (lift m).
Proof. intros Hm x [k t] Hx. specialize (Hm x k Hx). unfold lift, zoom. cbn [fst snd] in *. by destruct (m k). Qed.

Lemma given_after c k : given_of (Called c 0) = None -> given (after c k) = given k.
Proof. intros Hc. unfold given. rewrite trace_after. destruct c; try done. by destruct rights. Qed.

Lemma mute_call {T} c : given_of (Called c 0) = None -> mute (T := T) (lift (do_call c)).
Proof. intros Hc. apply mute_lift. intros x k Hx. rewrite call_run. cbn [snd]. by rewrite given_after. Qed.

Lemma mute_LOG {T} message : mute (T := T) (lift (LOG message)).
Proof. apply mute_lift. by intros x k. Qed.
Lemma mute_print {T} message : mute (T := T) (lift (print_line message)).
Proof. apply mute_lift. by intros x k. Qed.
Lemma mute_terminate {T} e : mute (T := T) (lift (success_or_terminate e)).
Proof. apply mute_lift. intros x k Hx. by destruct e. Qed.

Lemma mute_setup_client : mute setup_client.
Proof.
  unfold setup_client.
  repeat first [apply mute_bind; [|intros ?] | by apply mute_call | apply mute_local | apply mute_ret | case_goal].
Qed.

Lemma mute_on_connection {A} slot (m : SM W ConnectionEntry A) : mute m -> mute (NetworkEngine.on_connection slot m).
Proof.
  intros Hm. apply mute_focus. unfold ObjectPool.on_object.
  apply mute_bind; [apply mute_local|]. intros c. apply mute_bind; [|intros r; apply mute_bind; [apply mute_local | intros; apply mute_ret]].
  apply mute_lift. intros x k Hx. specialize (Hm x (k, c) Hx). unfold run_with. by destruct (m (k, c)) as [[r|h] [k' c']].
Qed.

Lemma mute_reconnect : mute (NetworkEngine.reset_base_connection end_point_e.TO_SERVER).
Proof.
  unfold NetworkEngine.reset_base_connection. apply mute_bind; [|intros; apply mute_ret]. cbn [NetworkEngine.init_connection_type].
  apply mute_bind; [apply mute_on_connection, mute_focus, mute_setup_client|].
  intros [e|]; [apply mute_ret|]. apply mute_bind; [apply mute_on_connection, mute_local | intros; apply mute_ret].
Qed.

(** What the handler gives to [sendmsg] for a line: the line if it is for the
    server, once, and else nothing. *)
Lemma handler_gives line k a slot c :
  server_view_ (members a) = mkView slot -> entry (network_engine_ a) slot = Some c ->
  given (Client.handle_action (mkContext default_view (console_message line)) (k, a)).2.1
    = given k ++ (if for_server line then [(fd_of c, encode (plain_message line))] else []).
Proof.
  intros Hv Hc. unfold for_server. destruct (scope (dispatch (console_message line))) eqn:Hscope.
  3: {
    rewrite handle_broadcast by exact Hscope.
    destruct (send_input_run k a (console_message line) slot c Hv Hc) as (r1 & Hsend & _).
    unfold Client.handle_broadcast_action. rewrite (bind_run _ _ _ _ _ Hsend). cbn [context_message].
    rewrite <- given_sending by done. destruct r1 as [e|]; [|done].
    refine (mute_bind _ _ (mute_LOG _) (fun _ => mute_bind _ _ (mute_focus _ _ _ mute_reconnect) (fun _ =>
      mute_bind _ _ (mute_terminate _) (fun _ => mute_ret _))) _ (after _ k, a) eq_refl). }
  all: rewrite app_nil_r; unfold Client.handle_action; cbn [context_message]; rewrite Hscope.
  all: destruct (filter_variant _ _) as [[]|]; [| |done].
  all: exact (mute_bind _ _ (mute_print _) (fun _ => mute_ret _) _ (k, a) eq_refl).
Qed.
End Outbox.

Section Runs.
Context {W : Type} `{Platform W} `{!Kernel W}.
#[local] Existing Instance network_and_console.
Implicit Types (s : Machine W * Client.t).

(** The round that handles a line. *)
Lemma worker_gives f s s1 :
  inv s -> round client_program f WorkerLoop s = (Ret tt, s1) -> handled s <> [] -> given s1.1 = given s.1 ++ outgoing s.
Proof.
  intros Hi Hrun. unfold outgoing, handled. destruct s as [k a]. cbn [fst snd].
  destruct (Scheduler.next_execution (scheduler_ a)) as [r s'] eqn:En. cbn [fst].
  destruct r as [[[[] [|text]]|]|]; try done. intros _.
  pose proof (proj1 (ai_members _ Hi)) as [c Hc]. cbn [snd] in Hc. unfold server_fd. rewrite Hc.
  cbn [round program_handler client_program] in Hrun. unfold worker_round in Hrun.
  rewrite (bind_run _ _ _ _ _ (on_scheduler_run _ k a _ _ En)) in Hrun. cbn [execute] in Hrun.
  change (mkContext default_view _) with (mkContext default_view (console_message text)) in Hrun.
  pose proof (handler_gives text k (set_scheduler s' a) (get_slot (server_view_ (members a))) c) as Hgives.
  unfold bind in Hrun. destruct (Client.handle_action _ _) as [[x|h] s2] eqn:Eh; [|done]. injection Hrun as <-.
  assert (server_view_ (members (set_scheduler s' a)) = mkView (get_slot (server_view_ (members a)))) as Hv
    by (cbn; by destruct (server_view_ (members a))).
  rewrite (Hgives Hv Hc : given s2.1 = _).
  rewrite filter_cons, filter_nil. by destruct (for_server text).
Qed.

Lemma round_gives f t s s1 :
  inv s -> round client_program f t s = (Ret tt, s1) ->
  exists new, given s1.1 = given s.1 ++ new /\ (if t is WorkerLoop then outgoing s else []) `sublist_of` new.
Proof.
  intros Hi Hrun.
  assert ((if t is WorkerLoop then outgoing s else []) = [] \/ t = WorkerLoop /\ handled s <> []) as [-> | [-> Hh]].
  { destruct t; [by left..| |by left]. unfold outgoing. destruct (handled s); [by left | by right]. }
  - destruct (given_grows s.1 s1.1 (grows_run _ _ _ _ (client_round_grows f t) Hrun)) as [new Hnew].
    exists new. split; [done | apply sublist_nil_l].
  - exists (outgoing s). split; [by eapply worker_gives | done].
Qed.

Lemma outbox_given s typed done out s' : outbox_history s typed done out s' -> inv s ->
  exists new, given s'.1 = given s.1 ++ new /\ out `sublist_of` new.
Proof.
  induction 1 as [s|f t s s1 typed done out s2 Hrun _ _ IH]; intros Hi; [exists []; by rewrite app_nil_r|].
  destruct (steps_inv client_program _ _ Hi (rtc_once _ _ (ex_intro _ f (ex_intro _ t Hrun)))) as [Hi1 _].
  destruct (IH Hi1) as (new & Hnew & Hsub). destruct (round_gives f t s s1 Hi Hrun) as (new1 & Hnew1 & Hsub1).
  exists (new1 ++ new). split; [|by apply sublist_app]. rewrite app_assoc.
  exact (eq_trans Hnew (f_equal (fun l => l ++ new) Hnew1)).
Qed.
End Runs.

(** ** Properties *)

(** C9: typed commands go out in order.  In every run of the threads of a client
    that has started, as in [lines_handled_in_order], the lines handled are
    those typed first, in their order, and among the calls of [sendmsg] the
    client has made are, in the order typed, one for every line handled that is
    a command for the server ([\create], [\join], [\msg]), on the connection to
    the server and with the line as a plain message.  These calls are made in
    the rounds that handle the lines, each of which makes no other: for a line
    that is no such command it makes none. *)
Theorem typed_commands_go_out {W} `{Platform W} `{!Kernel W} sizeof_manager sizeof_pool k0 k1 app k a :
  (forall w, 2 < (sys_call c_sysconf_page_size w).1.1) -> watched (world k0) = ∅ ->
  construct_client sizeof_manager sizeof_pool k0 = (Ret app, k1) ->
  Client.init end_point_e.TO_SERVER 0 (k1, app) = (Ret None, (k, a)) ->
  (forall typed done out s', outbox_history (k, a) typed done out s' ->
   exists rest new, typed = done ++ rest /\
     out.*2 = (fun line => encode (plain_message line)) <$> filter (fun line => for_server line = true) done /\
     given s'.1 = given k ++ new /\ out `sublist_of` new) /\
  (forall s f s1, rtc (step client_program) (k, a) s ->
     round client_program f WorkerLoop s = (Ret tt, s1) -> handled s <> [] -> given s1.1 = given s.1 ++ outgoing s).
Proof.
  intros Hpage Hk Hc Hm.
  destruct (client_starts _ _ Hpage _ _ _ _ _ _ _ Hk Hc Hm) as (Hi & (_ & Ht & Hs) & Hq). split.
  - intros typed done out s' Hh.
    destruct (typing_flow _ _ _ _ (outbox_typing _ _ _ _ _ Hh) []) as (rest & Hl & _).
    { exists [], [], []. cbn [snd]. rewrite Hq. split_and!; try done; [apply empty_holds | apply (ai_registered _ Hi)]. }
    destruct (outbox_given _ _ _ _ _ Hh Hi) as (new & Hnew & Hsub).
    exists rest, new. split_and!; [done | by eapply outbox_lines | done..].
  - intros s f s1 Hr. apply worker_gives. by eapply (steps_inv client_program).
Qed.

(** *** Witness: the run of [Console.v], in which [\create] has been handled *)
Section Replay.
Context {W : Type} `{Platform W}.

Fixpoint outbox_replay (f : fuel) (ts : list thread) (s : Machine W * Client.t) : list (Z * list Byte.byte) :=
  match ts with
  | [] => []
  | t :: rest => (if t is WorkerLoop then outgoing s else []) ++ outbox_replay f rest (round client_program f t s).2
  end.

Lemma outbox_replay_history f ts : forall s typed done s',
  roomy f ts s = true -> replay f ts s = Some (typed, done, s') -> outbox_history s typed done (outbox_replay f ts s) s'.
Proof.
  induction ts as [|t ts IH]; intros s typed done s'; cbn [roomy replay outbox_replay]; [intros _ [= <- <- <-]; constructor|].
  intros [Hroom Hrest]%andb_true_iff. destruct (round client_program f t s) as [[[]|h] s1] eqn:Er; [|done].
  destruct (replay f ts s1) as [[[typed1 done1] s2]|] eqn:E; [|done]. intros [= <- <- <-].
  apply (outbox_round f t s s1); [done | | by apply IH].
  destruct t; [done..|]. by apply andb_true_iff in Hroom as [?%Z.ltb_lt ?%Z.ltb_lt].
Qed.
End Replay.

Definition create_out : list (Z * list Byte.byte) :=
  outbox_replay (H := echo) (mkFuel 2 2 2) mixed_rounds (started_client.1, started_client.2).

Lemma create_out_run : outbox_history (H := echo) (started_client.1, started_client.2) ["\create"; "\msg hello"] ["\create"] create_out after_mixed.
Proof.
  apply (outbox_replay_history (H := echo) (mkFuel 2 2 2) mixed_rounds); vm_compute; reflexivity.
Qed.

Lemma create_out_is : create_out = [(server_fd started_client.2, encode (H := echo) (plain_message "\create"))].
Proof. vm_compute. reflexivity. Qed.

Lemma typed_commands_go_out_witness :
  create_out = [(server_fd started_client.2, encode (H := echo) (plain_message "\create"))] /\
  exists rest new, ["\create"; "\msg hello"] = ["\create"] ++ rest /\
    create_out.*2 = (fun line => encode (H := echo) (plain_message line)) <$> filter (fun line => for_server line = true) ["\create"] /\
    given after_mixed.1 = given started_client.1 ++ new /\ create_out `sublist_of` new.
Proof.
  split; [exact create_out_is|].
  refine (proj1 (@typed_commands_go_out _ echo echo_kernel 100 200 echo_start echo_client.1 echo_client.2
           started_client.1 started_client.2 _ _ _ _) ["\create"; "\msg hello"] ["\create"] create_out after_mixed create_out_run).
  - intros w. reflexivity.
  - reflexivity.
  - vm_compute. reflexivity.
  - vm_compute. reflexivity.
Defined.
