(* ===== verification/Coroutines.v ===== *)
(** * Coroutines: handles, promises and awaiters

    The other files give a coroutine of the scheduler as its rounds, from a
    resumption to the next suspension.  Here it is a coroutine of C++: a call of
    the function makes a frame and awaits [initial_suspend] of the promise
    ([invoke]); its body is a loop with a [co_await] in it; [handle.resume()]
    runs the body from where its frame waits until an awaiter suspends it
    ([go]).  What [protocol/coroutine/coroutine_promise.h] and the awaiters of
    [application.h] and [scheduler.h] say are the arguments of this machine, and
    the theorems show that with them a resumption is a round: the threads of
    [Threads.v] do what the threads with frames do. *)
From S2P Require Import Prelude.
From S2P Require Import Ring.
From S2P Require Import Platform.
From S2P Require Import AtomicQueue.
From S2P Require Import Utility.
From S2P Require Import Protocol.
From S2P Require Import Network.
From S2P Require Import Engine.
From S2P Require Import Safety.
From S2P Require Import EngineSafety.
From S2P Require Import LobbyManager.
From S2P Require Import Scheduler.
From S2P Require Import Application.
From S2P Require Import Threads.
From S2P Require Import Client.
From S2P Require Import Programs.
From S2P Require Import Pipeline.
From S2P Require Import Main.
From S2P Require Import Console.

#[local] Open Scope Z_scope.
#[local] Open Scope bsm_scope.

(** ** The machine of the language *)

(** Where a coroutine is: it runs, or it waits to begin, or it waits at the
    [co_await] of that position in its body. *)
Inductive frame := Running | AtStart | AtAwait (pc : nat).

(** A coroutine handle, and a place in a running body. *)
Inductive control (C : Type) :=
| Resume (c : C)
| Run (c : C) (pc : nat).
Arguments Resume {C} _.
Arguments Run {C} _ _.

(** The frames that have been made, by the coroutine's name. *)
Abbreviation frames C := (gmap C frame).

Section Machine.
Context {T C : Type} `{Countable C}.

(** [await_suspend] answers with the coroutine to go on with, or with none
    ([void]): then control is back with who resumed. *)
Record awaiter := mkAwaiter {
  await_ready : M T bool;
  await_suspend : C -> M T (option C);
  await_resume : M T unit
}.

Record promise := mkPromise {
  initial_suspend : awaiter;
  final_suspend : awaiter
}.

Inductive stmt :=
| Do (m : M T unit)
| CoAwait (a : awaiter).

Context (promise_type : promise) (body : C -> list stmt).

Definition inner {A} (m : M T A) : M (T * frames C) A := zoom fst (fun t s => (t, s.2)) m.
Definition set_frame (c : C) (f : frame) : M (T * frames C) unit :=
  modify (fun s => (s.1, <[c := f]> s.2)).

(** [body c] is what a [while (true)] of the coroutine has between its braces,
    so past its last statement is its first one.  Resuming a coroutine that is
    not suspended, or that is not there, is undefined. *)
Fixpoint go (fuel : nat) (x : control C) : M (T * frames C) unit :=
  match fuel with
  | O => stop NoFuel
  | S fuel' =>
    match x with
    | Resume c =>
      let* point := gets (fun s => s.2 !! c) in
      match point with
      | Some AtStart =>
        set_frame c Running ;;;
        inner (await_resume (initial_suspend promise_type)) ;;;
        go fuel' (Run c 0)
      | Some (AtAwait pc) =>
        match body c !! pc with
        | Some (CoAwait a) =>
          set_frame c Running ;;;
          inner (await_resume a) ;;;
          go fuel' (Run c (S pc))
        | _ => stop Undefined
        end
      | Some Running | None => stop Undefined
      end
    | Run c pc =>
      match body c !! pc with
      | None => go fuel' (Run c 0)
      | Some (Do m) => inner m ;;; go fuel' (Run c (S pc))
      | Some (CoAwait a) =>
        let* ready := inner (await_ready a) in
        if ready : bool then inner (await_resume a) ;;; go fuel' (Run c (S pc))
        else
          set_frame c (AtAwait pc) ;;;
          let* next := inner (await_suspend a c) in
          match next with
          | Some d => go fuel' (Resume d)
          | None => ret tt
          end
      end
    end
  end.

(** The call of the coroutine's function: its frame is made, and unless the
    awaiter of [initial_suspend] suspends it at once, its body runs.  The handle
    of [get_return_object] is the caller's. *)
Definition invoke (fuel : nat) (c : C) : M (T * frames C) C :=
  set_frame c Running ;;;
  let* ready := inner (await_ready (initial_suspend promise_type)) in
  (if ready : bool then inner (await_resume (initial_suspend promise_type)) ;;; go fuel (Run c 0)
   else
     set_frame c AtStart ;;;
     let* next := inner (await_suspend (initial_suspend promise_type) c) in
     match next with
     | Some d => go fuel (Resume d)
     | None => ret tt
     end) ;;;
  ret c.
End Machine.
Arguments awaiter : clear implicits.
Arguments promise : clear implicits.
Arguments stmt : clear implicits.

(** ** What the program makes of it *)
#[export] Instance coroutine_eq_dec : EqDecision coroutine.
Proof. solve_decision. Defined.
#[export] Program Instance coroutine_countable : Countable coroutine :=
  inj_countable' (fun c => match c with NetworkCo => true | ConsoleCo => false end)
    (fun b : bool => if b then NetworkCo else ConsoleCo) _.
Next Obligation. by intros []. Qed.

Section Bsm.
Context {W : Type} `{Platform W} {R : Type}.
Abbreviation AM A := (SM W (App R) A).
(** The application with the frames of its coroutines. *)
Abbreviation CM A := (M ((Machine W * App R) * frames coroutine) A).

(** [std::suspend_always]. *)
Definition suspend_always : awaiter (Machine W * App R) coroutine :=
  mkAwaiter (ret false) (fun _ => ret None) (ret tt).

(** An exception that leaves the body is dropped ([unhandled_exception] is
    empty); the model has none that does. *)
Definition bsm_promise : promise (Machine W * App R) coroutine := mkPromise suspend_always suspend_always.

Definition AppAwaiter : awaiter (Machine W * App R) coroutine :=
  mkAwaiter (ret false) (fun _ => ret None) (ret tt).
Definition yield_to_scheduler : awaiter (Machine W * App R) coroutine := AppAwaiter.

(** Nothing awaits this one.  It goes on with the coroutine of the next tag; an
    empty [task_tag] is dereferenced. *)
Definition SchedulerAwaiter : awaiter (Machine W * App R) coroutine :=
  mkAwaiter (ret false)
    (fun _ =>
       let* task_tag := on_engine (local_state
         (zoom NetworkEngine.available_task_tags_ NetworkEngine.set_task_tags AtomicQueue.try_pop)) in
       match task_tag with
       | Some x => let* handle := on_scheduler (Scheduler.get_co_handle_by_tag x) in ret (Some handle)
       | None => stop Undefined
       end)
    (ret tt).
Definition yield_to_application : awaiter (Machine W * App R) coroutine := SchedulerAwaiter.

(** The bodies: a round of [Application.v] or [Client.v], then the [co_await]. *)
Definition network_co_body : list (stmt (Machine W * App R) coroutine) :=
  [Do network_co; CoAwait yield_to_scheduler].
Definition console_co_body (console_co : AM unit) : list (stmt (Machine W * App R) coroutine) :=
  [Do console_co; CoAwait yield_to_scheduler].

Definition co_body (p : Program W R) (c : coroutine) : list (stmt (Machine W * App R) coroutine) :=
  match c with
  | NetworkCo => network_co_body
  | ConsoleCo => console_co_body (program_console_co p)
  end.

(** [handle.resume()]. *)
Definition resume (p : Program W R) (fuel : nat) (c : coroutine) : CM unit :=
  go bsm_promise (co_body p) fuel (Resume c).

(** [Scheduler::add_co_handle]: the coroutine's function is called first. *)
Definition add_co_handle (p : Program W R) (fuel : nat) (c : coroutine) (x : task_tag_e.t) : CM (option Error) :=
  let* coroutine_handle := invoke bsm_promise (co_body p) fuel c in
  inner (on_scheduler (Scheduler.add_co_handle coroutine_handle x)).

(** [Scheduler::coroutine_loop], one round. *)
Definition resume_next (p : Program W R) (fuel : nat) : CM unit :=
  let on_tags {A} (m : M (AtomicQueue.t task_tag_e.t) A) : CM A := inner (on_engine (local_state
    (zoom NetworkEngine.available_task_tags_ NetworkEngine.set_task_tags m))) in
  on_tags AtomicQueue.wait_for_data ;;;
  let* task_tag := on_tags AtomicQueue.try_pop in
  match task_tag with
  | Some x =>
    let* handle := inner (on_scheduler (Scheduler.get_co_handle_by_tag x)) in
    resume p fuel handle
  | None => ret tt
  end.

(** The rounds of the other threads have no business with frames. *)
Definition frame_round (p : Program W R) (f : Threads.fuel) (n : nat) (t : thread) : CM unit :=
  match t with
  | CoroutineLoop => resume_next p n
  | _ => inner (round p f t)
  end.

Definition frame_step (p : Program W R) (s s' : (Machine W * App R) * frames coroutine) : Prop :=
  exists f n t, frame_round p f n t s = (Ret tt, s').

(** The registrations again, now with the coroutines that are called in them. *)
Definition register_network_task (p : Program W R) (fuel : nat) : CM (option Error) :=
  let* add_error := inner (on_scheduler (Scheduler.add_task_executor task_tag_e.NETWORK NetworkExecutor)) in
  match add_error with
  | Some e =>
    ret (Some (app_context 64
      "Unalbe to register network task: failed to add executor for task NETWORK" e))
  | None =>
    let* add_error := add_co_handle p fuel NetworkCo task_tag_e.NETWORK in
    match add_error with
    | Some e =>
      ret (Some (app_context 71
        "Unalbe to register network task: failed to add coroutine for task NETWORK" e))
    | None => ret None
    end
  end.

Definition init_app (p : Program W R) (fuel : nat) (socket_type : end_point_e.t) (fd : Z)
    : CM (ConnectionView + Error) :=
  let* init_result := inner (init_network socket_type fd) in
  match init_result with
  | inr e => ret (inr (app_context 30 "Unable to init Application: failed to init network" e))
  | inl v =>
    let* registration_error := register_network_task p fuel in
    ret (inl v)
  end.
End Bsm.

Section BsmClient.
Context {W : Type} `{Platform W}.
Abbreviation CC A := (M ((Machine W * Client.t) * frames coroutine) A).

Definition register_console_task (fuel : nat) : CC (option Error) :=
  let* add_error := inner (on_scheduler (Scheduler.add_task_executor task_tag_e.CONSOLE ConsoleExecutor)) in
  match add_error with
  | Some e =>
    ret (Some (Client.ctx 55
      "Unalbe to register console task: failed to add executor for task CONSOLE" e))
  | None =>
    let* add_error := add_co_handle client_program fuel ConsoleCo task_tag_e.CONSOLE in
    match add_error with
    | Some e =>
      ret (Some (Client.ctx 62
        "Unalbe to register console task: failed to add coroutine for task CONSOLE" e))
    | None => ret None
    end
  end.

Definition client_init (fuel : nat) (socket_type : end_point_e.t) (fd : Z) : CC (option Error) :=
  let* init_result := init_app client_program fuel socket_type fd in
  match init_result with
  | inr e => ret (Some (Client.ctx 27 "Unable to init Client:: failed to init Application" e))
  | inl view =>
    inner (local_state (modify (fun a => set_members
      (mkClientState view (console_raw_tasks_ (members a))) a))) ;;;
    let* registration_error := register_console_task fuel in
    ret None
  end.
End BsmClient.

(** ** Lemmas *)
Section MachineLemmas.
Context {T C : Type} `{Countable C}.
Implicit Types (t : T) (c : C) (fs : frames C).

Lemma inner_run {A} (m : M T A) t fs r t' : m t = (r, t') -> inner m (t, fs) = (r, (t', fs)).
Proof. apply (zoom_run fst (fun t s => (t, s.2)) m (t, fs)). Qed.

Lemma inner_eq {A} (m : M T A) t fs : inner m (t, fs) = ((m t).1, ((m t).2, fs)).
Proof. apply inner_run. by destruct (m t). Qed.

(** A result does not depend on how much fuel there was. *)
Lemma go_mono (pr : promise T C) body n : forall m x s u s',
  (n <= m)%nat -> go pr body n x s = (Ret u, s') -> go pr body m x s = (Ret u, s').
Proof.
  induction n as [|n IH]; intros m x s u s' Hle; [done|]. destruct m as [|m]; [lia|]. cbn [go].
  assert (forall A (h : M (T * frames C) A) (k1 k2 : A -> M (T * frames C) unit) s0,
    (forall a s1, k1 a s1 = (Ret u, s') -> k2 a s1 = (Ret u, s')) ->
    bind h k1 s0 = (Ret u, s') -> bind h k2 s0 = (Ret u, s')) as Hbind.
  { intros A h k1 k2 s0 Hk. unfold bind. destruct (h s0) as [[a|e] s1]; [apply Hk | done]. }
  assert (forall y s0, go pr body n y s0 = (Ret u, s') -> go pr body m y s0 = (Ret u, s')) as Hgo
    by (intros y s0; apply IH; lia).
  destruct x as [c|c pc].
  - apply Hbind. intros [[| |pc]|] s1; [done| | |done].
    + apply Hbind. intros _ s2. apply Hbind. auto.
    + destruct (body c !! pc) as [[d|a]|]; [done| |done]. apply Hbind. intros _ s2. apply Hbind. auto.
  - destruct (body c !! pc) as [[d|a]|]; [| |by auto].
    + apply Hbind. auto.
    + apply Hbind. intros [] s1; apply Hbind; [by auto|]. intros _ s2. apply Hbind. intros [d|] s3; [by auto | done].
Qed.
End MachineLemmas.

(** Waiting to begin, or at the one [co_await]. *)
Definition suspended (f : frame) : Prop := f = AtStart \/ f = AtAwait 1.

Section Resumption.
Context {W : Type} `{Platform W} {R : Type}.
Implicit Types (p : Program W R) (s : Machine W * App R) (fs : frames coroutine).

(** How the body of either coroutine is laid out. *)
Lemma co_body_layout p c :
  co_body p c = [Do (resume_coroutine (program_console_co p) c); CoAwait yield_to_scheduler].
Proof. by destruct c. Qed.

(** The body from its beginning to the [co_await]. *)
Lemma go_body p n c s fs :
  fs !! c = Some Running ->
  go bsm_promise (co_body p) (S (S n)) (Run c 0) (s, fs) =
    let r := resume_coroutine (program_console_co p) c s in
    (r.1, (r.2, if r.1 is Ret _ then <[c := AtAwait 1]> fs else fs)).
Proof.
  intros Hr. cbn [go]. rewrite co_body_layout. cbn [lookup list_lookup]. unfold bind at 1. rewrite inner_eq.
  by destruct (resume_coroutine _ c s) as [[[]|h] s1].
Qed.

(** A resumption of a suspended coroutine is its round, and ends suspended. *)
Lemma resume_round p n c f s fs :
  (4 <= n)%nat -> fs !! c = Some f -> suspended f ->
  resume p n c (s, fs) =
    let r := resume_coroutine (program_console_co p) c s in
    (r.1, (r.2, <[c := if r.1 is Ret _ then AtAwait 1 else Running]> fs)).
Proof.
  intros Hn Hc Hf. do 4 (destruct n as [|n]; [lia|]). unfold resume.
  pose proof (fun n => go_body p n c s (<[c := Running]> fs) (lookup_insert_eq _ _ _)) as Hgo.
  destruct Hf as [-> | ->].
  - etrans; [|etrans; [exact (Hgo (S n))|]].
    + cbn [go]. unfold bind at 1, gets. cbn [fst snd]. by rewrite Hc.
    + destruct (resume_coroutine _ c s) as [[[]|h] s1]; cbn [fst snd]; by rewrite ?insert_insert_eq.
  - etrans; [|etrans; [exact (Hgo n)|]].
    + cbn [go]. unfold bind at 1, gets. cbn [fst snd]. rewrite Hc, co_body_layout. cbn [lookup list_lookup]. reflexivity.
    + destruct (resume_coroutine _ c s) as [[[]|h] s1]; cbn [fst snd]; by rewrite ?insert_insert_eq.
Qed.
End Resumption.

(** ** Threads with frames *)

(** The frames of the coroutines whose handles the scheduler has, none of which
    has been resumed. *)
Definition begun {R} (a : App R) : frames coroutine :=
  list_to_map ((fun h => (h.2, AtStart)) <$> Scheduler.co_handles_map_ (scheduler_ a)).

Definition all_suspended `{TagPolicy} (fs : frames coroutine) : Prop :=
  forall x c, allowed x -> co_of x = Some c -> exists f, fs !! c = Some f /\ suspended f.

(** Threads that resume frames do what the threads of [Threads.v] do: every
    run of the one is a run of the other, to the same state of the program, and
    in every state that is reached every round of every thread has the same
    outcome and leaves the same state; between rounds every coroutine is
    suspended. *)
Definition runs_as_rounds {W R} `{Platform W} `{TagPolicy} (p : Program W R) (s : Machine W * App R) (fs : frames coroutine) : Prop :=
  (forall s' fs', rtc (frame_step p) (s, fs) (s', fs') ->
     rtc (step p) s s' /\ all_suspended fs' /\
     forall f n t, (4 <= n)%nat -> exists fs'',
       frame_round p f n t (s', fs') = ((round p f t s').1, ((round p f t s').2, fs''))) /\
  (forall s', rtc (step p) s s' -> exists fs', rtc (frame_step p) (s, fs) (s', fs')).

Section Refinement.
Context {W : Type} `{Platform W} `{!Kernel W} `{TagPolicy} {R : Type} `{Members R}.
Context (p : Program W R) `{!SafeProgram p}.
Implicit Types (s : Machine W * App R) (fs : frames coroutine).

Lemma begun_suspended s : inv s -> all_suspended (begun s.2).
Proof.
  intros Hi x c Hx Hc. destruct (ai_registered _ Hi x Hx) as (c' & _ & Hc' & Hfind & _). simplify_eq.
  exists AtStart. split; [|by left]. unfold begun. clear Hi.
  induction (Scheduler.co_handles_map_ (scheduler_ s.2)) as [|[y d] m IH]; [done|].
  cbn in Hfind. cbn [fmap list_fmap list_to_map foldr fst snd curry].
  destruct (decide (d = c)) as [->|Hne]; [by rewrite lookup_insert_eq|].
  rewrite lookup_insert_ne by done. apply IH. destruct (decide (x = y)); [by simplify_eq | done].
Qed.

Lemma resume_next_next n s fs :
  resume_next p n (s, fs) =
  (let* next := inner next_coroutine in
   match next with Some c => resume p n c | None => ret tt end) (s, fs).
Proof.
  unfold resume_next, next_coroutine, inner, zoom, bind. cbn [fst snd].
  destruct (on_engine _ s) as [[u|h] s1]; [|done]. cbn [fst snd].
  destruct (on_engine _ s1) as [[[x|]|h] s2]; [|done..]. cbn [fst snd].
  by destruct (on_scheduler _ s2) as [[c|h] s3].
Qed.

(** A round with frames is a round. *)
Lemma frame_round_run f n t s fs :
  inv s -> all_suspended fs -> (4 <= n)%nat ->
  exists fs', frame_round p f n t (s, fs) = ((round p f t s).1, ((round p f t s).2, fs')) /\
    ((round p f t s).1 = Ret tt -> all_suspended fs').
Proof.
  intros Hi Hfs Hn. destruct t as [| | |line]; cbn [frame_round];
    [exists fs; by rewrite inner_eq | | exists fs; by rewrite inner_eq..].
  cbn [round]. rewrite coroutine_round_next, resume_next_next. pose proof (next_coroutine_safe s Hi) as Hsafe.
  unfold safe in Hsafe. unfold bind. rewrite inner_eq.
  destruct (next_coroutine s) as [[[c|]|h] s1]; [|by exists fs..]. destruct Hsafe as (_ & _ & x & Hx & Hc).
  destruct (Hfs x c Hx Hc) as (point & Hpoint & Hsusp). cbn [fst snd].
  rewrite (resume_round p n c point s1 fs Hn Hpoint Hsusp). eexists. split; [reflexivity|].
  intros E. cbn zeta in E |- *. rewrite E. intros y d Hy Hd. destruct (decide (d = c)) as [->|Hne].
  - exists (AtAwait 1). rewrite lookup_insert_eq. split; [done | by right].
  - rewrite lookup_insert_ne by done. by eapply Hfs.
Qed.

(** Of a round that returns the fuel is not seen. *)
Lemma frame_round_mono f n m t (x x' : (Machine W * App R) * frames coroutine) :
  (n <= m)%nat -> frame_round p f n t x = (Ret tt, x') -> frame_round p f m t x = (Ret tt, x').
Proof.
  intros Hle. destruct t; [done| |done..]. cbn [frame_round]. unfold resume_next, bind.
  destruct (inner _ x) as [[u|h] x1]; [|done]. destruct (inner _ x1) as [[[y|]|h] x2]; [|done..].
  destruct (inner _ x2) as [[c|h] x3]; [|done]. by apply go_mono.
Qed.

Lemma suspended_runs s fs : inv s -> all_suspended fs -> runs_as_rounds p s fs.
Proof.
  intros Hi Hfs. split.
  - intros s' fs' Hr.
    assert (rtc (step p) s s' /\ inv s' /\ all_suspended fs') as (Hr' & Hi' & Hfs').
    { remember (s, fs) as x eqn:Ex. remember (s', fs') as y eqn:Ey. revert s fs Ex Hi Hfs.
      induction Hr as [x|x [s1 fs1] y (f & n & t & Hst) _ IH]; intros s fs -> Hi Hfs; [by injection Ey as -> ->|].
      apply (frame_round_mono _ _ (n + 4)) in Hst; [|lia].
      destruct (frame_round_run f (n + 4) t s fs Hi Hfs ltac:(lia)) as (fs2 & Hrun & Hfs2).
      rewrite Hrun in Hst. injection Hst as Hret <- <-.
      assert (step p s (round p f t s).2) as Hstep by (exists f, t; rewrite <- Hret; by destruct (round p f t s)).
      destruct (steps_inv p _ _ Hi (rtc_once _ _ Hstep)) as [Hi1 _].
      destruct (IH Ey _ _ eq_refl Hi1 (Hfs2 Hret)) as (Hr' & ?). split; [by eapply rtc_l | done]. }
    split_and!; [done..|]. intros f n t Hn.
    destruct (frame_round_run f n t s' fs' Hi' Hfs' Hn) as (fs'' & ? & _). by exists fs''.
  - intros s' Hr. revert fs Hfs. induction Hr as [s|s s1 s2 (f & t & Hst) _ IH]; intros fs Hfs; [by exists fs|].
    destruct (frame_round_run f 4 t s fs Hi Hfs ltac:(lia)) as (fs1 & Hrun & Hfs1). rewrite Hst in Hrun, Hfs1.
    destruct (steps_inv p _ _ Hi (rtc_once _ _ (ex_intro _ f (ex_intro _ t Hst)))) as [Hi1 _].
    destruct (IH Hi1 fs1 (Hfs1 eq_refl)) as (fs' & Hr'). exists fs'. eapply rtc_l; [|exact Hr']. by exists f, 4%nat, t.
Qed.
End Refinement.

(** A coroutine that awaited [SchedulerAwaiter] would hand over to that of the
    oldest tag. *)
Section Transfer.
Context {W : Type} `{Platform W} {R : Type}.

Lemma scheduler_awaiter_transfers (pr : promise (Machine W * App R) coroutine) body n c pc x d q (k : Machine W) a fs :
  body c !! pc = Some (CoAwait yield_to_application) ->
  AtomicQueue.try_pop (tags a) = (Ret (Some x), q) ->
  find_tag x (Scheduler.co_handles_map_ (scheduler_ a)) = Some d ->
  go pr body (S n) (Run c pc) ((k, a), fs) =
    go pr body n (Resume d) ((k, set_network_engine (NetworkEngine.set_task_tags q (network_engine_ a)) a), <[c := AtAwait pc]> fs).
Proof.
  intros Hb Hq Hd.
  assert (await_suspend yield_to_application c (k, a) =
    (Ret (Some d), (k, set_network_engine (NetworkEngine.set_task_tags q (network_engine_ a)) a))) as Hs.
  { cbn [await_suspend yield_to_application SchedulerAwaiter].
    rewrite (bind_run _ _ _ _ _ (on_tags_run _ k a _ _ Hq)). erewrite bind_run; [reflexivity|].
    etrans; [apply on_scheduler_run, get_co_handle_run; exact Hd|]. by destruct a. }
  cbn [go]. rewrite Hb. erewrite bind_run by (apply inner_run; reflexivity). cbv beta iota.
  erewrite bind_run by reflexivity.
  by rewrite (bind_run _ _ _ _ _ (inner_run _ _ _ _ _ Hs)).
Qed.

End Transfer.

(** ** Registration *)
Section Registration.
Context {W : Type} `{Platform W}.

(** Calling a coroutine's function runs nothing of its body. *)
Lemma invoke_run {R} (p : Program W R) n c (s : Machine W * App R) fs :
  invoke bsm_promise (co_body p) n c (s, fs) = (Ret c, (s, <[c := AtStart]> fs)).
Proof. unfold invoke, bind, set_frame, modify. cbn. do 2 f_equal. apply insert_insert_eq. Qed.

Lemma add_co_handle_run {R} (p : Program W R) n c x (s : Machine W * App R) fs :
  add_co_handle p n c x (s, fs) =
    let r := on_scheduler (Scheduler.add_co_handle c x) s in (r.1, (r.2, <[c := AtStart]> fs)).
Proof. unfold add_co_handle. rewrite (bind_run _ _ _ _ _ (invoke_run p n c s fs)). apply inner_eq. Qed.

Lemma init_network_scheduler {R} typ fd (s : Machine W * App R) :
  scheduler_ (init_network typ fd s).2.2 = scheduler_ s.2.
Proof.
  destruct s as [k a]. unfold init_network, bind, on_engine, focus, zoom. cbn [fst snd].
  by destruct (NetworkEngine.init_engine typ fd _) as [[[v|e]|h] [k1 e1]].
Qed.

End Registration.

(** ** Properties *)

Section Properties.
Context {W : Type} `{Platform W}.

(** C20: a coroutine that is registered has not begun.  While an application
    starts, the coroutine of a task is called where its handle is put into the
    scheduler's map.  With frames, [init_app] and the client's [init] answer and
    leave the application as they do in [Application.v] and [Client.v], where no
    coroutine runs, and the frames there are are those of the handles in the
    map, each waiting at the beginning of its body. *)
Theorem coroutines_begin_suspended n typ fd :
  (forall R (p : Program W R) (s : Machine W * App R), scheduler_ s.2 = Scheduler.initial ->
     init_app p n typ fd (s, ∅) =
       ((Application.init_app typ fd s).1,
        ((Application.init_app typ fd s).2, begun (Application.init_app typ fd s).2.2))) /\
  (forall s : Machine W * Client.t, scheduler_ s.2 = Scheduler.initial ->
     client_init n typ fd (s, ∅) =
       ((Client.init typ fd s).1, ((Client.init typ fd s).2, begun (Client.init typ fd s).2.2))).
Proof.
  unfold Client.t.
  split; [intros R p s Hs | intros s Hs]; pose proof (init_network_scheduler typ fd s) as Hk; rewrite Hs in Hk;
    unfold client_init, Client.init, init_app, Application.init_app, bind; rewrite inner_eq;
    destruct (init_network typ fd s) as [[[v|e]|h] [k [e1 s1 r]]]; cbn [fst snd scheduler_] in *; subst s1.
  all: done.
Qed.

(** C12: a resumption is a round.  From the start of a server, a lobby or a client
    whose [init] has succeeded, the threads that resume coroutines by their
    frames run as the threads whose coroutines are given as rounds: the same
    states of the program are reached, in each of them the next round of every
    thread has the same outcome and leaves the same state, with no more than
    four steps of the machine for a resumption, and between any two rounds
    every coroutine is suspended, waiting to begin or at its [co_await]. *)
Theorem resumptions_are_rounds `{!Kernel W} sizeof_manager sizeof_pool debug_logs config_file k0 :
  (forall w, 2 < (sys_call c_sysconf_page_size w).1.1) -> watched (world k0) = ∅ ->
  (forall argv p k, main sizeof_manager sizeof_pool debug_logs config_file argv k0 = (Ret p, k) ->
     match p with
     | RunsServer a => runs_as_rounds (H0 := network_only) server_program (k, a) (begun a)
     | RunsLobby a => runs_as_rounds (H0 := network_only) lobby_program (k, a) (begun a)
     | RunsClient _ | Exited _ => True
     end) /\
  (forall k1 app k a, construct_client sizeof_manager sizeof_pool k0 = (Ret app, k1) ->
     Client.init end_point_e.TO_SERVER 0 (k1, app) = (Ret None, (k, a)) ->
     runs_as_rounds (H0 := network_and_console) client_program (k, a) (begun a)).
Proof.
  intros Hpage Hk. split.
  - intros argv p k Hm. destruct p as [code|a|a|a]; [done| | |done].
    + apply server_starts in Hm as [Hi _]; [|done..].
      exact (suspended_runs (H0 := network_only) server_program (k, a) (begun a) Hi (begun_suspended (k, a) Hi)).
    + apply lobby_starts in Hm as [Hi _]; [|done..].
      exact (suspended_runs (H0 := network_only) lobby_program (k, a) (begun a) Hi (begun_suspended (k, a) Hi)).
  - intros k1 app k a Hc Hm. destruct (client_starts _ _ Hpage _ _ _ _ _ _ _ Hk Hc Hm) as (Hi & _).
    exact (suspended_runs (H0 := network_and_console) client_program (k, a) (begun a) Hi
      (begun_suspended (H0 := network_and_console) (k, a) Hi)).
Qed.
End Properties.

(** *** Witnesses: the client of [Console.v]; a line is typed, and the round of
    the coroutine loop resumes the console's coroutine, which had not begun *)
Definition frames_after (r : outcome unit * ((Machine (gset Z) * App ClientState) * frames coroutine)) : option (frames coroutine) :=
  match r with (Ret _, s) => Some s.2 | (Halt _, _) => None end.
Definition two_frame_rounds : M ((Machine (gset Z) * App ClientState) * frames coroutine) unit :=
  frame_round (H := echo) (client_program (H := echo)) (mkFuel 2 2 2) 4 (ConsoleLoop "\create") ;;;
  frame_round (H := echo) (client_program (H := echo)) (mkFuel 2 2 2) 4 CoroutineLoop.

Lemma console_co_resumed :
  frames_after (two_frame_rounds (started_client, begun started_client.2)) =
    Some {[ConsoleCo := AtAwait 1; NetworkCo := AtStart]}.
Proof. vm_compute. reflexivity. Qed.

Lemma echo_client_unregistered : scheduler_ (echo_client.1, echo_client.2).2 = Scheduler.initial.
Proof. vm_compute. reflexivity. Qed.
Lemma started_client_begun : begun started_client.2 = {[ConsoleCo := AtStart; NetworkCo := AtStart]}.
Proof. vm_compute. reflexivity. Qed.

Lemma coroutines_begin_suspended_witness :
  client_init (H := echo) 4 end_point_e.TO_SERVER 0 ((echo_client.1, echo_client.2), ∅) =
    ((Client.init (H := echo) end_point_e.TO_SERVER 0 (echo_client.1, echo_client.2)).1,
     ((Client.init (H := echo) end_point_e.TO_SERVER 0 (echo_client.1, echo_client.2)).2,
      begun (Client.init (H := echo) end_point_e.TO_SERVER 0 (echo_client.1, echo_client.2)).2.2)) /\
  begun started_client.2 = {[ConsoleCo := AtStart; NetworkCo := AtStart]}.
Proof.
  split; [|exact started_client_begun].
  exact (proj2 (@coroutines_begin_suspended _ echo 4 end_point_e.TO_SERVER 0) (echo_client.1, echo_client.2)
    echo_client_unregistered).
Defined.

Lemma resumptions_are_rounds_witness :
  runs_as_rounds (H := echo) (H0 := network_only) (server_program (H := echo)) (echo_server.1, echo_server.2) (begun echo_server.2) /\
  runs_as_rounds (H := echo) (H0 := network_and_console) (client_program (H := echo)) (started_client.1, started_client.2)
    (begun started_client.2) /\
  frames_after (two_frame_rounds (started_client, begun started_client.2)) =
    Some {[ConsoleCo := AtAwait 1; NetworkCo := AtStart]}.
Proof.
  split_and!; [| |exact console_co_resumed].
  all: destruct (@resumptions_are_rounds _ echo echo_kernel 100 200 true None echo_start echo_page eq_refl) as [Hmain Hclient].
  - exact (Hmain ["bin/server"] (RunsServer echo_server.2) echo_server.1 echo_server_starts).
  - apply (Hclient echo_client.1 echo_client.2 started_client.1 started_client.2); vm_compute; reflexivity.
Defined.
