(* ===== verification/Session.v ===== *)
(** * A session: from [\create] to what the guests read

    Three processes at work on one lobby.  A client, the host, asks the server
    for a lobby; the server forks it, tells it its code and hands the host's
    descriptor over, and so for every guest that knows the code.  The lobby,
    started by [main] on the other end of the socket pair, takes the code and
    greets everyone it is handed with it, and a client prints the greeting.
    What ties the processes together is the kernel: the lobby is delivered the
    bytes and the descriptors that the server has sent. *)
From S2P Require Import Prelude.
From S2P Require Import Ring.
From S2P Require Import CString.
From S2P Require Import Platform.
From S2P Require Import MemoryManager.
From S2P Require Import AtomicQueue.
From S2P Require Import ObjectPool.
From S2P Require Import Utility.
From S2P Require Import Protocol.
From S2P Require Import Dispatcher.
From S2P Require Import Socket.
From S2P Require Import Framing.
From S2P Require Import Network.
From S2P Require Import Engine.
From S2P Require Import Wire.
From S2P Require Import Safety.
From S2P Require Import LobbyManager.
From S2P Require Import Scheduler.
From S2P Require Import Application.
From S2P Require Import Server.
From S2P Require Import Lobby.
From S2P Require Import Client.
From S2P Require Import Main.

#[local] Open Scope Z_scope.
#[local] Open Scope bsm_scope.

(** ** The server *)
Section ServerSide.
Context {W : Type} `{Platform W}.
Implicit Types (k : Machine W) (a : Server.t).

(** What the server tells a new lobby, and what it sends to hand a client over. *)
Definition id_message (code : Z) : OutgoingMessage := typed_message (to_string code) message_type_e.LOBBY_ID.
Definition session_messages (code : Z) (fds : list Z) : list OutgoingMessage :=
  id_message code :: (socket_message <$> fds).

(** The messages of the clients. *)
Definition request (text : string) (slot : Z) : ActionContext :=
  mkContext (mkView slot) (mkReceived message_status_e.DATA message_type_e.DEFAULT text None).

(** The host creates a lobby, then the guests join it. *)
Fixpoint join_all (code : Z) (guests : list Z) : SM W Server.t unit :=
  match guests with
  | [] => ret tt
  | guest :: rest => Server.handle_action (request (join_request code) guest) ;;; join_all code rest
  end.
Definition session (host code : Z) (guests : list Z) : SM W Server.t unit :=
  Server.handle_action (request "\create" host) ;;; join_all code guests.

Lemma attach_calls child view k m l s :
  LobbyManager.attach child view (k, m) = (Ret (inl l), s) -> s.1 = after c_time k.
Proof.
  unfold LobbyManager.attach, generate_conn_code, lift, local_state, zoom, bind. cbn [fst snd].
  rewrite call_run. destruct (_ <? 5)%nat; [done|]. cbn.
  destruct (_ !! _); cbn; [|by intros [= <- <-]]. by destruct (do_call _ _) as [[?|?] ?].
Qed.

(** The lobby in slot [dst] is sent a client's descriptor. *)
Lemma hand_over_run k a code src dst cs cd live q msg :
  src <> dst -> engine_ok (network_engine_ a) (src :: dst :: live) q -> (length q < 4095)%nat ->
  entry (network_engine_ a) src = Some cs -> entry (network_engine_ a) dst = Some cd ->
  (forall k, answer (sending cd (socket_message (fd_of cs))) k <> -1) ->
  exists k' e',
    Server.perform_transfer (mkLobbyView code (mkView dst)) (mkContext (mkView src) msg) (k, a)
      = (Ret keep, (k', set_network_engine e' a)) /\
    engine_ok e' (dst :: live) (q ++ [src]) /\
    (forall s, s <> src -> entry e' s = entry (network_engine_ a) s) /\
    sent_on (fd_of cd) k' = sent_on (fd_of cd) k ++ [wire (socket_message (fd_of cs))] /\
    entry e' src = Some (reset_entry cs).
Proof.
  intros Hne Hok Hq Hcs Hcd Hsend.
  destruct (transfer_sends k _ src dst cs cd live q Hne Hok Hq Hcs Hcd (Hsend _))
    as (e' & Hrun & Hok' & Hs & Ho & _).
  eexists _, e'. split; [|split_and!; [done..| |done]].
  - unfold Server.perform_transfer. by rewrite (bind_run _ _ _ _ _ (transfer_engine_run _ _ _ _ _ _ _ Hrun)).
  - by rewrite sent_on_closed, sent_on_sending, Z.eqb_refl, sent_on_after.
Qed.

(** Open connections and their descriptors. *)
Definition open_on e (slots fds : list Z) : Prop :=
  Forall2 (fun slot fd => exists c, entry e slot = Some c /\ fd_of c = fd) slots fds.

Lemma open_same e e' slots fds :
  (forall s, s ∈ slots -> entry e' s = entry e s) -> open_on e slots fds -> open_on e' slots fds.
Proof.
  intros Hs Ho. induction Ho as [|slot fd slots fds (c & Hc & Hfd) _ IH]; [constructor|]. constructor.
  - exists c. split; [|done]. rewrite Hs; [done|left].
  - apply IH. intros s Hin. apply Hs. by right.
Qed.

Section Lobbies.
Context (code control : Z) (control_takes : forall data rights k, answer (c_sendmsg control data rights) k <> -1).

Lemma join_all_run dst cd guests : forall fds k a live q,
  engine_ok (network_engine_ a) (guests ++ dst :: live) q -> (length q + length guests < 4096)%nat ->
  int64_min <= code <= int64_max ->
  LobbyManager.find code (members a) = inl (mkLobbyView code (mkView dst)) ->
  entry (network_engine_ a) dst = Some cd -> fd_of cd = control ->
  open_on (network_engine_ a) guests fds ->
  exists k' e', join_all code guests (k, a) = (Ret tt, (k', set_network_engine e' a)) /\
    engine_ok e' (dst :: live) (q ++ guests) /\
    sent_on control k' = sent_on control k ++ ((fun fd => wire (socket_message fd)) <$> fds).
Proof using control_takes.
  induction guests as [|guest guests IH]; intros fds k a live q Hok Hq Hcode Hf Hcd Hfd Hopen.
  - apply Forall2_nil_inv_l in Hopen as ->. exists k, (network_engine_ a). rewrite !app_nil_r.
    split_and!; try done. by destruct a.
  - apply Forall2_cons_inv_l in Hopen as (fd & fds' & (cs & Hcs & Hfds) & Hopen & ->).
    cbn [app] in Hok. assert (guest <> dst /\ guest ∉ guests) as [Hne Hni].
    { destruct Hok as (_ & _ & _ & Hnd & _). apply NoDup_app in Hnd as (Hnd & _).
      apply NoDup_cons in Hnd as (Hg & _). rewrite elem_of_app, elem_of_cons in Hg. split; [intros -> | intros ?]; apply Hg; auto. }
    destruct (hand_over_run k a code guest dst cs cd (guests ++ live) q
      (mkReceived message_status_e.DATA message_type_e.DEFAULT (join_request code) None))
      as (k1 & e1 & Hrun & Hok1 & Ho1 & Hsent & _); try done; [|simpl in Hq; lia| |].
    { eapply engine_ok_perm; [|exact Hok]. solve_Permutation. }
    { intros k1. unfold sending. rewrite Hfd. apply control_takes. }
    destruct (IH fds' k1 (set_network_engine e1 a) live (q ++ [guest])) as (k2 & e2 & Hrun2 & Hok2 & Hsent2); try done.
    { eapply engine_ok_perm; [|exact Hok1]. solve_Permutation. }
    { rewrite length_app. simpl in *. lia. }
    { cbn. by rewrite Ho1. }
    { eapply open_same; [|exact Hopen]. intros s Hs. apply Ho1. by intros ->. }
    exists k2, e2. split_and!.
    + cbn [join_all]. unfold request. rewrite (bind_run _ _ _ _ _ (eq_trans (handle_join _ _ _ _ _ _ _ Hcode Hf) Hrun)).
      exact Hrun2.
    + by rewrite <- app_assoc in Hok2.
    + rewrite Hsent2. subst control fd. by rewrite Hsent, <- app_assoc.
Qed.

(** The lobby as the server knows it once it has been told its code. *)
Definition lobby_open a live q k1 (r : outcome (LobbyView + Error)) (s : Machine W * Server.t) : Prop :=
  match r with
  | Ret (inl l) => exists dst, l = mkLobbyView code (mkView dst) /\
      seated end_point_e.TO_LOBBY control (network_engine_ a) live q dst (network_engine_ s.2) /\
      LobbyManager.find code (members s.2) = inl l /\ sent_on control s.1 = sent_on control k1
  | Ret (inr _) => False
  | Halt h => q = [] /\ (h = Terminated \/ h = Undefined /\ length live = 4097%nat)
  end.

Lemma create_lobby_run k k1 a live q child now :
  LobbyManager.spawn_lobby k = (Ret (inl (mkProcess child control)), k1) ->
  (forall w, (sys_call c_time w).1.1 = now) -> code_of_time now = Some code ->
  LobbyManager.lobbies_ (members a) !! code = None ->
  watches (NetworkEngine.epollfd_ (network_engine_ a)) control ->
  engine_ok (network_engine_ a) live q -> (length q < 4095)%nat ->
  wp Server.create_lobby (lobby_open a live q k1) (k, a).
Proof.
  intros Hspawn Hclock Hcode Hfree Hw Hok Hq. unfold Server.create_lobby.
  apply wp_bind. unfold wp at 1. erewrite lift_run by exact Hspawn. cbn [fst snd control_socket process_pid].
  apply wp_bind, wp_on_engine. pose proof (attach_watched end_point_e.TO_LOBBY control k1 _ live q Hok Hq Hw) as Hat.
  unfold wp at 1. cbn [engine App_engine].
  destruct (NetworkEngine.attach_socket _ _ _) as [[r|h] [k2 e2]]; cbn [fst snd]; [|exact Hat].
  destruct Hat as (dst & k3 & -> & Hs & Hpushed & ->).
  change (set_engine e2 a) with (set_network_engine e2 a).
  destruct (attach_run (after (c_epoll_ctl_add (NetworkEngine.epollfd_ (network_engine_ a)) control dst) k3)
    (set_network_engine e2 a) child (mkView dst) now code Hclock Hcode) as (k4 & Hrun).
  cbn [members set_network_engine] in Hrun. rewrite Hfree in Hrun.
  unfold wp. rewrite (bind_run _ _ _ _ _ Hrun). cbn. exists dst. split_and!; [done|done| |].
  - unfold LobbyManager.find. cbn. by rewrite lookup_insert_eq.
  - unfold on_members, focus, zoom in Hrun. cbn [fst snd] in Hrun.
    destruct (LobbyManager.attach _ _ _) as [r [k5 m]] eqn:Ea. injection Hrun as -> -> _.
    apply attach_calls in Ea. cbn in Ea. subst k4. by rewrite !sent_on_after, (pushed_sent _ _ _ _ Hpushed).
Qed.

(** What the session leaves at the server. *)
Definition session_post (clients fds live q : list Z) k1 (r : outcome unit) (s : Machine W * Server.t) : Prop :=
  match r with
  | Ret _ => exists dst, engine_ok (network_engine_ s.2) (dst :: live) (tail q ++ clients) /\
      LobbyManager.find code (members s.2) = inl (mkLobbyView code (mkView dst)) /\
      sent_on control s.1 = sent_on control k1 ++ (wire <$> session_messages code fds)
  | Halt h => q = [] /\ (h = Terminated \/ h = Undefined /\ length (clients ++ live) = 4097%nat)
  end.

Lemma session_run k k1 a live q child now host guests fds :
  LobbyManager.spawn_lobby k = (Ret (inl (mkProcess child control)), k1) ->
  (forall w, (sys_call c_time w).1.1 = now) -> code_of_time now = Some code -> int64_min <= code <= int64_max ->
  LobbyManager.lobbies_ (members a) !! code = None ->
  watches (NetworkEngine.epollfd_ (network_engine_ a)) control ->
  engine_ok (network_engine_ a) ((host :: guests) ++ live) q -> (length q + length guests < 4095)%nat ->
  open_on (network_engine_ a) (host :: guests) fds ->
  wp (session host code guests) (session_post (host :: guests) fds live q k1) (k, a).
Proof using control_takes.
  intros Hspawn Hclock Hcode Hrange Hfree Hw Hok Hq Hopen.
  unfold session. change (Server.handle_action _) with (Server.execute_create_lobby (request "\create" host)).
  unfold Server.execute_create_lobby. apply wp_bind, wp_bind.
  eapply wp_mono; [|by apply (create_lobby_run k k1 a ((host :: guests) ++ live) q child now); try lia].
  intros [[l|er]|h] [k2 a2] Hl; cbn [lobby_open fst snd] in Hl; [|done|exact Hl].
  destruct Hl as (dst & -> & (_ & Hni & Hok2 & _ & (cd & Hcd & _ & Hfd & _) & Ho) & Hf & Hsent).
  apply Forall2_cons_inv_l in Hopen as (hfd & fds' & (cs & Hcs & Hhfd) & Hopen & ->).
  destruct (send_on_run dst (id_message code) k2 (network_engine_ a2) cd Hcd) as (rs & Hs & Hiff).
  assert (forall m k, answer (sending cd m) k <> -1) as Hcd_takes
    by (intros m k0; unfold sending; rewrite Hfd; apply control_takes).
  rewrite (proj2 Hiff (Hcd_takes _ _)) in Hs.
  assert (Server.init_lobby (mkLobbyView code (mkView dst)) (k2, a2)
    = (Ret None, (after (sending cd (id_message code)) k2, a2))) as Hinit.
  { unfold Server.init_lobby. by erewrite bind_run by (apply on_engine_read; exact Hs). }
  apply wp_bind. unfold wp at 1. rewrite Hinit. cbn [fst snd].
  assert (forall s, s ∈ (host :: guests) ++ live -> entry (network_engine_ a2) s = entry (network_engine_ a) s)
    as Hsame by (intros s Hin; apply Ho; by intros ->).
  cbn [app] in Hni, Hok2, Hsame.
  destruct (hand_over_run (after (sending cd (id_message code)) k2) a2 code host dst cs cd (guests ++ live) (tail q)
    (context_message (request "\create" host))) as (k3 & e3 & Hrun & Hok3 & Ho3 & Hsent3 & _); try done.
  { intros ->. by destruct Hni; left. }
  { eapply engine_ok_perm; [|exact Hok2]. solve_Permutation. }
  { destruct q; simpl in *; lia. }
  { rewrite Hsame; [done|left]. }
  unfold wp at 1. unfold request in *. cbn [context_message] in Hrun. rewrite Hrun. cbn [fst snd].
  assert (dst <> host /\ host ∉ guests) as [Hdst Hhost].
  { split; [intros ->; by destruct Hni; left|]. destruct Hok as (_ & _ & _ & Hnd & _).
    apply NoDup_app in Hnd as ([Hg _]%NoDup_cons & _). intros Hin. by apply Hg, elem_of_app; left. }
  destruct (join_all_run dst cd guests fds' k3 (set_network_engine e3 a2) live (tail q ++ [host]))
    as (k4 & e4 & Hrun4 & Hok4 & Hsent4); try done.
  { eapply engine_ok_perm; [|exact Hok3]. solve_Permutation. }
  { rewrite length_app. destruct q; simpl in *; lia. }
  { cbn. by rewrite Ho3. }
  { eapply open_same; [|exact Hopen]. intros s Hin. cbn. rewrite Ho3 by (by intros ->).
    apply Hsame. right. apply elem_of_app. by left. }
  unfold wp, Server.t in *. rewrite Hrun4. exists dst. cbn [fst snd network_engine_ members set_network_engine].
  split_and!; [by rewrite <- app_assoc in Hok4 | done |].
  rewrite Hsent4. subst control. rewrite Hsent3, sent_on_sending, Z.eqb_refl, Hsent by done.
  unfold session_messages. rewrite !fmap_cons, Hhfd, <- list_fmap_compose, <- !app_assoc. done.
Qed.
End Lobbies.
End ServerSide.

(** ** The lobby *)
Section LobbySide.
Context {W : Type} `{Platform W}.
Implicit Types (k : Machine W) (a : Lobby.t) (c : ConnectionEntry).

Definition greeting_message (code : Z) : OutgoingMessage :=
  typed_message (Lobby.greeting code) message_type_e.PRINTABLE.

Lemma accept_greets fd view k a live :
  engine_ok (network_engine_ a) live [] -> watches (NetworkEngine.epollfd_ (network_engine_ a)) fd -> takes fd ->
  match Lobby.handle_action (mkContext view (hand_over (Some fd))) (k, a) with
  | (Ret r, (k', a')) => exists slot k1 c e', r = keep /\ a' = set_network_engine e' a /\
      seated end_point_e.TO_CLIENT fd (network_engine_ a) live [] slot e' /\ pushed [] k k1 /\ fd_of c = fd /\
      k' = after (sending c (greeting_message (lobby_id_ (members a))))
             (after (c_epoll_ctl_add (NetworkEngine.epollfd_ (network_engine_ a)) fd slot) k1)
  | (Halt h, _) => h = Terminated \/ h = Undefined /\ length live = 4097%nat
  end.
Proof.
  intros Hok Hw Ht. rewrite handle_hand_over. unfold Lobby.execute_accept_socket. cbn [context_message hand_over socket].
  pose proof (attach_watched end_point_e.TO_CLIENT fd k _ live [] Hok ltac:(simpl; lia) Hw) as Hat.
  destruct (NetworkEngine.attach_socket _ _ _) as [[r|h] [k1 e1]] eqn:Ea.
  - destruct Hat as (slot & k0 & -> & Hs & Hp & ->).
    rewrite (bind_run _ _ _ _ _ (on_engine_run _ _ a _ _ _ Ea)).
    pose proof Hs as (_ & _ & _ & _ & (c & Hc & _ & Hfd & _) & _).
    set (k1 := after _ k0) in *. set (greet := greeting_message (lobby_id_ (members a))).
    destruct (send_on_run slot greet k1 e1 c Hc) as (rs & Hsend & Hiff).
    rewrite (proj2 Hiff) in Hsend by (unfold sending; rewrite Hfd; apply Ht).
    assert (on_engine (NetworkEngine.send_message_to (mkView slot) greet) (k1, set_network_engine e1 a)
      = (Ret None, (after (sending c greet) k1, set_network_engine e1 a))) as Hrun by (apply on_engine_read; exact Hsend).
    unfold Lobby.send_join_lobby_message. rewrite !bind_bind.
    erewrite bind_run by reflexivity. cbn [fst snd members set_engine App_engine set_network_engine].
    fold (greeting_message (lobby_id_ (members a))). fold greet. rewrite bind_bind, (bind_run _ _ _ _ _ Hrun), bind_ret.
    exists slot, k0, c, e1. by split_and!.
  - rewrite (bind_halts _ _ _ _ _ (on_engine_run _ _ a _ _ _ Ea)). apply Hat.
Qed.

Definition guest_at e (slot fd : Z) : Prop :=
  exists c, entry e slot = Some c /\ connection_type_ c = end_point_e.TO_CLIENT /\ fd_of c = fd /\
    is_socket_alive (socket_handler_ c) = true.

(** What greeting the guests leaves; [rest] is what is unread of the next header. *)
Definition greeted (parent : Z) guests rest k a c live (r : outcome (option Error)) (s : Machine W * Lobby.t) : Prop :=
  let e := network_engine_ s.2 in
  match r with
  | Ret r => r = None /\ members s.2 = members a /\
      (exists slots, engine_ok e (slots ++ live) [] /\ Forall2 (guest_at e) slots guests) /\
      (forall slot, slot ∈ live -> slot <> parent -> entry e slot = entry (network_engine_ a) slot) /\
      (exists c', entry e parent = Some c' /\ same_socket c c' /\ waits (receiver c') rest) /\
      (forall fd, sent_on fd s.1 = sent_on fd k ++
         ((fun _ => wire (greeting_message (lobby_id_ (members a)))) <$> filter (fun g => g = fd) guests)) /\
      exists x, head (trace s.1) =
        Some (Called (c_epoll_ctl_mod (NetworkEngine.epollfd_ (network_engine_ a)) (fd_of c) parent) x)
  | Halt h => h = Terminated \/ h = Undefined /\ (4097 <= length live + length guests)%nat
  end.

(** One guest more, before the others. *)
Lemma greeted_cons parent fd guests rest k a c live slot k1 a1 c1 r s :
  NetworkEngine.epollfd_ (network_engine_ a1) = NetworkEngine.epollfd_ (network_engine_ a) ->
  members a1 = members a -> same_socket c c1 -> guest_at (network_engine_ a1) slot fd -> slot <> parent ->
  (forall s, s ∈ live -> s <> parent -> entry (network_engine_ a1) s = entry (network_engine_ a) s) ->
  slot ∉ live ->
  (forall fd', sent_on fd' k1 = sent_on fd' k ++
     if fd =? fd' then [wire (greeting_message (lobby_id_ (members a)))] else []) ->
  greeted parent guests rest k1 a1 c1 (slot :: live) r s -> greeted parent (fd :: guests) rest k a c live r s.
Proof.
  intros He Hm (Hfd & Ht & Hal) Hguest Hne Hsame Hni Hsent. unfold greeted. rewrite He, Hm, Hfd.
  destruct r as [r|h]; [|intros [->|[-> Hl]]; [by left | right; simpl in *; split; [done|lia]]].
  intros (-> & -> & (slots & Hok & Hslots) & Hother & (c' & Hc' & (Hfd' & Ht' & Hal') & Hw) & Hsents & Hhead).
  split_and!; [done|done| | | | |done].
  - exists (slot :: slots). split; [eapply engine_ok_perm; [|exact Hok]; solve_Permutation|].
    constructor; [|done]. destruct Hguest as (g & Hg & Hrest). exists g. split; [|done].
    by rewrite Hother by (by left || done).
  - intros s0 Hin Hs0. rewrite Hother by (by right || done). by apply Hsame.
  - exists c'. unfold same_socket. by rewrite Hfd', Ht', Hal'.
  - intros fd'. rewrite Hsents, Hsent, <- app_assoc. f_equal. rewrite filter_cons.
    by destruct (Z.eqb_spec fd fd'); [rewrite decide_True | rewrite decide_False].
Qed.

Lemma greet_all parent n rest guests : forall k a c live fuel,
  let epfd := NetworkEngine.epollfd_ (network_engine_ a) in
  entry (network_engine_ a) parent = Some c -> is_socket_alive (socket_handler_ c) = true ->
  parent ∈ live -> engine_ok (network_engine_ a) live [] ->
  expects (fd_of c) n (receiver c) (world k) ((fun fd => hand_over (Some fd)) <$> guests) rest ->
  steady (fd_of c) -> (forall fd, fd ∈ guests -> watches epfd fd /\ takes fd) ->
  (forall k, answer (c_epoll_ctl_mod epfd (fd_of c) parent) k <> -1) ->
  (length guests + 2 <= fuel)%nat ->
  wp (process_loop Lobby.handle_action (S n) fuel parent CONTINUE) (greeted parent guests rest k a c live) (k, a).
Proof.
  induction guests as [|fd guests IH]; intros k a c live fuel epfd Hc Ha Hlive Hok He Hsteady Hg Hx Hfuel;
    destruct (get_message_next n k (socket_handler_ c) _ _ He) as (k' & co & Hget & Hgo);
    assert (forall fd, sent_on fd k' = sent_on fd k) as Hsent
      by (intros fd'; unfold sent_on; by rewrite (get_message_said _ _ _ _ _ _ Hget)).
  - destruct fuel as [|[|fuel]]; [simpl in Hfuel; lia..|]. unfold wp.
    rewrite (@loop_drained _ _ _ App_engine _ _ _ _ k a c (Some co) k' Hc Ha Hget (Hx k')). unfold greeted, with_handler. cbn.
    split_and!; [done|done| | | | |].
    + exists []. split; [|constructor]. by apply engine_ok_set.
    + intros slot _ Hne. by rewrite entry_set_ne.
    + eexists. rewrite entry_set_eq. split; [done|]. by split; [|exact Hgo].
    + intros fd. by rewrite sent_on_after, Hsent, app_nil_r.
    + rewrite trace_after. by eexists.
  - destruct Hgo as [_ Hgo]. destruct fuel as [|fuel]; [simpl in Hfuel; lia|].
    set (h1 := set_handle (Some co) (socket_handler_ c)) in *. set (c1 := set_socket_handler h1 c).
    set (a1 := with_handler parent h1 c a). set (k1 := record_event (Logged "\socket") k').
    unfold wp. rewrite (@loop_hands_on _ _ _ App_engine _ _ _ _ k a c (hand_over (Some fd)) k' h1 Hc Ha eq_refl Hget).
    change (Logged (payload _)) with (Logged "\socket"). fold a1 k1.
    destruct (Hg fd ltac:(left)) as [Hwatch Htake].
    assert (engine_ok (network_engine_ a1) live []) as Hok1 by (by apply engine_ok_set).
    assert (entry (network_engine_ a1) parent = Some c1) as Hc1 by apply entry_set_eq.
    pose proof (accept_greets fd (mkView parent) k1 a1 live Hok1 Hwatch Htake) as Hacc.
    destruct (Lobby.handle_action _ _) as [[r|h] [k2 a2]].
    + destruct Hacc as (slot & k0 & cg & e2 & -> & -> & (_ & Hni & Hok2 & He2 & Hguest & Ho) & Hp & Hcg & ->).
      set (k2 := after _ _).
      change (wp (process_loop Lobby.handle_action (S n) fuel parent CONTINUE)
        (greeted parent (fd :: guests) rest k a c live) (k2, set_network_engine e2 a1)).
      assert (parent <> slot) as Hne by (by intros ->).
      assert (fd_of c1 = fd_of c) as Hfd by done.
      eapply wp_mono; [|apply (IH k2 (set_network_engine e2 a1) c1 (slot :: live) fuel)];
        rewrite ?Hfd; cbn [network_engine_ set_network_engine]; rewrite ?He2; try done.
      * intros r s. apply greeted_cons; try done.
        -- intros s0 Hin Hs0. cbn. rewrite Ho by (by intros ->). by apply entry_set_ne.
        -- intros fd'. unfold k2. rewrite sent_on_sending, sent_on_after, (pushed_sent _ _ _ _ Hp), Hcg; [|done|].
           ++ f_equal. apply Hsent.
           ++ unfold sending. rewrite Hcg. apply Htake.
      * by rewrite Ho.
      * by right.
      * unfold k2.
        apply expects_after; [done | done|]. apply expects_after; [done|done|]. by eapply expects_pushed.
      * intros g Hin. apply Hg. by right.
      * simpl in Hfuel. lia.
    + unfold greeted. simpl. destruct Hacc as [->|[-> Hl]]; [by left|right]. split; [done|lia].
Qed.

(** The code of the lobby, then the guests. *)
Lemma lobby_session parent n rest code st sock guests k a c live fuel :
  let epfd := NetworkEngine.epollfd_ (network_engine_ a) in
  int64_min <= code <= int64_max ->
  entry (network_engine_ a) parent = Some c -> is_socket_alive (socket_handler_ c) = true ->
  parent ∈ live -> engine_ok (network_engine_ a) live [] ->
  expects (fd_of c) n (receiver c) (world k)
    (mkReceived st message_type_e.LOBBY_ID (to_string code) sock :: ((fun fd => hand_over (Some fd)) <$> guests)) rest ->
  steady (fd_of c) -> (forall fd, fd ∈ guests -> watches epfd fd /\ takes fd) ->
  (forall k, answer (c_epoll_ctl_mod epfd (fd_of c) parent) k <> -1) ->
  (length guests + 3 <= fuel)%nat ->
  wp (process_connection Lobby.handle_action (S n) fuel (mkView parent))
     (greeted parent guests rest k (set_members (mkLobbyState code (parent_view_ (members a))) a) c live) (k, a).
Proof.
  intros epfd Hcode Hc Ha Hlive Hok He Hsteady Hg Hx Hfuel.
  destruct (get_message_next n k (socket_handler_ c) _ _ He) as (k' & co & Hget & [Hst Hgo]).
  cbn [status] in Hst. subst st. destruct fuel as [|fuel]; [lia|].
  set (h1 := set_handle (Some co) (socket_handler_ c)) in *. set (c1 := set_socket_handler h1 c).
  unfold process_connection, process_connection_impl, wp. cbn [get_slot].
  rewrite (@loop_hands_on _ _ _ App_engine _ _ _ _ k a c
    (mkReceived message_status_e.DATA message_type_e.LOBBY_ID (to_string code) sock) k' h1 Hc Ha eq_refl Hget).
  destruct (lobby_id_set (record_event (Logged (to_string code)) k') (with_handler parent h1 c a) (mkView parent)
    message_status_e.DATA sock code "" Hcode) as [Hset _].
  cbn [payload]. unfold Lobby.t in *. rewrite Hset.
  set (a1 := set_members (mkLobbyState code (parent_view_ (members a)))
    (set_network_engine (set_entry parent c1 (network_engine_ a)) a)).
  set (k1 := record_event _ k').
  change (wp (process_loop Lobby.handle_action (S n) fuel parent CONTINUE)
    (greeted parent guests rest k (set_members (mkLobbyState code (parent_view_ (members a))) a) c live) (k1, a1)).
  assert (forall fd, sent_on fd k1 = sent_on fd k) as Hsent.
  { intros fd. unfold sent_on. change (said k1) with (said k'). by rewrite (get_message_said _ _ _ _ _ _ Hget). }
  eapply wp_mono; [|apply (greet_all parent n rest guests k1 a1 c1 live fuel); try done].
  - intros [r|h] s; [|done]. unfold greeted. cbn [members set_members lobby_id_ network_engine_].
    intros (-> & Hm & Hslots & Hsame & Hparent & Hsents & Hhead). split_and!; [done|done|done| |done| |done].
    + intros slot Hin Hne. rewrite Hsame by done. by apply entry_set_ne.
    + intros fd. by rewrite Hsents, Hsent.
  - apply entry_set_eq.
  - by apply engine_ok_set.
  - lia.
Qed.
End LobbySide.

(** ** The lobby's start *)
Section LobbyStart.
Context {W : Type} `{Platform W}.

(** The root connection of a lobby is the one to its parent, in slot 0. *)
Lemma init_engine_parent n k (e : NetworkEngine.t) v k' e' :
  n <> 0 -> engine_ok e [] [] -> ObjectPool.counter (NetworkEngine.connection_pool_ e) = 0 ->
  NetworkEngine.init_engine end_point_e.TO_PARENT n (k, e) = (Ret (inl v), (k', e')) ->
  v = mkView 0 /\ engine_ok e' [0] [] /\
  exists c, entry e' 0 = Some c /\ fd_of c = n /\ is_socket_alive (socket_handler_ c) = true /\
    receive_handle_ (socket_handler_ c) = None.
Proof.
  intros Hn Hok Hcount Hi. unfold NetworkEngine.init_engine in Hi. rewrite (proj2 (Z.eqb_neq _ _) Hn) in Hi. cbn [negb] in Hi.
  pose proof (on_pool_push end_point_e.TO_PARENT n k e [] [] Hok) as Hp. unfold wp in Hp.
  destruct (NetworkEngine.on_pool _ _) as [[r|h] [k1 e1]] eqn:Epush; [|by rewrite (bind_halts _ _ _ _ _ Epush) in Hi].
  rewrite (bind_run _ _ _ _ _ Epush) in Hi. cbn [fst snd] in Hp. destruct Hp as (p & -> & Hpost).
  destruct r as [slot|]; [|done].
  destruct (pushed_entry end_point_e.TO_PARENT n e [] [] _ slot Hpost) as (_ & Hok1 & _ & (c & Hc & _ & Hfd & Ha & Hh) & _).
  cbn [fst snd] in *. destruct Hpost as (o & _ & _ & _ & Hslot & _). rewrite Hcount in Hslot. subst slot.
  unfold NetworkEngine.init_connection_type in Hi. rewrite bind_bind in Hi.
  erewrite bind_run in Hi by (eapply on_connection_run; [exact Hc|reflexivity]). rewrite bind_ret in Hi.
  cbn [fst snd] in Hi. set (c1 := set_connection_type end_point_e.TO_PARENT c) in Hi.
  unfold NetworkEngine.init_epoll in Hi. rewrite bind_bind in Hi. unfold bind at 1, lift at 1, zoom at 1 in Hi. cbn [fst snd] in Hi.
  destruct (EpollHandler.init k1) as [[[fd er]|h] k2]; [|done].
  rewrite bind_bind in Hi. erewrite bind_run in Hi by reflexivity. cbn [fst snd] in Hi.
  destruct er as [er|]; [by rewrite bind_ret in Hi|]. rewrite bind_bind in Hi.
  set (e2 := NetworkEngine.set_epollfd _ _) in Hi.
  assert (entry e2 0 = Some c1) as Hc2 by (unfold e2, entry; cbn; apply lookup_insert_eq).
  destruct (subscribe_run 0 k2 e2 c1 Hc2) as (rs & Hsub & _). rewrite (bind_run _ _ _ _ _ Hsub) in Hi.
  destruct rs; [done|]. injection Hi as <- _ <-. split; [done|]. split; [|by exists c1].
  change (engine_ok (set_entry 0 c1 (NetworkEngine.set_pool p e)) [0] []). by apply engine_ok_set; [|left].
Qed.

Section FromMain.
Context (sizeof_manager sizeof_pool : Z) (debug_logs : bool) (config_file : option (list string)).
Context (Hpage : forall w, 2 < (sys_call c_sysconf_page_size w).1.1).

Lemma bind_returns {S A B} (m : M S A) (f : A -> M S B) s b s' :
  bind m f s = (Ret b, s') -> exists a s1, m s = (Ret a, s1) /\ f a s1 = (Ret b, s').
Proof. unfold bind. destruct (m s) as [[a|h] s1]; [|done]. intros Hf. by exists a, s1. Qed.

(** A lobby [main] has started is in slot 0 connected to the descriptor in its
    argument. *)
Lemma lobby_started program n k0 k b :
  int_min <= n <= int_max -> n <> 0 ->
  main sizeof_manager sizeof_pool debug_logs config_file [program; to_string n] k0 = (Ret (RunsLobby b), k) ->
  members b = mkLobbyState 0 (mkView 0) /\ engine_ok (network_engine_ b) [0] [] /\
  exists c, entry (network_engine_ b) 0 = Some c /\ fd_of c = n /\ is_socket_alive (socket_handler_ c) = true /\
    receive_handle_ (socket_handler_ c) = None.
Proof using Hpage.
  intros Hn H0 Hm. unfold main, with_log in Hm. destruct (program_name _); [|done].
  apply bind_returns in Hm as (opened & ka & _ & Hm). destruct opened.1; [by injection Hm|].
  apply bind_returns in Hm as (u1 & kb & _ & Hm). apply bind_returns in Hm as (u2 & kc & _ & Hm).
  cbn [tl] in Hm. apply bind_returns in Hm as (u3 & k1 & _ & Hm).
  unfold bind at 1 in Hm. destruct (construct_app _ _ _ k1) as [[lobby|h] k2] eqn:Ec; [|done].
  destruct (construct_app_fresh sizeof_manager sizeof_pool Hpage _ _ _ _ Ec) as (pool & -> & _ & Hcount & Hok).
  rewrite (stoi_to_string n Hn) in Hm. unfold bind, run_with in Hm.
  destruct (Lobby.init _ _ _) as [[r|h] [k3 b']] eqn:Ei; [|done]. cbn [fst snd] in Hm.
  apply start_app_runs in Hm as (-> & [= <-] & _); [|done].
  unfold Lobby.init, init_app, init_network in Ei. rewrite !bind_bind in Ei.
  unfold bind at 1, on_engine, focus, zoom in Ei. cbn [fst snd engine App_engine network_engine_] in Ei.
  destruct (NetworkEngine.init_engine _ _ _) as [[[v|er]|h] [k4 e]] eqn:Ee; [|done..].
  cbn in Ei. injection Ei as _ <-. destruct (init_engine_parent n _ (NetworkEngine.mk pool 0 AtomicQueue.empty AtomicQueue.empty) v k4 e H0 Hok Hcount Ee) as (-> & Hok' & Hc). done.
Qed.
End FromMain.
End LobbyStart.

(** ** From one process to the other *)
Lemma delivery_carried {W W'} `{Platform W} `{Platform W'} rename code fds pieces :
  carried (W := W') rename (wire (W := W) <$> session_messages code fds) pieces ->
  exists sock, delivery pieces =
    mkReceived message_status_e.DATA message_type_e.LOBBY_ID (to_string code) sock ::
      ((fun fd => hand_over (Some fd)) <$> (rename <$> fds)).
Proof.
  intros Hc. assert (valid_messages (session_messages code fds)) as Hv.
  { constructor; [done|]. apply Forall_fmap, Forall_true. done. }
  pose proof (carried_delivery rename _ pieces Hv Hc) as Hd. unfold session_messages in Hd.
  apply Forall2_cons_inv_l in Hd as (r & rs & [Hr _] & Hd & Hl). rewrite Hl.
  exists (socket r). f_equal; [exact Hr|]. clear Hc Hv Hl Hr. revert rs Hd. induction fds as [|fd fds IH]; intros rs Hd.
  - by apply Forall2_nil_inv_l in Hd as ->.
  - apply Forall2_cons_inv_l in Hd as (x & xs & [Hx Hsock] & Hd & ->).
    rewrite !fmap_cons, <- (IH xs Hd). f_equal. rewrite Hx. cbn in Hsock. by rewrite Hsock.
Qed.

(** ** Properties *)

(** C3: a lobby that is created greets its guests.  A client asks the server for
    a lobby and others join it with its code, one after the other: the server
    tells the new lobby its code and sends it every client's descriptor, in
    this order, and nothing else; it keeps the lobby under the code and gives
    the clients' slots back.  A lobby that [main] has started on the other end,
    delivered what was sent in any pieces whose ends are not inside a text,
    takes the code, makes every descriptor a client's connection of its own,
    and sends each, once, the greeting with the code; then it waits for the
    server again.  A client that receives the greeting prints it.  Either process
    ends early only if 4097 connections are held or the kernel refuses memory. *)
Theorem created_lobby_greets_its_guests
    {W} `{Platform W} k k1 (a : Server.t) live q child control now code host guests fds
    {W'} `{Platform W'} sizeof_manager sizeof_pool debug_logs config_file program n k0 (b : Lobby.t) k'
    rename pieces recv_fuel fuel :
  LobbyManager.spawn_lobby k = (Ret (inl (mkProcess child control)), k1) ->
  (forall w, (sys_call (W := W) c_time w).1.1 = now) -> code_of_time now = Some code ->
  int64_min <= code <= int64_max -> LobbyManager.lobbies_ (members a) !! code = None ->
  engine_ok (network_engine_ a) ((host :: guests) ++ live) q -> (length q + length guests < 4095)%nat ->
  open_on (network_engine_ a) (host :: guests) fds ->
  watches (W := W) (NetworkEngine.epollfd_ (network_engine_ a)) control -> takes (W := W) control ->
  (forall w, 2 < (sys_call (W := W') c_sysconf_page_size w).1.1) ->
  int_min <= n <= int_max -> n <> 0 ->
  main sizeof_manager sizeof_pool debug_logs config_file [program; to_string n] k0 = (Ret (RunsLobby b), k') ->
  carried (W := W') rename (wire (W := W) <$> session_messages code fds) pieces ->
  arrives n [] (world k') pieces -> steady (W := W') n ->
  (forall fd, fd ∈ fds -> watches (W := W') (NetworkEngine.epollfd_ (network_engine_ b)) (rename fd) /\
                          takes (W := W') (rename fd)) ->
  (forall k, answer (W := W') (c_epoll_ctl_mod (NetworkEngine.epollfd_ (network_engine_ b)) n 0) k <> -1) ->
  (length pieces <= recv_fuel)%nat -> (length fds + 3 <= fuel)%nat ->
  wp (session host code guests) (session_post code control (host :: guests) fds live q k1) (k, a) /\
  (exists c, entry (network_engine_ b) 0 = Some c /\ fd_of c = n /\
     wp (process_connection Lobby.handle_action (S recv_fuel) fuel (mkView 0))
        (greeted 0 (rename <$> fds) (leftover [] pieces) k' (set_members (mkLobbyState code (mkView 0)) b) c [0])
        (k', b)) /\
  forall view control (kc : Machine W') (ac : Client.t),
    Client.handle_action (mkContext view (received_of control (greeting_message code))) (kc, ac)
      = (Ret keep, (record_event (Printed (Lobby.greeting code)) kc, ac)).
Proof.
  intros Hspawn Hclock Hcode Hrange Hfree Hok Hq Hopen Hw Ht Hpage Hn Hn0 Hmain Hcarried Harr Hsteady Hg Hx Hrf Hfuel.
  split; [by apply (session_run code control Ht k k1 a live q child now)|]. split; [|by intros].
  destruct (lobby_started _ _ _ _ Hpage program n k0 k' b Hn Hn0 Hmain) as (Hm & Hokb & c & Hc & Hfd & Ha & Hh).
  exists c. split; [done|]. split; [done|]. destruct (delivery_carried rename code fds pieces Hcarried) as (sock & Hdel).
  pose proof (pieces_expected n recv_fuel (receiver c) [] (world k') pieces) as He.
  rewrite Hdel in He.
  pose proof (lobby_session 0 recv_fuel (leftover [] pieces) code message_status_e.DATA sock (rename <$> fds) k' b c [0] fuel) as Hs.
  rewrite Hfd, Hm in Hs. apply Hs; try done.
  - by left.
  - apply He; [| | done | apply Hcarried | done].
    + unfold receiver. rewrite Hh. apply new_coroutine_waits.
    + apply HEADER_SIZE_pos.
  - intros fd (g & -> & Hin)%list_elem_of_fmap. by apply Hg.
  - by rewrite length_fmap.
Qed.

(** *** Witnesses: a host on descriptor 9, a guest on 8, code 12345 *)
Definition forking_calls (c : call) : Z * Z := match c with c_fork => (77, 0) | _ => quiet_calls c end.
#[local] Instance forking : Platform Script := scripted forking_calls.

Definition one_client := demo_push (entry_of end_point_e.TO_CLIENT 8) demo_pool_0.
Definition both_clients := demo_push (entry_of end_point_e.TO_CLIENT 9) one_client.
Definition two_clients : NetworkEngine.t :=
  NetworkEngine.mk both_clients.2 3 AtomicQueue.empty AtomicQueue.empty.

Lemma two_clients_ok : engine_ok two_clients [1; 0] [].
Proof.
  apply (@run_ok Script ConnectionEntry (scripted quiet_calls)
           (@ConnectionEntry_pool_object Script (scripted quiet_calls)) 100 200 both_clients.1).
  apply (run_push 100 200 one_client.1 one_client.2 [0] [] (entry_of end_point_e.TO_CLIENT 9));
    [|vm_compute; reflexivity].
  apply (run_push 100 200 demo_pool_0.1 demo_pool_0.2 [] [] (entry_of end_point_e.TO_CLIENT 8));
    [|vm_compute; reflexivity].
  apply (run_init 100 200 _ _ (script_of []));
    [intros w; vm_compute; reflexivity | vm_compute; reflexivity].
Qed.

Definition busy_server : Server.t := mkApp two_clients Scheduler.initial LobbyManager.LobbyManager.initial.
Definition pair_5_6 : Machine Script := mkMachine (mkScript [] [] (SocketPair 5 6)) 0 [].
Definition session_pieces : list piece :=
  [mkPiece None [id_message 12345] []; mkPiece (Some (Build_cmsghdr 1 1 20)) [socket_message 9] [];
   mkPiece (Some (Build_cmsghdr 1 1 19)) [socket_message 8] []].
Definition session_script : Machine Script :=
  script_of ((fun p => Received (stream (piece_messages p) []) (piece_control p)) <$> session_pieces).

Definition lobby_process := main 100 200 true None ["./lobby"; to_string 5] session_script.
Definition lobby_app (r : outcome process) : Lobby.t :=
  match r with Ret (RunsLobby b) => b | _ => demo_lobby_app end.
Lemma lobby_process_world : world lobby_process.2 = world session_script.
Proof. vm_compute. reflexivity. Qed.
Lemma lobby_process_runs :
  main 100 200 true None ["./lobby"; to_string 5] session_script
    = (Ret (RunsLobby (lobby_app lobby_process.1)), lobby_process.2).
Proof. vm_compute. reflexivity. Qed.

Lemma session_pieces_arrive : arrives 5 [] (world lobby_process.2) session_pieces.
Proof. rewrite lobby_process_world. script_arrives. Qed.

Lemma script_steady fd : steady (W := Script) fd.
Proof. by intros x pre w pieces _ Ha. Qed.

Lemma created_lobby_greets_its_guests_witness :
  wp (session 1 12345 [0]) (session_post 12345 6 [1; 0] [9; 8] [] [] (LobbyManager.LobbyManager.spawn_lobby pair_5_6).2)
    (pair_5_6, busy_server) /\
  exists c, entry (network_engine_ (lobby_app lobby_process.1)) 0 = Some c /\ fd_of c = 5 /\
    wp (process_connection Lobby.handle_action 4 5 (mkView 0))
      (greeted 0 [20; 19] [] lobby_process.2
        (set_members (mkLobbyState 12345 (mkView 0)) (lobby_app lobby_process.1)) c [0])
      (lobby_process.2, lobby_app lobby_process.1).
Proof.
  destruct (created_lobby_greets_its_guests pair_5_6 (LobbyManager.LobbyManager.spawn_lobby pair_5_6).2 busy_server
    [] [] 77 6 1700012345 12345 1 [0] [9; 8] 100 200 true None "./lobby" 5 session_script (lobby_app lobby_process.1)
    lobby_process.2 (fun fd => fd + 11) session_pieces 3 5) as (Hserver & Hlobby & _).
  - vm_compute. reflexivity.
  - done.
  - vm_compute. reflexivity.
  - unfold int64_min, int64_max. lia.
  - done.
  - exact two_clients_ok.
  - simpl. lia.
  - repeat constructor; eexists; split; vm_compute; reflexivity.
  - intros k slot. vm_compute. discriminate.
  - intros data rights k. vm_compute. discriminate.
  - intros w. vm_compute. reflexivity.
  - unfold int_min, int_max. lia.
  - done.
  - exact lobby_process_runs.
  - split; [repeat constructor|]. split; [reflexivity|]. repeat constructor.
  - exact session_pieces_arrive.
  - apply script_steady.
  - intros fd _. split; intros; vm_compute; discriminate.
  - intros k. vm_compute. discriminate.
  - simpl. lia.
  - simpl. lia.
  - split; [exact Hserver | exact Hlobby].
Defined.
