(* ===== verification/Departed.v ===== *)
(** * A lobby that has ended

    Nothing takes a lobby out of the server's table, and a view is only a slot
    number.  This file follows what comes of a lobby's code once its process
    has ended. *)
From S2P Require Import Prelude.
From S2P Require Import Ring.
From S2P Require Import CString.
From S2P Require Import Platform.
From S2P Require Import MemoryManager.
From S2P Require Import AtomicQueue.
From S2P Require Import ObjectPool.
From S2P Require Import Utility.
From S2P Require Import Protocol.
From S2P Require Import Dispatcher.
From S2P Require Import Socket.
From S2P Require Import Framing.
From S2P Require Import Network.
From S2P Require Import Engine.
From S2P Require Import Wire.
From S2P Require Import LobbyManager.
From S2P Require Import Scheduler.
From S2P Require Import Application.
From S2P Require Import Server.
From S2P Require Import Session.

#[local] Open Scope Z_scope.
#[local] Open Scope bsm_scope.

(** What the server does when the lobby has ended, the clients [fds] are accepted
    and another client joins with the old code. *)
Definition stale_join {W} `{Platform W} (recv_fuel fuel : nat) (lobby_slot : Z) (fds : list Z) (code guest : Z)
    : SM W Server.t ActionResult :=
  process_connection Server.handle_action recv_fuel fuel (mkView lobby_slot) ;;;
  on_engine (NetworkEngine.register_connections fds (mkRegistration 0 0)) ;;;
  Server.handle_action (request (join_request code) guest).

(** ** Lemmas *)

(** Clients that are accepted get the released slots, the oldest first. *)
Lemma register_waiting {W} `{Platform W} fds : forall report rest k e live q,
  engine_ok e live q -> (length q < 4095)%nat -> (length fds <= length q)%nat ->
  (forall fd, fd ∈ fds -> watches (NetworkEngine.epollfd_ e) fd) ->
  exists report' k' e' live',
    NetworkEngine.register_connections (fds ++ rest) report (k, e)
      = NetworkEngine.register_connections rest report' (k', e') /\
    live' ≡ₚ take (length fds) q ++ live /\ engine_ok e' live' (drop (length fds) q) /\
    NetworkEngine.epollfd_ e' = NetworkEngine.epollfd_ e /\
    (forall s, s ∉ take (length fds) q -> entry e' s = entry e s) /\
    (forall fd, sent_on fd k' = sent_on fd k).
Proof.
  induction fds as [|fd fds IH]; intros report rest k e live q Hok Hq Hle Hw.
  { exists report, k, e, live. by rewrite take_0, drop_0. }
  destruct q as [|slot q]; [simpl in Hle; lia|]. simpl in Hq, Hle.
  pose proof (register_watched end_point_e.TO_CLIENT fd k e live (slot :: q) Hok ltac:(simpl; lia)
                (Hw _ ltac:(left))) as Hreg.
  destruct (NetworkEngine.register_connection _ _ _) as [[r|h] [k1 e1]] eqn:Er; [|by destruct Hreg].
  destruct Hreg as (slot' & k0 & -> & (Hslot & Hni & Hok1 & Hep & _ & Ho1) & Hp & ->).
  cbn in Hslot, Hok1. subst slot'.
  destruct (IH (mkRegistration (registered report + 1) (registration_failed report)) rest
              (after (c_epoll_ctl_add (NetworkEngine.epollfd_ e) fd slot) k0) e1 (slot :: live) q Hok1)
    as (report' & k' & e' & live' & Hrun & Hl & Hok' & Hep' & Ho & Hsent); [lia.. | |].
  { intros fd' Hfd'. rewrite Hep. apply Hw. by right. }
  exists report', k', e', live'. split_and!; try done.
  - cbn [NetworkEngine.register_connections app]. by rewrite (bind_run _ _ _ _ _ Er).
  - rewrite Hl. simpl. symmetry. apply Permutation_middle.
  - by rewrite Hep'.
  - intros s Hs. simpl in Hs. apply not_elem_of_cons in Hs as [Hne Hs]. by rewrite Ho, Ho1.
  - intros fd'. by rewrite Hsent, sent_on_after, (pushed_sent _ _ _ _ Hp).
Qed.

(** ** Properties *)

(** C23: the code of a lobby that has ended leads to a stranger.  When a lobby's
    process has ended, the server releases the slot of its control connection
    but keeps the lobby in its table.  The slot waits behind the slots [q]
    released before it, so the next [length q] clients the server accepts get
    those, and the client [fd] it accepts then gets the lobby's.  A guest that
    now joins with the old code is reported as handed over, while its descriptor
    was sent to that client, the server's copy closed, and no lobby is involved. *)
Theorem ended_lobby_leads_to_stranger {W} `{Platform W} recv_fuel fuel k (a : Server.t)
    guest dst cs cd live q cut control w code fds fd :
  int64_min <= code <= int64_max ->
  LobbyManager.find code (members a) = inl (mkLobbyView code (mkView dst)) ->
  engine_ok (network_engine_ a) (dst :: guest :: live) q -> length fds = length q -> (length q < 4094)%nat ->
  entry (network_engine_ a) guest = Some cs -> entry (network_engine_ a) dst = Some cd ->
  is_socket_alive (socket_handler_ cd) = true -> waits (receiver cd) cut -> (length cut < HEADER_SIZE)%nat ->
  sys_recvmsg (fd_of cd) (room cut) (world k) = (Received [] control, w) ->
  (forall epfd fd', fd' ∈ fds ++ [fd] -> watches epfd fd') -> takes fd ->
  exists k' a',
    stale_join (S recv_fuel) (S (S fuel)) dst (fds ++ [fd]) code guest (k, a) = (Ret keep, (k', a')) /\
    sent_on fd k' = sent_on fd k ++ [wire (socket_message (fd_of cs))] /\
    (exists c, entry (network_engine_ a') dst = Some c /\ connection_type_ c = end_point_e.TO_CLIENT /\ fd_of c = fd) /\
    (exists c, entry (network_engine_ a') guest = Some c /\ fd_of c = -1) /\
    LobbyManager.find code (members a') = inl (mkLobbyView code (mkView dst)).
Proof.
  intros Hcode Hf Hok Hlen Hq Hcs Hcd Ha Hw Hcut Hr Hwatch Ht.
  destruct (@loop_disconnected W _ (App LobbyManager.t) App_engine Server.handle_action recv_fuel fuel dst k a cd cut control w (guest :: live) q
    Hcd Ha Hw Hcut Hr Hok ltac:(lia)) as (e1 & Hrun & Hok1 & _ & Ho1).
  cbn [app engine App_engine] in *. set (k1 := released _ _ _) in Hrun. set (a1 := set_network_engine e1 a).
  assert (guest <> dst /\ (guest ∉ q)) as [Hne Hgq].
  { destruct Hok as (_ & _ & _ & [Hd [Hg _]%NoDup_cons]%NoDup_cons & _).
    split; [intros ->; apply Hd; left | intros Hin; apply Hg, elem_of_app; by right]. }
  destruct (register_waiting fds (mkRegistration 0 0) [fd] k1 e1 (guest :: live) (q ++ [dst]) Hok1)
    as (report' & k2 & e2 & live' & Hreg2 & Hl & Hok2 & Hep & Ho2 & Hs2); [rewrite length_app; simpl; lia.. | |].
  { intros fd' Hfd'. apply Hwatch, elem_of_app. by left. }
  rewrite Hlen, take_app_length in Hl, Ho2. rewrite Hlen, drop_app_length in Hok2.
  pose proof (register_watched end_point_e.TO_CLIENT fd k2 e2 live' [dst] Hok2 ltac:(simpl; lia)
    (Hwatch _ _ ltac:(apply elem_of_app; right; left))) as Hreg.
  destruct (NetworkEngine.register_connection _ _ _) as [[r|h] [k3 e3]] eqn:Er; [|by destruct Hreg].
  destruct Hreg as (slot & k0 & -> & (Hslot & Hni & Hok3 & _ & (c & Hc & Htype & Hfd & _) & Ho3) & Hp & ->).
  cbn in Hslot, Hok3. subst slot. set (k3 := after _ k0) in Er.
  destruct (hand_over_run k3 (set_network_engine e3 a1) code guest dst cs c (q ++ live) []
    (context_message (request (join_request code) guest))) as (k4 & e4 & Hrun4 & Hok4 & Ho4 & Hsent & Hgone); try done.
  { eapply engine_ok_perm; [|exact Hok3]. rewrite Hl. solve_Permutation. }
  { simpl. lia. }
  { cbn. by rewrite Ho3, Ho2, Ho1. }
  { intros k5. unfold sending. rewrite Hfd. apply Ht. }
  exists k4, (set_network_engine e4 (set_network_engine e3 a1)). split_and!.
  - unfold stale_join, process_connection, process_connection_impl. cbn [get_slot].
    rewrite (bind_run _ _ _ _ _ Hrun).
    assert (exists report, NetworkEngine.register_connections (fds ++ [fd]) (mkRegistration 0 0) (k1, e1)
              = (Ret report, (k3, e3))) as [report Hall].
    { rewrite Hreg2. cbn [NetworkEngine.register_connections]. rewrite (bind_run _ _ _ _ _ Er). by eexists. }
    rewrite (bind_run _ _ _ _ _ (on_engine_run _ _ a1 _ _ _ Hall)).
    exact (eq_trans (handle_join _ (set_network_engine e3 a1) _ _ _ _ _ Hcode Hf) Hrun4).
  - rewrite <- Hfd, Hsent, Hfd. f_equal. unfold k3. rewrite sent_on_after, (pushed_sent _ _ _ _ Hp), Hs2 by done.
    unfold k1, released. by rewrite sent_on_closed, sent_on_after.
  - exists c. cbn. by rewrite Ho4.
  - exists (reset_entry cs). done.
  - done.
Qed.

(** *** Witness: the lobby 12345 of [demo_server] has closed its socket, and the
    slot of the client that had made it, 2, was released before *)
#[local] Instance quiet_script : Platform Script := scripted quiet_calls.

Definition demo_pool_3 := demo_push (entry_of end_point_e.TO_CLIENT 9) demo_pool_2.
Definition demo_pool_released := (ObjectPool.release (W := Script) 2 demo_pool_3).2.
Definition demo_server_later : Server.t :=
  mkApp (NetworkEngine.mk demo_pool_released.2 3 AtomicQueue.empty AtomicQueue.empty)
    Scheduler.Scheduler.initial (LobbyManager.LobbyManager.mk {[ 12345 := mkLobbyEntry 77 (mkView 0) ]}).

Lemma demo_later_ok : engine_ok (network_engine_ demo_server_later) [1; 0] [2].
Proof.
  apply (@run_ok Script ConnectionEntry _ (@ConnectionEntry_pool_object Script _) 100 200 demo_pool_released.1).
  apply (run_release 100 200 demo_pool_3.1 demo_pool_3.2 [] [1; 0] []);
    [|apply Nat.ltb_lt; reflexivity | vm_compute; reflexivity].
  apply (run_push 100 200 demo_pool_2.1 demo_pool_2.2 [1; 0] [] (entry_of end_point_e.TO_CLIENT 9));
    [exact demo_pool_runs | vm_compute; reflexivity].
Qed.

Lemma demo_later_entries :
  entry (network_engine_ demo_server_later) 1 = Some (entry_of end_point_e.TO_CLIENT 8) /\
  entry (network_engine_ demo_server_later) 0 = Some (entry_of end_point_e.TO_LOBBY 7).
Proof. split; vm_compute; reflexivity. Qed.

Lemma ended_lobby_leads_to_stranger_witness :
  exists k' a',
    stale_join 1 2 0 ([11] ++ [12]) 12345 1 (script_of [Received [] None], demo_server_later) = (Ret keep, (k', a')) /\
    sent_on 12 k' = [wire (socket_message 8)] /\
    (exists c, entry (network_engine_ a') 0 = Some c /\ connection_type_ c = end_point_e.TO_CLIENT /\ fd_of c = 12) /\
    (exists c, entry (network_engine_ a') 1 = Some c /\ fd_of c = -1) /\
    LobbyManager.LobbyManager.find 12345 (members a') = inl (mkLobbyView 12345 (mkView 0)).
Proof.
  apply (ended_lobby_leads_to_stranger 0 0 (script_of [Received [] None]) demo_server_later 1 0
    (entry_of end_point_e.TO_CLIENT 8) (entry_of end_point_e.TO_LOBBY 7) [] [2] [] None (world (script_of [])) 12345 [11] 12).
  - unfold int64_min, int64_max. lia.
  - reflexivity.
  - apply (engine_ok_perm _ [1; 0]); [apply perm_swap | exact demo_later_ok].
  - reflexivity.
  - simpl. lia.
  - exact (proj1 demo_later_entries).
  - exact (proj2 demo_later_entries).
  - reflexivity.
  - apply new_coroutine_waits.
  - apply HEADER_SIZE_pos.
  - reflexivity.
  - intros epfd fd' _ k slot. vm_compute. discriminate.
  - intros data rights k. vm_compute. discriminate.
Defined.
