(* ===== verification/Chat.v ===== *)
(** * Chat: from what one member types to what every member reads

    Three processes again: the client of the member who types, the lobby, and
    the client of a member who reads.  The first sends each line to its
    connection, the lobby takes the text out of it and sends it to every client
    it has, and the third prints it. *)
From S2P Require Import Prelude.
From S2P Require Import CString.
From S2P Require Import Platform.
From S2P Require Import AtomicQueue.
From S2P Require Import ObjectPool.
From S2P Require Import Utility.
From S2P Require Import Protocol.
From S2P Require Import Dispatcher.
From S2P Require Import Socket.
From S2P Require Import Framing.
From S2P Require Import Network.
From S2P Require Import Engine.
From S2P Require Import Wire.
From S2P Require Import Scheduler.
From S2P Require Import Application.
From S2P Require Import Lobby.
From S2P Require Import Client.
From S2P Require Import Session.

#[local] Open Scope Z_scope.
#[local] Open Scope bsm_scope.

(** What is typed, what the typing client sends, and what the lobby sends. *)
Definition chat_line (text : string) : string := "\msg" +:+ " " +:+ text.
Definition chat_message (text : string) : OutgoingMessage := plain_message (chat_line text).
Definition relayed (text : string) : OutgoingMessage := typed_message text message_type_e.PRINTABLE.

Lemma parse_chat_line text : parse (chat_line text) = inl text.
Proof. by apply (chat_parse_roundtrip "\msg" text ""). Qed.

(** ** The typing client *)
Section Typing.
Context {W : Type} `{Platform W}.
Implicit Types (k : Machine W) (a : Client.t).

(** The console tasks of these lines, run by a worker one after the other. *)
Fixpoint run_lines (lines : list string) : SM W Client.t unit :=
  match lines with
  | [] => ret tt
  | line :: rest => execute Client.handle_action 0 0 ConsoleExecutor (TextContext line) ;;; run_lines rest
  end.

Lemma typed_sends slot c texts a :
  server_view_ (members a) = mkView slot -> entry (network_engine_ a) slot = Some c -> takes (fd_of c) ->
  forall k, exists k', run_lines (chat_line <$> texts) (k, a) = (Ret tt, (k', a)) /\
    said k' = said k ++ ((fun text => Sent (fd_of c) (wire (chat_message text))) <$> texts).
Proof.
  intros Hv Hc Ht. induction texts as [|text texts IH]; intros k; [exists k; by rewrite app_nil_r|].
  set (m := mkReceived message_status_e.EMPTY message_type_e.DEFAULT (chat_line text) None).
  assert (answer (sending c (plain_message (payload m))) k <> -1) as Ha by apply Ht.
  destruct (send_input_run k a m slot c Hv Hc) as (r & Hr & Hiff). rewrite (proj2 Hiff Ha) in Hr.
  destruct (IH (after (sending c (plain_message (payload m))) k)) as (k' & Hrun & Hsaid).
  exists k'. split.
  - rewrite fmap_cons. cbn [run_lines execute]. fold m. rewrite bind_bind. erewrite bind_run.
    2: { rewrite handle_broadcast by done. unfold Client.handle_broadcast_action. by rewrite (bind_run _ _ _ _ _ Hr). }
    exact Hrun.
  - rewrite Hsaid, (said_sending c _ k Ha), fmap_cons, <- app_assoc. done.
Qed.
End Typing.

(** ** The lobby *)
Section Relaying.
Context {W : Type} `{Platform W}.
Implicit Types (k : Machine W) (e : NetworkEngine.t) (a : Lobby.t).

(** A broadcast when every send succeeds. *)
Lemma send_from_taken message filter e slots : forall k d f,
  (forall s, s ∈ slots -> is_Some (entry e s)) ->
  (forall fd, fd ∈ fds_of e (targets filter e slots) -> takes fd) ->
  exists k' report, NetworkEngine.send_from slots message filter (mkDelivery d f) (k, e) = (Ret report, (k', e)) /\
    said k' = said k ++ ((fun fd => Sent fd (wire message)) <$> fds_of e (targets filter e slots)) /\
    forall fd n co l rest, steady fd -> expects fd n co (world k) l rest -> expects fd n co (world k') l rest.
Proof.
  induction slots as [|slot slots IH]; intros k d f Hex Ht.
  { exists k, (mkDelivery d f). by rewrite app_nil_r. }
  destruct (Hex slot) as [c Hc]; [left|]. rewrite targets_cons in *. destruct (wants filter e slot) eqn:Hw.
  - rewrite (fds_of_cons _ _ _ _ Hc) in *. destruct (wants_entry _ _ _ Hw) as (c' & Hc' & Htype & Hf).
    rewrite Hc in Hc'. injection Hc' as <-.
    assert (answer (sending c message) k <> -1) as Ha by (apply Ht; left).
    destruct (send_on_run slot message k e c Hc) as (r & Hs & Hiff). rewrite (proj2 Hiff Ha) in Hs.
    destruct (IH (after (sending c message) k) (d + 1) f) as (k' & report & Hrun & Hsaid & Hkeep);
      [intros; apply Hex; by right | intros; apply Ht; by right|].
    exists k', report. split_and!.
    + cbn [NetworkEngine.send_from]. rewrite (bind_run _ _ _ _ _ (connection_run slot k e c Hc)), Htype, Hf.
      by rewrite (bind_run _ _ _ _ _ Hs).
    + by rewrite Hsaid, (said_sending _ _ _ Ha), <- app_assoc.
    + intros fd n co l rest Hsteady He. apply Hkeep; [done|]. by apply expects_after.
  - rewrite (send_from_skip _ _ _ _ _ _ _ _ Hc Hw). apply IH; [intros; apply Hex; by right | done].
Qed.

(** The descriptors of the clients of a lobby, in the order of their slots. *)
Definition member_fd e (slot : Z) : option Z :=
  c ← entry e slot; if decide (connection_type_ c = end_point_e.TO_CLIENT) then Some (fd_of c) else None.
Definition members_of e : list Z :=
  omap (member_fd e) (seqZ 0 (ObjectPool.counter (NetworkEngine.connection_pool_ e))).

Lemma members_targets e slots : fds_of e (targets Lobby.is_client e slots) = omap (member_fd e) slots.
Proof.
  induction slots as [|slot slots IH]; [done|]. rewrite targets_cons.
  change (omap (member_fd e) (slot :: slots)) with
    (match member_fd e slot with Some fd => fd :: omap (member_fd e) slots | None => omap (member_fd e) slots end).
  unfold wants, Lobby.is_client, member_fd at 1.
  destruct (entry e slot) as [c|] eqn:Hc; [|exact IH]. cbn [meta_type mbind option_bind].
  destruct (decide (connection_type_ c = end_point_e.TO_CLIENT)) as [Ht|Ht].
  - rewrite Ht, !bool_decide_true by done. cbn [andb]. rewrite (fds_of_cons _ _ _ _ Hc). by f_equal.
  - rewrite (bool_decide_false (connection_type_ c = end_point_e.TO_CLIENT)), andb_false_r by done. exact IH.
Qed.

Lemma members_of_served e slot x c :
  entry e slot = Some c -> members_of (set_entry slot (set_socket_handler (set_handle x (socket_handler_ c)) c) e) = members_of e.
Proof.
  intros Hc. set (c' := set_socket_handler _ c). unfold members_of. apply list_omap_ext, Forall2_same_length_lookup.
  split; [done|]. intros i s s' Hs Hs'. change (ObjectPool.counter _) with (ObjectPool.counter (NetworkEngine.connection_pool_ e)) in Hs.
  rewrite Hs in Hs'. injection Hs' as <-. unfold member_fd.
  destruct (decide (s = slot)) as [->|Hne]; [by rewrite entry_set_eq, Hc | by rewrite entry_set_ne].
Qed.

(** A lobby with these members. *)
Definition lobby_of live q fds a : Prop :=
  engine_ok (network_engine_ a) live q /\ members_of (network_engine_ a) = fds.

(** What a lobby says when it is told a line of chat. *)
Definition relays (fds : list Z) (m : ReceivedMessage) : list output :=
  match parse (payload m) with
  | inl text => (fun fd => Sent fd (wire (relayed text))) <$> fds
  | inr _ => []
  end.

Lemma chat_relayed slot live q fds text sock fd :
  (forall fd, fd ∈ fds -> takes fd) -> steady fd ->
  speaks Lobby.handle_action slot (lobby_of live q fds) (relays fds) fd
    (mkReceived message_status_e.DATA message_type_e.DEFAULT (chat_line text) sock).
Proof.
  intros Ht Hsteady k a [Hok Hm].
  destruct (send_from_taken (relayed text) Lobby.is_client (network_engine_ a)
    (seqZ 0 (ObjectPool.counter (NetworkEngine.connection_pool_ (network_engine_ a)))) k 0 0) as (k' & report & Hrun & Hsaid & Hkeep).
  { intros s Hs%elem_of_seqZ. destruct Hok as (_ & _ & _ & _ & _ & Ho). apply Ho. lia. }
  { intros fd' Hin. apply Ht. rewrite <- Hm. unfold members_of. by rewrite <- members_targets. }
  rewrite members_targets in Hsaid. fold (members_of (network_engine_ a)) in Hsaid. rewrite Hm in Hsaid.
  exists k'. split_and!.
  - change (Lobby.handle_action _) with (Lobby.execute_chat_message (mkContext (mkView slot)
      (mkReceived message_status_e.DATA message_type_e.DEFAULT (chat_line text) sock))).
    unfold Lobby.execute_chat_message. cbn [context_message payload]. rewrite parse_chat_line.
    erewrite bind_run; [reflexivity|]. apply on_engine_read. unfold NetworkEngine.send_message.
    erewrite bind_run by reflexivity. exact Hrun.
  - rewrite Hsaid. unfold relays. cbn [payload]. by rewrite parse_chat_line.
  - intros n co l rest He. by apply Hkeep.
Qed.

(** The lobby serves the typing client's connection. *)
Definition relay_result slot a c rest k texts (r : outcome (option Error) * (Machine W * Lobby.t)) : Prop :=
  exists k' c' result, r = (Ret None, (k', set_network_engine (set_entry slot c' (network_engine_ a)) a)) /\
    same_socket c c' /\ waits (receiver c') rest /\
    said k' = said k ++ (texts ≫= fun text => (fun fd => Sent fd (wire (relayed text))) <$> members_of (network_engine_ a)) /\
    head (trace k') =
      Some (Called (c_epoll_ctl_mod (NetworkEngine.epollfd_ (network_engine_ a)) (fd_of c) slot) result).

Lemma lobby_relays slot n rest texts ms k a c live q fuel :
  engine_ok (network_engine_ a) live q -> slot ∈ live -> entry (network_engine_ a) slot = Some c ->
  is_socket_alive (socket_handler_ c) = true -> steady (fd_of c) ->
  (forall fd, fd ∈ members_of (network_engine_ a) -> takes fd) ->
  Forall2 (fun m r => exists sock, r = mkReceived message_status_e.DATA (out_type m) (out_payload m) sock)
    (chat_message <$> texts) ms ->
  expects (fd_of c) n (receiver c) (world k) ms rest ->
  (forall k, answer (c_epoll_ctl_mod (NetworkEngine.epollfd_ (network_engine_ a)) (fd_of c) slot) k <> -1) ->
  (length texts + 2 <= fuel)%nat ->
  relay_result slot a c rest k texts (process_connection Lobby.handle_action (S n) fuel (mkView slot) (k, a)).
Proof.
  intros Hok Hlive Hc Ha Hsteady Ht Hms He Hx Hfuel.
  assert (length ms = length texts) as Hlen by (by rewrite <- (Forall2_length _ _ _ Hms), length_fmap).
  destruct (loop_speaks Lobby.handle_action slot (lobby_of live q (members_of (network_engine_ a)))
    (relays (members_of (network_engine_ a)))) with (fd := fd_of c) (n := n) (rest := rest) (ms := ms) (k := k) (a := a)
    (c := c) (fuel := fuel) as (k' & c' & r & Hrun & Hsame & Hw & Hsaid & Hhead); try done; [| |by rewrite Hlen|].
  - intros x c0 b [Hokb Hmb] Hc0. split; [by apply engine_ok_set|]. cbn. by rewrite members_of_served.
  - clear -Hms Ht Hsteady. apply Forall2_fmap_l in Hms. induction Hms as [|text m texts ms [sock ->] _ IH]; constructor; [|done].
    by apply chat_relayed.
  - exists k', c', r. split_and!; try done. rewrite Hsaid. f_equal. clear -Hms. apply Forall2_fmap_l in Hms.
    induction Hms as [|text m texts ms [sock ->] _ IH]; [done|]. rewrite !bind_cons, IH. f_equal.
    unfold relays. change (payload _) with (chat_line text). by rewrite parse_chat_line.
Qed.
End Relaying.

(** ** The reading client *)
Section Reading.
Context {W : Type} `{Platform W}.
Implicit Types (k : Machine W) (a : Client.t).

(** A text a client prints when it is relayed: it is no command. *)
Definition plain_text (text : string) : Prop := command text = None.

Definition prints (m : ReceivedMessage) : list output := [Shown (payload m)].

Lemma relayed_printed slot fd text sock :
  plain_text text ->
  speaks Client.handle_action slot (fun _ => True) prints fd
    (mkReceived message_status_e.DATA message_type_e.PRINTABLE text sock).
Proof.
  unfold plain_text. intros Hp k a _. exists (record_event (Printed text) k). split_and!; [|by apply reverse_cons | done].
  unfold Client.handle_action. cbn [context_message].
  rewrite printable_text_is_command by done. cbn [payload]. by rewrite Hp.
Qed.

Lemma client_prints slot n rest texts ms k a c fuel :
  entry (network_engine_ a) slot = Some c -> is_socket_alive (socket_handler_ c) = true -> Forall plain_text texts ->
  Forall2 (fun m r => exists sock, r = mkReceived message_status_e.DATA (out_type m) (out_payload m) sock)
    (relayed <$> texts) ms ->
  expects (fd_of c) n (receiver c) (world k) ms rest ->
  (forall k, answer (c_epoll_ctl_mod (NetworkEngine.epollfd_ (network_engine_ a)) (fd_of c) slot) k <> -1) ->
  (length texts + 2 <= fuel)%nat ->
  exists k' c', process_connection Client.handle_action (S n) fuel (mkView slot) (k, a)
      = (Ret None, (k', set_network_engine (set_entry slot c' (network_engine_ a)) a)) /\
    same_socket c c' /\ waits (receiver c') rest /\ said k' = said k ++ (Shown <$> texts).
Proof.
  intros Hc Ha Hplain Hms He Hx Hfuel. apply Forall2_fmap_l in Hms.
  assert (length ms = length texts) as Hlen by (by rewrite <- (Forall2_length _ _ _ Hms)).
  destruct (loop_speaks Client.handle_action slot (fun _ => True) prints) with (fd := fd_of c) (n := n) (rest := rest)
    (ms := ms) (k := k) (a := a) (c := c) (fuel := fuel) as (k' & c' & r & Hrun & Hsame & Hw & Hsaid & _);
    try done; [|by rewrite Hlen|].
  - clear -Hms Hplain. induction Hms as [|text m texts ms [sock ->] _ IH]; [constructor|].
    apply Forall_cons in Hplain as [Ht Hplain]. constructor; [|by apply IH]. by apply relayed_printed.
  - exists k', c'. split_and!; try done. rewrite Hsaid. f_equal. clear -Hms.
    induction Hms as [|text m texts ms [sock ->] _ IH]; [done|]. by rewrite bind_cons, IH.
Qed.
End Reading.

(** ** Properties *)

Lemma sent_to_stranger {X} fd (f : X -> list Byte.byte * option Z) x fds :
  fd ∉ fds -> omap (sent_to fd) ((fun fd' => Sent fd' (f x)) <$> fds) = [].
Proof.
  induction fds as [|fd1 fds IH]; [done|]. intros [Hne Hni]%not_elem_of_cons. cbn.
  rewrite (proj2 (Z.eqb_neq _ _)) by congruence. by apply IH.
Qed.

Lemma sent_to_member {X} fd (f : X -> list Byte.byte * option Z) xs fds :
  NoDup fds -> fd ∈ fds ->
  omap (sent_to fd) (xs ≫= fun x => (fun fd' => Sent fd' (f x)) <$> fds) = f <$> xs.
Proof.
  intros Hnd Hin. induction xs as [|x xs IH]; [done|]. rewrite bind_cons, omap_app, IH, fmap_cons.
  change (f x :: (f <$> xs)) with ([f x] ++ (f <$> xs)). f_equal. clear IH. induction fds as [|fd1 fds IH]; [by apply elem_of_nil in Hin|].
  apply NoDup_cons in Hnd as [Hni Hnd]. cbn. destruct (Z.eqb_spec fd1 fd) as [->|Hne].
  - by rewrite sent_to_stranger.
  - apply IH; [done|]. apply elem_of_cons in Hin as [Hin|Hin]; [congruence | done].
Qed.

(** The messages of another process, as they come in. *)
Lemma carried_expected {W W'} `{Platform W} `{Platform W'} rename ms pieces fd n c pre w :
  valid_messages ms -> carried (W := W') rename (wire (W := W) <$> ms) pieces ->
  waits c pre -> (length pre < HEADER_SIZE)%nat -> arrives fd pre w pieces -> (length pieces <= n)%nat ->
  exists rs, Forall2 (fun m r => exists sock, r = mkReceived message_status_e.DATA (out_type m) (out_payload m) sock) ms rs /\
    expects (W := W') fd n c w rs (leftover pre pieces).
Proof.
  intros Hv Hc Hw Hpre Ha Hn. exists (delivery pieces). split.
  - apply (Forall2_impl _ _ _ _ (carried_delivery (W := W) (W' := W') rename ms pieces Hv Hc)). intros m r [-> _]. by eexists.
  - apply pieces_expected; try done. apply Hc.
Qed.

(** C4: what a member types every member reads.  A client hands the lines
    [\msg <text>] typed at its console to its connection, one message each and
    nothing else.  The lobby at its other end, delivered these in any pieces
    whose ends are not inside a text, sends each text to every client it has,
    once, in the order of their slots, before it goes on with the next; so what
    goes out to a member is the texts in the order they were typed, nothing goes
    out to anyone else, and no connection is lost.  A client that is delivered
    this prints the texts, in this order; all three then wait for more.  The
    texts must be no commands (see [broadcast_is_forwarded] for one that is), no
    piece may end inside a text (see [cut_message_lost]) and no send may fail. *)
Theorem chat_reaches_everyone texts
    {Wt} `{Platform Wt} kt (at_ : Client.t) slot_t ct
    {Wl} `{Platform Wl} kl (al : Lobby.t) live q slot_l cl pre_l rename_l pieces_l n_l fuel_l
    {Wr} `{Platform Wr} kr (ar : Client.t) slot_r cr pre_r rename_r pieces_r n_r fuel_r :
  Forall plain_text texts ->
  (* the client that types *)
  server_view_ (members at_) = mkView slot_t -> entry (network_engine_ at_) slot_t = Some ct ->
  takes (W := Wt) (fd_of ct) ->
  (* the lobby *)
  let fds := members_of (network_engine_ al) in
  engine_ok (network_engine_ al) live q -> slot_l ∈ live -> entry (network_engine_ al) slot_l = Some cl ->
  is_socket_alive (socket_handler_ cl) = true -> steady (W := Wl) (fd_of cl) ->
  NoDup fds -> (forall fd, fd ∈ fds -> takes (W := Wl) fd) ->
  (forall k, answer (W := Wl) (c_epoll_ctl_mod (NetworkEngine.epollfd_ (network_engine_ al)) (fd_of cl) slot_l) k <> -1) ->
  carried (W := Wl) rename_l (wire (W := Wt) <$> (chat_message <$> texts)) pieces_l ->
  waits (receiver cl) pre_l -> (length pre_l < HEADER_SIZE)%nat -> arrives (fd_of cl) pre_l (world kl) pieces_l ->
  (length pieces_l <= n_l)%nat -> (length texts + 2 <= fuel_l)%nat ->
  (* a client that reads *)
  entry (network_engine_ ar) slot_r = Some cr -> is_socket_alive (socket_handler_ cr) = true ->
  (forall k, answer (W := Wr) (c_epoll_ctl_mod (NetworkEngine.epollfd_ (network_engine_ ar)) (fd_of cr) slot_r) k <> -1) ->
  carried (W := Wr) rename_r (wire (W := Wl) <$> (relayed <$> texts)) pieces_r ->
  waits (receiver cr) pre_r -> (length pre_r < HEADER_SIZE)%nat -> arrives (fd_of cr) pre_r (world kr) pieces_r ->
  (length pieces_r <= n_r)%nat -> (length texts + 2 <= fuel_r)%nat ->
  (exists k', run_lines (chat_line <$> texts) (kt, at_) = (Ret tt, (k', at_)) /\
     said k' = said kt ++ ((fun text => Sent (fd_of ct) (wire (W := Wt) (chat_message text))) <$> texts)) /\
  (exists k' c', process_connection Lobby.handle_action (S n_l) fuel_l (mkView slot_l) (kl, al)
       = (Ret None, (k', set_network_engine (set_entry slot_l c' (network_engine_ al)) al)) /\
     same_socket cl c' /\ waits (receiver c') (leftover pre_l pieces_l) /\
     said k' = said kl ++ (texts ≫= fun text => (fun fd => Sent fd (wire (W := Wl) (relayed text))) <$> fds) /\
     forall fd, sent_on fd k' = sent_on fd kl ++
       (if decide (fd ∈ fds) then wire (W := Wl) <$> (relayed <$> texts) else [])) /\
  (exists k' c', process_connection Client.handle_action (S n_r) fuel_r (mkView slot_r) (kr, ar)
       = (Ret None, (k', set_network_engine (set_entry slot_r c' (network_engine_ ar)) ar)) /\
     same_socket cr c' /\ waits (receiver c') (leftover pre_r pieces_r) /\ said k' = said kr ++ (Shown <$> texts)).
Proof.
  intros Hplain Hvt Hct Htt fds Hok Hlive Hcl Hal Hsteady Hnd Htl Hxl Hcarl Hwl Hprel Harrl Hnl Hfl
    Hcr Har Hxr Hcarr Hwr Hprer Harrr Hnr Hfr.
  split; [by apply (typed_sends slot_t)|]. split.
  - destruct (carried_expected (W := Wt) rename_l (chat_message <$> texts) pieces_l (fd_of cl) n_l (receiver cl) pre_l (world kl))
      as (rs & Hrs & He); try done; [by apply Forall_fmap, Forall_true|].
    destruct (lobby_relays slot_l n_l _ texts rs kl al cl live q fuel_l Hok Hlive Hcl Hal Hsteady Htl Hrs He Hxl Hfl)
      as (k' & c' & r & Hrun & Hsame & Hw & Hsaid & _).
    exists k', c'. split_and!; try done. intros fd. rewrite (sent_on_said fd _ _ _ Hsaid). f_equal.
    rewrite <- list_fmap_compose. case_decide; [by apply (sent_to_member fd (fun x => wire (relayed x)))|].
    clear -H2. induction texts as [|t texts IH]; [done|]. rewrite bind_cons, omap_app, IH, app_nil_r.
    by apply (sent_to_stranger fd (fun x => wire (relayed x))).
  - destruct (carried_expected (W := Wl) rename_r (relayed <$> texts) pieces_r (fd_of cr) n_r (receiver cr) pre_r (world kr))
      as (rs & Hrs & He); try done; [by apply Forall_fmap, Forall_true|].
    by apply (client_prints slot_r n_r _ texts rs kr ar cr fuel_r).
Qed.

(** *** Witness: two lines typed by the member on descriptor 8 of a lobby whose
    other member is on descriptor 9 *)
#[local] Instance quiet_script : Platform Script := scripted quiet_calls.

Definition chatting_lobby : Lobby.t := mkApp two_clients Scheduler.Scheduler.initial (mkLobbyState 12345 default_view).
Definition chat_pieces : list piece := [mkPiece None [chat_message "hello"; chat_message "you all"] []].
Definition relayed_pieces : list piece := [mkPiece None [relayed "hello"] []; mkPiece None [relayed "you all"] []].
Definition chat_script (pieces : list piece) : Machine Script :=
  script_of ((fun p => Received (stream (piece_messages p) []) (piece_control p)) <$> pieces).

Lemma chat_reaches_everyone_witness :
  (exists k' c', process_connection Lobby.handle_action 2 4 (mkView 0) (chat_script chat_pieces, chatting_lobby)
     = (Ret None, (k', set_network_engine (set_entry 0 c' two_clients) chatting_lobby)) /\
     forall fd, sent_on fd k' = if decide (fd ∈ [8; 9]) then [wire (relayed "hello"); wire (relayed "you all")] else []) /\
  exists k' c', process_connection Client.handle_action 3 4 (mkView 0) (chat_script relayed_pieces, demo_client_app)
     = (Ret None, (k', set_network_engine (set_entry 0 c' demo_engine) demo_client_app)) /\
     said k' = [Shown "hello"; Shown "you all"].
Proof.
  destruct (chat_reaches_everyone ["hello"; "you all"] (script_of []) demo_client_app 0 (entry_of end_point_e.TO_LOBBY 7)
    (chat_script chat_pieces) chatting_lobby [1; 0] [] 0 (entry_of end_point_e.TO_CLIENT 8) [] (fun fd => fd) chat_pieces 1 4
    (chat_script relayed_pieces) demo_client_app 0 (entry_of end_point_e.TO_LOBBY 7) [] (fun fd => fd) relayed_pieces 2 4)
    as (_ & (k1 & c1 & Hrun & _ & _ & _ & Hsent) & (k2 & c2 & Hrun2 & _ & _ & Hsaid)).
  - by repeat constructor.
  - done.
  - exact demo_lobby.
  - intros data rights k. vm_compute. discriminate.
  - exact two_clients_ok.
  - right. left.
  - vm_compute. reflexivity.
  - done.
  - by intros x pre w pieces _ Ha.
  - apply (bool_decide_eq_true_1 (NoDup [8; 9])). by vm_compute.
  - intros fd _ data rights k. vm_compute. discriminate.
  - intros k. vm_compute. discriminate.
  - split; [repeat constructor|]. split; [reflexivity|]. repeat constructor.
  - apply new_coroutine_waits.
  - apply HEADER_SIZE_pos.
  - script_arrives.
  - simpl. lia.
  - simpl. lia.
  - exact demo_lobby.
  - done.
  - intros k. vm_compute. discriminate.
  - split; [repeat constructor|]. split; [reflexivity|]. repeat constructor.
  - apply new_coroutine_waits.
  - apply HEADER_SIZE_pos.
  - script_arrives.
  - simpl. lia.
  - simpl. lia.
  - split; [exists k1, c1 | exists k2, c2]; (split; [assumption|]); assumption.
Defined.
